(* ===== verification/_CoqProject ===== *)
-Q . S2P
Prelude.v
Common.v
NetAddr.v
Ipam.v
PolicyIr.v
IdentityRegistry.v
CanonicalKey.v
PolicyCompile.v
NetworkPolicy.v
PolicyLower.v
PolicyLowerSpec.v
PolicyLowerFacts.v
LowerAddresses.v
LowerIngress.v
LowerIpv6.v
LowerEgress.v
Bytes.v
PolicyAbi.v
TcPolicy.v
TcFlow.v
PolicyInstalled.v
PolicyBanks.v
PolicyBanksFacts.v
PolicySync.v
PolicyUpdates.v
PolicyProgress.v
EndToEnd.v
Enforcement.v
NodeBlocks.v
Controller.v
ControllerSnapshot.v
ControllerFacts.v
ControllerInvariant.v
ControllerProperties.v
ControllerEnforcement.v
CniAttachment.v
CniJournal.v
CniJournalFacts.v
CniJournalCrash.v
CniJournalSafety.v
CniJournalList.v
CniJournalDemo.v
Runs.v
Netlink.v
VethPlan.v
VethFacts.v
NativeRoutes.v
RouteFacts.v
CniAgent.v
CniLifecycle.v
CniPluginSafety.v
CniCollect.v
CniNode.v
NetlinkDemo.v
CniNodeDemo.v
DeferredQueue.v
DeferredFacts.v
CniPlugin.v
CniPluginFacts.v
CniPluginDemo.v
LoadBalancer.v
LoadBalancerFacts.v
LoadBalancerDemo.v
