(* ===== verification/Prelude.v ===== *)
(** * Verification of the UNF network fabric: policies to packets, attachments to interfaces

    UNF is a Kubernetes network fabric.  A controller watches the cluster and publishes
    snapshots; an agent on every node installs them in eBPF maps; classifiers attached to
    the interfaces of the node read the maps for each packet; a CNI plugin gives each Pod
    its interface, addresses and routes, which the agent journals.  This library models two
    paths through these programs and proves what each guarantees as a whole: the path of a
    network policy from the watched objects to the packets, and the life of an attachment
    from the runtime's ADD to its DEL or collection; and the controller's allocator of
    load-balancer addresses.  All source paths below are relative to the repository.

    ** The parts and the files that model them

    Shared:
    - [Prelude] (this file): Rust's [Result], ordered maps and sets, stable sorting,
      machine integers, and the shared lemmas, hints and tactics.
    - [Common]: identifiers, revisions, protocols, verdicts (crates/unf-common).
    - [NetAddr]: the standard library's address and number parsers.
    - [Runs]: routines that keep the history of their states, with a weakest precondition
      that speaks of every state a killed process may leave.

    Policies:
    - [PolicyIr]: selectors, rules, policies and their evaluation
      (crates/unf-policy/src/lib.rs); [PolicyCompile] and [NetworkPolicy]: the compilers of
      the native SecurityPolicy and of Kubernetes NetworkPolicy objects to it
      (crates/unf-policy/src/lib.rs and network_policy.rs).
    - [IdentityRegistry]: identity admission and the published identity snapshot
      (crates/unf-state); [CanonicalKey]: the key an identity number is a hash of
      (bins/unf-controller).
    - [PolicyLower]: the compilers from policies and endpoints to the entries of the five
      policy maps (crates/unf-policy/src/lib.rs).  [PolicyLowerSpec], [PolicyLowerFacts],
      [LowerAddresses], [LowerIngress], [LowerIpv6], [LowerEgress] hold their proofs.
    - [Bytes], [PolicyAbi]: the byte layout of keys and values (ebpf/unf-ebpf-common) and
      the agent's validation and encoding of a snapshot (bins/unf-agent).
    - [TcPolicy], [TcFlow]: policy lookup, and packet decision with connection tracking,
      in the classifier (ebpf/unf-ebpf-tc).
    - [PolicyInstalled]: what it means that a bank of the maps holds a snapshot.
    - [PolicyBanks]: staging, read-back, activation, rollback, collection and recovery of
      policy banks in the agent (bins/unf-agent); [PolicyBanksFacts], [PolicySync],
      [PolicyUpdates], [PolicyProgress] hold its proofs.
    - [EndToEnd], [Enforcement]: the composition of lowering, encoding, lookup and
      connection tracking.
    - [NodeBlocks], [Controller], [ControllerSnapshot]: the controller's watched state, the
      handlers of Pod, Namespace, policy and Node events, the assignment of Pod blocks, and
      the snapshot it publishes (bins/unf-controller); [ControllerFacts],
      [ControllerInvariant], [ControllerProperties] hold its proofs.
    - [ControllerEnforcement]: from the watched objects to the packets.

    Attachments:
    - [Ipam]: node blocks, the set of used addresses, the allocator (crates/unf-ipam).
    - [CniAttachment], [CniJournal]: the records, the transaction protocol and the durable
      journal of the agent, with its file and every call into the system
      (crates/unf-cni-state).  [CniJournalFacts] holds its invariant, [CniJournalCrash] what
      a crash at any call leaves, [CniJournalList] the listing by pages, [CniJournalSafety]
      the machine of transactions, crashes and reopenings.
    - [Netlink]: the interface of the kernel's links, addresses, routes and neighbours and
      its laws; [VethPlan] with [VethFacts]: the veth pair of an attachment
      (crates/unf-link); [NativeRoutes] with [RouteFacts]: its routes (crates/unf-route).
    - [CniLifecycle]: ADD, CHECK, DEL, STATUS and GC (bins/unf-cni/src/lifecycle.rs) and the
      agent's side of the socket (bins/unf-agent/src/cni_server.rs).
    - [CniAgent]: what the journal promises to the plugin, over whatever the agent does on
      its own; [CniPluginSafety], [CniCollect]: the invocations, proved against that
      promise and against [NetlinkLaws]; [CniNode]: a node under any sequence of them.
    - [DeferredQueue] with [DeferredFacts]: the directory of deletions that could not be
      completed (bins/unf-cni/src/deferred.rs); [CniPlugin] with [CniPluginFacts]: the entry
      point that validates an invocation, drains the queue and adds to it
      (bins/unf-cni/src/lib.rs).
    - [CniJournalDemo], [NetlinkDemo], [CniNodeDemo], [CniPluginDemo]: a codec, a simulated
      kernel and runs on them, of which the hypotheses of the theorems hold.

    Load balancers:
    - [LoadBalancer]: pools, leases and checkpoints of load-balancer addresses, and what is
      written to a Service (crates/unf-loadbalancer); [LoadBalancerFacts] holds its proofs,
      [LoadBalancerDemo] a run of it.

    A definition has the name of the function it models where the name is free; a method
    [T::f] is [T_f].  A struct is a record whose fields carry a short prefix.  A loop whose
    body is long is a definition of its own, applied by [fold_left] or [try_fold].

    ** How the model is built

    Pure code is a function.  Code that returns [Result] returns [result], with the fields
    of the error but not its text.  An address is its integer value, a string a byte
    string, a [BTreeMap] a finite map read in the order of its keys ([btree_iter]), and
    integers are [Z] with their width written out where it matters.  Code with effects is a
    [Routine], a state and error monad, over the world it changes: the kernel maps of the
    agent, the disk of the journal, the node of the plugin (agent and kernel), the host of
    an invocation (node and queue).  A world has the pattern of failing calls and the
    history of its states, so that a theorem can speak of a packet, a crash or a kill
    between any two calls.  Updates and kills are the steps of [agent_step] in
    [PolicyUpdates]; transactions, crashes and restarts those of the machine in
    [CniJournalSafety] and [CniAgent]; invocations those of [node_step].  The controller's
    handlers are functions on [ControllerState]; events and requests are the steps of
    [controller_step], one each, since handlers hold the write side and requests the read
    side of one lock.

    Code outside the repository is an argument: the order in which the kernel iterates a
    map and the success of each system call ([Environment]), the byte order of the machine
    ([Endian]), of the Kubernetes client library the name of an object and the JSON form of
    one annotation ([KubeLibrary]), [serde_json] on the journal, on CNI results and on the
    configuration ([JournalJson], [ResultJson], [ConfigJson]), SHA-256 ([Digest]), and
    rtnetlink with the kernel behind it ([Netlink], [NetView]).

    ** What is proved

    - The whole path of a policy: after any watch events, with the published snapshot
      installed, packets between Pods are dropped exactly as the NetworkPolicy objects the
      controller holds say; a change of the cluster reaches packets atomically.
    - Objects to packets: with the snapshot of a set of NetworkPolicy objects installed, an
      enforcing hook drops a packet exactly when the objects forbid it and it is no reply of
      a live connection; the same for any policy set and for IPv6 sources.  Compilation
      agrees with the Kubernetes semantics, decoding with encoding.
    - Updates: with any failing system calls packets meet the old policies and then the new
      ones; after any sequence of faulty updates and kills the agent finds what is in force;
      without faults an update succeeds after at most two attempts.
    - Connections: over every execution a denied packet passes only as a reply.
    - Controller: a request is served the snapshot of the current objects; identities and
      Pods agree; nodes never hold overlapping blocks.
    - Evaluation: refinement to a declarative specification, agreement of the preselected
      evaluation.
    - Addresses and identities: the allocator is safe, complete and makes progress;
      admission is exact; canonical keys are injective.
    - Journal: transactions are atomic and durable over crashes at any call; leases,
      interface names and incarnations stay exclusive; a published incarnation is revoked
      before it leaves the ready state; what is persisted is read back.
    - Attachments: whatever is lost, killed or restarted, a host interface of the plugin is
      always that of one journaled attachment; a successful ADD leaves the pair and the
      routes it reports, a successful DEL neither interface, route nor record; GC ends and
      removes exactly what the runtime forgot; a deletion that was accepted stays queued
      until the agent confirmed it, and later commands wait for it.
    - Load balancers: an address is leased to one Service, from one pool; a checkpoint
      restores the allocator exactly; an allocation grants what was requested and gives up
      only when every address it may scan is leased.
    - Five properties show behaviour that contradicts the documentation or the intent:
      exceptions of IPv6 egress blocks are allowed, an incomplete rollback or a packet in
      flight during a switch fails open, an empty namespace selector admits external
      sources, and one unusable file in the queue of deletions stops a network.

    ** Bounds and assumptions

    Fuel is used three times.  The scan of a pool is bounded by the limit of the code, 65536
    candidates.  The search for an IPv6 address outside a set of prefixes is bounded
    by the 128 bits of an address.  GC takes the number of pages it may ask for, and
    [garbage_collection_terminates] shows that any number above an eighth of the keys of the
    journal is enough.

    The LPM tries are maps with canonical keys; the trie returns the longest matching
    prefix.  The per-CPU scratch buffers of the classifier are available.  Insertion in the
    connection table succeeds, and evictions happen at any time as events of their own.
    Kernel maps have room for what passes the agent's capacity check, and reading a map
    during recovery does not fail.  Hypotheses on revisions ([< u_max 64]) exclude the
    saturated counter.

    The agent alone writes the directory of its journal, the plugin that of its queue.  A
    file system keeps the synced bytes of a file and, of a directory that was not synced,
    one of its recent entries.  A document that [serde_json] wrote is read back.  Where a
    theorem needs that [Path::exists] does not mistake a failing call for a missing file, it
    says so.  A netlink request changes what its documentation says or fails without a
    change, and the sandbox of a Pod is not the namespace of the host ([NetlinkLaws]).
    Processes other than the plugin do not create interfaces with its names.  Invocations of
    the plugin on a node follow one another; the lock of the queue and concurrent
    invocations for different containers are not interleaved.

    ** What is not modelled

    Packet parsing, Service translation, the reachability and dataplane of load balancers
    and the loop that publishes their addresses, egress gateways, encryption, locality and the
    routes between nodes, in the classifier and the agent; gateway addresses and the
    observation of installed links and routes; Service, egress and encryption reconciliation
    in the controller; HTTP, watch streams, the framing of the agent's
    socket, metrics, logging and serialization.  The first groups are state machines of
    their own and would be modelled next, the last group is I/O or library code. *)

From stdpp Require Export base gmap strings list sorting fin_maps.

(** Conjuncts under the assumption of the first one. *)
Lemma and_iff_compat_l_dep (P Q R : Prop) : (P → (Q ↔ R)) → (P ∧ Q ↔ P ∧ R).
Proof. tauto. Qed.

(** ** Fallible code: Rust's [Result] *)

Inductive result (E A : Type) : Type :=
| Ok (value : A)
| Err (error : E).
Arguments Ok {E A} value.
Arguments Err {E A} error.

#[export] Instance result_eq_dec {E A} `{EqDecision E, EqDecision A} : EqDecision (result E A).
Proof. solve_decision. Defined.

Declare Scope unf_scope.
Delimit Scope unf_scope with unf.
Open Scope unf_scope.

(** Rust's [?] operator: bind the value or return the error. *)
Notation "'let?' x ':=' c 'in' k" :=
  (match c with Ok x => k | Err e => Err e end)
  (at level 10, x pattern, c at level 100, k at level 200,
   format "'[v' 'let?'  x  ':='  c  'in'  '/' k ']'") : unf_scope.

Definition is_ok {E A} (r : result E A) : bool :=
  match r with Ok _ => true | Err _ => false end.

(** [Option::ok_or]. *)
Definition ok_or {E A} (o : option A) (e : E) : result E A :=
  match o with Some a => Ok a | None => Err e end.

(** A [for] loop whose body uses [?] and updates one accumulator. *)
Fixpoint try_fold {E A B} (f : B → A → result E B) (acc : B) (l : list A) : result E B :=
  match l with
  | [] => Ok acc
  | x :: l => let? acc := f acc x in try_fold f acc l
  end.

(** [iter.map(f).collect::<Result<Vec<_>, _>>()]. *)
Fixpoint try_map {E A B} (f : A → result E B) (l : list A) : result E (list B) :=
  match l with
  | [] => Ok []
  | x :: l =>
      let? y := f x in
      let? ys := try_map f l in
      Ok (y :: ys)
  end.

(** An invariant of a fallible loop. *)
Lemma try_fold_inv {E A B} (P : B → Prop) (f : B → A → result E B) l acc acc' :
  P acc → (∀ b x b', x ∈ l → P b → f b x = Ok b' → P b') →
  try_fold f acc l = Ok acc' → P acc'.
Proof.
  revert acc. induction l as [|x l IH]; intros acc Hacc Hstep; simpl; [by intros [= <-]|].
  destruct (f acc x) as [b|] eqn:Ef; [|done]. apply IH.
  - eapply Hstep; [by left|done..].
  - intros b1 y b2 Hy. apply Hstep. by right.
Qed.

Lemma try_fold_map {E A B C} (f : B → A → result E B) (g : C → A) acc l :
  try_fold f acc (map g l) = try_fold (λ acc c, f acc (g c)) acc l.
Proof. revert acc. induction l; intros; simpl; [done|]. by destruct (f _ _). Qed.

(** What a fallible loop accumulates, when each iteration adds its own part. *)
Lemma try_fold_collect {E A B} (P : B → Prop) (Q : A → Prop) (f : B → A → result E B) l acc acc' :
  (∀ b x b', x ∈ l → f b x = Ok b' → P b' ↔ P b ∨ Q x) →
  try_fold f acc l = Ok acc' → P acc' ↔ P acc ∨ ∃ x, x ∈ l ∧ Q x.
Proof.
  revert acc. induction l as [|x l IH]; intros acc Hstep; simpl.
  { intros [= <-]. split; [by left|]. intros [?|(x & ?%not_elem_of_nil & _)]; done. }
  destruct (f acc x) as [b|] eqn:Ef; [|done]. intros Hl.
  rewrite (IH b); [|intros b1 y b2 Hy; apply Hstep; by right|done].
  rewrite (Hstep acc x b) by (by left || done). setoid_rewrite elem_of_cons. naive_solver.
Qed.

(** A fallible loop whose every iteration extends a function of the elements seen. *)
Lemma try_fold_prefixes {E A B} (f : B → A → result E B) (g : list A → B) l :
  (∀ pre x post, l = pre ++ x :: post → f (g pre) x = Ok (g (pre ++ [x]))) →
  try_fold f (g []) l = Ok (g l).
Proof.
  intros Hstep. cut (∀ rest pre, l = pre ++ rest → try_fold f (g pre) rest = Ok (g l)).
  { intros Hgen. by apply Hgen. }
  induction rest as [|x rest IH]; intros pre ->; simpl; [by rewrite app_nil_r|].
  rewrite (Hstep pre x rest) by done. apply IH. by rewrite <-(assoc_L (++)).
Qed.

Lemma try_map_Forall2 {E A B} (f : A → result E B) l l' :
  try_map f l = Ok l' ↔ Forall2 (λ x y, f x = Ok y) l l'.
Proof.
  revert l'. induction l as [|x l IH]; intros l'; simpl.
  - split; [intros [= <-]; constructor|by inversion 1].
  - split.
    + destruct (f x) as [y|] eqn:Ef; [|done]. destruct (try_map f l) as [ys|]; [|done].
      intros [= <-]. constructor; [done|]. by apply IH.
    + inversion 1 as [|? y ? ys Hy Hys]; subst. rewrite Hy. apply IH in Hys. by rewrite Hys.
Qed.

(** [Option::is_none_or] and [Option::is_some_and]. *)
Definition is_none_or {A} (o : option A) (p : A → bool) : bool :=
  match o with None => true | Some a => p a end.
Definition is_some_and {A} (o : option A) (p : A → bool) : bool :=
  match o with None => false | Some a => p a end.

(** ** Lists: the iterator adaptors *)

Definition is_nil {A} (l : list A) : bool :=
  match l with [] => true | _ => false end.

Lemma elem_of_list_filter {A} (P : A → bool) l x : x ∈ List.filter P l ↔ x ∈ l ∧ P x = true.
Proof. rewrite !list_elem_of_In. apply filter_In. Qed.

Lemma elem_of_list_flat_map {A B} (f : A → list B) l y :
  y ∈ List.flat_map f l ↔ ∃ x, x ∈ l ∧ y ∈ f x.
Proof. rewrite list_elem_of_In, in_flat_map. by setoid_rewrite list_elem_of_In. Qed.

Lemma elem_of_list_map {A B} (f : A → B) l y : y ∈ map f l ↔ ∃ x, x ∈ l ∧ y = f x.
Proof. rewrite list_elem_of_fmap. naive_solver. Qed.

Lemma is_nil_true {A} (l : list A) : is_nil l = true ↔ ∀ x, x ∈ l → False.
Proof.
  destruct l as [|x l]; simpl; split; try done.
  - intros _ y ?%not_elem_of_nil. done.
  - intros H. destruct (H x). by left.
Qed.

Lemma fold_left_map {A B C} (f : A → B → A) (g : C → B) l a :
  fold_left (λ a c, f a (g c)) l a = fold_left f (map g l) a.
Proof. revert a. by induction l; simpl. Qed.

Lemma fold_left_flat_map {A B C} (f : A → B → A) (g : C → list B) l a :
  fold_left (λ a c, fold_left f (g c) a) l a = fold_left f (List.flat_map g l) a.
Proof. revert a. induction l; simpl; intros; [done|]. by rewrite fold_left_app. Qed.

(** [iter().enumerate()]. *)
Definition enumerate {A} (l : list A) : list (Z * A) :=
  imap (λ i x, (Z.of_nat i, x)) l.

(** ** Orders: Rust's [Ord] *)

(** The comparison a type derives, and its laws.  Rust's [derive(Ord)] is the
    lexicographic comparison of the fields in declaration order. *)
Class Ord (A : Type) := cmp : A → A → comparison.

Class OrdLaws (A : Type) `{Ord A} : Prop := {
  cmp_eq_iff (x y : A) : cmp x y = Eq ↔ x = y;
  cmp_antisym (x y : A) : cmp y x = CompOpp (cmp x y);
  cmp_lt_trans (x y z : A) : cmp x y = Lt → cmp y z = Lt → cmp x z = Lt;
}.

Definition ltb {A} `{Ord A} (x y : A) : bool :=
  match cmp x y with Lt => true | _ => false end.
Definition leb {A} `{Ord A} (x y : A) : bool :=
  match cmp x y with Gt => false | _ => true end.

(** [Ordering::then]. *)
Definition then_cmp (a b : comparison) : comparison :=
  match a with Eq => b | _ => a end.

#[export] Instance Z_ord : Ord Z := Z.compare.
#[export] Instance Z_ord_laws : OrdLaws Z.
Proof.
  split; unfold cmp, Z_ord.
  - apply Z.compare_eq_iff.
  - intros. apply Z.compare_antisym.
  - intros x y z. rewrite !Z.compare_lt_iff. lia.
Qed.

#[export] Instance string_ord : Ord string := String.compare.
#[export] Instance string_ord_laws : OrdLaws string.
Proof.
  assert (Hrefl : ∀ s, String.compare s s = Eq).
  { induction s as [|a s IH]; simpl; [done|].
    unfold Ascii.compare. by rewrite N.compare_refl. }
  assert (Hlt : ∀ s1 s2, String.compare s1 s2 = Lt ↔ String.le s1 s2 ∧ s1 ≠ s2).
  { intros s1 s2. unfold String.le, String.leb. split.
    - intros E. rewrite E. split; [done|]. intros ->.
      by rewrite Hrefl in E.
    - intros [Hle Hne]. destruct (String.compare s1 s2) eqn:E; [|done|done].
      apply String.compare_eq_iff in E. done. }
  split; unfold cmp, string_ord.
  - intros x y. split; [apply String.compare_eq_iff|]. by intros ->.
  - intros x y. apply String.compare_antisym.
  - intros x y z. rewrite !Hlt. intros [H1 Hn1] [H2 Hn2]. split.
    + by etrans.
    + intros ->. apply Hn1. by apply (anti_symm String.le).
Qed.

Section OrdFacts.
Context {A : Type} `{OrdLaws A}.
Implicit Types x y z : A.

Lemma cmp_refl x : cmp x x = Eq.
Proof. by apply cmp_eq_iff. Qed.

Lemma ltb_lt x y : ltb x y = true ↔ cmp x y = Lt.
Proof. unfold ltb. by destruct (cmp x y). Qed.

Lemma leb_ltb x y : leb x y = negb (ltb y x).
Proof. unfold leb, ltb. rewrite (cmp_antisym x y). by destruct (cmp x y). Qed.

Lemma leb_refl x : leb x x = true.
Proof. unfold leb. by rewrite cmp_refl. Qed.

Lemma leb_total x y : leb x y = true ∨ leb y x = true.
Proof. unfold leb. rewrite (cmp_antisym x y). destruct (cmp x y); auto. Qed.

Lemma leb_antisym x y : leb x y = true → leb y x = true → x = y.
Proof.
  unfold leb. rewrite (cmp_antisym x y). destruct (cmp x y) eqn:E; try done.
  intros. by apply cmp_eq_iff.
Qed.

Lemma leb_trans x y z : leb x y = true → leb y z = true → leb x z = true.
Proof.
  unfold leb. intros H1 H2.
  destruct (cmp x y) eqn:E1; [|clear H1|done].
  - apply cmp_eq_iff in E1 as ->. done.
  - destruct (cmp y z) eqn:E2; [|by rewrite (cmp_lt_trans x y z)|done].
    apply cmp_eq_iff in E2 as ->. by rewrite E1.
Qed.

Lemma ltb_irrefl x : ltb x x = false.
Proof. unfold ltb. by rewrite cmp_refl. Qed.

Lemma ltb_trans x y z : ltb x y = true → ltb y z = true → ltb x z = true.
Proof. rewrite !ltb_lt. apply cmp_lt_trans. Qed.

Lemma ltb_leb x y : ltb x y = true → leb x y = true.
Proof. unfold leb, ltb. by destruct (cmp x y). Qed.

Lemma leb_neq_ltb x y : leb x y = true → x ≠ y → ltb x y = true.
Proof.
  unfold leb, ltb. destruct (cmp x y) eqn:E; try done.
  apply cmp_eq_iff in E. done.
Qed.
End OrdFacts.

(** Lexicographic products, and orders transported along an injection (the
    tuple of a struct's fields). *)
#[export] Instance prod_ord {A B} `{Ord A, Ord B} : Ord (A * B) := λ x y,
  then_cmp (cmp x.1 y.1) (cmp x.2 y.2).

#[export] Instance prod_ord_laws {A B} `{OrdLaws A, OrdLaws B} : OrdLaws (A * B).
Proof.
  split; unfold cmp, prod_ord.
  - intros [a b] [a' b']; simpl. destruct (cmp a a') eqn:E; simpl.
    + apply cmp_eq_iff in E as ->. rewrite cmp_eq_iff. naive_solver.
    + split; [done|]. intros [= -> _]. by rewrite cmp_refl in E.
    + split; [done|]. intros [= -> _]. by rewrite cmp_refl in E.
  - intros [a b] [a' b']; simpl. rewrite (cmp_antisym a a'), (cmp_antisym b b').
    by destruct (cmp a a').
  - intros [a b] [a' b'] [a'' b'']; simpl.
    destruct (cmp a a') eqn:E1; simpl; [|intros _|done].
    + apply cmp_eq_iff in E1 as ->.
      destruct (cmp a' a'') eqn:E2; simpl; [|done|done]. apply cmp_lt_trans.
    + destruct (cmp a' a'') eqn:E2; simpl; [|intros _|done].
      * apply cmp_eq_iff in E2 as ->. by rewrite E1.
      * by rewrite (cmp_lt_trans a a' a'').
Qed.

Definition cmp_via {A B} `{Ord B} (f : A → B) : Ord A := λ x y, cmp (f x) (f y).

Lemma cmp_via_laws {A B} `{OrdLaws B} (f : A → B) :
  Inj (=) (=) f → @OrdLaws A (cmp_via f).
Proof.
  intros Hinj. split; unfold cmp, cmp_via.
  - intros x y. rewrite cmp_eq_iff. split; [apply Hinj|by intros ->].
  - intros x y. apply cmp_antisym.
  - intros x y z. apply cmp_lt_trans.
Qed.

(** [None] sorts before every [Some]. *)
#[export] Instance option_ord {A} `{Ord A} : Ord (option A) := λ x y,
  match x, y with
  | None, None => Eq
  | None, Some _ => Lt
  | Some _, None => Gt
  | Some a, Some b => cmp a b
  end.

#[export] Instance option_ord_laws {A} `{OrdLaws A} : OrdLaws (option A).
Proof.
  split; unfold cmp, option_ord.
  - intros [x|] [y|]; rewrite ?cmp_eq_iff; naive_solver.
  - intros [x|] [y|]; try done. apply cmp_antisym.
  - intros [x|] [y|] [z|]; try done. apply cmp_lt_trans.
Qed.

(** Sequences compare lexicographically. *)
Fixpoint list_cmp {A} `{Ord A} (l k : list A) : comparison :=
  match l, k with
  | [], [] => Eq
  | [], _ :: _ => Lt
  | _ :: _, [] => Gt
  | x :: l, y :: k => then_cmp (cmp x y) (list_cmp l k)
  end.
#[export] Instance list_ord {A} `{Ord A} : Ord (list A) := list_cmp.

#[export] Instance list_ord_laws {A} `{OrdLaws A} : OrdLaws (list A).
Proof.
  split; unfold cmp, list_ord.
  - induction x as [|x l IH]; intros [|y k]; simpl; try done.
    destruct (cmp x y) eqn:E; simpl.
    + apply cmp_eq_iff in E as ->. rewrite IH. naive_solver.
    + split; [done|]. intros [= -> _]. by rewrite cmp_refl in E.
    + split; [done|]. intros [= -> _]. by rewrite cmp_refl in E.
  - induction x as [|x l IH]; intros [|y k]; simpl; try done.
    rewrite (cmp_antisym x y), IH. by destruct (cmp x y).
  - induction x as [|x l IH]; intros [|y k] [|z j]; simpl; try done.
    destruct (cmp x y) eqn:E1; simpl; [|intros _|done].
    + apply cmp_eq_iff in E1 as ->.
      destruct (cmp y z) eqn:E2; simpl; [|done|done]. apply IH.
    + destruct (cmp y z) eqn:E2; simpl; [|intros _|done].
      * apply cmp_eq_iff in E2 as ->. by rewrite E1.
      * by rewrite (cmp_lt_trans x y z).
Qed.

(** ** Stable sorting: [slice::sort_by] and [slice::sort_by_key] *)

Fixpoint insert_by {A} (le : A → A → bool) (x : A) (l : list A) : list A :=
  match l with
  | [] => [x]
  | y :: l' => if le x y then x :: l else y :: insert_by le x l'
  end.

Fixpoint sort_by {A} (le : A → A → bool) (l : list A) : list A :=
  match l with
  | [] => []
  | x :: l => insert_by le x (sort_by le l)
  end.

Definition sort_by_key {A K} `{Ord K} (key : A → K) (l : list A) : list A :=
  sort_by (λ a b, leb (key a) (key b)) l.

Section Sorting.
Context {A : Type} (le : A → A → bool).

Lemma insert_by_perm x l : insert_by le x l ≡ₚ x :: l.
Proof.
  induction l as [|y l IH]; simpl; [done|].
  destruct (le x y); [done|]. by rewrite IH, Permutation_swap.
Qed.

Lemma sort_by_perm l : sort_by le l ≡ₚ l.
Proof. induction l as [|x l IH]; simpl; [done|]. by rewrite insert_by_perm, IH. Qed.

Lemma sort_by_elem l x : x ∈ sort_by le l ↔ x ∈ l.
Proof. by rewrite sort_by_perm. Qed.

Context (le_total : ∀ x y, le x y = true ∨ le y x = true).
Context (le_trans : ∀ x y z, le x y = true → le y z = true → le x z = true).

Lemma insert_by_sorted x l :
  StronglySorted (λ a b, le a b = true) l →
  StronglySorted (λ a b, le a b = true) (insert_by le x l).
Proof.
  induction 1 as [|y l Hs IH Hy]; simpl; [repeat constructor|].
  destruct (le x y) eqn:E.
  - constructor; [by constructor|]. constructor; [done|].
    eapply Forall_impl; [exact Hy|]. intros z. by apply le_trans.
  - constructor; [done|]. apply Forall_forall. intros z.
    rewrite insert_by_perm, elem_of_cons. intros [->|Hz].
    + destruct (le_total x y); congruence.
    + rewrite Forall_forall in Hy. auto.
Qed.

Lemma sort_by_sorted l : StronglySorted (λ a b, le a b = true) (sort_by le l).
Proof. induction l; simpl; [constructor|]. by apply insert_by_sorted. Qed.

(** Sorting is a function of the multiset when the order is antisymmetric on it. *)
Lemma sort_by_unique l1 l2 :
  (∀ x y, x ∈ l1 → y ∈ l1 → le x y = true → le y x = true → x = y) →
  l1 ≡ₚ l2 → sort_by le l1 = sort_by le l2.
Proof.
  intros Hanti Hp. eapply StronglySorted_unique_strong; [|apply sort_by_sorted..|].
  - intros x1 x2. rewrite !sort_by_elem, <-Hp. auto.
  - by rewrite !sort_by_perm.
Qed.
End Sorting.

(** A stable sort is determined by the elements of each key, in their order. *)
Section Stable.
Context {A K : Type} `{OrdLaws K} `{EqDecision K} (key : A → K).

Definition at_key (k : K) (l : list A) : list A := List.filter (λ x, bool_decide (key x = k)) l.

Lemma at_key_insert_by k x l :
  at_key k (insert_by (λ a b, leb (key a) (key b)) x l) = at_key k (x :: l).
Proof.
  induction l as [|y l IH]; [done|]. simpl. destruct (leb (key x) (key y)) eqn:E; [done|].
  simpl. rewrite IH. simpl. case_bool_decide as Hx; case_bool_decide as Hy; try done.
  subst k. rewrite Hy, leb_refl in E. done.
Qed.

Lemma at_key_sort k l : at_key k (sort_by_key key l) = at_key k l.
Proof.
  unfold sort_by_key. induction l as [|x l IH]; [done|]. simpl sort_by.
  rewrite at_key_insert_by. simpl. by rewrite IH.
Qed.

Lemma sorted_unique_at_key l1 l2 :
  StronglySorted (λ a b, leb (key a) (key b) = true) l1 →
  StronglySorted (λ a b, leb (key a) (key b) = true) l2 →
  (∀ k, at_key k l1 = at_key k l2) → l1 = l2.
Proof.
  assert (Hhead : ∀ x l y l', Forall (λ b, leb (key x) (key b) = true) l →
    at_key (key y) (x :: l) = at_key (key y) (y :: l') → leb (key x) (key y) = true).
  { intros x l y l' Hx Hk. assert (Hin : y ∈ at_key (key y) (x :: l)).
    { rewrite Hk. simpl. rewrite bool_decide_true by done. left. }
    apply list_elem_of_In, filter_In in Hin as [[->|Hin%list_elem_of_In] _]; [apply leb_refl|].
    rewrite Forall_forall in Hx. auto. }
  intros H1. revert l2. induction H1 as [|x l1 Hs1 IH Hx]; intros l2 H2 Hk.
  { destruct H2 as [|y l2 _ _]; [done|]. specialize (Hk (key y)). simpl in Hk.
    by rewrite bool_decide_true in Hk. }
  destruct H2 as [|y l2 Hs2 Hy].
  { specialize (Hk (key x)). simpl in Hk. by rewrite bool_decide_true in Hk. }
  assert (Hxy : key x = key y).
  { apply leb_antisym; [by eapply Hhead, Hk|]. by eapply Hhead, symmetry, Hk. }
  pose proof (Hk (key x)) as Hh. simpl in Hh. rewrite !bool_decide_true in Hh by done.
  injection Hh as <- _. f_equal. apply IH; [done|]. intros k. specialize (Hk k). simpl in Hk.
  case_bool_decide; [by injection Hk|done].
Qed.

Lemma sort_by_key_ext l1 l2 :
  (∀ k, at_key k l1 = at_key k l2) → sort_by_key key l1 = sort_by_key key l2.
Proof.
  intros Hk. apply sorted_unique_at_key.
  1-2: apply sort_by_sorted; [intros ? ?; apply leb_total|intros ? ? ?; apply leb_trans].
  intros k. by rewrite !at_key_sort.
Qed.
End Stable.

(** [Vec::dedup]: drop an element equal to the one before it. *)
Fixpoint dedup {A} `{EqDecision A} (l : list A) : list A :=
  match l with
  | x :: (y :: _) as l' => if decide (x = y) then dedup l' else x :: dedup l'
  | _ => l
  end.

Lemma elem_of_dedup {A} `{EqDecision A} (l : list A) x : x ∈ dedup l ↔ x ∈ l.
Proof.
  induction l as [|y [|z l] IH]; [done..|].
  change (dedup (y :: z :: l)) with (if decide (y = z) then dedup (z :: l) else y :: dedup (z :: l)).
  destruct (decide (y = z)) as [->|].
  - rewrite IH, !elem_of_cons. naive_solver.
  - by rewrite !(elem_of_cons _ _ y), IH.
Qed.

(** The elements of a sequence in ascending order, each once: what collecting into
    a [BTreeSet] and iterating gives, and [sort] followed by [dedup]. *)
Definition sort_dedup {A} `{Ord A, EqDecision A} (l : list A) : list A :=
  dedup (sort_by leb l).

Lemma elem_of_sort_dedup {A} `{Ord A, EqDecision A} (l : list A) x :
  x ∈ sort_dedup l ↔ x ∈ l.
Proof. unfold sort_dedup. by rewrite elem_of_dedup, sort_by_elem. Qed.

(** ** Ordered iteration over [BTreeMap] and [BTreeSet]

    A [BTreeMap] is modelled by stdpp's [gmap], a [BTreeSet] by [gset]; what a
    program observes of the tree order is the order of iteration, which is the
    ascending order of the keys. *)

Definition btree_iter {K V} `{Ord K} `{Countable K} (m : gmap K V) : list (K * V) :=
  sort_by_key fst (map_to_list m).
Definition btree_values {K V} `{Ord K} `{Countable K} (m : gmap K V) : list V :=
  (btree_iter m).*2.
Definition bset_iter {K} `{Ord K} `{Countable K} (s : gset K) : list K :=
  sort_by leb (elements s).

Section BTree.
Context {K V : Type} `{Ord K} `{Countable K}.

Lemma btree_iter_perm (m : gmap K V) : btree_iter m ≡ₚ map_to_list m.
Proof. apply sort_by_perm. Qed.

Lemma elem_of_btree_iter (m : gmap K V) k v : (k, v) ∈ btree_iter m ↔ m !! k = Some v.
Proof. by rewrite btree_iter_perm, elem_of_map_to_list. Qed.

Lemma elem_of_btree_values (m : gmap K V) v :
  v ∈ btree_values m ↔ ∃ k, m !! k = Some v.
Proof.
  unfold btree_values. rewrite list_elem_of_fmap. split.
  - intros ([k v'] & -> & Hin). apply elem_of_btree_iter in Hin. eauto.
  - intros [k Hk]. exists (k, v). by rewrite elem_of_btree_iter.
Qed.

Lemma btree_iter_NoDup_keys (m : gmap K V) : NoDup (btree_iter m).*1.
Proof. rewrite btree_iter_perm. apply NoDup_fst_map_to_list. Qed.

Lemma elem_of_btree_keys (m : gmap K V) k : k ∈ map fst (btree_iter m) ↔ is_Some (m !! k).
Proof.
  rewrite elem_of_list_map. split.
  - intros ([k' v] & Hin & ->). apply elem_of_btree_iter in Hin. eauto.
  - intros [v Hv]. exists (k, v). by rewrite elem_of_btree_iter.
Qed.

Lemma btree_iter_to_map (m : gmap K V) : list_to_map (btree_iter m) = m.
Proof.
  rewrite (list_to_map_proper _ (map_to_list m)), list_to_map_to_list; [done|..].
  - apply btree_iter_NoDup_keys.
  - apply btree_iter_perm.
Qed.

Lemma elem_of_bset_iter (s : gset K) k : k ∈ bset_iter s ↔ k ∈ s.
Proof. unfold bset_iter. by rewrite sort_by_elem, elem_of_elements. Qed.

Lemma bset_iter_NoDup (s : gset K) : NoDup (bset_iter s).
Proof. unfold bset_iter. rewrite sort_by_perm. apply NoDup_elements. Qed.
End BTree.

Lemma btree_iter_sorted {K V} `{OrdLaws K} `{Countable K} (m : gmap K V) :
  StronglySorted (λ a b : K * V, ltb a.1 b.1 = true) (btree_iter m).
Proof.
  pose proof (btree_iter_NoDup_keys m) as Hnd. revert Hnd.
  assert (Hs : StronglySorted (λ a b : K * V, leb a.1 b.1 = true) (btree_iter m)).
  { apply sort_by_sorted; [intros ? ?; apply leb_total|intros ? ? ?; apply leb_trans]. }
  induction Hs as [|[k v] l Hs IH Hk]; simpl; intros Hnd; [constructor|].
  apply NoDup_cons in Hnd as [Hnin Hnd]. constructor; [auto|].
  rewrite Forall_forall in Hk |- *. intros [k' v'] Hin. apply leb_neq_ltb; [by apply Hk|].
  simpl. intros ->. apply Hnin. apply list_elem_of_fmap. by exists (k', v').
Qed.

(** The iteration of a map is the only sorted list of its entries. *)
Section BTreeUnique.
Context {K : Type} `{OrdLaws K} `{Countable K}.

Lemma btree_iter_unique {V} (m : gmap K V) l :
  StronglySorted (λ a b : K * V, ltb a.1 b.1 = true) l → l ≡ₚ map_to_list m → btree_iter m = l.
Proof.
  intros Hs Hp. eapply StronglySorted_unique_strong; [|apply btree_iter_sorted|exact Hs|].
  - intros x y _ _ Hxy Hyx. pose proof (ltb_trans _ _ _ Hxy Hyx) as Hl. by rewrite ltb_irrefl in Hl.
  - by rewrite btree_iter_perm, Hp.
Qed.

Lemma btree_iter_imap {V W} (f : K → V → W) (m : gmap K V) :
  btree_iter (map_imap (λ k v, Some (f k v)) m) = map (λ x, (x.1, f x.1 x.2)) (btree_iter m).
Proof.
  apply btree_iter_unique.
  - pose proof (btree_iter_sorted m) as Hs. induction Hs as [|x l Hs IH Hx]; simpl; constructor; [done|].
    apply Forall_map. eapply Forall_impl; [exact Hx|]. done.
  - apply NoDup_Permutation.
    + eapply (NoDup_fmap_1 fst). change (map ?g ?l) with (g <$> l). rewrite <-list_fmap_compose.
      apply btree_iter_NoDup_keys.
    + apply NoDup_map_to_list.
    + intros [k w]. rewrite elem_of_map_to_list, map_lookup_imap, elem_of_list_map. split.
      * intros ([k' v] & Hin & [= -> ->]). apply elem_of_btree_iter in Hin. simpl. by rewrite Hin.
      * intros (v & Hv & [= <-])%bind_Some. exists (k, v). by rewrite elem_of_btree_iter.
Qed.

Lemma btree_iter_fmap {V W} (f : V → W) (m : gmap K V) :
  btree_iter (f <$> m) = map (λ x, (x.1, f x.2)) (btree_iter m).
Proof.
  rewrite <-(btree_iter_imap (λ _, f)). f_equal. apply map_eq. intros k.
  rewrite lookup_fmap, map_lookup_imap. by destruct (m !! k).
Qed.

Lemma btree_values_fmap {V W} (f : V → W) (m : gmap K V) :
  btree_values (f <$> m) = map f (btree_values m).
Proof.
  unfold btree_values. rewrite btree_iter_fmap. change (map ?g ?l) with (g <$> l).
  rewrite <-!list_fmap_compose. by apply list_fmap_ext.
Qed.

Lemma btree_iter_delete {V} (m : gmap K V) k v :
  m !! k = Some v → ∃ l1 l2,
    btree_iter m = l1 ++ (k, v) :: l2 ∧ btree_iter (delete k m) = l1 ++ l2.
Proof.
  intros Hk. apply elem_of_btree_iter in Hk as Hin.
  apply list_elem_of_split in Hin as (l1 & l2 & Hl). exists l1, l2. split; [done|].
  apply btree_iter_unique.
  - pose proof (btree_iter_sorted m) as Hs. rewrite Hl in Hs.
    apply StronglySorted_app in Hs as (Hl12 & Hl1 & Hl2). apply StronglySorted_app. split_and!; [|done|].
    + intros x y Hx Hy. apply Hl12; [done|by right].
    + by inversion Hl2.
  - apply (Permutation_cons_inv (a := (k, v))).
    by rewrite Permutation_middle, <-Hl, btree_iter_perm, map_to_list_delete.
Qed.
End BTreeUnique.

(** ** Machine integers

    A [w]-bit unsigned integer is a [Z] in [0, 2^w).  Identifiers that wrap an
    integer ([IdentityId(u32)], [Revision(u64)], [Ipv4Addr]) are that integer. *)

Open Scope Z_scope.

Definition u_max (w : Z) : Z := Z.ones w.
Definition in_width (w z : Z) : Prop := 0 ≤ z < 2 ^ w.

(** [T::try_from(z)] for an unsigned [w]-bit [T]. *)
Definition try_width (w z : Z) : option Z :=
  if (0 <=? z) && (z <? 2 ^ w) then Some z else None.

Definition saturating_sub (a b : Z) : Z := Z.max 0 (a - b).
Definition wrapping (w z : Z) : Z := z mod 2 ^ w.
Definition checked_add (w a b : Z) : option Z := try_width w (a + b).

(** [if p == 0 { 0 } else { MAX << (w - p) }]. *)
Definition prefix_mask (w p : Z) : Z :=
  if p =? 0 then 0 else wrapping w (Z.shiftl (u_max w) (w - p)).

(** The range [0..n] of a loop. *)
Definition range (n : Z) : list Z := seqZ 0 n.

Lemma prefix_mask_bits w p i :
  0 ≤ p ≤ w → 0 ≤ i → Z.testbit (prefix_mask w p) i = (w - p <=? i) && (i <? w).
Proof.
  intros Hp Hi. unfold prefix_mask, wrapping, u_max. destruct (Z.eqb_spec p 0) as [->|Hne].
  - rewrite Z.testbit_0_l. lia.
  - rewrite <-Z.land_ones, Z.land_spec, Z.shiftl_spec by lia.
    rewrite !Z.testbit_ones by lia. lia.
Qed.

Lemma in_width_bits_high w a i : in_width w a → 0 ≤ w ≤ i → Z.testbit a i = false.
Proof.
  intros [Ha1 Ha2] Hi. destruct (Z.eq_dec a 0) as [->|Hne]; [apply Z.testbit_0_l|].
  apply Z.bits_above_log2; [done|]. assert (Z.log2 a < w); [|lia].
  apply Z.log2_lt_pow2; lia.
Qed.

(** Masking with a prefix clears the host bits. *)
Lemma land_prefix_mask w p a :
  0 ≤ p ≤ w → in_width w a →
  Z.land a (prefix_mask w p) = a / 2 ^ (w - p) * 2 ^ (w - p).
Proof.
  intros Hp Ha. rewrite <-Z.shiftr_div_pow2, <-Z.shiftl_mul_pow2 by lia.
  rewrite <-Z.ldiff_ones_r by lia. apply Z.bits_inj'. intros i Hi.
  rewrite Z.land_spec, Z.ldiff_spec, prefix_mask_bits, Z.testbit_ones by lia.
  destruct (Z.lt_ge_cases i w) as [Hlt|Hge].
  - f_equal. lia.
  - by rewrite (in_width_bits_high w) by (done || lia).
Qed.

(** An address lies in the prefix of [n] exactly when it lies in the interval
    of [2^(w-p)] addresses that starts at [n]. *)
Lemma land_prefix_eq_iff w p a n :
  0 ≤ p ≤ w → in_width w a →
  Z.land a (prefix_mask w p) = n ↔
  n mod 2 ^ (w - p) = 0 ∧ n ≤ a < n + 2 ^ (w - p).
Proof.
  intros Hp Ha. rewrite land_prefix_mask by done.
  assert (0 < 2 ^ (w - p)) by (apply Z.pow_pos_nonneg; lia).
  pose proof (Z.div_mod a (2 ^ (w - p)) ltac:(lia)).
  pose proof (Z.mod_pos_bound a (2 ^ (w - p)) ltac:(lia)). split.
  - intros <-. rewrite Z.mod_mul by lia. lia.
  - intros [Hn Hr]. rewrite Z.mod_divide in Hn by lia. destruct Hn as [q ->].
    rewrite <-(Z.div_unique a (2 ^ (w - p)) q (a - q * 2 ^ (w - p))); lia.
Qed.

Lemma try_width_Some w z z' : try_width w z = Some z' ↔ z' = z ∧ in_width w z.
Proof.
  unfold try_width, in_width. destruct ((0 <=? z) && (z <? 2 ^ w)) eqn:E; split.
  - intros [= ->]. lia.
  - by intros [-> _].
  - done.
  - lia.
Qed.

Lemma try_width_None w z : try_width w z = None ↔ ¬ in_width w z.
Proof.
  unfold try_width, in_width. destruct ((0 <=? z) && (z <? 2 ^ w)) eqn:E; split; try done; lia.
Qed.

(** The first index of a range that satisfies a test. *)
Lemma find_range_Some {A} (P : A → bool) (f : Z → A) n x :
  List.find P (map f (range n)) = Some x →
  ∃ i, 0 ≤ i < n ∧ x = f i ∧ P x = true ∧ ∀ j, 0 ≤ j < i → P (f j) = false.
Proof.
  unfold range, seqZ. rewrite map_map.
  assert (Hgen : ∀ m k, List.find P (map (λ i, f (Z.of_nat i + 0)) (seq k m)) = Some x →
    ∃ i, Z.of_nat k ≤ i < Z.of_nat (k + m) ∧ x = f i ∧ P x = true ∧
         ∀ j, Z.of_nat k ≤ j < i → P (f j) = false).
  { induction m as [|m IH]; intros k; simpl; [done|].
    rewrite Z.add_0_r. destruct (P (f (Z.of_nat k))) eqn:E.
    - intros [= <-]. exists (Z.of_nat k). repeat split; auto; lia.
    - intros (i & Hi & Hx & HP & Hj)%IH. exists i. repeat split; auto; [lia..|].
      intros j Hk. destruct (decide (j = Z.of_nat k)) as [->|]; [done|]. apply Hj. lia. }
  intros (i & Hi & Hrest)%(Hgen _ 0%nat). exists i. split; [lia|done].
Qed.

Lemma find_range_None {A} (P : A → bool) (f : Z → A) n :
  List.find P (map f (range n)) = None ↔ ∀ i, 0 ≤ i < n → P (f i) = false.
Proof.
  split.
  - intros H i Hi. apply (find_none _ _ H). apply in_map.
    apply list_elem_of_In, elem_of_seqZ. lia.
  - intros H. destruct (List.find P (map f (range n))) eqn:E; [|done].
    apply find_range_Some in E as (i & Hi & -> & HP & _). rewrite H in HP; [done|lia].
Qed.

(** Two aligned power-of-two intervals that share a point are nested. *)
Lemma aligned_nested j k m n a :
  0 ≤ j ≤ k → m mod 2 ^ j = 0 → n mod 2 ^ k = 0 →
  m ≤ a < m + 2 ^ j → n ≤ a < n + 2 ^ k →
  n ≤ m ∧ m + 2 ^ j ≤ n + 2 ^ k.
Proof.
  intros Hjk Hm Hn Ham Han.
  assert (HJ : 0 < 2 ^ j) by (apply Z.pow_pos_nonneg; lia).
  assert (Hk : 2 ^ k = 2 ^ (k - j) * 2 ^ j) by (rewrite <-Z.pow_add_r by lia; f_equal; lia).
  assert (Hc : 0 < 2 ^ (k - j)) by (apply Z.pow_pos_nonneg; lia).
  apply Z.mod_divide in Hm as [s ->]; [|lia]. apply Z.mod_divide in Hn as [r ->]; [|lia].
  rewrite Hk in Han |- *. remember (2 ^ j) as J. remember (2 ^ (k - j)) as c.
  assert (H1 : r * c < s + 1) by nia. assert (H2 : s < r * c + c) by nia. nia.
Qed.

(** Elements told apart by their keys. *)
Lemma NoDup_map_elem {A B} (f : A → B) l x y :
  NoDup (map f l) → x ∈ l → y ∈ l → f x = f y → x = y.
Proof.
  intros Hnd [i Hi]%list_elem_of_lookup [j Hj]%list_elem_of_lookup Hf.
  assert (i = j) as ->; [|congruence].
  apply (NoDup_lookup (map f l) i j (f x) Hnd); rewrite list_lookup_fmap, ?Hi, ?Hj; simpl; by f_equal.
Qed.

Lemma bool_eq_iff (a b : bool) : a = b ↔ (a = true ↔ b = true).
Proof. destruct a, b; naive_solver. Qed.

Lemma flat_map_map {A B C} (f : B → list C) (g : A → B) l :
  List.flat_map f (map g l) = List.flat_map (λ x, f (g x)) l.
Proof. induction l as [|x l IH]; simpl; [done|]. by rewrite IH. Qed.

(** ** The greatest element that passes a test *)

Section Longest.
Context {A : Type} (len : A → Z) (ok : A → bool).

Fixpoint longest (l : list A) : option A :=
  match l with
  | [] => None
  | x :: l =>
      let best := longest l in
      if ok x && is_none_or best (λ b, len b <? len x) then Some x else best
  end.

Lemma longest_spec l :
  match longest l with
  | Some x => x ∈ l ∧ ok x = true ∧ ∀ y, y ∈ l → ok y = true → len y ≤ len x
  | None => ∀ y, y ∈ l → ok y = false
  end.
Proof.
  induction l as [|x l IH]; simpl; [intros y Hy; by apply not_elem_of_nil in Hy|].
  destruct (ok x) eqn:Ex, (longest l) as [b|]; simpl.
  - destruct IH as (Hb & Hmb & Hmax). destruct (Z.ltb_spec (len b) (len x)).
    + split_and!; [by left|done|]. intros y [->|Hy]%elem_of_cons Hm; [done|].
      specialize (Hmax y Hy Hm). lia.
    + split_and!; [by right|done|]. intros y [->|Hy]%elem_of_cons Hm; [lia|auto].
  - split_and!; [by left|done|]. intros y [->|Hy]%elem_of_cons Hm; [done|].
    by rewrite IH in Hm.
  - destruct IH as (Hb & Hmb & Hmax). split_and!; [by right|done|].
    intros y [->|Hy]%elem_of_cons Hm; [congruence|auto].
  - intros y [->|Hy]%elem_of_cons; auto.
Qed.
End Longest.

(** An aligned block ends within the address space. *)
Lemma aligned_top w p n :
  0 ≤ p ≤ w → in_width w n → n mod 2 ^ (w - p) = 0 → n + 2 ^ (w - p) ≤ 2 ^ w.
Proof.
  intros Hp [Hn0 Hn1] Hm.
  set (k := w - p) in *. apply Z.mod_divide in Hm as [q Hq]; [|apply Z.pow_nonzero; lia].
  assert (Hpow : 2 ^ w = 2 ^ p * 2 ^ k) by (rewrite <-Z.pow_add_r by lia; f_equal; lia).
  assert (0 < 2 ^ k) by (apply Z.pow_pos_nonneg; lia). rewrite Hq, Hpow in *.
  assert (q < 2 ^ p) by nia. nia.
Qed.

Lemma filter_filter_implied {A} (f g : A → bool) l :
  (∀ x, f x = true → g x = true) → List.filter f (List.filter g l) = List.filter f l.
Proof.
  intros H. induction l as [|x l IH]; simpl; [done|]. destruct (g x) eqn:Eg; simpl.
  - by rewrite IH.
  - destruct (f x) eqn:Ef; [|done]. by rewrite (H x Ef) in Eg.
Qed.

(** ** Actions: code that changes a state and may fail *)

(** A failed step keeps the effects before it. *)
Definition Routine (S E A : Type) : Type := S → result E A * S.

Section Routines.
Context {S E : Type}.

Definition op_ret {A} (a : A) : Routine S E A := λ w, (Ok a, w).
Definition op_fail {A} (error : E) : Routine S E A := λ w, (Err error, w).
Definition op_bind {A B} (c : Routine S E A) (k : A → Routine S E B) : Routine S E B := λ w,
  match c w with (Ok a, w) => k a w | (Err error, w) => (Err error, w) end.
(** A pure fallible computation. *)
Definition op_lift {A} (r : result E A) : Routine S E A := λ w, (r, w).
End Routines.

Notation "'let*' x ':=' c 'in' k" := (op_bind c (λ x, k))
  (at level 10, x pattern, c at level 100, k at level 200,
   format "'[v' 'let*'  x  ':='  c  'in'  '/' k ']'") : unf_scope.

Fixpoint for_each {S E A} (f : A → Routine S E ()) (l : list A) : Routine S E () :=
  match l with
  | [] => op_ret ()
  | x :: l => let* _ := f x in for_each f l
  end.

Lemma op_bind_Ok {S E A B} (c : Routine S E A) (k : A → Routine S E B) w b w' :
  op_bind c k w = (Ok b, w') → ∃ a w1, c w = (Ok a, w1) ∧ k a w1 = (Ok b, w').
Proof. unfold op_bind. destruct (c w) as [[a|] w1]; [|done]. eauto. Qed.

Lemma op_bind_runs {S E A B} (c : Routine S E A) (k : A → Routine S E B) w a w1 :
  c w = (Ok a, w1) → op_bind c k w = k a w1.
Proof. intros Hc. unfold op_bind. by rewrite Hc. Qed.

(** ** Automation

    Membership in the iterators and the fallible loops, as rewrite rules; [elems] unfolds
    every membership of the goal, [elems in H] those of a hypothesis. *)

Create Rewrite HintDb unf_elem.
#[export] Hint Rewrite @elem_of_list_filter @elem_of_list_flat_map @elem_of_list_map
  @elem_of_dedup @elem_of_sort_dedup @elem_of_bset_iter @elem_of_nil @elem_of_cons @elem_of_app
  using typeclasses eauto : unf_elem.

Tactic Notation "elems" := autorewrite with unf_elem.
Tactic Notation "elems" "in" hyp(H) := autorewrite with unf_elem in H.

(** Splits the [let?] binds of a hypothesis [H : (let? ..) = Ok _] and names their results. *)
Ltac split_ok H :=
  repeat match type of H with
  | (match ?c with Ok _ => _ | Err _ => _ end) = _ => destruct c eqn:?; [|discriminate H]
  | (if ?c then _ else _) = _ => destruct c eqn:?; try discriminate H
  end.

Create HintDb unf_width.
Lemma in_width_0 w : 0 ≤ w → in_width w 0.
Proof. intros Hw. split; [done|]. by apply Z.pow_pos_nonneg. Qed.
Lemma in_width_mono w v z : w ≤ v → in_width w z → in_width v z.
Proof.
  intros Hwv [H0 H1]. split; [done|]. eapply Z.lt_le_trans; [done|].
  apply Z.pow_le_mono_r; lia.
Qed.
Lemma wrapping_in_width w z : 0 ≤ w → in_width w (wrapping w z).
Proof. intros Hw. apply Z.mod_pos_bound, Z.pow_pos_nonneg; lia. Qed.
#[export] Hint Resolve in_width_0 wrapping_in_width : unf_width.
