(* ===== verification/Common.v ===== *)
(** * Domain primitives shared by the components ([crates/unf-common])

    Identifiers, revisions, transport protocols, policy directions, actions,
    verdicts and decision reasons, with the numeric codes their [repr(u8)]
    gives them on the wire and in the eBPF maps. *)

From S2P Require Import Prelude.

(** The [numeric_id!] newtypes over [u32], and [Revision(u64)]. *)
Abbreviation IdentityId := Z (only parsing).
Abbreviation PolicyId := Z (only parsing).
Abbreviation RuleId := Z (only parsing).

Definition Revision_next (r : Z) : Z :=
  Z.min (u_max 64) (r + 1).

Inductive Protocol := Icmp | Tcp | Udp | Sctp.
Inductive PolicyDirection := Ingress | Egress.
Inductive PolicyAction := ActAllow | ActDeny | ActAudit.
Inductive Verdict := VUnknown | VAllow | VDeny | VAudit.
Inductive PolicyReason := NoApplicablePolicy | ExplicitRule | DefaultAction.

#[export] Instance Protocol_eq_dec : EqDecision Protocol.
Proof. solve_decision. Defined.
#[export] Instance PolicyDirection_eq_dec : EqDecision PolicyDirection.
Proof. solve_decision. Defined.
#[export] Instance PolicyAction_eq_dec : EqDecision PolicyAction.
Proof. solve_decision. Defined.
#[export] Instance Verdict_eq_dec : EqDecision Verdict.
Proof. solve_decision. Defined.
#[export] Instance PolicyReason_eq_dec : EqDecision PolicyReason.
Proof. solve_decision. Defined.

(** The [as u8] casts. *)
Definition protocol_u8 (p : Protocol) : Z :=
  match p with Icmp => 1 | Tcp => 6 | Udp => 17 | Sctp => 132 end.
Definition verdict_u8 (v : Verdict) : Z :=
  match v with VUnknown => 0 | VAllow => 1 | VDeny => 2 | VAudit => 3 end.
Definition reason_u8 (r : PolicyReason) : Z :=
  match r with NoApplicablePolicy => 0 | ExplicitRule => 1 | DefaultAction => 2 end.

#[export] Instance protocol_u8_inj : Inj (=) (=) protocol_u8.
Proof. by intros [] []. Qed.
#[export] Instance verdict_u8_inj : Inj (=) (=) verdict_u8.
Proof. by intros [] []. Qed.
#[export] Instance reason_u8_inj : Inj (=) (=) reason_u8.
Proof. by intros [] []. Qed.

Lemma protocol_u8_bounds p : 0 < protocol_u8 p < 256.
Proof. by destruct p. Qed.

Definition protocol_of_u8 (z : Z) : option Protocol :=
  if z =? 1 then Some Icmp else if z =? 6 then Some Tcp
  else if z =? 17 then Some Udp else if z =? 132 then Some Sctp else None.

(** Protocols are ordered by their discriminants. *)
#[export] Instance Protocol_ord : Ord Protocol := cmp_via protocol_u8.
#[export] Instance Protocol_ord_laws : OrdLaws Protocol.
Proof. apply cmp_via_laws, _. Qed.

#[export] Instance Protocol_countable : Countable Protocol.
Proof.
  apply (inj_countable protocol_u8 protocol_of_u8). by intros [].
Defined.
