(* ===== verification/NetAddr.v ===== *)
(** * Textual addresses

    The standard library's parsers the sources call on user input:
    [Ipv4Addr::from_str], [Ipv6Addr::from_str], [IpAddr::from_str] and [u8::from_str] (the
    [core::net::parser] state machine and [from_str_radix]), and [str::split_once].
    Text is a byte string; an address is its integer value. *)

From Stdlib Require Import Ascii String.
From S2P Require Import Prelude.

(** ** The parser state: the bytes left to read *)

Definition Parser (A : Type) : Type := list ascii → option (A * list ascii).

Definition read_char : Parser ascii := λ state,
  match state with [] => None | c :: rest => Some (c, rest) end.

Definition read_given_char (target : ascii) : Parser unit := λ state,
  match state with
  | c :: rest => if bool_decide (c = target) then Some ((), rest) else None
  | [] => None
  end.

(** [char::to_digit]. *)
Definition to_digit (radix : Z) (c : ascii) : option Z :=
  let code := Z.of_N (N_of_ascii c) in
  let value :=
    if (48 <=? code) && (code <=? 57) then Some (code - 48)
    else if (97 <=? code) && (code <=? 122) then Some (code - 97 + 10)
    else if (65 <=? code) && (code <=? 90) then Some (code - 65 + 10)
    else None in
  match value with
  | Some d => if d <? radix then Some d else None
  | None => None
  end.

(** The digit loop of [read_number]: stops at the first byte that is not a digit,
    fails as soon as there are more than [max_digits]. *)
Fixpoint read_digits (radix : Z) (max_digits : nat) (digit_count : nat) (acc : Z)
    (state : list ascii) : option (nat * Z * list ascii) :=
  match state with
  | [] => Some (digit_count, acc, [])
  | c :: rest =>
      match to_digit radix c with
      | None => Some (digit_count, acc, state)
      | Some digit =>
          if (max_digits <? S digit_count)%nat then None
          else read_digits radix max_digits (S digit_count) (acc * radix + digit) rest
      end
  end.

(** [read_number(radix, Some(max_digits), allow_zero_prefix)] into a [w]-bit integer. *)
Definition read_number (w radix : Z) (max_digits : nat) (allow_zero_prefix : bool) : Parser Z :=
  λ state,
    let has_leading_zero :=
      match state with c :: _ => bool_decide (c = "0"%char) | [] => false end in
    match read_digits radix max_digits 0 0 state with
    | None => None
    | Some (digit_count, value, rest) =>
        if (digit_count =? 0)%nat then None
        else if negb allow_zero_prefix && has_leading_zero && (1 <? digit_count)%nat then None
        else match try_width w value with Some v => Some (v, rest) | None => None end
    end.

(** [read_separator]: the separator precedes every element but the first. *)
Definition read_separator {A} (sep : ascii) (index : nat) (inner : Parser A) : Parser A :=
  λ state,
    if (0 <? index)%nat then
      match read_given_char sep state with
      | Some (_, rest) => inner rest
      | None => None
      end
    else inner state.

Definition read_octet (index : nat) : Parser Z :=
  read_separator "."%char index (read_number 8 10 3 false).

Definition read_ipv4_addr : Parser Z := λ state,
  match read_octet 0 state with None => None | Some (a, state) =>
  match read_octet 1 state with None => None | Some (b, state) =>
  match read_octet 2 state with None => None | Some (c, state) =>
  match read_octet 3 state with None => None | Some (d, state) =>
    Some (a * 2 ^ 24 + b * 2 ^ 16 + c * 2 ^ 8 + d, state)
  end end end end.

(** [read_groups] over [limit] slots, of which [remaining] are left: the groups
    read, whether an embedded IPv4 address ended them, and the rest. *)
Fixpoint read_groups (limit remaining : nat) (state : list ascii) :
    list Z * bool * list ascii :=
  match remaining with
  | O => ([], false, state)
  | S remaining' =>
      let i := (limit - remaining)%nat in
      let embedded :=
        if (i <? limit - 1)%nat then read_separator ":"%char i read_ipv4_addr state else None in
      match embedded with
      | Some (v4, rest) => ([v4 / 2 ^ 16; v4 mod 2 ^ 16], true, rest)
      | None =>
          match read_separator ":"%char i (read_number 16 16 4 true) state with
          | Some (group, rest) =>
              let '(groups, ipv4, rest) := read_groups limit remaining' rest in
              (group :: groups, ipv4, rest)
          | None => ([], false, state)
          end
      end
  end.

(** Eight 16-bit groups, most significant first. *)
Definition ipv6_of_groups (groups : list Z) : Z :=
  fold_left (λ acc g, acc * 2 ^ 16 + g) groups 0.

Definition read_ipv6_addr : Parser Z := λ state,
  let '(head, head_ipv4, state) := read_groups 8 8 state in
  let head_size := length head in
  if (head_size =? 8)%nat then Some (ipv6_of_groups head, state)
  else if head_ipv4 then None
  else
    match read_given_char ":"%char state with None => None | Some (_, state) =>
    match read_given_char ":"%char state with None => None | Some (_, state) =>
      let limit := (8 - (head_size + 1))%nat in
      let '(tail, _, state) := read_groups limit limit state in
      Some (ipv6_of_groups (head ++ replicate (8 - head_size - length tail) 0 ++ tail), state)
    end end.

(** [read_with]: the whole input must be consumed. *)
Definition read_with {A} (inner : Parser A) (state : list ascii) : option A :=
  match inner state with Some (a, []) => Some a | _ => None end.

Definition parse_ipv4_addr (text : string) : option Z :=
  let bytes := list_ascii_of_string text in
  if (15 <? length bytes)%nat then None else read_with read_ipv4_addr bytes.

Definition parse_ipv6_addr (text : string) : option Z :=
  read_with read_ipv6_addr (list_ascii_of_string text).

(** [IpAddr]: the derived order puts IPv4 before IPv6. *)
Inductive IpAddr := V4 (address : Z) | V6 (address : Z).

#[export] Instance IpAddr_eq_dec : EqDecision IpAddr.
Proof. solve_decision. Defined.

Definition ip_code (a : IpAddr) : Z * Z := match a with V4 x => (0, x) | V6 x => (1, x) end.

#[export] Instance ip_code_inj : Inj (=) (=) ip_code.
Proof. by intros [] [] [= ->]. Qed.
#[export] Instance IpAddr_countable : Countable IpAddr.
Proof.
  apply (inj_countable' ip_code (λ '(f, x), if f =? 0 then V4 x else V6 x)). by intros [].
Defined.
#[export] Instance IpAddr_ord : Ord IpAddr := cmp_via ip_code.
#[export] Instance IpAddr_ord_laws : OrdLaws IpAddr.
Proof. apply cmp_via_laws, _. Qed.

Definition read_ip_addr : Parser IpAddr := λ state,
  match read_ipv4_addr state with
  | Some (address, rest) => Some (V4 address, rest)
  | None =>
      match read_ipv6_addr state with
      | Some (address, rest) => Some (V6 address, rest)
      | None => None
      end
  end.

(** [IpAddr::from_str]. *)
Definition parse_ip_addr (text : string) : option IpAddr :=
  read_with read_ip_addr (list_ascii_of_string text).

(** [u8::from_str]: an optional plus sign, then decimal digits with checked
    arithmetic. *)
Fixpoint parse_digits (w acc : Z) (bytes : list ascii) : option Z :=
  match bytes with
  | [] => Some acc
  | c :: rest =>
      match to_digit 10 c with
      | None => None
      | Some digit =>
          match try_width w (acc * 10) with
          | None => None
          | Some acc =>
              match try_width w (acc + digit) with
              | None => None
              | Some acc => parse_digits w acc rest
              end
          end
      end
  end.

Definition parse_u (w : Z) (text : string) : option Z :=
  match list_ascii_of_string text with
  | [] => None
  | c :: rest =>
      if bool_decide (c = "+"%char) then
        match rest with [] => None | _ => parse_digits w 0 rest end
      else parse_digits w 0 (c :: rest)
  end.

(** [str::split_once] at the first occurrence of a byte. *)
Fixpoint split_once (text : string) (sep : ascii) : option (string * string) :=
  match text with
  | EmptyString => None
  | String c rest =>
      if bool_decide (c = sep) then Some (EmptyString, rest)
      else match split_once rest sep with
           | Some (before, after) => Some (String c before, after)
           | None => None
           end
  end.

(** ** Bounds: a parsed address or number fits its type *)

Lemma read_number_width w radix n z state v rest :
  read_number w radix n z state = Some (v, rest) → in_width w v.
Proof.
  unfold read_number. destruct (read_digits _ _ _ _ _) as [[[dc value] r]|]; [|done].
  destruct (_ =? _)%nat; [done|]. destruct (_ && _ && _); [done|].
  destruct (try_width w value) as [u|] eqn:E; [|done]. intros [= <- _].
  by apply try_width_Some in E as [-> ?].
Qed.

Lemma read_separator_inner {A} sep i (inner : Parser A) state x :
  read_separator sep i inner state = Some x → ∃ state', inner state' = Some x.
Proof.
  unfold read_separator. destruct (0 <? i)%nat; [|by eauto].
  destruct (read_given_char sep state) as [[u r]|]; [by eauto|done].
Qed.

Lemma read_octet_width i state v rest : read_octet i state = Some (v, rest) → in_width 8 v.
Proof. intros [s Hs]%read_separator_inner. by eapply read_number_width. Qed.

Lemma read_ipv4_addr_width state v rest :
  read_ipv4_addr state = Some (v, rest) → in_width 32 v.
Proof.
  unfold read_ipv4_addr.
  destruct (read_octet 0 state) as [[a s1]|] eqn:E1; [|done].
  destruct (read_octet 1 s1) as [[b s2]|] eqn:E2; [|done].
  destruct (read_octet 2 s2) as [[c s3]|] eqn:E3; [|done].
  destruct (read_octet 3 s3) as [[d s4]|] eqn:E4; [|done].
  apply read_octet_width in E1, E2, E3, E4. intros [= <- <-]. unfold in_width in *. lia.
Qed.

Lemma read_groups_spec limit remaining state groups v4 rest :
  (remaining ≤ limit)%nat →
  read_groups limit remaining state = (groups, v4, rest) →
  Forall (in_width 16) groups ∧ (length groups ≤ remaining)%nat.
Proof.
  revert state groups v4 rest. induction remaining as [|n IH]; intros state groups v4 rest Hle; simpl.
  { intros [= <- _ _]. by split; [constructor|]. }
  set (emb := if (_ <? _)%nat then _ else None). destruct emb as [[a r]|] eqn:Ee; subst emb.
  - destruct (limit - S n <? limit - 1)%nat eqn:El; [|done]. apply Nat.ltb_lt in El.
    apply read_separator_inner in Ee as [s' Hs']. apply read_ipv4_addr_width in Hs'.
    intros [= <- _ _]. unfold in_width in *. split; [|simpl; lia].
    repeat constructor; try (apply Z.div_pos; lia); try (apply Z.div_lt_upper_bound; lia);
      apply Z.mod_pos_bound; lia.
  - clear Ee. destruct (read_separator _ _ _ state) as [[g r]|] eqn:Eg; [|intros [= <- _ _]].
    + destruct (read_groups limit n r) as [[gs b] r'] eqn:Er. intros [= <- _ _].
      apply IH in Er as [Hf Hl]; [|lia]. apply read_separator_inner in Eg as [s' Hs'].
      apply read_number_width in Hs'. split; [by constructor|simpl; lia].
    + split; [constructor|simpl; lia].
Qed.

Lemma ipv6_of_groups_width groups :
  Forall (in_width 16) groups → in_width (16 * Z.of_nat (length groups)) (ipv6_of_groups groups).
Proof.
  intros Hg. unfold ipv6_of_groups. induction groups as [|g gs IH] using rev_ind.
  { unfold in_width. simpl. lia. }
  apply Forall_app in Hg as [Hgs [Hg _]%Forall_cons]. specialize (IH Hgs).
  rewrite fold_left_app, length_app. simpl. unfold in_width in *.
  replace (16 * Z.of_nat (length gs + 1)) with (16 * Z.of_nat (length gs) + 16) by lia.
  rewrite Z.pow_add_r by lia. lia.
Qed.

Lemma parse_ipv4_addr_width text a : parse_ipv4_addr text = Some a → in_width 32 a.
Proof.
  unfold parse_ipv4_addr, read_with. destruct (_ <? _)%nat; [done|].
  destruct (read_ipv4_addr _) as [[v [|? ?]]|] eqn:E; try done. intros [= <-].
  by eapply read_ipv4_addr_width.
Qed.

Lemma read_ipv6_addr_width state v rest :
  read_ipv6_addr state = Some (v, rest) → in_width 128 v.
Proof.
  unfold read_ipv6_addr.
  destruct (read_groups 8 8 _) as [[head h4] s] eqn:Eh.
  apply read_groups_spec in Eh as [Hh Hlh]; [|lia].
  destruct (length head =? 8)%nat eqn:E8.
  - apply Nat.eqb_eq in E8. pose proof (ipv6_of_groups_width head Hh) as Hw.
    rewrite E8 in Hw. by intros [= <- _].
  - apply Nat.eqb_neq in E8. destruct h4; [done|].
    destruct (read_given_char _ s) as [[? s1]|]; [|done].
    destruct (read_given_char _ s1) as [[? s2]|]; [|done].
    destruct (read_groups _ _ s2) as [[tail t4] s3] eqn:Et.
    apply read_groups_spec in Et as [Ht Hlt]; [|lia]. intros [= <- _].
    assert (Hall : Forall (in_width 16)
      (head ++ replicate (8 - length head - length tail) 0 ++ tail)).
    { rewrite !Forall_app. split_and!; try done. apply Forall_replicate. unfold in_width. lia. }
    apply ipv6_of_groups_width in Hall. rewrite !length_app, length_replicate in Hall.
    by replace (length head + (8 - length head - length tail + length tail))%nat with 8%nat
      in Hall by lia.
Qed.

Lemma parse_ipv6_addr_width text a : parse_ipv6_addr text = Some a → in_width 128 a.
Proof.
  unfold parse_ipv6_addr, read_with.
  destruct (read_ipv6_addr _) as [[v [|? ?]]|] eqn:E; try done. intros [= <-].
  by eapply read_ipv6_addr_width.
Qed.

Lemma parse_u_width w text v : 0 < w → parse_u w text = Some v → in_width w v.
Proof.
  intros Hw. assert (H : ∀ bytes acc, in_width w acc → parse_digits w acc bytes = Some v → in_width w v).
  { induction bytes as [|c bytes IH]; intros acc Hacc; simpl; [by intros [= <-]|].
    destruct (to_digit 10 c) as [d|]; [|done].
    destruct (try_width w (acc * 10)) as [x|]; [|done].
    destruct (try_width w (x + d)) as [y|] eqn:Ey; [|done].
    apply try_width_Some in Ey as [-> ?]. by apply IH. }
  assert (H0 : in_width w 0) by (split; [lia|apply Z.pow_pos_nonneg; lia]).
  unfold parse_u. destruct (list_ascii_of_string text) as [|c rest]; [done|].
  case_bool_decide; [destruct rest; [done|]|]; by apply H.
Qed.

Definition ip_wf (a : IpAddr) : Prop :=
  match a with V4 x => in_width 32 x | V6 x => in_width 128 x end.

Lemma parse_ip_addr_wf text a : parse_ip_addr text = Some a → ip_wf a.
Proof.
  unfold parse_ip_addr, read_with, read_ip_addr. set (l := list_ascii_of_string text).
  destruct (read_ipv4_addr l) as [[x [|]]|] eqn:E4; [intros [= <-]|done|].
  - by eapply read_ipv4_addr_width.
  - destruct (read_ipv6_addr l) as [[x [|]]|] eqn:E6; [intros [= <-]|done..].
    by eapply read_ipv6_addr_width.
Qed.
