(* ===== verification/Ipam.v ===== *)
(** * Dual-stack node-block address management ([crates/unf-ipam])

    Node blocks, the collision-checked set of addresses in use, and the
    deterministic lowest-free allocator of a node.  An [Ipv4Addr] is a 32-bit
    integer and an [Ipv6Addr] a 128-bit integer, as [u32::from]/[u128::from]
    give them.  Error values keep their constructor and structured fields; the
    formatted diagnostics are not modelled. *)

From Stdlib Require Import Ascii.
From S2P Require Import Prelude Common NetAddr.

Definition MAX_NODE_LEASES : Z := 65536.

Inductive AddressFamily := Ipv4 | Ipv6.

(** The [value] of [InvalidBlock]: a printed block, or the text it was read from. *)
Inductive BlockValue :=
| PrintedBlock (network prefix_len : Z)
| BlockText (value : string).

Inductive IpamError :=
| InvalidBlock (family : AddressFamily) (value : BlockValue) (reason : string)
| Exhausted (family : AddressFamily) (limit : Z)
| DuplicateLease (family : AddressFamily) (address : Z)
| MissingLease
| ForeignLease (ipv4 ipv6 : Z).

#[export] Instance AddressFamily_eq_dec : EqDecision AddressFamily.
Proof. solve_decision. Defined.
#[export] Instance BlockValue_eq_dec : EqDecision BlockValue.
Proof. solve_decision. Defined.
#[export] Instance IpamError_eq_dec : EqDecision IpamError.
Proof. solve_decision. Defined.

Record Ipv4Lease := { v4_address : Z; v4_gateway : Z; v4_prefix_len : Z }.
Record Ipv6Lease := { v6_address : Z; v6_gateway : Z; v6_prefix_len : Z }.
Record DualStackLease := { lease_ipv4 : Ipv4Lease; lease_ipv6 : Ipv6Lease }.

#[export] Instance Ipv4Lease_eq_dec : EqDecision Ipv4Lease.
Proof. solve_decision. Defined.
#[export] Instance Ipv6Lease_eq_dec : EqDecision Ipv6Lease.
Proof. solve_decision. Defined.
#[export] Instance DualStackLease_eq_dec : EqDecision DualStackLease.
Proof. solve_decision. Defined.
#[export] Instance DualStackLease_countable : Countable DualStackLease.
Proof.
  apply (inj_countable'
    (λ l, (v4_address (lease_ipv4 l), v4_gateway (lease_ipv4 l), v4_prefix_len (lease_ipv4 l),
           (v6_address (lease_ipv6 l), v6_gateway (lease_ipv6 l), v6_prefix_len (lease_ipv6 l))))
    (λ '(a, g, p, (a', g', p')),
      {| lease_ipv4 := {| v4_address := a; v4_gateway := g; v4_prefix_len := p |};
         lease_ipv6 := {| v6_address := a'; v6_gateway := g'; v6_prefix_len := p' |} |})).
  by intros [[] []].
Defined.

(** ** IPv4 node blocks *)

Definition prefix_mask_v4 (prefix_len : Z) : Z := prefix_mask 32 prefix_len.
Definition prefix_mask_v6 (prefix_len : Z) : Z := prefix_mask 128 prefix_len.

Record Ipv4NodeBlock := { b4_network : Z; b4_prefix_len : Z }.

Definition Ipv4NodeBlock_new (network prefix_len : Z) : result IpamError Ipv4NodeBlock :=
  if 30 <? prefix_len then
    Err (InvalidBlock Ipv4 (PrintedBlock network prefix_len)
           "prefix must be between /0 and /30")
  else if negb (Z.land network (prefix_mask_v4 prefix_len) =? network) then
    Err (InvalidBlock Ipv4 (PrintedBlock network prefix_len)
           "address is not the canonical network boundary")
  else Ok {| b4_network := network; b4_prefix_len := prefix_len |}.

Definition Ipv4NodeBlock_gateway (b : Ipv4NodeBlock) : Z := b4_network b + 1.

Definition Ipv4NodeBlock_proof_beacon (b : Ipv4NodeBlock) : Z :=
  let host_mask := Z.lxor (u_max 32) (prefix_mask_v4 (b4_prefix_len b)) in
  Z.lor (b4_network b) host_mask - 1.

Definition Ipv4NodeBlock_bounded_capacity (b : Ipv4NodeBlock) : Z :=
  let addresses := Z.shiftl 1 (32 - b4_prefix_len b) in
  Z.min (saturating_sub addresses 4) MAX_NODE_LEASES.

Definition Ipv4NodeBlock_overlaps (a b : Ipv4NodeBlock) : bool :=
  let mask := prefix_mask_v4 (Z.min (b4_prefix_len a) (b4_prefix_len b)) in
  Z.land (b4_network a) mask =? Z.land (b4_network b) mask.

Definition Ipv4NodeBlock_contains (b : Ipv4NodeBlock) (address : Z) : bool :=
  Z.land address (prefix_mask_v4 (b4_prefix_len b)) =? b4_network b.

Definition Ipv4NodeBlock_candidate (b : Ipv4NodeBlock) (index : Z) : Z :=
  b4_network b + (index + 2).

Definition Ipv4NodeBlock_contains_workload (b : Ipv4NodeBlock) (address : Z) : bool :=
  let total := Z.shiftl 1 (32 - b4_prefix_len b) in
  let offset := saturating_sub address (b4_network b) in
  Ipv4NodeBlock_contains b address && (b4_network b <=? address)
  && (2 <=? offset) && (offset <? total - 1).

(** ** IPv6 node blocks *)

Record Ipv6NodeBlock := { b6_network : Z; b6_prefix_len : Z }.

Definition Ipv6NodeBlock_new (network prefix_len : Z) : result IpamError Ipv6NodeBlock :=
  if 126 <? prefix_len then
    Err (InvalidBlock Ipv6 (PrintedBlock network prefix_len)
           "prefix must be between /0 and /126")
  else if negb (Z.land network (prefix_mask_v6 prefix_len) =? network) then
    Err (InvalidBlock Ipv6 (PrintedBlock network prefix_len)
           "address is not the canonical network boundary")
  else Ok {| b6_network := network; b6_prefix_len := prefix_len |}.

Definition Ipv6NodeBlock_gateway (b : Ipv6NodeBlock) : Z := b6_network b + 1.

Definition Ipv6NodeBlock_proof_beacon (b : Ipv6NodeBlock) : Z := b6_network b.

Definition Ipv6NodeBlock_bounded_capacity (b : Ipv6NodeBlock) : Z :=
  if b6_prefix_len b <=? 111 then MAX_NODE_LEASES
  else Z.shiftl 1 (128 - b6_prefix_len b) - 2.

Definition Ipv6NodeBlock_overlaps (a b : Ipv6NodeBlock) : bool :=
  let mask := prefix_mask_v6 (Z.min (b6_prefix_len a) (b6_prefix_len b)) in
  Z.land (b6_network a) mask =? Z.land (b6_network b) mask.

Definition Ipv6NodeBlock_contains (b : Ipv6NodeBlock) (address : Z) : bool :=
  Z.land address (prefix_mask_v6 (b6_prefix_len b)) =? b6_network b.

Definition Ipv6NodeBlock_candidate (b : Ipv6NodeBlock) (index : Z) : Z :=
  b6_network b + (index + 2).

Definition Ipv6NodeBlock_contains_workload (b : Ipv6NodeBlock) (address : Z) : bool :=
  (b6_network b <=? address) && Ipv6NodeBlock_contains b address
  && (2 <=? saturating_sub address (b6_network b)).

(** ** Blocks as text *)

Definition invalid_text (family : AddressFamily) (value reason : string) : IpamError :=
  InvalidBlock family (BlockText value) reason.

Definition split_cidr (value : string) (family : AddressFamily) :
    result IpamError (string * string) :=
  match split_once value "/"%char with
  | None => Err (invalid_text family value "CIDR must contain one slash")
  | Some (address, prefix) =>
      if bool_decide (address = EmptyString) || bool_decide (prefix = EmptyString)
         || bool_decide (is_Some (split_once prefix "/"%char))
      then Err (invalid_text family value "CIDR must contain exactly one address and prefix")
      else Ok (address, prefix)
  end.

Definition parse_prefix (prefix value : string) (family : AddressFamily) : result IpamError Z :=
  ok_or (parse_u 8 prefix) (invalid_text family value "invalid prefix").

Definition Ipv4NodeBlock_from_str (value : string) : result IpamError Ipv4NodeBlock :=
  let? (address, prefix) := split_cidr value Ipv4 in
  let? address := ok_or (parse_ipv4_addr address) (invalid_text Ipv4 value "invalid address") in
  let? prefix := parse_prefix prefix value Ipv4 in
  Ipv4NodeBlock_new address prefix.

Definition Ipv6NodeBlock_from_str (value : string) : result IpamError Ipv6NodeBlock :=
  let? (address, prefix) := split_cidr value Ipv6 in
  let? address := ok_or (parse_ipv6_addr address) (invalid_text Ipv6 value "invalid address") in
  let? prefix := parse_prefix prefix value Ipv6 in
  Ipv6NodeBlock_new address prefix.

(** ** Addresses in use *)

Record UsedAddresses := {
  used_leases : gset DualStackLease;
  used_ipv4 : gset Z;
  used_ipv6 : gset Z;
}.

Definition UsedAddresses_default : UsedAddresses :=
  {| used_leases := ∅; used_ipv4 := ∅; used_ipv6 := ∅ |}.

Definition UsedAddresses_insert (used : UsedAddresses) (lease : DualStackLease) :
    result IpamError UsedAddresses :=
  let a4 := v4_address (lease_ipv4 lease) in
  let a6 := v6_address (lease_ipv6 lease) in
  if bool_decide (a4 ∈ used_ipv4 used) then Err (DuplicateLease Ipv4 a4)
  else if bool_decide (a6 ∈ used_ipv6 used) then Err (DuplicateLease Ipv6 a6)
  else Ok {| used_leases := {[lease]} ∪ used_leases used;
             used_ipv4 := {[a4]} ∪ used_ipv4 used;
             used_ipv6 := {[a6]} ∪ used_ipv6 used |}.

Definition UsedAddresses_from_leases (leases : list DualStackLease) :
    result IpamError UsedAddresses :=
  try_fold UsedAddresses_insert UsedAddresses_default leases.

Definition UsedAddresses_remove (used : UsedAddresses) (lease : DualStackLease) :
    result IpamError UsedAddresses :=
  if negb (bool_decide (lease ∈ used_leases used)) then Err MissingLease
  else Ok {| used_leases := used_leases used ∖ {[lease]};
             used_ipv4 := used_ipv4 used ∖ {[v4_address (lease_ipv4 lease)]};
             used_ipv6 := used_ipv6 used ∖ {[v6_address (lease_ipv6 lease)]} |}.

Definition UsedAddresses_len (used : UsedAddresses) : Z := Z.of_nat (size (used_leases used)).

Definition UsedAddresses_is_empty (used : UsedAddresses) : bool :=
  bool_decide (used_leases used = ∅) && bool_decide (used_ipv4 used = ∅)
  && bool_decide (used_ipv6 used = ∅).

(** ** The allocator of a node *)

Record NodeBlockProvider := { ipv4_block : Ipv4NodeBlock; ipv6_block : Ipv6NodeBlock }.

#[export] Instance Ipv4NodeBlock_eq_dec : EqDecision Ipv4NodeBlock.
Proof. solve_decision. Defined.
#[export] Instance Ipv6NodeBlock_eq_dec : EqDecision Ipv6NodeBlock.
Proof. solve_decision. Defined.
#[export] Instance NodeBlockProvider_eq_dec : EqDecision NodeBlockProvider.
Proof. solve_decision. Defined.

Definition NodeBlockProvider_allocate (self : NodeBlockProvider) (used : UsedAddresses) :
    result IpamError DualStackLease :=
  let b4 := ipv4_block self in
  let b6 := ipv6_block self in
  if MAX_NODE_LEASES <=? UsedAddresses_len used then Err (Exhausted Ipv4 MAX_NODE_LEASES)
  else
    let? ipv4 :=
      ok_or (List.find (λ candidate, negb (bool_decide (candidate ∈ used_ipv4 used)))
               (map (Ipv4NodeBlock_candidate b4) (range (Ipv4NodeBlock_bounded_capacity b4))))
            (Exhausted Ipv4 (Ipv4NodeBlock_bounded_capacity b4)) in
    let? ipv6 :=
      ok_or (List.find (λ candidate, negb (bool_decide (candidate ∈ used_ipv6 used)))
               (map (Ipv6NodeBlock_candidate b6) (range (Ipv6NodeBlock_bounded_capacity b6))))
            (Exhausted Ipv6 (Ipv6NodeBlock_bounded_capacity b6)) in
    Ok {| lease_ipv4 := {| v4_address := ipv4;
                           v4_gateway := Ipv4NodeBlock_gateway b4;
                           v4_prefix_len := b4_prefix_len b4 |};
          lease_ipv6 := {| v6_address := ipv6;
                           v6_gateway := Ipv6NodeBlock_gateway b6;
                           v6_prefix_len := b6_prefix_len b6 |} |}.

Definition NodeBlockProvider_validate (self : NodeBlockProvider) (lease : DualStackLease) :
    result IpamError unit :=
  let l4 := lease_ipv4 lease in
  let l6 := lease_ipv6 lease in
  if (v4_prefix_len l4 =? b4_prefix_len (ipv4_block self))
     && (v4_gateway l4 =? Ipv4NodeBlock_gateway (ipv4_block self))
     && Ipv4NodeBlock_contains_workload (ipv4_block self) (v4_address l4)
     && (v6_prefix_len l6 =? b6_prefix_len (ipv6_block self))
     && (v6_gateway l6 =? Ipv6NodeBlock_gateway (ipv6_block self))
     && Ipv6NodeBlock_contains_workload (ipv6_block self) (v6_address l6)
  then Ok ()
  else Err (ForeignLease (v4_address l4) (v6_address l6)).

(** ** Well-formed blocks *)

Definition Ipv4NodeBlock_wf (b : Ipv4NodeBlock) : Prop :=
  0 ≤ b4_prefix_len b ≤ 30 ∧ in_width 32 (b4_network b) ∧
  b4_network b mod 2 ^ (32 - b4_prefix_len b) = 0.

Definition Ipv6NodeBlock_wf (b : Ipv6NodeBlock) : Prop :=
  0 ≤ b6_prefix_len b ≤ 126 ∧ in_width 128 (b6_network b) ∧
  b6_network b mod 2 ^ (128 - b6_prefix_len b) = 0.

Definition NodeBlockProvider_wf (p : NodeBlockProvider) : Prop :=
  Ipv4NodeBlock_wf (ipv4_block p) ∧ Ipv6NodeBlock_wf (ipv6_block p).

Lemma canonical_iff w p n :
  0 ≤ p ≤ w → in_width w n → Z.land n (prefix_mask w p) = n ↔ n mod 2 ^ (w - p) = 0.
Proof.
  intros Hp Hn. rewrite land_prefix_eq_iff by done.
  assert (0 < 2 ^ (w - p)) by (apply Z.pow_pos_nonneg; lia). lia.
Qed.

Lemma Ipv4NodeBlock_new_iff n p b :
  in_width 32 n → in_width 8 p →
  Ipv4NodeBlock_new n p = Ok b ↔
  b = {| b4_network := n; b4_prefix_len := p |} ∧ Ipv4NodeBlock_wf b.
Proof.
  intros Hn [Hp1 Hp2]. unfold Ipv4NodeBlock_new, Ipv4NodeBlock_wf.
  destruct (Z.ltb_spec 30 p); [naive_solver lia|].
  unfold prefix_mask_v4. pose proof (canonical_iff 32 p n ltac:(lia) Hn) as Hc.
  destruct (Z.eqb_spec (Z.land n (prefix_mask 32 p)) n); naive_solver lia.
Qed.

Lemma Ipv6NodeBlock_new_iff n p b :
  in_width 128 n → in_width 8 p →
  Ipv6NodeBlock_new n p = Ok b ↔
  b = {| b6_network := n; b6_prefix_len := p |} ∧ Ipv6NodeBlock_wf b.
Proof.
  intros Hn [Hp1 Hp2]. unfold Ipv6NodeBlock_new, Ipv6NodeBlock_wf.
  destruct (Z.ltb_spec 126 p); [naive_solver lia|].
  unfold prefix_mask_v6. pose proof (canonical_iff 128 p n ltac:(lia) Hn) as Hc.
  destruct (Z.eqb_spec (Z.land n (prefix_mask 128 p)) n); naive_solver lia.
Qed.

(** What parses is a canonical block. *)
Lemma Ipv4NodeBlock_from_str_wf value b :
  Ipv4NodeBlock_from_str value = Ok b → Ipv4NodeBlock_wf b.
Proof.
  unfold Ipv4NodeBlock_from_str, parse_prefix. destruct (split_cidr _ _) as [[address prefix]|]; [|done].
  simpl. destruct (parse_ipv4_addr address) eqn:Ea; [|done]. simpl.
  destruct (parse_u 8 prefix) eqn:Ep; [|done]. simpl.
  intros H%Ipv4NodeBlock_new_iff; [by destruct H|by eapply parse_ipv4_addr_width|].
  by eapply parse_u_width in Ep.
Qed.

Lemma Ipv6NodeBlock_from_str_wf value b :
  Ipv6NodeBlock_from_str value = Ok b → Ipv6NodeBlock_wf b.
Proof.
  unfold Ipv6NodeBlock_from_str, parse_prefix. destruct (split_cidr _ _) as [[address prefix]|]; [|done].
  simpl. destruct (parse_ipv6_addr address) eqn:Ea; [|done]. simpl.
  destruct (parse_u 8 prefix) eqn:Ep; [|done]. simpl.
  intros H%Ipv6NodeBlock_new_iff; [by destruct H|by eapply parse_ipv6_addr_width|].
  by eapply parse_u_width in Ep.
Qed.

(** ** Intervals *)

Lemma Ipv4NodeBlock_contains_iff b a :
  Ipv4NodeBlock_wf b → in_width 32 a →
  Ipv4NodeBlock_contains b a = true ↔
  b4_network b ≤ a < b4_network b + 2 ^ (32 - b4_prefix_len b).
Proof.
  intros (Hp & Hn & Hmod) Ha. unfold Ipv4NodeBlock_contains, prefix_mask_v4.
  rewrite Z.eqb_eq, land_prefix_eq_iff by (done || lia). naive_solver.
Qed.

Lemma Ipv6NodeBlock_contains_iff b a :
  Ipv6NodeBlock_wf b → in_width 128 a →
  Ipv6NodeBlock_contains b a = true ↔
  b6_network b ≤ a < b6_network b + 2 ^ (128 - b6_prefix_len b).
Proof.
  intros (Hp & Hn & Hmod) Ha. unfold Ipv6NodeBlock_contains, prefix_mask_v6.
  rewrite Z.eqb_eq, land_prefix_eq_iff by (done || lia). naive_solver.
Qed.

Lemma Ipv4NodeBlock_contains_workload_iff b a :
  Ipv4NodeBlock_wf b → in_width 32 a →
  Ipv4NodeBlock_contains_workload b a = true ↔
  b4_network b + 2 ≤ a < b4_network b + 2 ^ (32 - b4_prefix_len b) - 1.
Proof.
  intros Hwf Ha. unfold Ipv4NodeBlock_contains_workload, saturating_sub.
  rewrite !andb_true_iff, Ipv4NodeBlock_contains_iff by done.
  destruct Hwf as (Hp & _ & _). rewrite Z.shiftl_1_l. lia.
Qed.

Lemma Ipv6NodeBlock_contains_workload_iff b a :
  Ipv6NodeBlock_wf b → in_width 128 a →
  Ipv6NodeBlock_contains_workload b a = true ↔
  b6_network b + 2 ≤ a < b6_network b + 2 ^ (128 - b6_prefix_len b).
Proof.
  intros Hwf Ha. unfold Ipv6NodeBlock_contains_workload, saturating_sub.
  rewrite !andb_true_iff, Ipv6NodeBlock_contains_iff by done. lia.
Qed.

Lemma host_mask_ones w p :
  0 ≤ p ≤ w → Z.lxor (u_max w) (prefix_mask w p) = Z.ones (w - p).
Proof.
  intros Hp. apply Z.bits_inj'. intros i Hi. unfold u_max.
  rewrite Z.lxor_spec, prefix_mask_bits, !Z.testbit_ones by lia.
  destruct (Z.ltb_spec i w), (Z.leb_spec (w - p) i), (Z.ltb_spec i (w - p)),
    (Z.leb_spec 0 i); lia || done.
Qed.

Lemma lor_ones_aligned k n :
  0 ≤ k → n mod 2 ^ k = 0 → Z.lor n (Z.ones k) = n + 2 ^ k - 1.
Proof.
  intros Hk Hn. assert (Z.land n (Z.ones k) = 0) as Hland by (by rewrite Z.land_ones).
  rewrite <-Z.lxor_lor, <-Z.add_nocarry_lxor by done. rewrite Z.ones_equiv. lia.
Qed.

Lemma Ipv4NodeBlock_proof_beacon_eq b :
  Ipv4NodeBlock_wf b →
  Ipv4NodeBlock_proof_beacon b = b4_network b + 2 ^ (32 - b4_prefix_len b) - 2.
Proof.
  intros (Hp & Hn & Hmod). unfold Ipv4NodeBlock_proof_beacon, prefix_mask_v4.
  rewrite host_mask_ones, lor_ones_aligned by (done || lia). lia.
Qed.

(** Candidate addresses stay between the gateway and the proof beacon, so the
    machine addition in [candidate] cannot overflow. *)
Lemma Ipv4NodeBlock_candidate_bounds b i :
  Ipv4NodeBlock_wf b → 0 ≤ i < Ipv4NodeBlock_bounded_capacity b →
  b4_network b + 1 < Ipv4NodeBlock_candidate b i < Ipv4NodeBlock_proof_beacon b ∧
  in_width 32 (Ipv4NodeBlock_candidate b i).
Proof.
  intros Hwf. rewrite Ipv4NodeBlock_proof_beacon_eq by done.
  destruct Hwf as (Hp & Hn & Hmod). unfold Ipv4NodeBlock_bounded_capacity,
    Ipv4NodeBlock_candidate, saturating_sub, MAX_NODE_LEASES.
  pose proof (aligned_top 32 (b4_prefix_len b) _ ltac:(lia) Hn Hmod). unfold in_width in *.
  rewrite Z.shiftl_1_l. lia.
Qed.

Lemma Ipv6NodeBlock_candidate_bounds b i :
  Ipv6NodeBlock_wf b → 0 ≤ i < Ipv6NodeBlock_bounded_capacity b →
  b6_network b + 1 < Ipv6NodeBlock_candidate b i
    < b6_network b + 2 ^ (128 - b6_prefix_len b) ∧
  in_width 128 (Ipv6NodeBlock_candidate b i).
Proof.
  intros (Hp & Hn & Hmod). unfold Ipv6NodeBlock_bounded_capacity,
    Ipv6NodeBlock_candidate, MAX_NODE_LEASES.
  pose proof (aligned_top 128 (b6_prefix_len b) _ ltac:(lia) Hn Hmod). unfold in_width in *.
  destruct (Z.leb_spec (b6_prefix_len b) 111) as [Hle|Hgt].
  - pose proof (Z.pow_le_mono_r 2 17 (128 - b6_prefix_len b) ltac:(lia) ltac:(lia)).
    change (2 ^ 17) with 131072 in *. lia.
  - rewrite Z.shiftl_1_l. lia.
Qed.

(** ** The allocator *)

(** What an accepted lease is: inside both blocks, the block's gateway and
    prefix, and never the network address, the gateway or the IPv4 broadcast. *)
Lemma NodeBlockProvider_validate_iff p lease :
  NodeBlockProvider_wf p →
  in_width 32 (v4_address (lease_ipv4 lease)) →
  in_width 128 (v6_address (lease_ipv6 lease)) →
  NodeBlockProvider_validate p lease = Ok () ↔
  let b4 := ipv4_block p in let b6 := ipv6_block p in
  (v4_prefix_len (lease_ipv4 lease) = b4_prefix_len b4 ∧
   v4_gateway (lease_ipv4 lease) = b4_network b4 + 1 ∧
   b4_network b4 + 2 ≤ v4_address (lease_ipv4 lease)
     < b4_network b4 + 2 ^ (32 - b4_prefix_len b4) - 1) ∧
  (v6_prefix_len (lease_ipv6 lease) = b6_prefix_len b6 ∧
   v6_gateway (lease_ipv6 lease) = b6_network b6 + 1 ∧
   b6_network b6 + 2 ≤ v6_address (lease_ipv6 lease)
     < b6_network b6 + 2 ^ (128 - b6_prefix_len b6)).
Proof.
  intros [H4 H6] Ha4 Ha6. cbv zeta. unfold NodeBlockProvider_validate.
  rewrite <-Ipv4NodeBlock_contains_workload_iff, <-Ipv6NodeBlock_contains_workload_iff by done.
  unfold Ipv4NodeBlock_gateway, Ipv6NodeBlock_gateway.
  destruct (_ && _) eqn:E.
  - rewrite !andb_true_iff, !Z.eqb_eq in E. naive_solver.
  - split; [done|]. intros Hall. exfalso.
    apply not_true_iff_false in E. apply E. rewrite !andb_true_iff, !Z.eqb_eq. naive_solver.
Qed.

Lemma NodeBlockProvider_allocate_inv p used lease :
  NodeBlockProvider_allocate p used = Ok lease →
  ∃ i j,
    0 ≤ i < Ipv4NodeBlock_bounded_capacity (ipv4_block p) ∧
    0 ≤ j < Ipv6NodeBlock_bounded_capacity (ipv6_block p) ∧
    lease = {| lease_ipv4 := {| v4_address := Ipv4NodeBlock_candidate (ipv4_block p) i;
                                v4_gateway := Ipv4NodeBlock_gateway (ipv4_block p);
                                v4_prefix_len := b4_prefix_len (ipv4_block p) |};
               lease_ipv6 := {| v6_address := Ipv6NodeBlock_candidate (ipv6_block p) j;
                                v6_gateway := Ipv6NodeBlock_gateway (ipv6_block p);
                                v6_prefix_len := b6_prefix_len (ipv6_block p) |} |} ∧
    Ipv4NodeBlock_candidate (ipv4_block p) i ∉ used_ipv4 used ∧
    Ipv6NodeBlock_candidate (ipv6_block p) j ∉ used_ipv6 used ∧
    (∀ k, 0 ≤ k < i → Ipv4NodeBlock_candidate (ipv4_block p) k ∈ used_ipv4 used) ∧
    (∀ k, 0 ≤ k < j → Ipv6NodeBlock_candidate (ipv6_block p) k ∈ used_ipv6 used).
Proof.
  unfold NodeBlockProvider_allocate. destruct (_ <=? _); [done|].
  destruct (List.find _ (map (Ipv4NodeBlock_candidate _) _)) as [a4|] eqn:E4; simpl; [|done].
  destruct (List.find _ (map (Ipv6NodeBlock_candidate _) _)) as [a6|] eqn:E6; simpl; [|done].
  intros [= <-].
  apply find_range_Some in E4 as (i & Hi & -> & Hf4 & Hlow4).
  apply find_range_Some in E6 as (j & Hj & -> & Hf6 & Hlow6).
  exists i, j. rewrite negb_true_iff, bool_decide_eq_false in Hf4, Hf6.
  repeat split; try done; try lia.
  - intros k Hk. specialize (Hlow4 k Hk). by rewrite negb_false_iff, bool_decide_eq_true in Hlow4.
  - intros k Hk. specialize (Hlow6 k Hk). by rewrite negb_false_iff, bool_decide_eq_true in Hlow6.
Qed.

(** ** The set of addresses in use *)

Definition lease_a4 (l : DualStackLease) : Z := v4_address (lease_ipv4 l).
Definition lease_a6 (l : DualStackLease) : Z := v6_address (lease_ipv6 l).

(** The two address sets are the images of the leases, and no two leases share
    an address of either family. *)
Record UsedAddresses_wf (used : UsedAddresses) : Prop := {
  used_ipv4_image : used_ipv4 used = set_map lease_a4 (used_leases used);
  used_ipv6_image : used_ipv6 used = set_map lease_a6 (used_leases used);
  used_ipv4_inj l1 l2 : l1 ∈ used_leases used → l2 ∈ used_leases used →
    lease_a4 l1 = lease_a4 l2 → l1 = l2;
  used_ipv6_inj l1 l2 : l1 ∈ used_leases used → l2 ∈ used_leases used →
    lease_a6 l1 = lease_a6 l2 → l1 = l2;
}.

Lemma UsedAddresses_default_wf : UsedAddresses_wf UsedAddresses_default.
Proof. split; [done..|set_solver|set_solver]. Qed.

Lemma UsedAddresses_insert_iff used lease used' :
  UsedAddresses_insert used lease = Ok used' ↔
  lease_a4 lease ∉ used_ipv4 used ∧ lease_a6 lease ∉ used_ipv6 used ∧
  used' = {| used_leases := {[lease]} ∪ used_leases used;
             used_ipv4 := {[lease_a4 lease]} ∪ used_ipv4 used;
             used_ipv6 := {[lease_a6 lease]} ∪ used_ipv6 used |}.
Proof.
  unfold UsedAddresses_insert, lease_a4, lease_a6.
  repeat case_bool_decide; naive_solver.
Qed.

Lemma UsedAddresses_insert_wf used lease used' :
  UsedAddresses_wf used → UsedAddresses_insert used lease = Ok used' →
  UsedAddresses_wf used'.
Proof.
  intros [H4 H6 I4 I6] (Hn4 & Hn6 & ->)%UsedAddresses_insert_iff.
  rewrite H4 in Hn4. rewrite H6 in Hn6. split; simpl.
  - rewrite H4. set_solver.
  - rewrite H6. set_solver.
  - intros l1 l2. rewrite !elem_of_union, !elem_of_singleton.
    intros [->|Hl1] [->|Hl2] Heq; [done|set_solver|set_solver|auto].
  - intros l1 l2. rewrite !elem_of_union, !elem_of_singleton.
    intros [->|Hl1] [->|Hl2] Heq; [done|set_solver|set_solver|auto].
Qed.

Lemma UsedAddresses_remove_iff used lease used' :
  UsedAddresses_remove used lease = Ok used' ↔
  lease ∈ used_leases used ∧
  used' = {| used_leases := used_leases used ∖ {[lease]};
             used_ipv4 := used_ipv4 used ∖ {[lease_a4 lease]};
             used_ipv6 := used_ipv6 used ∖ {[lease_a6 lease]} |}.
Proof. unfold UsedAddresses_remove. case_bool_decide; naive_solver. Qed.

Lemma UsedAddresses_remove_wf used lease used' :
  UsedAddresses_wf used → UsedAddresses_remove used lease = Ok used' →
  UsedAddresses_wf used'.
Proof.
  intros [H4 H6 I4 I6] (Hin & ->)%UsedAddresses_remove_iff. split; simpl.
  - rewrite H4. apply set_eq. intros a.
    rewrite elem_of_difference, !elem_of_map, elem_of_singleton. set_solver.
  - rewrite H6. apply set_eq. intros a.
    rewrite elem_of_difference, !elem_of_map, elem_of_singleton. set_solver.
  - set_solver.
  - set_solver.
Qed.

Lemma UsedAddresses_try_fold leases : ∀ used used',
  UsedAddresses_wf used → try_fold UsedAddresses_insert used leases = Ok used' →
  UsedAddresses_wf used' ∧ used_leases used' = list_to_set leases ∪ used_leases used ∧
  NoDup (lease_a4 <$> leases) ∧ NoDup (lease_a6 <$> leases) ∧
  (∀ l, l ∈ leases → lease_a4 l ∉ used_ipv4 used ∧ lease_a6 l ∉ used_ipv6 used).
Proof.
  induction leases as [|l ls IH]; simpl; intros used used' Hwf Hfold.
  { simplify_eq. repeat split; try apply Hwf; try constructor; set_solver. }
  destruct (UsedAddresses_insert used l) as [used1|] eqn:E; [|done].
  destruct (IH used1 used') as (Hwf' & Hl & Hn4 & Hn6 & Hfresh); [|done|].
  { eauto using UsedAddresses_insert_wf. }
  apply UsedAddresses_insert_iff in E as (F4 & F6 & ->). simpl in *.
  repeat split; try apply Hwf'.
  - rewrite Hl. set_solver.
  - constructor; [|done]. rewrite list_elem_of_fmap. intros (l' & Heq & Hin).
    destruct (Hfresh l' Hin). set_solver.
  - constructor; [|done]. rewrite list_elem_of_fmap. intros (l' & Heq & Hin).
    destruct (Hfresh l' Hin). set_solver.
  - set_solver.
  - set_solver.
Qed.

Lemma UsedAddresses_from_leases_inv leases used :
  UsedAddresses_from_leases leases = Ok used →
  UsedAddresses_wf used ∧ used_leases used = list_to_set leases ∧
  NoDup (lease_a4 <$> leases) ∧ NoDup (lease_a6 <$> leases).
Proof.
  intros H. apply UsedAddresses_try_fold in H as (Hwf & Hl & H4 & H6 & _);
    [|apply UsedAddresses_default_wf].
  repeat split; try apply Hwf; try done. rewrite Hl. simpl. set_solver.
Qed.

(** An allocated lease passes the provider's validation and collides with nothing. *)
Lemma allocate_valid p used lease :
  NodeBlockProvider_wf p →
  NodeBlockProvider_allocate p used = Ok lease →
  NodeBlockProvider_validate p lease = Ok () ∧
  (lease_a4 lease ∉ used_ipv4 used) ∧ (lease_a6 lease ∉ used_ipv6 used).
Proof.
  intros Hwf (i & j & Hi & Hj & -> & F4 & F6 & _)%NodeBlockProvider_allocate_inv.
  destruct (Ipv4NodeBlock_candidate_bounds _ i (proj1 Hwf) Hi) as [B4 W4].
  destruct (Ipv6NodeBlock_candidate_bounds _ j (proj2 Hwf) Hj) as [B6 W6].
  pose proof (Ipv4NodeBlock_proof_beacon_eq _ (proj1 Hwf)) as Hb.
  split; [|done]. apply NodeBlockProvider_validate_iff; simpl; try done.
  unfold Ipv4NodeBlock_gateway, Ipv6NodeBlock_gateway. lia.
Qed.

Lemma allocate_typed p used lease :
  NodeBlockProvider_wf p →
  NodeBlockProvider_allocate p used = Ok lease →
  in_width 32 (lease_a4 lease) ∧ in_width 128 (lease_a6 lease).
Proof.
  intros Hwf (i & j & Hi & Hj & -> & _)%NodeBlockProvider_allocate_inv.
  destruct (Ipv4NodeBlock_candidate_bounds _ i (proj1 Hwf) Hi).
  by destruct (Ipv6NodeBlock_candidate_bounds _ j (proj2 Hwf) Hj).
Qed.

(** ** Properties *)

(** C26. Allocation soundness.  A lease the allocator returns is accepted by the
    provider's own validation, uses a free address of each family, is the
    lowest free candidate of each block, and is never the gateway, the network
    address or the reserved proof beacon of either family. *)
Theorem allocate_sound p used lease :
  NodeBlockProvider_wf p →
  NodeBlockProvider_allocate p used = Ok lease →
  NodeBlockProvider_validate p lease = Ok () ∧
  (lease_a4 lease ∉ used_ipv4 used) ∧ (lease_a6 lease ∉ used_ipv6 used) ∧
  (∀ a, b4_network (ipv4_block p) + 2 ≤ a < lease_a4 lease → a ∈ used_ipv4 used) ∧
  (∀ a, b6_network (ipv6_block p) + 2 ≤ a < lease_a6 lease → a ∈ used_ipv6 used) ∧
  lease_a4 lease ≠ Ipv4NodeBlock_gateway (ipv4_block p) ∧
  lease_a4 lease ≠ Ipv4NodeBlock_proof_beacon (ipv4_block p) ∧
  lease_a6 lease ≠ Ipv6NodeBlock_gateway (ipv6_block p) ∧
  lease_a6 lease ≠ Ipv6NodeBlock_proof_beacon (ipv6_block p).
Proof.
  intros Hwf Hallocate. destruct (allocate_valid _ _ _ Hwf Hallocate) as (Hv & H4 & H6).
  split; [done|]. split; [done|]. split; [done|].
  apply NodeBlockProvider_allocate_inv in Hallocate as (i & j & Hi & Hj & -> & _ & _ & L4 & L6).
  destruct (Ipv4NodeBlock_candidate_bounds _ i (proj1 Hwf) Hi) as [B4 W4].
  destruct (Ipv6NodeBlock_candidate_bounds _ j (proj2 Hwf) Hj) as [B6 W6].
  pose proof (Ipv4NodeBlock_proof_beacon_eq _ (proj1 Hwf)) as Hb.
  unfold lease_a4, lease_a6, Ipv4NodeBlock_gateway, Ipv6NodeBlock_gateway,
    Ipv6NodeBlock_proof_beacon; simpl. repeat split; try lia.
  - intros a Ha. replace a with (Ipv4NodeBlock_candidate (ipv4_block p)
      (a - b4_network (ipv4_block p) - 2)) by (unfold Ipv4NodeBlock_candidate; lia).
    apply L4. unfold Ipv4NodeBlock_candidate in Ha. lia.
  - intros a Ha. replace a with (Ipv6NodeBlock_candidate (ipv6_block p)
      (a - b6_network (ipv6_block p) - 2)) by (unfold Ipv6NodeBlock_candidate; lia).
    apply L6. unfold Ipv6NodeBlock_candidate in Ha. lia.
Qed.

Lemma image_size (f : DualStackLease → Z) (X : gset DualStackLease) :
  (size (set_map f X : gset Z) ≤ size X)%nat.
Proof.
  induction X as [|x X Hx IH] using set_ind_L; [done|].
  rewrite set_map_union_L, set_map_singleton_L, (size_union {[x]} X) by set_solver.
  rewrite size_union_alt, !size_singleton. etrans; [|apply Nat.add_le_mono_l, IH].
  apply Nat.add_le_mono_l, subseteq_size. set_solver.
Qed.

(** If every candidate of a block were in use, the block's capacity would be at
    most the number of leases. *)
Lemma free_candidate (used : gset Z) (cap base : Z) :
  Z.of_nat (size used) < cap →
  List.find (λ c, negb (bool_decide (c ∈ used))) (map (λ i, base + (i + 2)) (range cap)) ≠ None.
Proof.
  intros Hsize Hnone. rewrite find_range_None in Hnone.
  set (cands := (λ i, base + (i + 2)) <$> seqZ 0 cap).
  assert (Hnd : NoDup cands).
  { apply NoDup_fmap_2; [|apply NoDup_seqZ]. intros x y. lia. }
  assert (Hsub : (list_to_set cands : gset Z) ⊆ used).
  { intros a. rewrite elem_of_list_to_set. intros (i & -> & Hi)%list_elem_of_fmap.
    apply elem_of_seqZ in Hi. specialize (Hnone i ltac:(lia)).
    by rewrite negb_false_iff, bool_decide_eq_true in Hnone. }
  apply subseteq_size in Hsub. rewrite size_list_to_set in Hsub by done.
  unfold cands in Hsub. rewrite length_fmap, length_seqZ in Hsub. lia.
Qed.

(** Allocation progress.  As long as fewer leases are recorded than either
    block can serve, allocation succeeds: exhaustion is reported only when a
    block really is full. *)
Lemma allocate_progress p used :
  NodeBlockProvider_wf p → UsedAddresses_wf used →
  UsedAddresses_len used < Ipv4NodeBlock_bounded_capacity (ipv4_block p) →
  UsedAddresses_len used < Ipv6NodeBlock_bounded_capacity (ipv6_block p) →
  ∃ lease, NodeBlockProvider_allocate p used = Ok lease.
Proof.
  intros Hwf [H4 H6 _ _] Hc4 Hc6. unfold NodeBlockProvider_allocate.
  pose proof (image_size lease_a4 (used_leases used)).
  pose proof (image_size lease_a6 (used_leases used)).
  unfold UsedAddresses_len in *. destruct (Z.leb_spec MAX_NODE_LEASES
    (Z.of_nat (size (used_leases used)))) as [Hle|Hlt].
  { unfold Ipv4NodeBlock_bounded_capacity in Hc4. lia. }
  pose proof (free_candidate (used_ipv4 used) (Ipv4NodeBlock_bounded_capacity (ipv4_block p))
    (b4_network (ipv4_block p)) ltac:(rewrite H4; lia)) as F4.
  pose proof (free_candidate (used_ipv6 used) (Ipv6NodeBlock_bounded_capacity (ipv6_block p))
    (b6_network (ipv6_block p)) ltac:(rewrite H6; lia)) as F6.
  unfold Ipv4NodeBlock_candidate, Ipv6NodeBlock_candidate.
  destruct (List.find _ _) as [a4|]; [|done]. simpl.
  destruct (List.find _ _) as [a6|]; [|done]. simpl. eauto.
Qed.

(** Exhaustion is exact.  The allocator fails only with [Exhausted]: either
    the node-wide lease bound is reached, or every candidate of the IPv4 block
    is in use, or every candidate of the IPv6 block is in use, and the error
    names the family and the block's exact capacity. *)
Lemma allocate_exhausted p used e :
  NodeBlockProvider_allocate p used = Err e ↔
  (MAX_NODE_LEASES ≤ UsedAddresses_len used ∧ e = Exhausted Ipv4 MAX_NODE_LEASES) ∨
  (UsedAddresses_len used < MAX_NODE_LEASES ∧
   (∀ i, 0 ≤ i < Ipv4NodeBlock_bounded_capacity (ipv4_block p) →
      Ipv4NodeBlock_candidate (ipv4_block p) i ∈ used_ipv4 used) ∧
   e = Exhausted Ipv4 (Ipv4NodeBlock_bounded_capacity (ipv4_block p))) ∨
  (UsedAddresses_len used < MAX_NODE_LEASES ∧
   (∃ i, 0 ≤ i < Ipv4NodeBlock_bounded_capacity (ipv4_block p) ∧
      Ipv4NodeBlock_candidate (ipv4_block p) i ∉ used_ipv4 used) ∧
   (∀ i, 0 ≤ i < Ipv6NodeBlock_bounded_capacity (ipv6_block p) →
      Ipv6NodeBlock_candidate (ipv6_block p) i ∈ used_ipv6 used) ∧
   e = Exhausted Ipv6 (Ipv6NodeBlock_bounded_capacity (ipv6_block p))).
Proof.
  assert (Hall : ∀ (u : gset Z) f cap,
    List.find (λ c, negb (bool_decide (c ∈ u))) (map f (range cap)) = None ↔
    ∀ i, 0 ≤ i < cap → f i ∈ u).
  { intros. rewrite find_range_None. setoid_rewrite negb_false_iff.
    by setoid_rewrite bool_decide_eq_true. }
  unfold NodeBlockProvider_allocate.
  destruct (Z.leb_spec MAX_NODE_LEASES (UsedAddresses_len used)); [naive_solver lia|].
  destruct (List.find _ (map (Ipv4NodeBlock_candidate _) _)) as [a4|] eqn:E4; simpl.
  2:{ pose proof (proj1 (Hall _ _ _) E4). naive_solver lia. }
  apply find_range_Some in E4 as (i & Hi & -> & Hf & _).
  rewrite negb_true_iff, bool_decide_eq_false in Hf.
  destruct (List.find _ (map (Ipv6NodeBlock_candidate _) _)) as [a6|] eqn:E6; simpl.
  - apply find_range_Some in E6 as (j & Hj & -> & Hf6 & _).
    rewrite negb_true_iff, bool_decide_eq_false in Hf6. naive_solver lia.
  - pose proof (proj1 (Hall _ _ _) E6). naive_solver lia.
Qed.

(** Releasing what was recorded restores the set.  On a well-formed set,
    recording a lease succeeds exactly when neither address is in use, keeps the
    set well-formed, and removing the same lease gives back the original set. *)
Lemma used_insert_remove used lease :
  UsedAddresses_wf used →
  (lease_a4 lease ∉ used_ipv4 used) → (lease_a6 lease ∉ used_ipv6 used) →
  ∃ used', UsedAddresses_insert used lease = Ok used' ∧ UsedAddresses_wf used' ∧
    UsedAddresses_len used' = UsedAddresses_len used + 1 ∧
    UsedAddresses_remove used' lease = Ok used.
Proof.
  intros Hwf H4 H6. destruct (UsedAddresses_insert used lease) as [used'|] eqn:E.
  2:{ exfalso. destruct (UsedAddresses_insert_iff used lease
        {| used_leases := {[lease]} ∪ used_leases used;
           used_ipv4 := {[lease_a4 lease]} ∪ used_ipv4 used;
           used_ipv6 := {[lease_a6 lease]} ∪ used_ipv6 used |}) as [_ Hok].
      rewrite Hok in E; naive_solver. }
  exists used'. split; [done|]. split; [eauto using UsedAddresses_insert_wf|].
  apply UsedAddresses_insert_iff in E as (_ & _ & ->).
  assert (Hnl : lease ∉ used_leases used).
  { intros Hin. apply H4. rewrite (used_ipv4_image _ Hwf). set_solver. }
  split.
  - unfold UsedAddresses_len; simpl. rewrite size_union, size_singleton by set_solver. lia.
  - apply UsedAddresses_remove_iff. simpl. split; [set_solver|].
    destruct used as [ls u4 u6]; simpl in *. f_equal; set_solver.
Qed.

(** Restoring from a journal detects every collision.  [from_leases]
    succeeds exactly when no two leases share an address of either family, and
    the set it builds is well-formed and holds exactly those leases. *)
Lemma used_from_leases leases :
  (∃ used, UsedAddresses_from_leases leases = Ok used ∧ UsedAddresses_wf used ∧
           used_leases used = list_to_set leases) ↔
  NoDup (lease_a4 <$> leases) ∧ NoDup (lease_a6 <$> leases).
Proof.
  split.
  { intros (used & H & _). by apply UsedAddresses_from_leases_inv in H as (_ & _ & ? & ?). }
  intros [N4 N6]. unfold UsedAddresses_from_leases.
  assert (Hgen : ∀ ls used, NoDup (lease_a4 <$> ls) → NoDup (lease_a6 <$> ls) →
    (∀ l, l ∈ ls → lease_a4 l ∉ used_ipv4 used) → (∀ l, l ∈ ls → lease_a6 l ∉ used_ipv6 used) →
    ∃ used', try_fold UsedAddresses_insert used ls = Ok used').
  { clear N4 N6. induction ls as [|l ls IH]; simpl; intros used N4 N6 F4 F6; [eauto|].
    apply NoDup_cons in N4 as [Hl4 N4]. apply NoDup_cons in N6 as [Hl6 N6].
    destruct (UsedAddresses_insert_iff used l
        {| used_leases := {[l]} ∪ used_leases used;
           used_ipv4 := {[lease_a4 l]} ∪ used_ipv4 used;
           used_ipv6 := {[lease_a6 l]} ∪ used_ipv6 used |}) as [_ ->]; [|set_solver].
    apply IH; simpl; try done.
    - intros l' Hin. rewrite elem_of_union, elem_of_singleton. intros [Heq|Hin'].
      + apply Hl4. rewrite <-Heq. by apply list_elem_of_fmap_2.
      + by apply (F4 l'); [set_solver|].
    - intros l' Hin. rewrite elem_of_union, elem_of_singleton. intros [Heq|Hin'].
      + apply Hl6. rewrite <-Heq. by apply list_elem_of_fmap_2.
      + by apply (F6 l'); [set_solver|]. }
  destruct (Hgen leases UsedAddresses_default) as [used Hu]; simpl; [done..|set_solver|set_solver|].
  exists used. split; [done|]. by apply UsedAddresses_from_leases_inv in Hu as (? & ? & _).
Qed.

Lemma overlap_intervals w p q n m :
  0 ≤ p ≤ w → 0 ≤ q ≤ w → in_width w n → in_width w m →
  n mod 2 ^ (w - p) = 0 → m mod 2 ^ (w - q) = 0 →
  Z.land n (prefix_mask w (Z.min p q)) = Z.land m (prefix_mask w (Z.min p q)) ↔
  ∃ a, in_width w a ∧ n ≤ a < n + 2 ^ (w - p) ∧ m ≤ a < m + 2 ^ (w - q).
Proof.
  intros Hp Hq Hn Hm An Am.
  assert (Hsym : ∀ p q n m, 0 ≤ p ≤ w → 0 ≤ q ≤ w → in_width w n → in_width w m →
    n mod 2 ^ (w - p) = 0 → m mod 2 ^ (w - q) = 0 → p ≤ q →
    Z.land n (prefix_mask w p) = Z.land m (prefix_mask w p) ↔
    ∃ a, in_width w a ∧ n ≤ a < n + 2 ^ (w - p) ∧ m ≤ a < m + 2 ^ (w - q)).
  { clear. intros p q n m Hp Hq Hn Hm An Am Hle.
    rewrite (proj2 (canonical_iff w p n Hp Hn) An).
    assert (0 < 2 ^ (w - q)) by (apply Z.pow_pos_nonneg; lia).
    transitivity (Z.land m (prefix_mask w p) = n); [done|].
    rewrite land_prefix_eq_iff by done. split.
    - intros [_ Hin]. exists m. unfold in_width in *. lia.
    - intros (a & _ & Ha1 & Ha2). split; [done|].
      pose proof (aligned_nested (w - q) (w - p) m n a ltac:(lia) Am An Ha2 Ha1). lia. }
  destruct (Z.le_ge_cases p q) as [Hle|Hge].
  - rewrite Z.min_l by done. by apply Hsym.
  - rewrite Z.min_r by done. split; intros H.
    + apply symmetry, (Hsym q p m n) in H; try done. naive_solver.
    + apply symmetry, (Hsym q p m n); try done. naive_solver.
Qed.

Lemma Ipv4NodeBlock_overlaps_iff a b :
  Ipv4NodeBlock_wf a → Ipv4NodeBlock_wf b →
  Ipv4NodeBlock_overlaps a b = true ↔
  ∃ x, in_width 32 x ∧ Ipv4NodeBlock_contains a x = true ∧ Ipv4NodeBlock_contains b x = true.
Proof.
  intros Ha Hb. unfold Ipv4NodeBlock_overlaps, prefix_mask_v4. rewrite Z.eqb_eq.
  pose proof Ha as (? & ? & ?). pose proof Hb as (? & ? & ?).
  rewrite overlap_intervals by (done || lia). apply exist_proper. intros x.
  pose proof (Ipv4NodeBlock_contains_iff a x Ha).
  pose proof (Ipv4NodeBlock_contains_iff b x Hb). naive_solver.
Qed.

Lemma Ipv6NodeBlock_overlaps_iff a b :
  Ipv6NodeBlock_wf a → Ipv6NodeBlock_wf b →
  Ipv6NodeBlock_overlaps a b = true ↔
  ∃ x, in_width 128 x ∧ Ipv6NodeBlock_contains a x = true ∧ Ipv6NodeBlock_contains b x = true.
Proof.
  intros Ha Hb. unfold Ipv6NodeBlock_overlaps, prefix_mask_v6. rewrite Z.eqb_eq.
  pose proof Ha as (? & ? & ?). pose proof Hb as (? & ? & ?).
  rewrite overlap_intervals by (done || lia). apply exist_proper. intros x.
  pose proof (Ipv6NodeBlock_contains_iff a x Ha).
  pose proof (Ipv6NodeBlock_contains_iff b x Hb). naive_solver.
Qed.

(** What the provider hands out lies in its blocks. *)
Lemma allocate_contained p used lease :
  NodeBlockProvider_wf p → NodeBlockProvider_allocate p used = Ok lease →
  in_width 32 (lease_a4 lease) ∧ Ipv4NodeBlock_contains (ipv4_block p) (lease_a4 lease) = true ∧
  in_width 128 (lease_a6 lease) ∧ Ipv6NodeBlock_contains (ipv6_block p) (lease_a6 lease) = true.
Proof.
  intros Hwf (i & j & Hi & Hj & -> & _)%NodeBlockProvider_allocate_inv.
  destruct (Ipv4NodeBlock_candidate_bounds _ i (proj1 Hwf) Hi) as [B4 W4].
  destruct (Ipv6NodeBlock_candidate_bounds _ j (proj2 Hwf) Hj) as [B6 W6].
  pose proof (Ipv4NodeBlock_proof_beacon_eq _ (proj1 Hwf)).
  unfold lease_a4, lease_a6. simpl. split_and!; try done.
  - apply Ipv4NodeBlock_contains_iff; [apply Hwf|done|lia].
  - apply Ipv6NodeBlock_contains_iff; [apply Hwf|done|lia].
Qed.

(** The overlap test is exact.  Two blocks of the same family overlap, as
    [overlaps] decides, exactly when some address lies in both. *)
Lemma overlaps_exact :
  (∀ a b, Ipv4NodeBlock_wf a → Ipv4NodeBlock_wf b →
    Ipv4NodeBlock_overlaps a b = true ↔
    ∃ x, in_width 32 x ∧ Ipv4NodeBlock_contains a x = true ∧ Ipv4NodeBlock_contains b x = true) ∧
  (∀ a b, Ipv6NodeBlock_wf a → Ipv6NodeBlock_wf b →
    Ipv6NodeBlock_overlaps a b = true ↔
    ∃ x, in_width 128 x ∧ Ipv6NodeBlock_contains a x = true ∧ Ipv6NodeBlock_contains b x = true).
Proof. split; [apply Ipv4NodeBlock_overlaps_iff|apply Ipv6NodeBlock_overlaps_iff]. Qed.

(** ** Witnesses *)

Definition demo_provider : NodeBlockProvider :=
  {| ipv4_block := {| b4_network := 170524672; b4_prefix_len := 29 |};
     ipv6_block := {| b6_network := 336294682933583715844663186250927177728;
                      b6_prefix_len := 125 |} |}.

Definition demo_lease (i : Z) : DualStackLease :=
  {| lease_ipv4 := {| v4_address := 170524674 + i; v4_gateway := 170524673; v4_prefix_len := 29 |};
     lease_ipv6 := {| v6_address := 336294682933583715844663186250927177730 + i;
                      v6_gateway := 336294682933583715844663186250927177729;
                      v6_prefix_len := 125 |} |}.

Lemma demo_provider_wf : NodeBlockProvider_wf demo_provider.
Proof. repeat split; (reflexivity || discriminate). Qed.

Lemma allocate_sound_witness :
  NodeBlockProvider_allocate demo_provider UsedAddresses_default = Ok (demo_lease 0) ∧
  NodeBlockProvider_validate demo_provider (demo_lease 0) = Ok ().
Proof.
  split; [by vm_compute|].
  refine (proj1 (allocate_sound demo_provider UsedAddresses_default (demo_lease 0)
    demo_provider_wf _)).
  by vm_compute.
Defined.



