(* ===== verification/PolicyIr.v ===== *)
(** * Policy IR and its evaluation ([crates/unf-policy/src/lib.rs])

    The Kubernetes-independent policy representation: selectors over endpoint
    metadata and address blocks, rules, policies, and the evaluator that turns a
    set of policies and a flow into a decision with its provenance.  Label maps
    are [gmap string string]; addresses are integers. *)

From S2P Require Import Prelude Common.

(** ** Selectors and address blocks *)

Record Ipv4Cidr := { c4_network : Z; c4_prefix_len : Z }.
Record Ipv4Block := { blk4_cidr : Ipv4Cidr; blk4_except : list Ipv4Cidr }.
Record Ipv6Cidr := { c6_network : Z; c6_prefix_len : Z }.
Record Ipv6Block := { blk6_cidr : Ipv6Cidr; blk6_except : list Ipv6Cidr }.

Inductive LabelExpressionOperator := OpIn | OpNotIn | OpExists | OpDoesNotExist.

Record LabelExpression := {
  le_key : string;
  le_operator : LabelExpressionOperator;
  le_values : gset string;
}.

Record IdentitySelector := {
  sel_namespace : option string;
  sel_namespace_match_labels : gmap string string;
  sel_namespace_match_expressions : list LabelExpression;
  sel_service_account : option string;
  sel_application : option string;
  sel_match_labels : gmap string string;
  sel_match_expressions : list LabelExpression;
  sel_ipv4_blocks : list Ipv4Block;
  sel_ipv6_blocks : list Ipv6Block;
}.

Definition IdentitySelector_default : IdentitySelector := {|
  sel_namespace := None;
  sel_namespace_match_labels := ∅;
  sel_namespace_match_expressions := [];
  sel_service_account := None;
  sel_application := None;
  sel_match_labels := ∅;
  sel_match_expressions := [];
  sel_ipv4_blocks := [];
  sel_ipv6_blocks := [];
|}.

Record NamedPort := { np_name : string; np_protocol : Protocol }.

#[export] Instance NamedPort_eq_dec : EqDecision NamedPort.
Proof. solve_decision. Defined.
#[export] Instance NamedPort_countable : Countable NamedPort.
Proof.
  apply (inj_countable' (λ n, (np_name n, np_protocol n))
    (λ '(s, p), {| np_name := s; np_protocol := p |})). by intros [].
Defined.
#[export] Instance NamedPort_ord : Ord NamedPort := cmp_via (λ n, (np_name n, np_protocol n)).
#[export] Instance NamedPort_ord_laws : OrdLaws NamedPort.
Proof. apply cmp_via_laws. by intros [] [] [= -> ->]. Qed.

Record Endpoint := {
  ep_identity : IdentityId;
  ep_namespace : string;
  ep_namespace_labels : gmap string string;
  ep_service_account : string;
  ep_application : option string;
  ep_labels : gmap string string;
  ep_named_ports : gmap NamedPort Z;
}.

#[export] Instance Endpoint_eq_dec : EqDecision Endpoint.
Proof. solve_decision. Defined.

Record Ipv4Endpoint := { ep4_address : Z; ep4_endpoint : Endpoint }.
Record Ipv6Endpoint := { ep6_address : Z; ep6_endpoint : Endpoint }.

#[export] Instance Ipv4Cidr_eq_dec : EqDecision Ipv4Cidr.
Proof. solve_decision. Defined.
#[export] Instance Ipv6Cidr_eq_dec : EqDecision Ipv6Cidr.
Proof. solve_decision. Defined.
#[export] Instance Ipv6Cidr_countable : Countable Ipv6Cidr.
Proof.
  apply (inj_countable' (λ c, (c6_network c, c6_prefix_len c))
    (λ '(n, p), {| c6_network := n; c6_prefix_len := p |})). by intros [].
Defined.
#[export] Instance Ipv4Cidr_ord : Ord Ipv4Cidr := cmp_via (λ c, (c4_network c, c4_prefix_len c)).
#[export] Instance Ipv4Cidr_ord_laws : OrdLaws Ipv4Cidr.
Proof. apply cmp_via_laws. by intros [] [] [= -> ->]. Qed.
#[export] Instance Ipv6Cidr_ord : Ord Ipv6Cidr := cmp_via (λ c, (c6_network c, c6_prefix_len c)).
#[export] Instance Ipv6Cidr_ord_laws : OrdLaws Ipv6Cidr.
Proof. apply cmp_via_laws. by intros [] [] [= -> ->]. Qed.

Definition Ipv4Cidr_contains (c : Ipv4Cidr) (address : Z) : bool :=
  if 32 <? c4_prefix_len c then false
  else Z.land address (prefix_mask 32 (c4_prefix_len c)) =? c4_network c.

Definition Ipv4Cidr_address_count (c : Ipv4Cidr) : Z :=
  if 32 <? c4_prefix_len c then u_max 64 else Z.shiftl 1 (32 - c4_prefix_len c).

Definition Ipv4Cidr_contains_cidr (c other : Ipv4Cidr) : bool :=
  (c4_prefix_len c <=? c4_prefix_len other) && Ipv4Cidr_contains c (c4_network other).

Definition Ipv4Cidr_addresses (c : Ipv4Cidr) : list Z :=
  let count := default (u_max 32) (try_width 32 (Ipv4Cidr_address_count c)) in
  map (λ offset, c4_network c + offset) (range count).

Definition Ipv4Block_contains (b : Ipv4Block) (address : Z) : bool :=
  Ipv4Cidr_contains (blk4_cidr b) address
  && negb (existsb (λ except, Ipv4Cidr_contains except address) (blk4_except b)).

Definition Ipv4Block_addresses (b : Ipv4Block) : list Z :=
  List.filter (Ipv4Block_contains b) (Ipv4Cidr_addresses (blk4_cidr b)).

Definition Ipv6Cidr_contains (c : Ipv6Cidr) (address : Z) : bool :=
  if 128 <? c6_prefix_len c then false
  else Z.land address (prefix_mask 128 (c6_prefix_len c)) =? c6_network c.

Definition Ipv6Cidr_contains_cidr (c other : Ipv6Cidr) : bool :=
  (c6_prefix_len c <=? c6_prefix_len other) && Ipv6Cidr_contains c (c6_network other).

Definition Ipv6Block_contains (b : Ipv6Block) (address : Z) : bool :=
  Ipv6Cidr_contains (blk6_cidr b) address
  && negb (existsb (λ except, Ipv6Cidr_contains except address) (blk6_except b)).

(** [(1..=u32::MAX).find(..)]: the search is bounded by the number of exact
    addresses, since one more candidate than that cannot all be taken. *)
Fixpoint first_absent (fuel : nat) (address : Z) (exact_addresses : gset Z) : option Z :=
  match fuel with
  | O => None
  | S fuel =>
      if u_max 32 <? address then None
      else if bool_decide (address ∈ exact_addresses)
      then first_absent fuel (address + 1) exact_addresses
      else Some address
  end.

Definition arbitrary_ipv4_address (exact_addresses : gset Z) : option Z :=
  first_absent (S (size exact_addresses)) 1 exact_addresses.

Definition LabelExpression_matches (e : LabelExpression) (labels : gmap string string) : bool :=
  match le_operator e with
  | OpIn => is_some_and (labels !! le_key e) (λ value, bool_decide (value ∈ le_values e))
  | OpNotIn => is_none_or (labels !! le_key e) (λ value, negb (bool_decide (value ∈ le_values e)))
  | OpExists => bool_decide (is_Some (labels !! le_key e))
  | OpDoesNotExist => negb (bool_decide (is_Some (labels !! le_key e)))
  end.

(** [iter().all(|(key, value)| labels.get(key) == Some(value))]. *)
Definition labels_all (expected labels : gmap string string) : bool :=
  forallb (λ '(key, value), bool_decide (labels !! key = Some value)) (map_to_list expected).

Definition IdentitySelector_matches (s : IdentitySelector) (endpoint : Endpoint) : bool :=
  is_none_or (sel_namespace s) (λ expected, bool_decide (expected = ep_namespace endpoint))
  && labels_all (sel_namespace_match_labels s) (ep_namespace_labels endpoint)
  && forallb (λ e, LabelExpression_matches e (ep_namespace_labels endpoint))
       (sel_namespace_match_expressions s)
  && is_none_or (sel_service_account s)
       (λ expected, bool_decide (expected = ep_service_account endpoint))
  && is_none_or (sel_application s)
       (λ expected, bool_decide (ep_application endpoint = Some expected))
  && labels_all (sel_match_labels s) (ep_labels endpoint)
  && forallb (λ e, LabelExpression_matches e (ep_labels endpoint)) (sel_match_expressions s).

Definition IdentitySelector_is_unconstrained (s : IdentitySelector) : bool :=
  bool_decide (sel_namespace s = None)
  && bool_decide (sel_namespace_match_labels s = ∅)
  && is_nil (sel_namespace_match_expressions s)
  && bool_decide (sel_service_account s = None)
  && bool_decide (sel_application s = None)
  && bool_decide (sel_match_labels s = ∅)
  && is_nil (sel_match_expressions s).

Definition IdentitySelector_matches_addressed (s : IdentitySelector) (endpoint : Endpoint)
    (ipv4 ipv6 : option Z) : bool :=
  let external_endpoint_matches :=
    negb (ep_identity endpoint =? 0)
    || negb (is_nil (sel_ipv4_blocks s))
    || negb (is_nil (sel_ipv6_blocks s))
    || IdentitySelector_is_unconstrained s in
  external_endpoint_matches
  && IdentitySelector_matches s endpoint
  && match ipv4, ipv6 with
     | Some address, None =>
         is_nil (sel_ipv6_blocks s)
         && (is_nil (sel_ipv4_blocks s)
             || existsb (λ block, Ipv4Block_contains block address) (sel_ipv4_blocks s))
     | None, Some address =>
         is_nil (sel_ipv4_blocks s)
         && (is_nil (sel_ipv6_blocks s)
             || existsb (λ block, Ipv6Block_contains block address) (sel_ipv6_blocks s))
     | None, None => is_nil (sel_ipv4_blocks s) && is_nil (sel_ipv6_blocks s)
     | Some _, Some _ => false
     end.

Definition Endpoint_resolve_named_port (e : Endpoint) (name : string) (protocol : Protocol) :
    option Z :=
  option_map snd
    (List.find (λ '(named_port, _),
       bool_decide (np_name named_port = name) && bool_decide (np_protocol named_port = protocol))
       (btree_iter (ep_named_ports e))).

(** ** Rules, policies and flows *)

Record RuleProvenance := {
  prov_policy_id : PolicyId;
  prov_policy_name : string;
  prov_namespace : string;
  prov_rule_index : Z;
}.

Inductive DestinationPort :=
| PortAny
| PortNumber (port : Z)
| PortNamed (name : string)
| PortRange (start end_ : Z).

#[export] Instance DestinationPort_eq_dec : EqDecision DestinationPort.
Proof. solve_decision. Defined.

Record PolicyRule := {
  rule_id : RuleId;
  rule_source : IdentitySelector;
  rule_destination : IdentitySelector;
  rule_protocol : option Protocol;
  rule_destination_port : DestinationPort;
  rule_action : PolicyAction;
  rule_provenance : RuleProvenance;
}.

Inductive PolicyOrigin := Native | KubernetesNetworkPolicy.
Inductive PolicyEnforcementMode := Enforce | Shadow.

#[export] Instance PolicyOrigin_eq_dec : EqDecision PolicyOrigin.
Proof. solve_decision. Defined.
#[export] Instance PolicyEnforcementMode_eq_dec : EqDecision PolicyEnforcementMode.
Proof. solve_decision. Defined.

Record PolicyIr := {
  pol_id : PolicyId;
  pol_name : string;
  pol_namespace : string;
  pol_priority : Z;
  pol_origin : PolicyOrigin;
  pol_direction : PolicyDirection;
  pol_target : IdentitySelector;
  pol_default_action : PolicyAction;
  pol_enforcement_mode : PolicyEnforcementMode;
  pol_rules : list PolicyRule;
}.

#[export] Instance Ipv4Block_eq_dec : EqDecision Ipv4Block.
Proof. solve_decision. Defined.
#[export] Instance Ipv6Block_eq_dec : EqDecision Ipv6Block.
Proof. solve_decision. Defined.
#[export] Instance LabelExpressionOperator_eq_dec : EqDecision LabelExpressionOperator.
Proof. solve_decision. Defined.
#[export] Instance LabelExpression_eq_dec : EqDecision LabelExpression.
Proof. solve_decision. Defined.
#[export] Instance IdentitySelector_eq_dec : EqDecision IdentitySelector.
Proof. solve_decision. Defined.
#[export] Instance RuleProvenance_eq_dec : EqDecision RuleProvenance.
Proof. solve_decision. Defined.
#[export] Instance PolicyRule_eq_dec : EqDecision PolicyRule.
Proof. solve_decision. Defined.
#[export] Instance PolicyIr_eq_dec : EqDecision PolicyIr.
Proof. solve_decision. Defined.

Record Flow := {
  flow_source : Endpoint;
  flow_destination : Endpoint;
  flow_protocol : Protocol;
  flow_destination_port : Z;
  flow_source_ipv4 : option Z;
  flow_source_ipv6 : option Z;
}.

Record DestinationAddresses := { dst_ipv4 : option Z; dst_ipv6 : option Z }.
Definition DestinationAddresses_default : DestinationAddresses :=
  {| dst_ipv4 := None; dst_ipv6 := None |}.

Record PolicyDecision := {
  dec_direction : PolicyDirection;
  dec_verdict : Verdict;
  dec_shadow_verdict : option Verdict;
  dec_shadow_reason : option PolicyReason;
  dec_shadow_policy_id : option PolicyId;
  dec_shadow_rule_id : option RuleId;
  dec_reason : PolicyReason;
  dec_policy_id : option PolicyId;
  dec_rule_id : option RuleId;
  dec_audits : list RuleProvenance;
}.

Record PolicyEnforcementDecision := {
  enf_verdict : Verdict;
  enf_reason : PolicyReason;
  enf_policy_id : option PolicyId;
}.

(** ** Evaluation *)

(** The candidate's rank: priority, action, policy, rule, reason. *)
Definition RankedDecision : Type :=
  Z * PolicyAction * PolicyId * option RuleId * PolicyReason.

Definition action_rank (a : PolicyAction) : Z :=
  match a with ActDeny => 0 | ActAllow => 1 | ActAudit => 2 end.

Definition action_verdict (a : PolicyAction) : Verdict :=
  match a with ActAllow => VAllow | ActDeny => VDeny | ActAudit => VAudit end.

Definition compare_decisions (left right : RankedDecision) : comparison :=
  let '(p1, a1, i1, r1, _) := left in
  let '(p2, a2, i2, r2, _) := right in
  then_cmp (cmp p1 p2)
    (then_cmp (cmp (action_rank a1) (action_rank a2))
      (then_cmp (cmp i1 i2) (cmp r1 r2))).

Definition KUBERNETES_NETWORK_POLICY_PRIORITY : Z := 1000000.

Definition port_matches (port : DestinationPort) (flow : Flow) : bool :=
  match port with
  | PortAny => true
  | PortNumber port => port =? flow_destination_port flow
  | PortNamed name =>
      is_some_and
        (Endpoint_resolve_named_port (flow_destination flow) name (flow_protocol flow))
        (λ port, port =? flow_destination_port flow)
  | PortRange start end_ =>
      (start <=? flow_destination_port flow) && (flow_destination_port flow <=? end_)
  end.

Definition rule_matches (rule : PolicyRule) (flow : Flow)
    (destination_addresses : DestinationAddresses) : bool :=
  IdentitySelector_matches_addressed (rule_source rule) (flow_source flow)
    (flow_source_ipv4 flow) (flow_source_ipv6 flow)
  && IdentitySelector_matches_addressed (rule_destination rule) (flow_destination flow)
       (dst_ipv4 destination_addresses) (dst_ipv6 destination_addresses)
  && is_none_or (rule_protocol rule) (λ value, bool_decide (value = flow_protocol flow))
  && port_matches (rule_destination_port rule) flow.

(** The [consider] closure: keep the candidate that compares strictly less. *)
Definition consider (best : option RankedDecision) (candidate : RankedDecision) :
    option RankedDecision :=
  match best with
  | None => Some candidate
  | Some current =>
      match compare_decisions candidate current with Lt => Some candidate | _ => best end
  end.

Definition decide_native (flow : Flow) (destination_addresses : DestinationAddresses)
    (best : option RankedDecision) (policy : PolicyIr) : option RankedDecision :=
  let enforcing_rules :=
    List.filter (λ rule, negb (bool_decide (rule_action rule = ActAudit)))
      (List.filter (λ rule, rule_matches rule flow destination_addresses) (pol_rules policy)) in
  match enforcing_rules with
  | _ :: _ =>
      fold_left (λ best rule,
        consider best (pol_priority policy, rule_action rule, pol_id policy,
                       Some (rule_id rule), ExplicitRule)) enforcing_rules best
  | [] =>
      if bool_decide (pol_default_action policy = ActAudit) then best
      else consider best (pol_priority policy, pol_default_action policy, pol_id policy,
                          None, DefaultAction)
  end.

Definition decide_for_mode (policies : list PolicyIr) (flow : Flow)
    (destination_addresses : DestinationAddresses) (mode : PolicyEnforcementMode) :
    option (Verdict * PolicyReason * option PolicyId * option RuleId) :=
  let in_mode policy := bool_decide (pol_enforcement_mode policy = mode) in
  let native policy := bool_decide (pol_origin policy = Native) in
  let compat policy := bool_decide (pol_origin policy = KubernetesNetworkPolicy) in
  let best :=
    fold_left (decide_native flow destination_addresses)
      (List.filter (λ policy, in_mode policy && native policy) policies) None in
  let matched :=
    List.filter (λ rule, rule_matches rule flow destination_addresses)
      (List.flat_map pol_rules
        (List.filter (λ policy, in_mode policy && compat policy) policies)) in
  let best :=
    fold_left (λ best rule,
      consider best (KUBERNETES_NETWORK_POLICY_PRIORITY, rule_action rule,
                     prov_policy_id (rule_provenance rule), Some (rule_id rule), ExplicitRule))
      matched best in
  let best :=
    if negb (is_nil matched) then best
    else
      fold_left (λ best policy,
        consider best (pol_priority policy, pol_default_action policy, pol_id policy,
                       None, DefaultAction))
        (List.filter (λ policy, in_mode policy && compat policy
           && negb (bool_decide (pol_default_action policy = ActAudit))) policies) best in
  option_map (λ '(_, action, policy, rule, reason),
    (action_verdict action, reason, Some policy, rule)) best.

Definition matching_audits (policies : list PolicyIr) (flow : Flow)
    (destination_addresses : DestinationAddresses) : list RuleProvenance :=
  map rule_provenance
    (List.filter (λ rule, bool_decide (rule_action rule = ActAudit)
                          && rule_matches rule flow destination_addresses)
      (List.flat_map pol_rules policies)).

Definition selected_endpoint (direction : PolicyDirection) (flow : Flow) : Endpoint :=
  match direction with Ingress => flow_destination flow | Egress => flow_source flow end.

Definition applicable (policies : list PolicyIr) (direction : PolicyDirection) (flow : Flow) :
    list PolicyIr :=
  List.filter (λ policy, bool_decide (pol_direction policy = direction)
    && IdentitySelector_matches (pol_target policy) (selected_endpoint direction flow)) policies.

Definition no_applicable_decision :
    Verdict * PolicyReason * option PolicyId * option RuleId :=
  (VAllow, NoApplicablePolicy, None, None).

Definition evaluate_for_direction_with_addresses (policies : list PolicyIr)
    (direction : PolicyDirection) (flow : Flow) (destination_addresses : DestinationAddresses) :
    PolicyDecision :=
  let applicable := applicable policies direction flow in
  let audits :=
    sort_by (λ left right, leb (prov_policy_id left, prov_rule_index left)
                               (prov_policy_id right, prov_rule_index right))
      (matching_audits applicable flow destination_addresses) in
  let enforced := decide_for_mode applicable flow destination_addresses Enforce in
  let shadow := decide_for_mode applicable flow destination_addresses Shadow in
  let '(verdict, reason, policy_id, rule_id) := default no_applicable_decision enforced in
  let '(shadow_verdict, shadow_reason, shadow_policy_id, shadow_rule_id) :=
    match shadow with
    | None => (None, None, None, None)
    | Some (verdict, reason, policy_id, rule_id) =>
        (Some verdict, Some reason, policy_id, rule_id)
    end in
  {| dec_direction := direction;
     dec_verdict := verdict;
     dec_shadow_verdict := shadow_verdict;
     dec_shadow_reason := shadow_reason;
     dec_shadow_policy_id := shadow_policy_id;
     dec_shadow_rule_id := shadow_rule_id;
     dec_reason := reason;
     dec_policy_id := policy_id;
     dec_rule_id := rule_id;
     dec_audits := audits |}.

Definition evaluate_for_direction (policies : list PolicyIr) (direction : PolicyDirection)
    (flow : Flow) : PolicyDecision :=
  evaluate_for_direction_with_addresses policies direction flow DestinationAddresses_default.

Definition evaluate (policies : list PolicyIr) (flow : Flow) : PolicyDecision :=
  evaluate_for_direction policies Ingress flow.

(** The [debug_assert!] of the preselected entry point: every policy of the slice
    selects the flow's endpoint in this direction. *)
Definition preselected (policies : list PolicyIr) (direction : PolicyDirection) (flow : Flow) :
    bool :=
  forallb (λ policy, bool_decide (pol_direction policy = direction)
    && IdentitySelector_matches (pol_target policy) (selected_endpoint direction flow)) policies.

(** [direction] only feeds the debug assertion, which release builds compile out. *)
Definition evaluate_preselected_enforcement_with_addresses (policies : list PolicyIr)
    (direction : PolicyDirection) (flow : Flow) (destination_addresses : DestinationAddresses) :
    PolicyEnforcementDecision :=
  let '(verdict, reason, policy_id, _) :=
    default no_applicable_decision
      (decide_for_mode policies flow destination_addresses Enforce) in
  {| enf_verdict := verdict; enf_reason := reason; enf_policy_id := policy_id |}.

(** ** Specification of a decision

    What may decide a flow in one enforcement mode, independently of the order in
    which the code visits policies and rules. *)

Inductive candidate (policies : list PolicyIr) (flow : Flow) (addresses : DestinationAddresses)
    (mode : PolicyEnforcementMode) : RankedDecision → Prop :=
| candidate_native_rule policy rule :
    policy ∈ policies → pol_enforcement_mode policy = mode → pol_origin policy = Native →
    rule ∈ pol_rules policy → rule_matches rule flow addresses = true →
    rule_action rule ≠ ActAudit →
    candidate policies flow addresses mode
      (pol_priority policy, rule_action rule, pol_id policy, Some (rule_id rule), ExplicitRule)
| candidate_native_default policy :
    policy ∈ policies → pol_enforcement_mode policy = mode → pol_origin policy = Native →
    pol_default_action policy ≠ ActAudit →
    (∀ rule, rule ∈ pol_rules policy → rule_matches rule flow addresses = true →
       rule_action rule = ActAudit) →
    candidate policies flow addresses mode
      (pol_priority policy, pol_default_action policy, pol_id policy, None, DefaultAction)
| candidate_compat_rule policy rule :
    policy ∈ policies → pol_enforcement_mode policy = mode →
    pol_origin policy = KubernetesNetworkPolicy →
    rule ∈ pol_rules policy → rule_matches rule flow addresses = true →
    candidate policies flow addresses mode
      (KUBERNETES_NETWORK_POLICY_PRIORITY, rule_action rule,
       prov_policy_id (rule_provenance rule), Some (rule_id rule), ExplicitRule)
| candidate_compat_default policy :
    policy ∈ policies → pol_enforcement_mode policy = mode →
    pol_origin policy = KubernetesNetworkPolicy → pol_default_action policy ≠ ActAudit →
    (∀ other rule, other ∈ policies → pol_enforcement_mode other = mode →
       pol_origin other = KubernetesNetworkPolicy → rule ∈ pol_rules other →
       rule_matches rule flow addresses = false) →
    candidate policies flow addresses mode
      (pol_priority policy, pol_default_action policy, pol_id policy, None, DefaultAction).

(** The key [compare_decisions] orders by. *)
Definition decision_rank (c : RankedDecision) : Z * (Z * (PolicyId * option RuleId)) :=
  let '(priority, action, policy, rule, _) := c in (priority, (action_rank action, (policy, rule))).

Definition render (c : RankedDecision) :
    Verdict * PolicyReason * option PolicyId * option RuleId :=
  let '(_, action, policy, rule, reason) := c in
  (action_verdict action, reason, Some policy, rule).

(** A best candidate: no other candidate ranks before it. *)
Definition best_candidate (P : RankedDecision → Prop) (c : RankedDecision) : Prop :=
  P c ∧ ∀ c', P c' → leb (decision_rank c) (decision_rank c') = true.

(** ** Lemmas *)

Lemma compare_decisions_rank c c' :
  compare_decisions c c' = cmp (decision_rank c) (decision_rank c').
Proof. by destruct c as [[[[??]?]?]?], c' as [[[[??]?]?]?]. Qed.

#[export] Instance action_rank_inj : Inj (=) (=) action_rank.
Proof. by intros [] []. Qed.

(** The candidates in the order the loops of [decide_for_mode] consider them. *)
Definition native_candidates (flow : Flow) (addresses : DestinationAddresses)
    (policy : PolicyIr) : list RankedDecision :=
  match List.filter (λ rule, negb (bool_decide (rule_action rule = ActAudit)))
          (List.filter (λ rule, rule_matches rule flow addresses) (pol_rules policy)) with
  | [] =>
      if bool_decide (pol_default_action policy = ActAudit) then []
      else [(pol_priority policy, pol_default_action policy, pol_id policy, None, DefaultAction)]
  | rules =>
      map (λ rule, (pol_priority policy, rule_action rule, pol_id policy,
                    Some (rule_id rule), ExplicitRule)) rules
  end.

Definition of_mode (mode : PolicyEnforcementMode) (origin : PolicyOrigin) (policy : PolicyIr) :
    bool :=
  bool_decide (pol_enforcement_mode policy = mode) && bool_decide (pol_origin policy = origin).

Definition compat_matched (policies : list PolicyIr) (flow : Flow)
    (addresses : DestinationAddresses) (mode : PolicyEnforcementMode) : list PolicyRule :=
  List.filter (λ rule, rule_matches rule flow addresses)
    (List.flat_map pol_rules (List.filter (of_mode mode KubernetesNetworkPolicy) policies)).

Definition candidates (policies : list PolicyIr) (flow : Flow) (addresses : DestinationAddresses)
    (mode : PolicyEnforcementMode) : list RankedDecision :=
  List.flat_map (native_candidates flow addresses) (List.filter (of_mode mode Native) policies)
  ++ map (λ rule, (KUBERNETES_NETWORK_POLICY_PRIORITY, rule_action rule,
                   prov_policy_id (rule_provenance rule), Some (rule_id rule), ExplicitRule))
       (compat_matched policies flow addresses mode)
  ++ (if is_nil (compat_matched policies flow addresses mode) then
        map (λ policy, (pol_priority policy, pol_default_action policy, pol_id policy,
                        None, DefaultAction))
          (List.filter (λ policy, of_mode mode KubernetesNetworkPolicy policy
             && negb (bool_decide (pol_default_action policy = ActAudit))) policies)
      else []).

Lemma decide_native_fold flow addresses best policy :
  decide_native flow addresses best policy
  = fold_left consider (native_candidates flow addresses policy) best.
Proof.
  unfold decide_native, native_candidates.
  destruct (List.filter _ (List.filter _ _)); [by case_bool_decide|].
  apply (fold_left_map consider).
Qed.

Lemma decide_for_mode_fold policies flow addresses mode :
  decide_for_mode policies flow addresses mode
  = option_map render (fold_left consider (candidates policies flow addresses mode) None).
Proof.
  unfold decide_for_mode, candidates, compat_matched. rewrite !fold_left_app.
  assert (Hn : ∀ l b, fold_left (decide_native flow addresses) l b
    = fold_left consider (List.flat_map (native_candidates flow addresses) l) b).
  { intros l b. rewrite <-fold_left_flat_map. revert b.
    induction l; intros b; simpl; [done|]. by rewrite decide_native_fold. }
  rewrite Hn. f_equal.
  change (λ policy, bool_decide (pol_enforcement_mode policy = mode)
     && bool_decide (pol_origin policy = KubernetesNetworkPolicy))
    with (of_mode mode KubernetesNetworkPolicy).
  change (λ policy, bool_decide (pol_enforcement_mode policy = mode)
     && bool_decide (pol_origin policy = Native)) with (of_mode mode Native).
  rewrite (fold_left_map consider). destruct (is_nil _) eqn:E; simpl; [|done].
  by rewrite (fold_left_map consider).
Qed.

Lemma of_mode_true mode origin policy :
  of_mode mode origin policy = true ↔
  pol_enforcement_mode policy = mode ∧ pol_origin policy = origin.
Proof. unfold of_mode. by rewrite andb_true_iff, !bool_decide_eq_true. Qed.

Lemma elem_of_native_candidates flow addresses policy c :
  c ∈ native_candidates flow addresses policy ↔
  (∃ rule, rule ∈ pol_rules policy ∧ rule_matches rule flow addresses = true ∧
     rule_action rule ≠ ActAudit ∧
     c = (pol_priority policy, rule_action rule, pol_id policy, Some (rule_id rule), ExplicitRule))
  ∨ (pol_default_action policy ≠ ActAudit ∧
     (∀ rule, rule ∈ pol_rules policy → rule_matches rule flow addresses = true →
        rule_action rule = ActAudit) ∧
     c = (pol_priority policy, pol_default_action policy, pol_id policy, None, DefaultAction)).
Proof.
  unfold native_candidates. set (rules := List.filter _ (List.filter _ _)).
  assert (Hr : ∀ r, r ∈ rules ↔
    r ∈ pol_rules policy ∧ rule_matches r flow addresses = true ∧ rule_action r ≠ ActAudit).
  { intros r. unfold rules. rewrite !elem_of_list_filter, negb_true_iff, bool_decide_eq_false.
    naive_solver. }
  destruct rules as [|r0 rs] eqn:E.
  - assert (Ha : ∀ r, r ∈ pol_rules policy → rule_matches r flow addresses = true →
      rule_action r = ActAudit).
    { intros r Hin Hm. destruct (decide (rule_action r = ActAudit)); [done|].
      destruct (not_elem_of_nil r). by apply Hr. }
    case_bool_decide; [rewrite elem_of_nil|rewrite list_elem_of_singleton]; naive_solver.
  - rewrite elem_of_list_map. setoid_rewrite Hr. split; [naive_solver|].
    intros [?|(_ & Ha & _)]; [naive_solver|].
    destruct (proj1 (Hr r0)) as (? & ? & Hn); [by left|]. destruct Hn; auto.
Qed.

Lemma elem_of_compat_matched policies flow addresses mode rule :
  rule ∈ compat_matched policies flow addresses mode ↔
  ∃ policy, policy ∈ policies ∧ pol_enforcement_mode policy = mode ∧
    pol_origin policy = KubernetesNetworkPolicy ∧ rule ∈ pol_rules policy ∧
    rule_matches rule flow addresses = true.
Proof.
  unfold compat_matched. rewrite elem_of_list_filter, elem_of_list_flat_map.
  setoid_rewrite elem_of_list_filter. setoid_rewrite of_mode_true. naive_solver.
Qed.

Lemma elem_of_candidates policies flow addresses mode c :
  c ∈ candidates policies flow addresses mode ↔ candidate policies flow addresses mode c.
Proof.
  pose proof (elem_of_compat_matched policies flow addresses mode) as Hcm. revert Hcm.
  unfold candidates. generalize (compat_matched policies flow addresses mode) as matched.
  intros matched Hcm. rewrite !elem_of_app, elem_of_list_flat_map, elem_of_list_map.
  setoid_rewrite elem_of_list_filter. setoid_rewrite of_mode_true.
  setoid_rewrite elem_of_native_candidates. split.
  - intros [(p & (Hp & Hm & Ho) & [(r & ? & ? & ? & ->)|(? & ? & ->)])|[(r & Hr & ->)|Hd]].
    + by eapply candidate_native_rule.
    + by eapply candidate_native_default.
    + apply Hcm in Hr as (p & ? & ? & ? & ? & ?).
      by eapply candidate_compat_rule.
    + destruct (is_nil _) eqn:E; [|by apply not_elem_of_nil in Hd].
      apply elem_of_list_map in Hd as (p & Hp & ->).
      rewrite elem_of_list_filter, andb_true_iff, of_mode_true, negb_true_iff,
        bool_decide_eq_false in Hp. destruct Hp as (? & (? & ?) & ?).
      eapply candidate_compat_default; try done. intros other rule ? ? ? ?.
      apply not_true_iff_false. intros ?. rewrite is_nil_true in E. apply (E rule).
      apply Hcm. eauto 10.
  - destruct 1 as [p r|p|p r|p ? ? ? ? Hall].
    + left. exists p. naive_solver.
    + left. exists p. naive_solver.
    + right. left. exists r. rewrite Hcm. naive_solver.
    + right. right. assert (is_nil matched = true) as ->.
      { apply is_nil_true. intros r (q & ? & ? & ? & ? & Hm)%Hcm.
        by rewrite (Hall q r) in Hm. }
      apply elem_of_list_map. exists p. split; [|done].
      by rewrite elem_of_list_filter, andb_true_iff, of_mode_true, negb_true_iff,
        bool_decide_eq_false.
Qed.

(** Folding [consider] keeps a candidate of least rank. *)
Lemma fold_consider_best l b :
  match fold_left consider l b with
  | None => b = None ∧ l = []
  | Some c => best_candidate (λ c, b = Some c ∨ c ∈ l) c
  end.
Proof.
  revert b. induction l as [|x l IH]; intros b; simpl.
  { destruct b as [c|]; [|done]. split; [by left|].
    intros c' [[= ->]|?%not_elem_of_nil]; [apply leb_refl|done]. }
  specialize (IH (consider b x)). destruct (fold_left consider l (consider b x)) as [c|].
  - destruct IH as [Hc Hmin]. assert (Hx : ∃ d, consider b x = Some d ∧
      (b = Some d ∨ d = x) ∧ leb (decision_rank d) (decision_rank x) = true ∧
      (∀ d', b = Some d' → leb (decision_rank d) (decision_rank d') = true)).
    { destruct b as [d|]; simpl; 
      [|by exists x; split_and!; [|right|apply leb_refl|]].
      rewrite compare_decisions_rank. destruct (cmp (decision_rank x) _) eqn:E.
      - exists d. split_and!; auto.
        + unfold leb. by rewrite (cmp_antisym (decision_rank x)), E.
        + intros ? [= <-]. apply leb_refl.
      - exists x. split_and!; [auto..|apply leb_refl|].
        intros ? [= <-]. unfold leb. by rewrite E.
      - exists d. split_and!; auto.
        + unfold leb. by rewrite (cmp_antisym (decision_rank x)), E.
        + intros ? [= <-]. apply leb_refl. }
    destruct Hx as (d & Hd & Hor & Hdx & Hdb). pose proof (Hmin d (or_introl Hd)) as Hcd.
    split.
    + rewrite elem_of_cons. rewrite Hd in Hc. naive_solver.
    + intros c' [Hb|[->|Hin]%elem_of_cons].
      * eapply leb_trans; eauto.
      * eapply leb_trans; eauto.
      * apply Hmin. by right.
  - destruct IH as [Hn _]. destruct b; simpl in Hn; [by destruct (compare_decisions _ _)|done].
Qed.

Lemma decide_for_mode_Some policies flow addresses mode d :
  decide_for_mode policies flow addresses mode = Some d →
  ∃ c, best_candidate (candidate policies flow addresses mode) c ∧ d = render c.
Proof.
  rewrite decide_for_mode_fold.
  pose proof (fold_consider_best (candidates policies flow addresses mode) None) as H.
  destruct (fold_left _ _ _) as [c|]; [|done]. intros [= <-]. exists c. split; [|done].
  destruct H as [[?|Hin] Hmin]; [done|]. split; [by apply elem_of_candidates|].
  intros c' Hc'. apply Hmin. right. by apply elem_of_candidates.
Qed.

Lemma decide_for_mode_None policies flow addresses mode :
  decide_for_mode policies flow addresses mode = None ↔
  ∀ c, ¬ candidate policies flow addresses mode c.
Proof.
  rewrite decide_for_mode_fold. setoid_rewrite <-elem_of_candidates.
  pose proof (fold_consider_best (candidates policies flow addresses mode) None) as H.
  destruct (fold_left _ _ _) as [c|]; simpl.
  - split; [done|]. intros Hn. destruct H as [[?|Hin] _]; [done|]. by destruct (Hn c).
  - destruct H as [_ ->]. split; [|done]. intros _ c. apply not_elem_of_nil.
Qed.

(** The reason of a candidate is determined by its rule, so two candidates of the
    same rank are the same candidate. *)
Lemma candidate_reason policies flow addresses mode c :
  candidate policies flow addresses mode c →
  c.2 = match c.1.2 with Some _ => ExplicitRule | None => DefaultAction end.
Proof. by destruct 1. Qed.

Lemma best_candidate_unique policies flow addresses mode c c' :
  best_candidate (candidate policies flow addresses mode) c →
  best_candidate (candidate policies flow addresses mode) c' → c = c'.
Proof.
  intros [Hc Hmin] [Hc' Hmin']. pose proof (leb_antisym _ _ (Hmin _ Hc') (Hmin' _ Hc)) as Hr.
  apply candidate_reason in Hc, Hc'.
  destruct c as [[[[p a] i] r] s], c' as [[[[p' a'] i'] r'] s']. simpl in *.
  injection Hr as -> ->%(inj _) -> ->. by subst.
Qed.

Lemma decide_for_mode_iff policies flow addresses mode d :
  decide_for_mode policies flow addresses mode = Some d ↔
  ∃ c, best_candidate (candidate policies flow addresses mode) c ∧ d = render c.
Proof.
  split; [apply decide_for_mode_Some|]. intros (c & Hc & ->).
  destruct (decide_for_mode policies flow addresses mode) as [d|] eqn:E.
  - apply decide_for_mode_Some in E as (c' & Hc' & ->). by rewrite (best_candidate_unique _ _ _ _ _ _ Hc Hc').
  - rewrite decide_for_mode_None in E. destruct (E c). apply Hc.
Qed.

(** Equal sets of candidates give the same decision. *)
Lemma decide_for_mode_ext policies policies' flow flow' addresses addresses' mode :
  (∀ c, candidate policies flow addresses mode c ↔ candidate policies' flow' addresses' mode c) →
  decide_for_mode policies flow addresses mode = decide_for_mode policies' flow' addresses' mode.
Proof.
  intros Hext. apply option_eq. intros d. rewrite !decide_for_mode_iff.
  unfold best_candidate. setoid_rewrite Hext. done.
Qed.

(** ** Properties *)

(** C25. [decide_for_mode] implements its specification: it returns the rendering
    of a candidate that no other candidate outranks (least priority value, then
    deny before allow before audit, then least policy and rule identifier), that
    candidate is unique, and it returns nothing exactly when there is no
    candidate. *)
Theorem decide_for_mode_refines policies flow addresses mode :
  (∀ d, decide_for_mode policies flow addresses mode = Some d ↔
     ∃ c, best_candidate (candidate policies flow addresses mode) c ∧ d = render c) ∧
  (decide_for_mode policies flow addresses mode = None ↔
     ∀ c, ¬ candidate policies flow addresses mode c) ∧
  (∀ c c', best_candidate (candidate policies flow addresses mode) c →
     best_candidate (candidate policies flow addresses mode) c' → c = c').
Proof.
  split_and!.
  - intros d. apply decide_for_mode_iff.
  - apply decide_for_mode_None.
  - apply best_candidate_unique.
Qed.

Lemma candidate_incl policies policies' flow addresses mode c :
  (∀ p, pol_enforcement_mode p = mode → p ∈ policies ↔ p ∈ policies') →
  candidate policies flow addresses mode c → candidate policies' flow addresses mode c.
Proof.
  intros Hsub. destruct 1 as [p r Hp|p Hp|p r Hp|p Hp ? ? ? Hall].
  - eapply candidate_native_rule; try done. by apply Hsub.
  - eapply candidate_native_default; try done. by apply Hsub.
  - eapply candidate_compat_rule; try done. by apply Hsub.
  - eapply candidate_compat_default; try done; [by apply Hsub|].
    intros other rule Ho Hm. apply Hall; [by apply Hsub|done].
Qed.

(** The decision in one mode depends only on the set of policies of that mode. *)
Lemma decide_for_mode_set policies policies' flow addresses mode :
  (∀ p, pol_enforcement_mode p = mode → p ∈ policies ↔ p ∈ policies') →
  decide_for_mode policies flow addresses mode = decide_for_mode policies' flow addresses mode.
Proof.
  intros Hset. apply decide_for_mode_ext. intros c. split; apply candidate_incl; [done|].
  intros p Hp. by rewrite Hset.
Qed.

Lemma elem_of_applicable policies direction flow p :
  p ∈ applicable policies direction flow ↔
  p ∈ policies ∧ pol_direction p = direction ∧
  IdentitySelector_matches (pol_target p) (selected_endpoint direction flow) = true.
Proof.
  unfold applicable. by rewrite elem_of_list_filter, andb_true_iff, bool_decide_eq_true.
Qed.

(** A policy id and rule index determine the whole provenance of a rule. *)
Definition provenance_functional (policies : list PolicyIr) : Prop :=
  ∀ p q r s, p ∈ policies → q ∈ policies → r ∈ pol_rules p → s ∈ pol_rules q →
    prov_policy_id (rule_provenance r) = prov_policy_id (rule_provenance s) →
    prov_rule_index (rule_provenance r) = prov_rule_index (rule_provenance s) →
    rule_provenance r = rule_provenance s.

Lemma elem_of_matching_audits policies flow addresses x :
  x ∈ matching_audits policies flow addresses ↔
  ∃ p r, p ∈ policies ∧ r ∈ pol_rules p ∧ rule_action r = ActAudit ∧
    rule_matches r flow addresses = true ∧ x = rule_provenance r.
Proof.
  unfold matching_audits. rewrite elem_of_list_map. split.
  - intros (r & [(p & Hp & Hr)%elem_of_list_flat_map Hm]%elem_of_list_filter & ->).
    apply andb_true_iff in Hm as [?%bool_decide_eq_true ?]. by exists p, r.
  - intros (p & r & ? & ? & ? & ? & ->). exists r. split; [|done].
    rewrite elem_of_list_filter, elem_of_list_flat_map, andb_true_iff, bool_decide_eq_true.
    split; [by exists p|done].
Qed.

Lemma list_filter_perm {A} (P : A → bool) (l l' : list A) :
  l ≡ₚ l' → List.filter P l ≡ₚ List.filter P l'.
Proof.
  induction 1 as [|x l l' _ IH|x y l|l l' l'' _ IH1 _ IH2]; simpl.
  - done.
  - destruct (P x); by rewrite IH.
  - destruct (P x), (P y); try done. apply Permutation_swap.
  - by rewrite IH1.
Qed.

Lemma matching_audits_perm policies policies' flow addresses :
  policies ≡ₚ policies' →
  matching_audits policies flow addresses ≡ₚ matching_audits policies' flow addresses.
Proof.
  intros Hp. unfold matching_audits. apply Permutation_map, list_filter_perm.
  by apply Permutation_flat_map.
Qed.

(** Evaluation does not depend on the order of the policies: permuting the
    policy list changes neither the verdict, the reason, the shadow result nor
    the provenance, and the audit list is the same list, provided rule
    provenance is functional. *)
Lemma evaluate_order_independent policies policies' direction flow addresses :
  policies ≡ₚ policies' → provenance_functional policies →
  evaluate_for_direction_with_addresses policies direction flow addresses
  = evaluate_for_direction_with_addresses policies' direction flow addresses.
Proof.
  intros Hp Hf. unfold evaluate_for_direction_with_addresses.
  assert (Ha : applicable policies direction flow ≡ₚ applicable policies' direction flow)
    by by apply list_filter_perm.
  assert (Hd : ∀ mode, decide_for_mode (applicable policies direction flow) flow addresses mode
    = decide_for_mode (applicable policies' direction flow) flow addresses mode).
  { intros mode. apply decide_for_mode_set. intros q _. by rewrite Ha. }
  rewrite !Hd.
  set (le := λ left right, leb _ _).
  assert (Hs : sort_by le (matching_audits (applicable policies direction flow) flow addresses)
    = sort_by le (matching_audits (applicable policies' direction flow) flow addresses));
    [|by rewrite Hs].
  apply sort_by_unique.
  - intros x y. unfold le. apply leb_total.
  - intros x y z. unfold le. apply leb_trans.
  - intros x y (p & r & Hp1 & Hr & _ & _ & ->)%elem_of_matching_audits
      (q & s & Hq & Hs & _ & _ & ->)%elem_of_matching_audits H1 H2.
    apply elem_of_applicable in Hp1 as [Hp1 _], Hq as [Hq _].
    pose proof (leb_antisym _ _ H1 H2) as [= Hi Hx]. by apply (Hf p q r s).
  - by apply matching_audits_perm.
Qed.

(** A small cluster for the witnesses: a web and a database workload, and policies
    that select the database. *)
Definition demo_endpoint (id : Z) (app : string) : Endpoint := {|
  ep_identity := id; ep_namespace := "prod"; ep_namespace_labels := ∅;
  ep_service_account := "default"; ep_application := Some app;
  ep_labels := {["app" := app]}; ep_named_ports := ∅ |}.

Definition demo_app (app : string) : IdentitySelector := {|
  sel_namespace := Some "prod"; sel_namespace_match_labels := ∅;
  sel_namespace_match_expressions := []; sel_service_account := None;
  sel_application := None; sel_match_labels := {["app" := app]};
  sel_match_expressions := []; sel_ipv4_blocks := []; sel_ipv6_blocks := [] |}.

Definition demo_rule (policy id : Z) (action : PolicyAction) : PolicyRule := {|
  rule_id := id; rule_source := demo_app "web"; rule_destination := IdentitySelector_default;
  rule_protocol := Some Tcp; rule_destination_port := PortNumber 5432; rule_action := action;
  rule_provenance := {| prov_policy_id := policy; prov_policy_name := "db";
                        prov_namespace := "prod"; prov_rule_index := id |} |}.

Definition demo_policy (id : Z) (origin : PolicyOrigin) (mode : PolicyEnforcementMode)
    (action : PolicyAction) : PolicyIr := {|
  pol_id := id; pol_name := "db"; pol_namespace := "prod";
  pol_priority := KUBERNETES_NETWORK_POLICY_PRIORITY; pol_origin := origin;
  pol_direction := Ingress; pol_target := demo_app "db"; pol_default_action := ActDeny;
  pol_enforcement_mode := mode; pol_rules := [demo_rule id 0 action; demo_rule id 1 ActAudit] |}.

Definition demo_flow (port : Z) : Flow := {|
  flow_source := demo_endpoint 7 "web"; flow_destination := demo_endpoint 8 "db";
  flow_protocol := Tcp; flow_destination_port := port;
  flow_source_ipv4 := None; flow_source_ipv6 := None |}.


(** Shadow policies never influence enforcement: removing them from the policy
    set leaves the enforced verdict, its reason and its provenance unchanged. *)
Lemma shadow_policies_do_not_enforce policies direction flow addresses :
  let full := evaluate_for_direction_with_addresses policies direction flow addresses in
  let enforced := evaluate_for_direction_with_addresses
    (List.filter (λ p, bool_decide (pol_enforcement_mode p = Enforce)) policies)
    direction flow addresses in
  dec_verdict full = dec_verdict enforced ∧ dec_reason full = dec_reason enforced ∧
  dec_policy_id full = dec_policy_id enforced ∧ dec_rule_id full = dec_rule_id enforced ∧
  dec_shadow_verdict enforced = None.
Proof.
  unfold evaluate_for_direction_with_addresses. cbv zeta.
  set (kept := List.filter _ policies).
  rewrite (decide_for_mode_set (applicable policies direction flow)
    (applicable kept direction flow) flow addresses Enforce).
  2:{ intros p Hp. rewrite !elem_of_applicable. unfold kept.
      rewrite elem_of_list_filter, bool_decide_eq_true. naive_solver. }
  assert (Hs : decide_for_mode (applicable kept direction flow) flow addresses Shadow = None).
  { apply decide_for_mode_None. intros c Hc.
    assert (Hno : ∀ p, p ∈ applicable kept direction flow → pol_enforcement_mode p = Enforce).
    { intros p [Hp _]%elem_of_applicable. unfold kept in Hp.
      by apply elem_of_list_filter in Hp as [_ ?%bool_decide_eq_true]. }
    destruct Hc as [p ? Hp|p Hp|p ? Hp|p Hp]; apply Hno in Hp; congruence. }
  rewrite Hs. clear Hs.
  destruct (default _ _) as [[[v r] i] k], (decide_for_mode _ _ _ Shadow) as [[[[??]?]?]|];
    done.
Qed.


(** What the Kubernetes NetworkPolicy compiler emits: enforced allow rules under a
    default deny. *)
Definition compat_policy (policy : PolicyIr) : Prop :=
  pol_origin policy = KubernetesNetworkPolicy ∧ pol_enforcement_mode policy = Enforce ∧
  pol_default_action policy = ActDeny ∧ Forall (λ r, rule_action r = ActAllow) (pol_rules policy).

(** Among compiled NetworkPolicies a flow is allowed when no policy isolates the
    selected endpoint or when some rule of some isolating policy matches, and is
    denied otherwise. *)
Lemma compat_verdict policies direction flow addresses :
  Forall compat_policy policies →
  let d := evaluate_for_direction_with_addresses policies direction flow addresses in
  (dec_verdict d = VAllow ↔
     applicable policies direction flow = [] ∨
     ∃ p r, p ∈ applicable policies direction flow ∧ r ∈ pol_rules p ∧
            rule_matches r flow addresses = true) ∧
  (dec_verdict d = VAllow ∨ dec_verdict d = VDeny).
Proof.
  intros Hall. cbv zeta. unfold evaluate_for_direction_with_addresses.
  set (sel := applicable policies direction flow).
  assert (Hsel : ∀ p, p ∈ sel → compat_policy p).
  { intros p [Hp _]%elem_of_applicable. rewrite Forall_forall in Hall. auto. }
  destruct (decide_for_mode sel flow addresses Enforce) as [d|] eqn:E; simpl.
  - apply decide_for_mode_Some in E as (c & [Hc _] & ->).
    destruct Hc as [p r Hp|p Hp|p r Hp ? ? Hr Hm|p Hp ? ? ? Hno];
      destruct (Hsel p Hp) as (? & ? & Hd & Hallow); try congruence.
    + rewrite Forall_forall in Hallow. simpl. rewrite (Hallow r Hr). simpl.
      destruct (decide_for_mode _ _ _ Shadow) as [[[[??]?]?]|]; simpl; naive_solver.
    + simpl. rewrite Hd. simpl.
      assert (¬ (sel = [] ∨ ∃ q r, q ∈ sel ∧ r ∈ pol_rules q ∧ rule_matches r flow addresses = true)).
      { intros [Hn|(q & r & Hq & Hr & Hm)]; [rewrite Hn in Hp; by apply not_elem_of_nil in Hp|].
        destruct (Hsel q Hq) as (? & ? & _). rewrite (Hno q r) in Hm; done. }
      destruct (decide_for_mode _ _ _ Shadow) as [[[[??]?]?]|]; simpl; naive_solver.
  - rewrite decide_for_mode_None in E.
    assert (sel = []).
    { destruct sel as [|p l]; [done|]. destruct (Hsel p) as (? & ? & Hd & _); [by left|].
      destruct (is_nil (compat_matched (p :: l) flow addresses Enforce)) eqn:En.
      - destruct (E _ (candidate_compat_default _ _ _ _ p ltac:(by left) ltac:(done)
          ltac:(done) ltac:(congruence) ltac:(intros o r ? ? ? ?; apply not_true_iff_false; intros ?;
            rewrite is_nil_true in En; apply (En r), elem_of_compat_matched; by exists o))).
      - destruct (compat_matched _ _ _ _) as [|r rs] eqn:Em; [done|].
        assert (Hr : r ∈ compat_matched (p :: l) flow addresses Enforce)
          by (rewrite Em; by left).
        apply elem_of_compat_matched in Hr as (q & ? & ? & ? & ? & ?).
        destruct (E _ (candidate_compat_rule _ _ _ _ q r ltac:(done) ltac:(done) ltac:(done)
          ltac:(done) ltac:(done))). }
    destruct (decide_for_mode _ _ _ Shadow) as [[[[??]?]?]|]; simpl; naive_solver.
Qed.
