(* ===== verification/IdentityRegistry.v ===== *)
(** * The identity authority ([crates/unf-state])

    The controller admits each Pod under a numeric identity derived from its metadata, and
    indexes the Pod's addresses by that identity.  The registry refuses reserved and colliding
    numbers and addresses another Pod owns, and counts the Pods of each identity. *)

From S2P Require Import Prelude Common NetAddr.

(** ** Provisional identities *)

(** One byte of FNV-1a. *)
Definition fnv_step (hash : Z) (byte : Ascii.ascii) : Z :=
  (Z.lxor hash (Z.of_N (Ascii.N_of_ascii byte)) * 0x01000193) mod 2 ^ 32.

Definition provisional_identity_id (identity_key : string) : IdentityId :=
  let hash := fold_left fnv_step (String.list_ascii_of_string identity_key) 0x811c9dc5 in
  if hash =? 0 then 1 else hash.

(** ** Registry *)

Record NetworkIdentity := {
  ni_id : IdentityId;
  ni_cluster : string;
  ni_namespace : string;
  ni_workload : string;
  ni_service_account : string;
  ni_application : option string;
  ni_labels : gmap string string;
}.

#[export] Instance NetworkIdentity_eq_dec : EqDecision NetworkIdentity.
Proof. solve_decision. Defined.

Record IdentityEntry := {
  ie_canonical_key : string;
  ie_identity : NetworkIdentity;
  ie_pod_references : Z;
}.

#[export] Instance IdentityEntry_eq_dec : EqDecision IdentityEntry.
Proof. solve_decision. Defined.

Record PodIdentityBinding := {
  pb_identity_id : IdentityId;
  pb_addresses : gset IpAddr;
}.

#[export] Instance PodIdentityBinding_eq_dec : EqDecision PodIdentityBinding.
Proof. solve_decision. Defined.

Record IdentityRegistry := {
  ir_revision : Z;
  ir_identities : gmap IdentityId IdentityEntry;
  ir_pods : gmap string PodIdentityBinding;
  ir_addresses : gmap IpAddr (string * IdentityId);
}.

Definition IdentityRegistry_default : IdentityRegistry :=
  {| ir_revision := 0; ir_identities := ∅; ir_pods := ∅; ir_addresses := ∅ |}.

Inductive IdentityAdmissionError :=
| ReservedIdentity
| IdentityCollision (identity_id : IdentityId) (existing_key requested_key : string)
| AddressConflict (address : IpAddr) (existing_pod requested_pod : string).

Definition remove_pod_binding (r : IdentityRegistry) (pod_key : string) : bool * IdentityRegistry :=
  match ir_pods r !! pod_key with
  | None => (false, r)
  | Some binding =>
      let addresses :=
        fold_left (λ m address, delete address m) (bset_iter (pb_addresses binding)) (ir_addresses r) in
      let identities :=
        match ir_identities r !! pb_identity_id binding with
        | None => ir_identities r
        | Some entry =>
            let pod_references := saturating_sub (ie_pod_references entry) 1 in
            if pod_references =? 0 then delete (pb_identity_id binding) (ir_identities r)
            else <[pb_identity_id binding := {|
                   ie_canonical_key := ie_canonical_key entry; ie_identity := ie_identity entry;
                   ie_pod_references := pod_references |}]> (ir_identities r)
        end in
      (true, {| ir_revision := ir_revision r; ir_identities := identities;
                ir_pods := delete pod_key (ir_pods r); ir_addresses := addresses |})
  end.

Definition IdentityRegistry_remove_pod (r : IdentityRegistry) (pod_key : string) :
    bool * IdentityRegistry :=
  let '(removed, r) := remove_pod_binding r pod_key in
  if removed then
    (removed, {| ir_revision := Revision_next (ir_revision r); ir_identities := ir_identities r;
                 ir_pods := ir_pods r; ir_addresses := ir_addresses r |})
  else (removed, r).

(** The first address, in order, that another Pod owns. *)
Definition conflicting_address (r : IdentityRegistry) (pod_key : string) (addresses : gset IpAddr) :
    option (IpAddr * string) :=
  List.find (λ '(_, existing_pod), negb (bool_decide (existing_pod = pod_key)))
    (omap (λ address, option_map (λ owner, (address, owner.1)) (ir_addresses r !! address))
      (bset_iter addresses)).

(** The update of an admitted Pod, with the revision still to be decided. *)
Definition bind_pod (r : IdentityRegistry) (pod_key canonical_key : string)
    (identity : NetworkIdentity) (addresses : gset IpAddr) : IdentityRegistry :=
  let '(_, r) := remove_pod_binding r pod_key in
  let entry :=
    match ir_identities r !! ni_id identity with
    | Some entry => {| ie_canonical_key := ie_canonical_key entry; ie_identity := identity;
                       ie_pod_references := ie_pod_references entry + 1 |}
    | None => {| ie_canonical_key := canonical_key; ie_identity := identity;
                 ie_pod_references := 1 |}
    end in
  {| ir_revision := ir_revision r;
     ir_identities := <[ni_id identity := entry]> (ir_identities r);
     ir_pods := <[pod_key := {| pb_identity_id := ni_id identity;
                                pb_addresses := addresses |}]> (ir_pods r);
     ir_addresses := fold_left (λ m address, <[address := (pod_key, ni_id identity)]> m)
                       (bset_iter addresses) (ir_addresses r) |}.

Definition same_contents (r r' : IdentityRegistry) : bool :=
  bool_decide (ir_identities r = ir_identities r') && bool_decide (ir_pods r = ir_pods r')
  && bool_decide (ir_addresses r = ir_addresses r').

Definition IdentityRegistry_admit_pod (r : IdentityRegistry) (pod_key canonical_key : string)
    (identity : NetworkIdentity) (addresses : list IpAddr) :
    result IdentityAdmissionError () * IdentityRegistry :=
  if ni_id identity =? 0 then (Err ReservedIdentity, r)
  else
    match ir_identities r !! ni_id identity ≫= λ existing,
            if bool_decide (ie_canonical_key existing = canonical_key) then None
            else Some (ie_canonical_key existing) with
    | Some existing_key => (Err (IdentityCollision (ni_id identity) existing_key canonical_key), r)
    | None =>
        let addresses : gset IpAddr := list_to_set addresses in
        match conflicting_address r pod_key addresses with
        | Some (address, existing_pod) => (Err (AddressConflict address existing_pod pod_key), r)
        | None =>
            let r' := bind_pod r pod_key canonical_key identity addresses in
            (Ok (), if same_contents r' r then r'
                    else {| ir_revision := Revision_next (ir_revision r);
                            ir_identities := ir_identities r'; ir_pods := ir_pods r';
                            ir_addresses := ir_addresses r' |})
        end
    end.

Definition IdentityRegistry_clear (r : IdentityRegistry) : IdentityRegistry :=
  if bool_decide (ir_pods r = ∅) && bool_decide (ir_identities r = ∅)
     && bool_decide (ir_addresses r = ∅)
  then r
  else {| ir_revision := Revision_next (ir_revision r); ir_identities := ∅; ir_pods := ∅;
          ir_addresses := ∅ |}.

Definition identity_for_ip (r : IdentityRegistry) (address : IpAddr) : option IdentityId :=
  option_map snd (ir_addresses r !! address).

Definition IdentityRegistry_identity (r : IdentityRegistry) (id : IdentityId) : option NetworkIdentity :=
  option_map ie_identity (ir_identities r !! id).

Record IdentityMapping := { im_address : Z; im_identity_id : IdentityId }.

Record IdentityStateSnapshot := {
  is_schema_version : Z;
  is_source_epoch : Z;
  is_revision : Z;
  is_ipv4_entries : list IdentityMapping;
  is_ipv6_entries : list IdentityMapping;
}.

Definition IDENTITY_SNAPSHOT_SCHEMA_VERSION : Z := 2.

Definition identity_snapshot (r : IdentityRegistry) (source_epoch : Z) : IdentityStateSnapshot := {|
  is_schema_version := IDENTITY_SNAPSHOT_SCHEMA_VERSION;
  is_source_epoch := source_epoch;
  is_revision := ir_revision r;
  is_ipv4_entries := omap (λ '(address, (_, identity_id)),
    match address with
    | V4 address => Some {| im_address := address; im_identity_id := identity_id |}
    | V6 _ => None
    end) (btree_iter (ir_addresses r));
  is_ipv6_entries := omap (λ '(address, (_, identity_id)),
    match address with
    | V4 _ => None
    | V6 address => Some {| im_address := address; im_identity_id := identity_id |}
    end) (btree_iter (ir_addresses r)) |}.

(** ** Invariant *)

(** How many Pods are bound to an identity. *)
Definition references (id : IdentityId) (pods : gmap string PodIdentityBinding) : Z :=
  Z.of_nat (size (filter (λ kv, pb_identity_id kv.2 = id) pods)).

Record registry_wf (r : IdentityRegistry) : Prop := {
  rw_addresses : ∀ address pod id, ir_addresses r !! address = Some (pod, id) ↔
    ∃ binding, ir_pods r !! pod = Some binding ∧ pb_identity_id binding = id ∧
      address ∈ pb_addresses binding;
  rw_identities : ∀ id, match ir_identities r !! id with
    | Some entry => ie_pod_references entry = references id (ir_pods r) ∧
        0 < references id (ir_pods r) ∧ ni_id (ie_identity entry) = id ∧ id ≠ 0
    | None => references id (ir_pods r) = 0
    end;
}.

Lemma references_insert id pods pod binding :
  pods !! pod = None →
  references id (<[pod := binding]> pods)
  = references id pods + (if decide (pb_identity_id binding = id) then 1 else 0).
Proof.
  intros Hp. unfold references. destruct (decide (pb_identity_id binding = id)) as [Hid|Hid].
  - rewrite map_filter_insert_True by done. rewrite map_size_insert_None; [lia|].
    apply map_lookup_filter_None. by left.
  - rewrite map_filter_insert_not'; [lia|done|]. by rewrite Hp.
Qed.

Lemma references_delete id pods pod binding :
  pods !! pod = Some binding →
  references id (delete pod pods)
  = references id pods - (if decide (pb_identity_id binding = id) then 1 else 0).
Proof.
  intros Hp. rewrite <-(insert_delete_id pods pod binding Hp) at 2.
  rewrite references_insert by apply lookup_delete_eq. lia.
Qed.

Lemma references_pos id pods pod binding :
  pods !! pod = Some binding → pb_identity_id binding = id → 0 < references id pods.
Proof.
  intros Hp Hid. pose proof (references_delete id pods pod binding Hp) as Hd.
  rewrite decide_True in Hd by done. unfold references in *. lia.
Qed.

Lemma bound_identity r pod binding :
  registry_wf r → ir_pods r !! pod = Some binding →
  ∃ entry, ir_identities r !! pb_identity_id binding = Some entry.
Proof.
  intros [_ Hi] Hp. specialize (Hi (pb_identity_id binding)).
  destruct (ir_identities r !! _) as [entry|]; [by eexists|].
  pose proof (references_pos _ _ _ _ Hp eq_refl). lia.
Qed.

Section Folds.
Context {V : Type}.

Lemma lookup_delete_all (l : list IpAddr) (m : gmap IpAddr V) a :
  fold_left (λ m address, delete address m) l m !! a
  = if bool_decide (a ∈ l) then None else m !! a.
Proof.
  revert m. induction l as [|x l IH]; intros m; cbn [fold_left].
  { case_bool_decide as Hin; [by apply not_elem_of_nil in Hin|done]. }
  rewrite IH. repeat case_bool_decide; try set_solver.
  - destruct (decide (a = x)) as [->|]; [by rewrite lookup_delete_eq|set_solver].
  - rewrite lookup_delete_ne; [done|set_solver].
Qed.

Lemma lookup_insert_all (v : V) (l : list IpAddr) (m : gmap IpAddr V) a :
  fold_left (λ m address, <[address := v]> m) l m !! a
  = if bool_decide (a ∈ l) then Some v else m !! a.
Proof.
  revert m. induction l as [|x l IH]; intros m; cbn [fold_left].
  { case_bool_decide as Hin; [by apply not_elem_of_nil in Hin|done]. }
  rewrite IH. repeat case_bool_decide; try set_solver.
  - destruct (decide (a = x)) as [->|]; [by rewrite lookup_insert_eq|set_solver].
  - rewrite lookup_insert_ne; [done|set_solver].
Qed.
End Folds.

Lemma remove_pod_binding_None r pod :
  ir_pods r !! pod = None → remove_pod_binding r pod = (false, r).
Proof. intros Hp. unfold remove_pod_binding. by rewrite Hp. Qed.

Lemma remove_pod_binding_spec r pod :
  registry_wf r →
  let '(removed, r') := remove_pod_binding r pod in
  registry_wf r' ∧ ir_pods r' = delete pod (ir_pods r) ∧ ir_revision r' = ir_revision r ∧
  removed = bool_decide (is_Some (ir_pods r !! pod)) ∧
  ∀ id entry, ir_identities r' !! id = Some entry →
    ∃ entry0, ir_identities r !! id = Some entry0 ∧ ie_canonical_key entry0 = ie_canonical_key entry ∧
      ie_identity entry0 = ie_identity entry.
Proof.
  intros Hwf. destruct (ir_pods r !! pod) as [binding|] eqn:Hp.
  2:{ rewrite remove_pod_binding_None by done. rewrite delete_id by done.
      rewrite bool_decide_false by (by intros []). split_and!; try done. intros id entry He. by exists entry. }
  destruct (bound_identity r pod binding Hwf Hp) as [entry He]. destruct Hwf as [Ha Hi].
  unfold remove_pod_binding. rewrite Hp, He. simpl.
  pose proof (references_pos _ _ _ _ Hp eq_refl) as Hpos.
  assert (Hre : ie_pod_references entry = references (pb_identity_id binding) (ir_pods r) ∧
    ni_id (ie_identity entry) = pb_identity_id binding ∧ pb_identity_id binding ≠ 0).
  { specialize (Hi (pb_identity_id binding)). rewrite He in Hi. naive_solver. }
  destruct Hre as (Hre & Hnid & Hnz). unfold saturating_sub.
  split; [|split_and!; try done].
  - split; simpl.
    + intros a p id. rewrite lookup_delete_all. case_bool_decide as Hin; rewrite elem_of_bset_iter in Hin.
      * split; [done|]. intros (b' & Hb' & <- & Hab).
        destruct (decide (p = pod)) as [->|Hne]; [by rewrite lookup_delete_eq in Hb'|].
        rewrite lookup_delete_ne in Hb' by done.
        assert (ir_addresses r !! a = Some (p, pb_identity_id b')) as E1 by (apply Ha; eauto).
        assert (ir_addresses r !! a = Some (pod, pb_identity_id binding)) as E2 by (apply Ha; eauto).
        congruence.
      * rewrite Ha. split; intros (b' & Hb' & Hid & Hab); exists b'; (split; [|done]).
        -- rewrite lookup_delete_ne; [done|]. intros <-. congruence.
        -- by apply lookup_delete_Some in Hb' as [_ ?].
    + intros id. rewrite (references_delete id _ _ _ Hp).
      destruct (decide (pb_identity_id binding = id)) as [<-|Hne].
      * destruct (Z.eqb_spec (Z.max 0 (ie_pod_references entry - 1)) 0).
        -- rewrite lookup_delete_eq. lia.
        -- rewrite lookup_insert_eq. simpl. split_and!; [lia|lia|done|done].
      * specialize (Hi id). rewrite Z.sub_0_r.
        destruct (_ =? 0); [by rewrite lookup_delete_ne|by rewrite lookup_insert_ne].
  - intros id e' He'. destruct (_ =? 0).
    + apply lookup_delete_Some in He' as [_ He']. by exists e'.
    + apply lookup_insert_Some in He' as [[<- <-]|[_ He']]; [by exists entry|by exists e'].
Qed.

(** ** Admission *)

(** Another Pod owns one of the addresses. *)
Definition owned_elsewhere (r : IdentityRegistry) (pod : string) (address : IpAddr) : Prop :=
  ∃ other id, ir_addresses r !! address = Some (other, id) ∧ other ≠ pod.

Lemma conflicting_address_spec r pod (addresses : gset IpAddr) :
  match conflicting_address r pod addresses with
  | Some (address, other) => address ∈ addresses ∧ other ≠ pod ∧
      ∃ id, ir_addresses r !! address = Some (other, id)
  | None => ∀ address, address ∈ addresses → ¬ owned_elsewhere r pod address
  end.
Proof.
  unfold conflicting_address. destruct (List.find _ _) as [[address other]|] eqn:E.
  - apply find_some in E as [Hin Hne%negb_true_iff%bool_decide_eq_false].
    apply list_elem_of_In, list_elem_of_omap in Hin as (a & Ha & Hx). rewrite elem_of_bset_iter in Ha.
    destruct (ir_addresses r !! a) as [[p id]|] eqn:Hp; [|done]. injection Hx as <- <-.
    split_and!; [done..|by exists id].
  - intros address Ha (other & id & Hp & Hne).
    assert (Hin : (address, other) ∈ omap (λ address, option_map (λ owner, (address, owner.1))
      (ir_addresses r !! address)) (bset_iter addresses)).
    { apply list_elem_of_omap. exists address. rewrite elem_of_bset_iter, Hp. done. }
    apply list_elem_of_In, (find_none _ _ E) in Hin. by apply negb_false_iff, bool_decide_eq_true in Hin.
Qed.

Section Bind.
Context (r : IdentityRegistry) (pod canonical_key : string) (identity : NetworkIdentity).
Context (addresses : gset IpAddr) (Hwf : registry_wf r) (Hnz : ni_id identity ≠ 0).
Context (Hkey : ∀ entry, ir_identities r !! ni_id identity = Some entry →
  ie_canonical_key entry = canonical_key).
Context (Hfree : ∀ address, address ∈ addresses → ¬ owned_elsewhere r pod address).

Lemma bind_pod_spec :
  let r' := bind_pod r pod canonical_key identity addresses in
  registry_wf r' ∧
  ir_pods r' = <[pod := {| pb_identity_id := ni_id identity; pb_addresses := addresses |}]> (ir_pods r) ∧
  ir_revision r' = ir_revision r ∧
  (∃ entry, ir_identities r' !! ni_id identity = Some entry ∧
    ie_canonical_key entry = canonical_key ∧ ie_identity entry = identity) ∧
  ∀ id entry, id ≠ ni_id identity → ir_identities r' !! id = Some entry →
    ∃ entry0, ir_identities r !! id = Some entry0 ∧ ie_canonical_key entry0 = ie_canonical_key entry ∧
      ie_identity entry0 = ie_identity entry.
Proof.
  unfold bind_pod. pose proof (remove_pod_binding_spec r pod Hwf) as Hrem.
  destruct (remove_pod_binding r pod) as [removed r1]. destruct Hrem as (Hwf1 & Hp1 & Hrev & _ & Hid1).
  assert (Hnone : ir_pods r1 !! pod = None) by (rewrite Hp1; apply lookup_delete_eq).
  set (entry := match ir_identities r1 !! ni_id identity with Some e => _ | None => _ end).
  assert (Hentry : ie_canonical_key entry = canonical_key ∧ ie_identity entry = identity ∧
    ie_pod_references entry = references (ni_id identity) (ir_pods r1) + 1).
  { pose proof (rw_identities _ Hwf1 (ni_id identity)) as Hi. subst entry.
    destruct (ir_identities r1 !! ni_id identity) as [e0|] eqn:E0; simpl.
    - destruct (Hid1 _ _ E0) as (e1 & He1 & <- & _). split_and!; [by apply Hkey|done|]. lia.
    - split_and!; [done..|]. lia. }
  destruct Hentry as (Hek & Hei & Her). cbv zeta. simpl. split; [|split_and!].
  - split; simpl.
    + intros a p id. rewrite lookup_insert_all. case_bool_decide as Hin; rewrite elem_of_bset_iter in Hin.
      * split.
        -- intros [= <- <-]. eexists. rewrite lookup_insert_eq. by split.
        -- intros (b' & Hb' & <- & Hab). apply lookup_insert_Some in Hb' as [[<- <-]|[Hne Hb']]; [done|].
           destruct (Hfree a Hin). exists p, (pb_identity_id b'). split; [|done].
           apply (rw_addresses _ Hwf). exists b'. split; [|done].
           rewrite Hp1 in Hb'. by apply lookup_delete_Some in Hb' as [_ ?].
      * rewrite (rw_addresses _ Hwf1). split; intros (b' & Hb' & <- & Hab); exists b'; (split; [|done]).
        -- rewrite lookup_insert_ne; [done|]. intros <-. congruence.
        -- by apply lookup_insert_Some in Hb' as [[<- <-]|[_ ?]].
    + intros id. rewrite references_insert by done. simpl.
      pose proof (rw_identities _ Hwf1 id) as Hi. destruct (decide (ni_id identity = id)) as [<-|Hne].
      * rewrite lookup_insert_eq. unfold references in *. split_and!; [lia|lia|by rewrite Hei|done].
      * rewrite lookup_insert_ne by done. by rewrite Z.add_0_r.
  - by rewrite Hp1, insert_delete_eq.
  - done.
  - exists entry. by rewrite lookup_insert_eq.
  - intros id e Hne. rewrite lookup_insert_ne by done. apply Hid1.
Qed.
End Bind.

Lemma registry_wf_revision r revision :
  registry_wf r →
  registry_wf {| ir_revision := revision; ir_identities := ir_identities r; ir_pods := ir_pods r;
                 ir_addresses := ir_addresses r |}.
Proof. intros []. by split. Qed.

(** The identity that another Pod's metadata holds under the requested number. *)
Definition collision (r : IdentityRegistry) (id : IdentityId) (canonical_key : string) : option string :=
  ir_identities r !! id ≫= λ existing,
    if bool_decide (ie_canonical_key existing = canonical_key) then None
    else Some (ie_canonical_key existing).

Lemma collision_None r id canonical_key :
  collision r id canonical_key = None ↔
  ∀ entry, ir_identities r !! id = Some entry → ie_canonical_key entry = canonical_key.
Proof.
  unfold collision. destruct (ir_identities r !! id) as [entry|]; simpl; [|by split].
  case_bool_decide; naive_solver.
Qed.

Lemma identity_for_ip_iff r address id :
  registry_wf r →
  identity_for_ip r address = Some id ↔
  ∃ pod binding, ir_pods r !! pod = Some binding ∧ pb_identity_id binding = id ∧
    address ∈ pb_addresses binding.
Proof.
  intros [Ha _]. unfold identity_for_ip. split.
  - destruct (ir_addresses r !! address) as [[p i]|] eqn:E; [|done]. intros [= ->].
    apply Ha in E as (b & ?). by exists p, b.
  - intros (p & b & Hb). assert (ir_addresses r !! address = Some (p, id)) as -> by (apply Ha; eauto). done.
Qed.

(** What an admission does, with its errors. *)
Lemma admit_pod_spec r pod canonical_key identity addresses res r' :
  registry_wf r →
  IdentityRegistry_admit_pod r pod canonical_key identity addresses = (res, r') →
  registry_wf r' ∧
  match res with
  | Ok _ =>
      ir_pods r' = <[pod := {| pb_identity_id := ni_id identity;
                               pb_addresses := list_to_set addresses |}]> (ir_pods r) ∧
      (∃ entry, ir_identities r' !! ni_id identity = Some entry ∧
        ie_canonical_key entry = canonical_key ∧ ie_identity entry = identity) ∧
      (∀ id entry, id ≠ ni_id identity → ir_identities r' !! id = Some entry →
        ∃ entry0, ir_identities r !! id = Some entry0 ∧
          ie_canonical_key entry0 = ie_canonical_key entry ∧ ie_identity entry0 = ie_identity entry) ∧
      collision r (ni_id identity) canonical_key = None ∧
      (∀ address, address ∈ addresses → ¬ owned_elsewhere r pod address) ∧
      ir_revision r' = (if same_contents r' r then ir_revision r else Revision_next (ir_revision r))
  | Err ReservedIdentity => r' = r ∧ ni_id identity = 0
  | Err (IdentityCollision id existing requested) =>
      r' = r ∧ id = ni_id identity ∧ requested = canonical_key ∧ existing ≠ canonical_key ∧
      ∃ entry, ir_identities r !! id = Some entry ∧ ie_canonical_key entry = existing
  | Err (AddressConflict address other requested) =>
      r' = r ∧ requested = pod ∧ address ∈ addresses ∧ other ≠ pod ∧
      ∃ id, ir_addresses r !! address = Some (other, id)
  end.
Proof.
  intros Hwf. unfold IdentityRegistry_admit_pod. fold (collision r (ni_id identity) canonical_key).
  destruct (Z.eqb_spec (ni_id identity) 0) as [Hz|Hnz]; [by intros [= <- <-]|].
  destruct (collision r (ni_id identity) canonical_key) as [existing|] eqn:Ec.
  { intros [= <- <-]. split; [done|]. unfold collision in Ec.
    destruct (ir_identities r !! ni_id identity) as [entry|] eqn:Ei; [|done]. simpl in Ec.
    case_bool_decide; [done|]. injection Ec as <-. split_and!; try done. by exists entry. }
  pose proof (conflicting_address_spec r pod (list_to_set addresses)) as Hca.
  destruct (conflicting_address _ _ _) as [[address other]|].
  { intros [= <- <-]. destruct Hca as (Hin & Hne & Hid). rewrite elem_of_list_to_set in Hin. done. }
  rewrite collision_None in Ec. destruct (bind_pod_spec r pod canonical_key identity
    (list_to_set addresses) Hwf Hnz Ec Hca) as (Hwf' & Hp & Hrev & He & Ho).
  set (r1 := bind_pod _ _ _ _ _) in *. intros [= <- <-].
  assert (Hfree : ∀ address, address ∈ addresses → ¬ owned_elsewhere r pod address).
  { intros a Ha. apply Hca. by apply elem_of_list_to_set. }
  destruct (same_contents r1 r) eqn:Es.
  - split; [done|]. split_and!; try done. by rewrite Es.
  - split; [by apply registry_wf_revision|]. split_and!; try done.
    change (same_contents _ r) with (same_contents r1 r). by rewrite Es.
Qed.


Definition demo_identity (id : IdentityId) (workload : string) : NetworkIdentity := {|
  ni_id := id; ni_cluster := "local"; ni_namespace := "prod"; ni_workload := workload;
  ni_service_account := "default"; ni_application := Some workload; ni_labels := ∅ |}.

Lemma registry_default_wf : registry_wf IdentityRegistry_default.
Proof.
  split; simpl.
  - intros a p id. rewrite lookup_empty. split; [done|]. intros (b & Hb & _). by rewrite lookup_empty in Hb.
  - intros id. by rewrite lookup_empty.
Qed.


(** ** Removal, relists and snapshots *)

Lemma remove_pod_spec r pod :
  registry_wf r →
  let '(removed, r') := IdentityRegistry_remove_pod r pod in
  registry_wf r' ∧ ir_pods r' = delete pod (ir_pods r) ∧
  removed = bool_decide (is_Some (ir_pods r !! pod)) ∧
  ir_revision r' = (if removed then Revision_next (ir_revision r) else ir_revision r) ∧
  ∀ id entry, ir_identities r' !! id = Some entry →
    ∃ entry0, ir_identities r !! id = Some entry0 ∧ ie_canonical_key entry0 = ie_canonical_key entry.
Proof.
  intros Hwf. unfold IdentityRegistry_remove_pod. pose proof (remove_pod_binding_spec r pod Hwf) as H.
  destruct (remove_pod_binding r pod) as [removed r1]. destruct H as (Hwf1 & Hp & Hrev & Hrm & Hid).
  destruct removed; simpl.
  - split; [by apply registry_wf_revision|]. split_and!; [done|done|by rewrite Hrev|].
    intros id entry He. destruct (Hid id entry He) as (e0 & ? & ? & _). by exists e0.
  - split_and!; try done. intros id entry He. destruct (Hid id entry He) as (e0 & ? & ? & _). by exists e0.
Qed.

Lemma clear_spec r :
  registry_wf r →
  registry_wf (IdentityRegistry_clear r) ∧ ir_pods (IdentityRegistry_clear r) = ∅ ∧
  ir_identities (IdentityRegistry_clear r) = ∅.
Proof.
  intros Hwf. unfold IdentityRegistry_clear.
  destruct (bool_decide (ir_pods r = ∅)) eqn:E1, (bool_decide (ir_identities r = ∅)) eqn:E2,
    (bool_decide (ir_addresses r = ∅)) eqn:E3; simpl;
    try (split; [apply (registry_wf_revision _ _ registry_default_wf)|done]).
  apply bool_decide_eq_true in E1, E2. by split_and!.
Qed.

Lemma fnv_fold_range l : ∀ hash, 0 ≤ hash < 2 ^ 32 → 0 ≤ fold_left fnv_step l hash < 2 ^ 32.
Proof.
  induction l as [|c l IH]; intros hash Hh; cbn [fold_left]; [done|].
  apply IH. apply Z.mod_pos_bound. lia.
Qed.

Lemma provisional_identity_id_range key : 1 ≤ provisional_identity_id key < 2 ^ 32.
Proof.
  unfold provisional_identity_id.
  pose proof (fnv_fold_range (String.list_ascii_of_string key) 0x811c9dc5 ltac:(lia)) as Hh.
  destruct (Z.eqb_spec (fold_left fnv_step (String.list_ascii_of_string key) 0x811c9dc5) 0); lia.
Qed.

Lemma omap_sorted {A B C} (R : A → A → Prop) (R' : C → C → Prop) (f : A → option B) (g : B → C) l :
  StronglySorted R l → (∀ x y x' y', R x y → f x = Some x' → f y = Some y' → R' (g x') (g y')) →
  StronglySorted R' (map g (omap f l)).
Proof.
  intros Hs Hf. induction Hs as [|x l Hs IH Hx]; csimpl; [constructor|].
  destruct (f x) as [x'|] eqn:E; [|done]. csimpl. constructor; [done|].
  apply Forall_forall. intros z (y' & (y & Hy & Ey)%list_elem_of_omap & ->)%elem_of_list_map.
  eapply Hf; [|exact E|exact Ey]. by apply (proj1 (List.Forall_forall _ _) Hx), list_elem_of_In.
Qed.

(** The published identity snapshot is the address index: an address is listed with an
    identity exactly when it answers with it, each address once and in increasing order. *)
Lemma identity_snapshot_exact r source_epoch :
  (∀ address id, {| im_address := address; im_identity_id := id |} ∈
     is_ipv4_entries (identity_snapshot r source_epoch) ↔ identity_for_ip r (V4 address) = Some id) ∧
  (∀ address id, {| im_address := address; im_identity_id := id |} ∈
     is_ipv6_entries (identity_snapshot r source_epoch) ↔ identity_for_ip r (V6 address) = Some id) ∧
  StronglySorted Z.lt (map im_address (is_ipv4_entries (identity_snapshot r source_epoch))) ∧
  StronglySorted Z.lt (map im_address (is_ipv6_entries (identity_snapshot r source_epoch))).
Proof.
  assert (Hlt : ∀ x y, ltb x y = true ↔ x < y).
  { intros x y. unfold ltb, cmp, Z_ord. destruct (Z.compare_spec x y); split; intros; done || lia. }
  split_and!.
  - intros a id. simpl. rewrite list_elem_of_omap. unfold identity_for_ip. split.
    + intros ([[x|x] [p i]] & Hin%elem_of_btree_iter & [= -> ->]). by rewrite Hin.
    + destruct (ir_addresses r !! V4 a) as [[p i]|] eqn:E; [|done]. intros [= ->].
      exists (V4 a, (p, id)). by rewrite elem_of_btree_iter.
  - intros a id. simpl. rewrite list_elem_of_omap. unfold identity_for_ip. split.
    + intros ([[x|x] [p i]] & Hin%elem_of_btree_iter & [= -> ->]). by rewrite Hin.
    + destruct (ir_addresses r !! V6 a) as [[p i]|] eqn:E; [|done]. intros [= ->].
      exists (V6 a, (p, id)). by rewrite elem_of_btree_iter.
  - simpl. eapply omap_sorted; [apply btree_iter_sorted|].
    intros [[x|x] [p i]] [[y|y] [q j]] x' y' Hxy [= <-] [= <-]. simpl in *. by apply Hlt.
  - simpl. eapply omap_sorted; [apply btree_iter_sorted|].
    intros [[x|x] [p i]] [[y|y] [q j]] x' y' Hxy [= <-] [= <-]. simpl in *. by apply Hlt.
Qed.
