(* ===== verification/CanonicalKey.v ===== *)
(** * Canonical identity keys ([canonical_identity_key] of [bins/unf-controller])

    A Pod's numeric identity is a hash of a key that lists its metadata, every component
    behind its length.  Distinct metadata gives distinct keys, so the collision check of the
    registry, which compares keys, compares metadata. *)

From Stdlib Require Import Ascii.
From stdpp Require Import pretty.
From S2P Require Import Prelude Common PolicyIr.

Definition append_component (key value : string) : string :=
  key +:+ "|" +:+ pretty (String.length value) +:+ ":" +:+ value.

Definition canonical_identity_key (cluster namespace service_account workload : string)
    (labels : gmap string string) (named_ports : gmap NamedPort Z) : string :=
  let key := "v2" in
  let key := append_component key cluster in
  let key := append_component key namespace in
  let key := append_component key service_account in
  let key := append_component key workload in
  let key := append_component key (pretty (size labels)) in
  let key :=
    fold_left (λ key '(label, value), append_component (append_component key label) value)
      (btree_iter labels) key in
  let key := append_component key (pretty (size named_ports)) in
  fold_left (λ key '(named_port, number),
    append_component
      (append_component (append_component key (np_name named_port))
        (pretty (protocol_u8 (np_protocol named_port))))
      (pretty number))
    (btree_iter named_ports) key.

(** ** Unique reading *)

#[local] Arguments String.append !_ _ / : simpl nomatch.

Lemma string_app_assoc (a b c : string) : (a +:+ b) +:+ c = a +:+ b +:+ c.
Proof. induction a as [|x a IH]; simpl; [done|]. f_equal. exact IH. Qed.

Lemma string_app_length_inj (a b c d : string) :
  String.length a = String.length c → a +:+ b = c +:+ d → a = c ∧ b = d.
Proof.
  revert c. induction a as [|x a IH]; intros [|y c]; simpl; try done.
  intros [= Hl] [= -> H]. by destruct (IH c Hl H) as [-> ->].
Qed.

Fixpoint no_colon (s : string) : Prop :=
  match s with EmptyString => True | String c s => c ≠ ":"%char ∧ no_colon s end.

Lemma no_colon_split a b x y :
  no_colon a → no_colon b → a +:+ ":" +:+ x = b +:+ ":" +:+ y → a = b ∧ x = y.
Proof.
  revert b. induction a as [|c a IH]; intros [|d b]; simpl.
  - by intros _ _ [= ->].
  - intros _ [Hd _] [= Heq _]. done.
  - intros [Hc _] _ [= Heq _]. done.
  - intros [_ Ha] [_ Hb] [= -> H]. by destruct (IH b Ha Hb H) as [-> ->].
Qed.

Lemma pretty_no_colon (n : nat) : no_colon (pretty n).
Proof.
  unfold pretty, pretty_nat, pretty, pretty_N. generalize (N.of_nat n) as x. intros x.
  destruct (decide (x = 0)%N); [by split|].
  assert (∀ s, no_colon s → no_colon (pretty_N_go x s)) as H; [|by apply H].
  clear. induction (N.lt_wf_0 x) as [x _ IH]; intros s Hs.
  assert (x = 0 ∨ 0 < x)%N as [->|Hx] by lia; [by rewrite pretty_N_go_0|].
  rewrite pretty_N_go_step by done. apply IH; [by apply N.div_lt|]. split; [|done].
  unfold pretty_N_char. by repeat case_match.
Qed.

Fixpoint encode_components (l : list string) : string :=
  match l with
  | [] => ""
  | value :: l => "|" +:+ pretty (String.length value) +:+ ":" +:+ value +:+ encode_components l
  end.

Lemma fold_append l : ∀ key, fold_left append_component l key = key +:+ encode_components l.
Proof.
  induction l as [|v l IH]; intros key; cbn [fold_left encode_components].
  { induction key as [|c key IHk]; simpl; [done|]. by rewrite <-IHk. }
  rewrite IH. unfold append_component. by rewrite !string_app_assoc.
Qed.

Lemma encode_components_inj l l' : encode_components l = encode_components l' → l = l'.
Proof.
  revert l'. induction l as [|v l IH]; intros [|v' l']; cbn [encode_components]; try done.
  intros [= H]. apply no_colon_split in H as [Hn H]; [|apply pretty_no_colon..].
  apply (inj pretty) in Hn. apply string_app_length_inj in H as [-> H]; [|done].
  by rewrite (IH l' H).
Qed.

(** ** The components of a key *)

Definition label_components (x : string * string) : list string := [x.1; x.2].
Definition port_components (x : NamedPort * Z) : list string :=
  [np_name x.1; pretty (protocol_u8 (np_protocol x.1)); pretty x.2].

Definition identity_components (cluster namespace service_account workload : string)
    (labels : gmap string string) (named_ports : gmap NamedPort Z) : list string :=
  [cluster; namespace; service_account; workload; pretty (size labels)]
  ++ List.flat_map label_components (btree_iter labels)
  ++ [pretty (size named_ports)] ++ List.flat_map port_components (btree_iter named_ports).

Lemma fold_left_ext {A B} (f g : A → B → A) l : ∀ a,
  (∀ a x, f a x = g a x) → fold_left f l a = fold_left g l a.
Proof. induction l as [|x l IH]; intros a H; cbn [fold_left]; [done|]. by rewrite H, IH. Qed.

Lemma canonical_identity_key_components cluster namespace service_account workload labels named_ports :
  canonical_identity_key cluster namespace service_account workload labels named_ports
  = "v2" +:+ encode_components
      (identity_components cluster namespace service_account workload labels named_ports).
Proof.
  rewrite <-fold_append. unfold identity_components, canonical_identity_key.
  rewrite !fold_left_app, <-!fold_left_flat_map. cbn [fold_left].
  rewrite (fold_left_ext _ (λ key x, fold_left append_component (label_components x) key))
    by (by intros key [label value]).
  by apply fold_left_ext; intros key [named_port number].
Qed.

Lemma btree_iter_inj {K V} `{Ord K, Countable K} (m m' : gmap K V) :
  btree_iter m = btree_iter m' → m = m'.
Proof.
  intros Heq. apply map_eq. intros k. apply option_eq. intros v.
  by rewrite <-!elem_of_btree_iter, Heq.
Qed.

Lemma btree_iter_length {K V} `{Ord K, Countable K} (m : gmap K V) : length (btree_iter m) = size m.
Proof. by rewrite btree_iter_perm, length_map_to_list. Qed.

(** Equal-length items of a fixed arity read back uniquely. *)
Lemma flat_map_app_inj {A} (f : A → list string) (n : nat) l l' r r' :
  (∀ x, length (f x) = n) → (∀ x y, f x = f y → x = y) → length l = length l' →
  List.flat_map f l ++ r = List.flat_map f l' ++ r' → l = l' ∧ r = r'.
Proof.
  intros Hn Hf. revert l'. induction l as [|x l IH]; intros [|y l']; simpl; try done.
  intros [= Hl]. rewrite <-!(assoc_L (++)). intros H. apply app_inj_1 in H as [Hx H]; [|by rewrite !Hn].
  apply Hf in Hx as ->. by destruct (IH l' Hl H) as [-> ->].
Qed.

Lemma identity_components_inj cluster namespace service_account workload labels named_ports
    cluster' namespace' service_account' workload' labels' named_ports' :
  identity_components cluster namespace service_account workload labels named_ports
  = identity_components cluster' namespace' service_account' workload' labels' named_ports' →
  cluster = cluster' ∧ namespace = namespace' ∧ service_account = service_account' ∧
  workload = workload' ∧ labels = labels' ∧ named_ports = named_ports'.
Proof.
  unfold identity_components. intros H. injection H as -> -> -> -> Hn%(inj pretty) H.
  apply (flat_map_app_inj _ 2) in H as [Hl H];
    [|done|by intros [] [] [= -> ->]|by rewrite !btree_iter_length].
  injection H as Hp%(inj pretty) H.
  rewrite <-(app_nil_r (List.flat_map _ (btree_iter named_ports))),
    <-(app_nil_r (List.flat_map _ (btree_iter named_ports'))) in H.
  apply (flat_map_app_inj _ 3) in H as [Hports _];
    [|done| |by rewrite !btree_iter_length].
  2:{ intros [[] ?] [[] ?] [= -> Hpr%(inj pretty) Hnum%(inj pretty)]. simpl in *.
      apply (inj protocol_u8) in Hpr. by subst. }
  by apply btree_iter_inj in Hl, Hports.
Qed.

Lemma canonical_identity_key_inj cluster namespace service_account workload labels named_ports
    cluster' namespace' service_account' workload' labels' named_ports' :
  canonical_identity_key cluster namespace service_account workload labels named_ports
  = canonical_identity_key cluster' namespace' service_account' workload' labels' named_ports' ↔
  cluster = cluster' ∧ namespace = namespace' ∧ service_account = service_account' ∧
  workload = workload' ∧ labels = labels' ∧ named_ports = named_ports'.
Proof.
  rewrite !canonical_identity_key_components. split; [|by intros (-> & -> & -> & -> & -> & ->)].
  intros H%(inj (String.append "v2")). by apply encode_components_inj, identity_components_inj in H.
Qed.

(** C33. Distinct Pod metadata gives distinct identity keys: the key determines cluster,
    namespace, service account, workload, labels and named ports. *)
Theorem canonical_identity_key_injective cluster namespace service_account workload labels named_ports
    cluster' namespace' service_account' workload' labels' named_ports' :
  canonical_identity_key cluster namespace service_account workload labels named_ports
  = canonical_identity_key cluster' namespace' service_account' workload' labels' named_ports' ↔
  cluster = cluster' ∧ namespace = namespace' ∧ service_account = service_account' ∧
  workload = workload' ∧ labels = labels' ∧ named_ports = named_ports'.
Proof. apply canonical_identity_key_inj. Qed.
