(* ===== verification/PolicyCompile.v ===== *)
(** * The SecurityPolicy compiler ([PolicyCompiler] of [crates/unf-policy/src/lib.rs])

    Conversion of the native API object ([crates/unf-api/src/lib.rs]) to policy IR,
    the rule builder [push_rule] it shares with the NetworkPolicy compiler, and the
    well-formedness of rules that lowering relies on. *)

From S2P Require Import Prelude Common PolicyIr.

(** ** The API object *)

Inductive TransportProtocol := TransportTcp | TransportUdp.
Inductive Action := Allow | Deny | Audit.
Inductive EnforcementMode := ApiEnforce | ApiShadow.

Record WorkloadSelector := {
  ws_namespace : option string;
  ws_service_account : option string;
  ws_application : option string;
  ws_match_labels : gmap string string;
}.

Record ProtocolPort := { pp_protocol : TransportProtocol; pp_port : Z }.

Record IngressRule := {
  ir_from : WorkloadSelector;
  ir_protocols : list ProtocolPort;
  ir_action : Action;
}.

Record SecurityPolicySpec := {
  sp_target : WorkloadSelector;
  sp_ingress : list IngressRule;
  sp_priority : Z;
  sp_default_action : Action;
  sp_enforcement_mode : EnforcementMode;
}.

(** The part of [ObjectMeta] the compilers and the controller read. *)
Record ObjectMeta := {
  meta_name : option string;
  meta_namespace : option string;
  meta_generate_name : option string;
  meta_uid : option string;
  meta_labels : option (gmap string string);
  meta_annotations : option (gmap string string);
}.

(** The metadata of an object of which only the name is set. *)
Definition named_object (namespace name : string) : ObjectMeta := {|
  meta_name := Some name; meta_namespace := Some namespace; meta_generate_name := None;
  meta_uid := None; meta_labels := None; meta_annotations := None |}.

Record SecurityPolicy := { secp_metadata : ObjectMeta; secp_spec : SecurityPolicySpec }.

(** ** Compilation *)

Inductive PolicyCompileError :=
| MissingName
| MissingNamespace
| InvalidPort (rule_index : Z)
| TooManyRules.

Definition IdentitySelector_from (value : WorkloadSelector) : IdentitySelector := {|
  sel_namespace := ws_namespace value;
  sel_namespace_match_labels := ∅;
  sel_namespace_match_expressions := [];
  sel_service_account := ws_service_account value;
  sel_application := ws_application value;
  sel_match_labels := ws_match_labels value;
  sel_match_expressions := [];
  sel_ipv4_blocks := [];
  sel_ipv6_blocks := [];
|}.

Definition convert_action (action : Action) : PolicyAction :=
  match action with Allow => ActAllow | Deny => ActDeny | Audit => ActAudit end.

Definition push_rule (rules : list PolicyRule) (policy_id : PolicyId)
    (policy_name namespace : string) (source destination : IdentitySelector)
    (protocol : option Protocol) (destination_port : DestinationPort) (action : PolicyAction)
    (source_index : Z) : result PolicyCompileError (list PolicyRule) :=
  let? id := ok_or (try_width 32 (Z.of_nat (length rules))) TooManyRules in
  let? rule_index := ok_or (try_width 32 source_index) TooManyRules in
  Ok (rules ++ [{|
    rule_id := id;
    rule_source := source;
    rule_destination := destination;
    rule_protocol := protocol;
    rule_destination_port := destination_port;
    rule_action := action;
    rule_provenance := {|
      prov_policy_id := policy_id;
      prov_policy_name := policy_name;
      prov_namespace := namespace;
      prov_rule_index := rule_index |} |}]).

Definition convert_protocol (protocol : TransportProtocol) : Protocol :=
  match protocol with TransportTcp => Tcp | TransportUdp => Udp end.

(** [target.namespace.get_or_insert_with(|| namespace)]. *)
Definition default_namespace (target : IdentitySelector) (namespace : string) :
    IdentitySelector := {|
  sel_namespace := Some (default namespace (sel_namespace target));
  sel_namespace_match_labels := sel_namespace_match_labels target;
  sel_namespace_match_expressions := sel_namespace_match_expressions target;
  sel_service_account := sel_service_account target;
  sel_application := sel_application target;
  sel_match_labels := sel_match_labels target;
  sel_match_expressions := sel_match_expressions target;
  sel_ipv4_blocks := sel_ipv4_blocks target;
  sel_ipv6_blocks := sel_ipv6_blocks target;
|}.

(** One iteration of the loop over [spec.ingress]. *)
Definition compile_ingress_rule (policy_id : PolicyId) (name namespace : string)
    (target : IdentitySelector) (rules : list PolicyRule) (item : Z * IngressRule) :
    result PolicyCompileError (list PolicyRule) :=
  let '(source_index, rule) := item in
  if existsb (λ item, pp_port item =? 0) (ir_protocols rule)
  then Err (InvalidPort source_index)
  else
    let source := IdentitySelector_from (ir_from rule) in
    let action := convert_action (ir_action rule) in
    if is_nil (ir_protocols rule)
    then push_rule rules policy_id name namespace source target None PortAny action source_index
    else
      try_fold (λ rules protocol_port,
        push_rule rules policy_id name namespace source target
          (Some (convert_protocol (pp_protocol protocol_port)))
          (PortNumber (pp_port protocol_port)) action source_index)
        rules (ir_protocols rule).

Definition PolicyCompiler_compile (policy_id : PolicyId) (policy : SecurityPolicy) :
    result PolicyCompileError PolicyIr :=
  let? name := ok_or (meta_name (secp_metadata policy)) MissingName in
  let? namespace := ok_or (meta_namespace (secp_metadata policy)) MissingNamespace in
  let spec := secp_spec policy in
  let target := default_namespace (IdentitySelector_from (sp_target spec)) namespace in
  let? rules := try_fold (compile_ingress_rule policy_id name namespace target) []
                  (enumerate (sp_ingress spec)) in
  Ok {| pol_id := policy_id;
        pol_name := name;
        pol_namespace := namespace;
        pol_priority := sp_priority spec;
        pol_origin := Native;
        pol_direction := Ingress;
        pol_target := target;
        pol_default_action := convert_action (sp_default_action spec);
        pol_enforcement_mode :=
          match sp_enforcement_mode spec with ApiEnforce => Enforce | ApiShadow => Shadow end;
        pol_rules := rules |}.

(** ** The rules a policy should have

    One rule per protocol/port pair of each ingress entry, or one rule for any
    traffic when the entry lists none; identifiers count the rules of the policy
    and the provenance index is the entry's position. *)

(** A rule before it is numbered: source, destination, protocol, port, action,
    source index. *)
Definition RuleSpec : Type :=
  IdentitySelector * IdentitySelector * option Protocol * DestinationPort * PolicyAction * Z.

Definition number_rule (policy_id : PolicyId) (name namespace : string) (id : nat)
    (spec : RuleSpec) : PolicyRule :=
  let '(source, destination, protocol, port, action, index) := spec in
  {| rule_id := Z.of_nat id; rule_source := source; rule_destination := destination;
     rule_protocol := protocol; rule_destination_port := port; rule_action := action;
     rule_provenance := {| prov_policy_id := policy_id; prov_policy_name := name;
                           prov_namespace := namespace; prov_rule_index := index |} |}.

Definition ingress_rule_specs (target : IdentitySelector) (item : Z * IngressRule) :
    list RuleSpec :=
  let '(index, rule) := item in
  let mk protocol port := (IdentitySelector_from (ir_from rule), target, protocol, port,
                           convert_action (ir_action rule), index) in
  match ir_protocols rule with
  | [] => [mk None PortAny]
  | ports => map (λ p, mk (Some (convert_protocol (pp_protocol p))) (PortNumber (pp_port p))) ports
  end.

(** What lowering relies on: a rule for any protocol is for any port, and ports are
    never zero, the key value reserved for "any port". *)
Definition wf_port (port : DestinationPort) : Prop :=
  match port with
  | PortNumber n => 1 ≤ n < 65536
  | PortRange start end_ => 1 ≤ start ≤ end_ ∧ end_ < 65536
  | PortAny | PortNamed _ => True
  end.

Definition wf_rule (rule : PolicyRule) : Prop :=
  (rule_protocol rule = None → rule_destination_port rule = PortAny) ∧
  wf_port (rule_destination_port rule).

(** Address blocks are canonical: the prefix length fits the family and the network
    address has no host bits. *)
Definition wf_cidr4 (c : Ipv4Cidr) : Prop :=
  0 ≤ c4_prefix_len c ≤ 32 ∧ in_width 32 (c4_network c) ∧
  c4_network c mod 2 ^ (32 - c4_prefix_len c) = 0.
Definition wf_cidr6 (c : Ipv6Cidr) : Prop :=
  0 ≤ c6_prefix_len c ≤ 128 ∧ in_width 128 (c6_network c) ∧
  c6_network c mod 2 ^ (128 - c6_prefix_len c) = 0.
(** The exceptions of a block for every address are small enough to list. *)
Definition wf_block4 (b : Ipv4Block) : Prop :=
  wf_cidr4 (blk4_cidr b) ∧ Forall wf_cidr4 (blk4_except b) ∧
  (c4_prefix_len (blk4_cidr b) = 0 →
   Forall (λ e, Ipv4Cidr_address_count e ≤ 1024) (blk4_except b)).
Definition wf_selector (s : IdentitySelector) : Prop :=
  Forall wf_block4 (sel_ipv4_blocks s) ∧
  Forall (λ b, wf_cidr6 (blk6_cidr b) ∧ Forall wf_cidr6 (blk6_except b)) (sel_ipv6_blocks s).

Definition wf_endpoint (endpoint : Endpoint) : Prop :=
  ∀ name port, ep_named_ports endpoint !! name = Some port → 1 ≤ port < 65536.

(** Number the rules from [n] on. *)
Definition number_from (policy_id : PolicyId) (name namespace : string) (n : nat)
    (specs : list RuleSpec) : list PolicyRule :=
  imap (λ j, number_rule policy_id name namespace (n + j)) specs.

Definition push_spec (policy_id : PolicyId) (name namespace : string)
    (rules : list PolicyRule) (spec : RuleSpec) : result PolicyCompileError (list PolicyRule) :=
  let '(source, destination, protocol, port, action, index) := spec in
  push_rule rules policy_id name namespace source destination protocol port action index.

Definition spec_index (spec : RuleSpec) : Z := spec.2.

Section PushRules.
Context (policy_id : PolicyId) (name namespace : string).

Lemma number_from_app n specs specs' :
  number_from policy_id name namespace n (specs ++ specs')
  = number_from policy_id name namespace n specs
    ++ number_from policy_id name namespace (n + length specs) specs'.
Proof.
  unfold number_from. rewrite imap_app. f_equal. apply imap_ext. intros i x _. simpl.
  f_equal. lia.
Qed.

Lemma push_spec_ok rules spec :
  in_width 32 (Z.of_nat (length rules)) → in_width 32 (spec_index spec) →
  push_spec policy_id name namespace rules spec
  = Ok (rules ++ [number_rule policy_id name namespace (length rules) spec]).
Proof.
  intros Hl Hi. destruct spec as [[[[[s d] p] port] a] i]. unfold push_spec, push_rule, spec_index in *.
  simpl in Hi. rewrite (proj2 (try_width_Some _ _ _) (conj eq_refl Hl)); simpl.
  by rewrite (proj2 (try_width_Some _ _ _) (conj eq_refl Hi)).
Qed.

(** Pushing a list of rules numbers them consecutively. *)
Lemma push_specs_ok specs rules :
  Z.of_nat (length rules + length specs) ≤ 2 ^ 32 →
  Forall (λ spec, in_width 32 (spec_index spec)) specs →
  try_fold (push_spec policy_id name namespace) rules specs
  = Ok (rules ++ number_from policy_id name namespace (length rules) specs).
Proof.
  revert rules. induction specs as [|spec specs IH]; intros rules Hl Hi.
  { simpl. by rewrite app_nil_r. }
  apply Forall_cons in Hi as [Hi His].
  assert (Hw : in_width 32 (Z.of_nat (length rules))) by (unfold in_width; simpl in Hl; lia).
  simpl. rewrite (push_spec_ok _ _ Hw Hi), IH.
  - f_equal. rewrite <-app_assoc, length_app. f_equal.
    change (spec :: specs) with ([spec] ++ specs). rewrite number_from_app. simpl.
    by rewrite Nat.add_0_r.
  - rewrite length_app. simpl in *. lia.
  - done.
Qed.

Lemma compile_ingress_rule_spec target rules item :
  compile_ingress_rule policy_id name namespace target rules item
  = if existsb (λ p, pp_port p =? 0) (ir_protocols item.2) then Err (InvalidPort item.1)
    else try_fold (push_spec policy_id name namespace) rules (ingress_rule_specs target item).
Proof.
  destruct item as [i rule]. unfold compile_ingress_rule, ingress_rule_specs. simpl.
  destruct (existsb _ _); [done|]. destruct (ir_protocols rule) as [|p ps]; simpl.
  - by destruct (push_rule _ _ _ _ _ _ _ _ _ _).
  - destruct (push_rule _ _ _ _ _ _ _ _ _ _); [|done]. by rewrite try_fold_map.
Qed.

Lemma ingress_rule_specs_index target item spec :
  spec ∈ ingress_rule_specs target item → spec_index spec = item.1.
Proof.
  destruct item as [i rule]. unfold ingress_rule_specs.
  destruct (ir_protocols rule) as [|p ps]; [by intros ->%list_elem_of_singleton|].
  by intros (q & _ & ->)%elem_of_list_map.
Qed.

Definition first_invalid (items : list (Z * IngressRule)) : option (Z * IngressRule) :=
  List.find (λ item, existsb (λ p, pp_port p =? 0) (ir_protocols item.2)) items.

Lemma compile_ingress_rules_spec target items rules :
  Z.of_nat (length rules + length (List.flat_map (ingress_rule_specs target) items)) ≤ 2 ^ 32 →
  Forall (λ item, in_width 32 item.1) items →
  try_fold (compile_ingress_rule policy_id name namespace target) rules items
  = match first_invalid items with
    | Some item => Err (InvalidPort item.1)
    | None => Ok (rules ++ number_from policy_id name namespace (length rules)
                    (List.flat_map (ingress_rule_specs target) items))
    end.
Proof.
  revert rules. induction items as [|item items IH]; intros rules Hl Hi.
  { simpl. by rewrite app_nil_r. }
  apply Forall_cons in Hi as [Hi His]. cbn [List.flat_map] in Hl |- *. rewrite length_app in Hl.
  unfold first_invalid. simpl. rewrite compile_ingress_rule_spec.
  destruct (existsb _ _); [done|]. rewrite push_specs_ok; [|lia|].
  - rewrite IH; [|rewrite length_app; unfold number_from; rewrite length_imap; lia|done].
    fold (first_invalid items). destruct (first_invalid items); [done|]. f_equal.
    rewrite number_from_app, <-app_assoc, length_app. do 3 f_equal.
    unfold number_from. by rewrite length_imap.
  - apply Forall_forall. intros spec ->%ingress_rule_specs_index. done.
Qed.
End PushRules.

Lemma Forall_enumerate {A} (P : Z → Prop) (l : list A) :
  (∀ i, 0 ≤ i < Z.of_nat (length l) → P i) → Forall (λ item, P item.1) (enumerate l).
Proof.
  intros HP. apply Forall_lookup. intros i [j x]. unfold enumerate.
  rewrite list_lookup_imap. intros (y & Hy & [= -> ->])%fmap_Some. simpl. apply HP.
  apply lookup_lt_Some in Hy. lia.
Qed.

Lemma ingress_rule_specs_length target items :
  (length items ≤ length (List.flat_map (ingress_rule_specs target) items))%nat.
Proof.
  induction items as [|[i rule] items IH]; simpl; [lia|]. rewrite length_app.
  destruct (ir_protocols rule); simpl; lia.
Qed.

(** Functional correctness of the native compiler: missing metadata is
    reported first, then the first ingress entry with port zero; otherwise the IR
    carries one consecutively numbered rule per protocol/port pair (or one
    any-traffic rule), in source order, under a target confined to the policy's
    namespace by default. *)
Lemma compile_spec policy_id policy :
  let spec := secp_spec policy in
  let target ns := default_namespace (IdentitySelector_from (sp_target spec)) ns in
  let specs ns :=
    List.flat_map (ingress_rule_specs (target ns)) (enumerate (sp_ingress spec)) in
  (∀ ns, meta_namespace (secp_metadata policy) = Some ns →
     Z.of_nat (length (specs ns)) ≤ 2 ^ 32) →
  PolicyCompiler_compile policy_id policy =
    match meta_name (secp_metadata policy), meta_namespace (secp_metadata policy) with
    | None, _ => Err MissingName
    | Some _, None => Err MissingNamespace
    | Some name, Some ns =>
        match first_invalid (enumerate (sp_ingress spec)) with
        | Some item => Err (InvalidPort item.1)
        | None => Ok
            {| pol_id := policy_id; pol_name := name; pol_namespace := ns;
               pol_priority := sp_priority spec; pol_origin := Native;
               pol_direction := Ingress; pol_target := target ns;
               pol_default_action := convert_action (sp_default_action spec);
               pol_enforcement_mode :=
                 match sp_enforcement_mode spec with ApiEnforce => Enforce | ApiShadow => Shadow end;
               pol_rules := number_from policy_id name ns 0 (specs ns) |}
        end
    end.
Proof.
  intros spec target specs Hfit. unfold PolicyCompiler_compile.
  destruct (meta_name _) as [name|]; [|done]. destruct (meta_namespace _) as [ns|]; [|done].
  specialize (Hfit ns eq_refl). simpl. rewrite compile_ingress_rules_spec.
  - simpl. by destruct (first_invalid _).
  - simpl. done.
  - apply (Forall_enumerate (in_width 32)). intros i Hi. unfold in_width.
    pose proof (ingress_rule_specs_length (target ns) (enumerate (sp_ingress spec))) as Hlen.
    unfold enumerate in Hlen at 1. rewrite length_imap in Hlen. unfold specs in Hfit.
    change (secp_spec policy) with spec in Hi. lia.
Qed.

(** The object of the witnesses: web may reach db on one TCP port. *)
Definition demo_selector (app : string) : WorkloadSelector := {|
  ws_namespace := None; ws_service_account := None; ws_application := Some app;
  ws_match_labels := ∅ |}.

Definition demo_security_policy (port : Z) : SecurityPolicy := {|
  secp_metadata := named_object "prod" "db";
  secp_spec := {|
    sp_target := demo_selector "db";
    sp_ingress :=
      [{| ir_from := demo_selector "web";
          ir_protocols := [{| pp_protocol := TransportTcp; pp_port := port |};
                           {| pp_protocol := TransportUdp; pp_port := 53 |}];
          ir_action := Allow |};
       {| ir_from := demo_selector "batch"; ir_protocols := []; ir_action := Audit |}];
    sp_priority := 1000; sp_default_action := Deny; sp_enforcement_mode := ApiEnforce |} |}.


(** An API port is a [u16]. *)
Definition api_ports_in_range (policy : SecurityPolicy) : Prop :=
  Forall (λ rule, Forall (λ p, in_width 16 (pp_port p)) (ir_protocols rule))
    (sp_ingress (secp_spec policy)).

(** Selectors that carry no address block. *)
Definition blockless (s : IdentitySelector) : Prop :=
  sel_ipv4_blocks s = [] ∧ sel_ipv6_blocks s = [].

Definition native_rule (policy_id : PolicyId) (target : IdentitySelector) (r : PolicyRule) : Prop :=
  wf_rule r ∧ blockless (rule_source r) ∧ rule_destination r = target ∧
  prov_policy_id (rule_provenance r) = policy_id.

Lemma push_rule_Forall (P : PolicyRule → Prop) rules policy_id name namespace source destination
    protocol port action index rules' :
  push_rule rules policy_id name namespace source destination protocol port action index
    = Ok rules' →
  Forall P rules →
  (∀ id i, in_width 32 id → P {| rule_id := id; rule_source := source;
     rule_destination := destination; rule_protocol := protocol; rule_destination_port := port;
     rule_action := action;
     rule_provenance := {| prov_policy_id := policy_id; prov_policy_name := name;
       prov_namespace := namespace; prov_rule_index := i |} |}) →
  Forall P rules'.
Proof.
  unfold push_rule, ok_or. destruct (try_width 32 (Z.of_nat _)) as [id|] eqn:Eid; [|done].
  destruct (try_width 32 index); [|done]. intros [= <-] Hr HP.
  apply Forall_app. split; [done|]. constructor; [|constructor]. apply HP.
  by apply try_width_Some in Eid as [-> ?].
Qed.

(** Everything the native compiler emits is well formed for lowering: no rule
    constrains a port without a protocol, no port is zero, selectors carry no
    address blocks, and every rule points back at its policy. *)
Lemma compile_native_wf policy_id policy ir :
  api_ports_in_range policy → PolicyCompiler_compile policy_id policy = Ok ir →
  Forall (native_rule policy_id (pol_target ir)) (pol_rules ir) ∧
  blockless (pol_target ir) ∧ is_Some (sel_namespace (pol_target ir)).
Proof.
  intros Hrange. unfold PolicyCompiler_compile.
  destruct (meta_name _) as [name|]; [|done]. destruct (meta_namespace _) as [ns|]; [|done]. simpl.
  set (target := default_namespace _ _).
  destruct (try_fold _ _ _) as [rules|] eqn:E; [|done]. intros [= <-]. simpl.
  split; [|done]. revert E. apply try_fold_inv; [constructor|].
  intros acc [i rule] acc' Hin Hacc. unfold compile_ingress_rule.
  assert (Hports : Forall (λ p, in_width 16 (pp_port p)) (ir_protocols rule)).
  { unfold api_ports_in_range in Hrange. rewrite Forall_forall in Hrange. apply Hrange.
    unfold enumerate in Hin. apply list_elem_of_lookup in Hin as [k Hk].
    rewrite list_lookup_imap in Hk. apply fmap_Some in Hk as (r & Hr & [= -> ->]).
    by eapply list_elem_of_lookup_2. }
  destruct (existsb _ _) eqn:Ez; [done|]. destruct (is_nil _).
  - intros Hp. eapply push_rule_Forall; [exact Hp|done|]. intros. by repeat split.
  - apply try_fold_inv; [done|]. intros b p b' Hp Hb Hpush.
    eapply push_rule_Forall; [exact Hpush|done|]. intros id j.
    rewrite Forall_forall in Hports. pose proof (Hports p Hp) as Hw.
    assert (pp_port p ≠ 0).
    { intros Hz. apply not_true_iff_false in Ez. apply Ez, existsb_exists.
      exists p. rewrite <-list_elem_of_In. split; [done|lia]. }
    unfold in_width in Hw. repeat split; simpl; try done; lia.
Qed.

