(* ===== verification/NetworkPolicy.v ===== *)
(** * The NetworkPolicy compiler ([crates/unf-policy/src/network_policy.rs])

    Translation of Kubernetes [networking.k8s.io/v1] NetworkPolicy objects to policy
    IR, one policy per effective direction.  The object types are the fields of
    [k8s_openapi] the compiler reads; error values keep their structured fields. *)

From Stdlib Require Import Ascii String.
From S2P Require Import Prelude Common NetAddr PolicyIr PolicyCompile.

(** ** The API object *)

Record LabelSelectorRequirement := {
  req_key : string;
  req_operator : string;
  req_values : option (list string);
}.

Record LabelSelector := {
  ls_match_expressions : option (list LabelSelectorRequirement);
  ls_match_labels : option (gmap string string);
}.

Record IPBlock := { ipb_cidr : string; ipb_except : option (list string) }.

Record NetworkPolicyPeer := {
  peer_ip_block : option IPBlock;
  peer_namespace_selector : option LabelSelector;
  peer_pod_selector : option LabelSelector;
}.

Inductive IntOrString := IntVal (value : Z) | StrVal (value : string).

Record NetworkPolicyPort := {
  npp_end_port : option Z;
  npp_port : option IntOrString;
  npp_protocol : option string;
}.

Record NetworkPolicyIngressRule := {
  ing_from : option (list NetworkPolicyPeer);
  ing_ports : option (list NetworkPolicyPort);
}.

Record NetworkPolicyEgressRule := {
  eg_ports : option (list NetworkPolicyPort);
  eg_to : option (list NetworkPolicyPeer);
}.

Record NetworkPolicySpec := {
  nps_egress : option (list NetworkPolicyEgressRule);
  nps_ingress : option (list NetworkPolicyIngressRule);
  nps_pod_selector : option LabelSelector;
  nps_policy_types : option (list string);
}.

Record NetworkPolicy := { np_metadata : ObjectMeta; np_spec : option NetworkPolicySpec }.

Definition LabelSelector_default : LabelSelector :=
  {| ls_match_expressions := None; ls_match_labels := None |}.

(** ** Limits and errors *)

Definition KUBERNETES_NETWORK_POLICY_MAX_PORT_RANGE_WIDTH : Z := 1024.
Definition KUBERNETES_NETWORK_POLICY_MAX_IP_BLOCK_ADDRESSES : Z := 1024.
Definition KUBERNETES_NETWORK_POLICY_MAX_IPV6_IP_BLOCK_PREFIXES : Z := 1024.
Definition NAMESPACE_NAME_LABEL : string := "kubernetes.io/metadata.name".

Inductive NetworkPolicyCompileError :=
| NpMissingName
| NpMissingNamespace
| MissingSpec
| UnsupportedEgress
| UnsupportedPolicyType (policy_type : string)
| InvalidMatchExpressionOperator (field key operator : string)
| InvalidMatchExpressionValues (field key operator : string)
| InvalidIpBlockPeerCombination (rule_index peer_index : Z)
| InvalidIpBlockCidr (rule_index peer_index : Z) (cidr : string)
| IpBlockExceptOutsideCidr (rule_index peer_index : Z) (cidr except : string)
| IpBlockTooLarge (rule_index peer_index address_count limit : Z)
| Ipv6IpBlockTooManyPrefixes (rule_index peer_index prefix_count limit : Z)
| IpBlockContainsReservedAddress (rule_index peer_index : Z)
| InvalidNamedPort (rule_index port_index : Z)
| InvalidNamedPortRange (rule_index port_index : Z)
| InvalidPortRange (rule_index port_index start end_ : Z)
| PortRangeTooLarge (rule_index port_index width limit : Z)
| UnsupportedProtocol (rule_index port_index : Z) (protocol : string)
| NpInvalidPort (rule_index port_index port : Z)
| NpTooManyRules.

Abbreviation np_result := (result NetworkPolicyCompileError).

(** ** Directions *)

Record PolicyDirections := { dirs_ingress : bool; dirs_egress : bool }.

Definition policy_directions (policy_types : option (list string))
    (egress : option (list NetworkPolicyEgressRule)) : np_result PolicyDirections :=
  if is_none_or policy_types is_nil then
    Ok {| dirs_ingress := true;
          dirs_egress := is_some_and egress (λ rules, negb (is_nil rules)) |}
  else
    try_fold (λ directions policy_type,
      if bool_decide (policy_type = "Ingress"%string)
      then Ok {| dirs_ingress := true; dirs_egress := dirs_egress directions |}
      else if bool_decide (policy_type = "Egress"%string)
      then Ok {| dirs_ingress := dirs_ingress directions; dirs_egress := true |}
      else Err (UnsupportedPolicyType policy_type))
      {| dirs_ingress := false; dirs_egress := false |} (default [] policy_types).

Definition compatibility_policy_ir (policy_id : PolicyId) (name namespace : string)
    (direction : PolicyDirection) (target : IdentitySelector) (rules : list PolicyRule) :
    PolicyIr := {|
  pol_id := policy_id;
  pol_name := name;
  pol_namespace := namespace;
  pol_priority := KUBERNETES_NETWORK_POLICY_PRIORITY;
  pol_origin := KubernetesNetworkPolicy;
  pol_direction := direction;
  pol_target := target;
  pol_default_action := ActDeny;
  pol_enforcement_mode := Enforce;
  pol_rules := rules |}.

(** ** Label selectors *)


(** [derive(Ord)]: key, operator in declaration order, values as a sequence. *)
Definition operator_index (o : LabelExpressionOperator) : Z :=
  match o with OpIn => 0 | OpNotIn => 1 | OpExists => 2 | OpDoesNotExist => 3 end.
#[export] Instance LabelExpression_ord : Ord LabelExpression :=
  cmp_via (λ e, (le_key e, (operator_index (le_operator e), bset_iter (le_values e)))).

Definition label_expression (requirement : LabelSelectorRequirement) (field : string) :
    np_result LabelExpression :=
  let values : gset string := list_to_set (default [] (req_values requirement)) in
  let empty := bool_decide (values = ∅) in
  let op := req_operator requirement in
  let? operator :=
    if bool_decide (op = "In"%string) && negb empty then Ok OpIn
    else if bool_decide (op = "NotIn"%string) && negb empty then Ok OpNotIn
    else if bool_decide (op = "Exists"%string) && empty then Ok OpExists
    else if bool_decide (op = "DoesNotExist"%string) && empty then Ok OpDoesNotExist
    else if bool_decide (op = "In"%string) || bool_decide (op = "NotIn"%string)
            || bool_decide (op = "Exists"%string) || bool_decide (op = "DoesNotExist"%string)
    then Err (InvalidMatchExpressionValues field (req_key requirement) op)
    else Err (InvalidMatchExpressionOperator field (req_key requirement) op) in
  Ok {| le_key := req_key requirement; le_operator := operator; le_values := values |}.

(** [collect::<Result<BTreeSet<_>, _>>()?.into_iter().collect()]. *)
Definition label_expressions (requirements : option (list LabelSelectorRequirement))
    (field : string) : np_result (list LabelExpression) :=
  let? es := try_map (λ requirement, label_expression requirement field)
               (default [] requirements) in
  Ok (sort_dedup es).

Record NamespaceIdentitySelector := {
  nis_namespace : option string;
  nis_match_labels : gmap string string;
  nis_match_expressions : list LabelExpression;
}.

Definition NamespaceIdentitySelector_default : NamespaceIdentitySelector :=
  {| nis_namespace := None; nis_match_labels := ∅; nis_match_expressions := [] |}.

Definition namespace_identity_selector (selector : LabelSelector) :
    np_result NamespaceIdentitySelector :=
  let match_labels := default ∅ (ls_match_labels selector) in
  let? match_expressions :=
    label_expressions (ls_match_expressions selector) "peer namespaceSelector" in
  Ok {| nis_namespace := match_labels !! NAMESPACE_NAME_LABEL;
        nis_match_labels := delete NAMESPACE_NAME_LABEL match_labels;
        nis_match_expressions := match_expressions |}.

Definition pod_identity_selector (selector : LabelSelector) (namespace : option string)
    (field : string) : np_result IdentitySelector :=
  let? match_expressions := label_expressions (ls_match_expressions selector) field in
  Ok {| sel_namespace := namespace;
        sel_namespace_match_labels := ∅;
        sel_namespace_match_expressions := [];
        sel_service_account := None;
        sel_application := None;
        sel_match_labels := default ∅ (ls_match_labels selector);
        sel_match_expressions := match_expressions;
        sel_ipv4_blocks := [];
        sel_ipv6_blocks := [] |}.

(** ** Address blocks *)

Definition parse_ipv6_cidr (value : string) : option Ipv6Cidr :=
  '(address, prefix_len) ← split_once value "/"%char;
  address ← parse_ipv6_addr address;
  prefix_len ← parse_u 8 prefix_len;
  if 128 <? prefix_len then None
  else Some {| c6_network := Z.land address (prefix_mask 128 prefix_len);
               c6_prefix_len := prefix_len |}.

Definition parse_ipv4_cidr (value : string) : option Ipv4Cidr :=
  '(address, prefix_len) ← split_once value "/"%char;
  address ← parse_ipv4_addr address;
  prefix_len ← parse_u 8 prefix_len;
  if 32 <? prefix_len then None
  else Some {| c4_network := Z.land address (prefix_mask 32 prefix_len);
               c4_prefix_len := prefix_len |}.

(** [try_fold(0_u64, |total, item| total.checked_add(item.address_count()))]. *)
Definition total_address_count (except : list Ipv4Cidr) : option Z :=
  fold_left (λ total item, t ← total; checked_add 64 t (Ipv4Cidr_address_count item))
    except (Some 0).

Definition validate_global_ipv4_exceptions (cidr : Ipv4Cidr) (except : list Ipv4Cidr)
    (rule_index peer_index : Z) : np_result unit :=
  if negb (c4_prefix_len cidr =? 0) then Ok ()
  else
    let address_count := total_address_count except in
    if is_some_and address_count (λ count, count <=? KUBERNETES_NETWORK_POLICY_MAX_IP_BLOCK_ADDRESSES)
    then Ok ()
    else Err (IpBlockTooLarge rule_index peer_index (default (u_max 64) address_count)
                KUBERNETES_NETWORK_POLICY_MAX_IP_BLOCK_ADDRESSES).

Definition selector_of_blocks (ipv4 : list Ipv4Block) (ipv6 : list Ipv6Block) :
    IdentitySelector := {|
  sel_namespace := None;
  sel_namespace_match_labels := ∅;
  sel_namespace_match_expressions := [];
  sel_service_account := None;
  sel_application := None;
  sel_match_labels := ∅;
  sel_match_expressions := [];
  sel_ipv4_blocks := ipv4;
  sel_ipv6_blocks := ipv6 |}.

Definition ipv6_except (cidr : Ipv6Cidr) (cidr_text : string) (rule_index peer_index : Z)
    (except_text : string) : np_result Ipv6Cidr :=
  let? except := ok_or (parse_ipv6_cidr except_text)
                   (InvalidIpBlockCidr rule_index peer_index except_text) in
  if negb (Ipv6Cidr_contains_cidr cidr except)
  then Err (IpBlockExceptOutsideCidr rule_index peer_index cidr_text except_text)
  else Ok except.

Definition ipv4_except (cidr : Ipv4Cidr) (cidr_text : string) (rule_index peer_index : Z)
    (except_text : string) : np_result Ipv4Cidr :=
  let? except := ok_or (parse_ipv4_cidr except_text)
                   (InvalidIpBlockCidr rule_index peer_index except_text) in
  if negb (Ipv4Cidr_contains_cidr cidr except)
  then Err (IpBlockExceptOutsideCidr rule_index peer_index cidr_text except_text)
  else Ok except.

Definition ip_block_selector (ip_block : IPBlock) (rule_index peer_index : Z) :
    np_result IdentitySelector :=
  let cidr_text := ipb_cidr ip_block in
  match parse_ipv6_cidr cidr_text with
  | Some cidr =>
      let? except := try_map (ipv6_except cidr cidr_text rule_index peer_index)
                       (default [] (ipb_except ip_block)) in
      let except := sort_dedup except in
      let prefix_count := 1 + Z.of_nat (length except) in
      if KUBERNETES_NETWORK_POLICY_MAX_IPV6_IP_BLOCK_PREFIXES <? prefix_count
      then Err (Ipv6IpBlockTooManyPrefixes rule_index peer_index prefix_count
                  KUBERNETES_NETWORK_POLICY_MAX_IPV6_IP_BLOCK_PREFIXES)
      else Ok (selector_of_blocks [] [{| blk6_cidr := cidr; blk6_except := except |}])
  | None =>
      let? cidr := ok_or (parse_ipv4_cidr cidr_text)
                     (InvalidIpBlockCidr rule_index peer_index cidr_text) in
      let address_count := Ipv4Cidr_address_count cidr in
      if negb (c4_prefix_len cidr =? 0) && Ipv4Cidr_contains cidr 0
      then Err (IpBlockContainsReservedAddress rule_index peer_index)
      else if negb (c4_prefix_len cidr =? 0)
              && (KUBERNETES_NETWORK_POLICY_MAX_IP_BLOCK_ADDRESSES <? address_count)
      then Err (IpBlockTooLarge rule_index peer_index address_count
                  KUBERNETES_NETWORK_POLICY_MAX_IP_BLOCK_ADDRESSES)
      else
        let? except := try_map (ipv4_except cidr cidr_text rule_index peer_index)
                         (default [] (ipb_except ip_block)) in
        let except := sort_dedup except in
        let? _ := validate_global_ipv4_exceptions cidr except rule_index peer_index in
        Ok (selector_of_blocks [{| blk4_cidr := cidr; blk4_except := except |}] [])
  end.

(** ** Peers and ports *)

Definition peer_selector (peer : NetworkPolicyPeer) (policy_namespace : string)
    (rule_index peer_index : Z) : np_result IdentitySelector :=
  match peer_ip_block peer with
  | Some ip_block =>
      if bool_decide (is_Some (peer_namespace_selector peer))
         || bool_decide (is_Some (peer_pod_selector peer))
      then Err (InvalidIpBlockPeerCombination rule_index peer_index)
      else ip_block_selector ip_block rule_index peer_index
  | None =>
      let? namespace_selector :=
        match peer_namespace_selector peer with
        | Some selector => namespace_identity_selector selector
        | None =>
            if bool_decide (is_Some (peer_pod_selector peer))
            then Ok {| nis_namespace := Some policy_namespace;
                       nis_match_labels := ∅; nis_match_expressions := [] |}
            else Ok NamespaceIdentitySelector_default
        end in
      let? identity_selector :=
        match peer_pod_selector peer with
        | None => Ok IdentitySelector_default
        | Some selector => pod_identity_selector selector None "peer podSelector"
        end in
      Ok {| sel_namespace := nis_namespace namespace_selector;
            sel_namespace_match_labels := nis_match_labels namespace_selector;
            sel_namespace_match_expressions := nis_match_expressions namespace_selector;
            sel_service_account := sel_service_account identity_selector;
            sel_application := sel_application identity_selector;
            sel_match_labels := sel_match_labels identity_selector;
            sel_match_expressions := sel_match_expressions identity_selector;
            sel_ipv4_blocks := sel_ipv4_blocks identity_selector;
            sel_ipv6_blocks := sel_ipv6_blocks identity_selector |}
  end.

Definition sources (peers : option (list NetworkPolicyPeer)) (policy_namespace : string)
    (rule_index : Z) : np_result (list IdentitySelector) :=
  let peers := default [] peers in
  if is_nil peers then Ok [IdentitySelector_default]
  else try_map (λ '(peer_index, peer), peer_selector peer policy_namespace rule_index peer_index)
         (enumerate peers).

Definition destinations (peers : option (list NetworkPolicyPeer)) (policy_namespace : string)
    (rule_index : Z) : np_result (list IdentitySelector) :=
  let peers := default [] peers in
  if is_nil peers then Ok [IdentitySelector_default]
  else try_map (λ '(peer_index, peer), peer_selector peer policy_namespace rule_index peer_index)
         (enumerate peers).

Definition PortTuple : Type := option Protocol * DestinationPort.

Definition port_protocol (protocol : option string) (rule_index port_index : Z) :
    np_result Protocol :=
  let value := default "TCP"%string protocol in
  if bool_decide (value = "TCP"%string) then Ok Tcp
  else if bool_decide (value = "UDP"%string) then Ok Udp
  else if bool_decide (value = "SCTP"%string) then Ok Sctp
  else Err (UnsupportedProtocol rule_index port_index value).

(** The [Some(end_value)] arm: [Any] is the early return of the full range. *)
Definition port_range (value start end_value : Z) (rule_index port_index : Z) :
    np_result DestinationPort :=
  let? end_ := ok_or (try_width 16 end_value)
                 (InvalidPortRange rule_index port_index value end_value) in
  if end_ <? start then Err (InvalidPortRange rule_index port_index value end_value)
  else
    let width := end_ - start + 1 in
    if (start =? 1) && (end_ =? u_max 16) then Ok PortAny
    else if KUBERNETES_NETWORK_POLICY_MAX_PORT_RANGE_WIDTH <? width
    then Err (PortRangeTooLarge rule_index port_index width
                KUBERNETES_NETWORK_POLICY_MAX_PORT_RANGE_WIDTH)
    else if start =? end_ then Ok (PortNumber start)
    else Ok (PortRange start end_).

Definition port_tuple (port : NetworkPolicyPort) (rule_index port_index : Z) :
    np_result PortTuple :=
  let? protocol := port_protocol (npp_protocol port) rule_index port_index in
  let? destination_port :=
    match npp_port port with
    | Some (IntVal value) =>
        let? start := ok_or (try_width 16 value) (NpInvalidPort rule_index port_index value) in
        if start =? 0 then Err (NpInvalidPort rule_index port_index 0)
        else
          match npp_end_port port with
          | None => Ok (PortNumber start)
          | Some end_value => port_range value start end_value rule_index port_index
          end
    | Some (StrVal name) =>
        if negb (bool_decide (name = EmptyString)) then
          if bool_decide (is_Some (npp_end_port port))
          then Err (InvalidNamedPortRange rule_index port_index)
          else Ok (PortNamed name)
        else Err (InvalidNamedPort rule_index port_index)
    | None =>
        match npp_end_port port with
        | None => Ok PortAny
        | Some end_value => Err (InvalidPortRange rule_index port_index 0 end_value)
        end
    end in
  Ok (Some protocol, destination_port).

Definition ports (policy_ports : option (list NetworkPolicyPort)) (rule_index : Z) :
    np_result (list PortTuple) :=
  let policy_ports := default [] policy_ports in
  if is_nil policy_ports then Ok [(None, PortAny)]
  else try_map (λ '(port_index, port), port_tuple port rule_index port_index)
         (enumerate policy_ports).

(** ** Compilation *)

(** [push_rule(..).map_err(|_| TooManyRules)]. *)
Definition np_push_rule (rules : list PolicyRule) (policy_id : PolicyId) (name namespace : string)
    (source destination : IdentitySelector) (tuple : PortTuple) (rule_index : Z) :
    np_result (list PolicyRule) :=
  match push_rule rules policy_id name namespace source destination tuple.1 tuple.2
          ActAllow rule_index with
  | Ok rules => Ok rules
  | Err _ => Err NpTooManyRules
  end.

Definition compile_ingress (policy_id : PolicyId) (name namespace : string)
    (target : IdentitySelector) (rules : list PolicyRule)
    (item : Z * NetworkPolicyIngressRule) : np_result (list PolicyRule) :=
  let '(rule_index, ingress) := item in
  let? sources := sources (ing_from ingress) namespace rule_index in
  let? ports := ports (ing_ports ingress) rule_index in
  try_fold (λ rules source,
    try_fold (λ rules tuple,
      np_push_rule rules policy_id name namespace source target tuple rule_index) rules ports)
    rules sources.

Definition compile_egress (policy_id : PolicyId) (name namespace : string)
    (target : IdentitySelector) (rules : list PolicyRule)
    (item : Z * NetworkPolicyEgressRule) : np_result (list PolicyRule) :=
  let '(rule_index, egress) := item in
  let? destinations := destinations (eg_to egress) namespace rule_index in
  let? ports := ports (eg_ports egress) rule_index in
  try_fold (λ rules destination,
    try_fold (λ rules tuple,
      np_push_rule rules policy_id name namespace target destination tuple rule_index) rules ports)
    rules destinations.

Definition compile_directions (policy_id : PolicyId) (policy : NetworkPolicy) :
    np_result (list PolicyIr) :=
  let? name := ok_or (meta_name (np_metadata policy)) NpMissingName in
  let? namespace := ok_or (meta_namespace (np_metadata policy)) NpMissingNamespace in
  let? spec := ok_or (np_spec policy) MissingSpec in
  let? directions := policy_directions (nps_policy_types spec) (nps_egress spec) in
  let pod_selector := default LabelSelector_default (nps_pod_selector spec) in
  let? target := pod_identity_selector pod_selector (Some namespace) "podSelector" in
  let? policies :=
    if dirs_ingress directions then
      let? rules := try_fold (compile_ingress policy_id name namespace target) []
                      (enumerate (default [] (nps_ingress spec))) in
      Ok [compatibility_policy_ir policy_id name namespace Ingress target rules]
    else Ok [] in
  if dirs_egress directions then
    let? rules := try_fold (compile_egress policy_id name namespace target) []
                    (enumerate (default [] (nps_egress spec))) in
    Ok (policies ++ [compatibility_policy_ir policy_id name namespace Egress target rules])
  else Ok policies.

(** The ingress-only entry point. *)
Definition NetworkPolicyCompiler_compile (policy_id : PolicyId) (policy : NetworkPolicy) :
    np_result PolicyIr :=
  let? policies := compile_directions policy_id policy in
  match policies with
  | [ir] => if bool_decide (pol_direction ir = Ingress) then Ok ir else Err UnsupportedEgress
  | _ => Err UnsupportedEgress
  end.

(** ** Specification: NetworkPolicy semantics on the API object *)

Definition requirement_holds (r : LabelSelectorRequirement) (labels : gmap string string) : Prop :=
  let values := default [] (req_values r) in
  (req_operator r = "In"%string ∧ ∃ v, labels !! req_key r = Some v ∧ v ∈ values) ∨
  (req_operator r = "NotIn"%string ∧ ∀ v, labels !! req_key r = Some v → v ∉ values) ∨
  (req_operator r = "Exists"%string ∧ is_Some (labels !! req_key r)) ∨
  (req_operator r = "DoesNotExist"%string ∧ labels !! req_key r = None).

Definition selector_holds (s : LabelSelector) (labels : gmap string string) : Prop :=
  default ∅ (ls_match_labels s) ⊆ labels ∧
  ∀ r, r ∈ default [] (ls_match_expressions s) → requirement_holds r labels.

(** An address block admits an address of its family that is inside the CIDR and
    outside every exception. *)
Definition block_admits (b : IPBlock) (ipv4 ipv6 : option Z) : Prop :=
  match parse_ipv6_cidr (ipb_cidr b) with
  | Some cidr =>
      ∃ a, ipv4 = None ∧ ipv6 = Some a ∧ Ipv6Cidr_contains cidr a = true ∧
        ∀ text c, text ∈ default [] (ipb_except b) → parse_ipv6_cidr text = Some c →
          Ipv6Cidr_contains c a = false
  | None =>
      ∃ cidr a, parse_ipv4_cidr (ipb_cidr b) = Some cidr ∧
        ipv4 = Some a ∧ ipv6 = None ∧ Ipv4Cidr_contains cidr a = true ∧
        ∀ text c, text ∈ default [] (ipb_except b) → parse_ipv4_cidr text = Some c →
          Ipv4Cidr_contains c a = false
  end.

(** A peer admits a workload: an address block by address; otherwise the namespace
    selector holds of its namespace (or it is in the policy's own namespace when
    only a pod selector is given) and the pod selector holds of its labels. *)
Definition peer_admits (policy_namespace : string) (peer : NetworkPolicyPeer)
    (endpoint : Endpoint) (ipv4 ipv6 : option Z) : Prop :=
  match peer_ip_block peer with
  | Some b => block_admits b ipv4 ipv6
  | None =>
      match peer_namespace_selector peer, peer_pod_selector peer with
      | Some s, _ => selector_holds s (ep_namespace_labels endpoint)
      | None, Some _ => ep_namespace endpoint = policy_namespace
      | None, None => True
      end ∧
      match peer_pod_selector peer with
      | Some s => selector_holds s (ep_labels endpoint)
      | None => True
      end
  end.

Definition peers_admit (policy_namespace : string) (peers : option (list NetworkPolicyPeer))
    (endpoint : Endpoint) (ipv4 ipv6 : option Z) : Prop :=
  default [] peers = [] ∨
  ∃ peer, peer ∈ default [] peers ∧ peer_admits policy_namespace peer endpoint ipv4 ipv6.

Definition protocol_name (p : Protocol) : string :=
  match p with Icmp => "ICMP" | Tcp => "TCP" | Udp => "UDP" | Sctp => "SCTP" end.

(** A port entry admits a flow of its protocol (TCP when omitted) whose port is the
    number, in the range, or the one the destination gives the name. *)
Definition port_admits (p : NetworkPolicyPort) (flow : Flow) : Prop :=
  default "TCP"%string (npp_protocol p) = protocol_name (flow_protocol flow) ∧
  match npp_port p with
  | None => True
  | Some (IntVal start) =>
      start ≤ flow_destination_port flow ≤ default start (npp_end_port p)
  | Some (StrVal name) =>
      ep_named_ports (flow_destination flow)
        !! {| np_name := name; np_protocol := flow_protocol flow |}
      = Some (flow_destination_port flow)
  end.

Definition ports_admit (ports : option (list NetworkPolicyPort)) (flow : Flow) : Prop :=
  default [] ports = [] ∨ ∃ p, p ∈ default [] ports ∧ port_admits p flow.

(** Whether the object isolates its pods in a direction: the API's defaulting of
    [policyTypes]. *)
Definition isolates (spec : NetworkPolicySpec) (direction : PolicyDirection) : Prop :=
  match default [] (nps_policy_types spec), direction with
  | [], Ingress => True
  | [], Egress => default [] (nps_egress spec) ≠ []
  | types, Ingress => "Ingress"%string ∈ types
  | types, Egress => "Egress"%string ∈ types
  end.

Definition selects (spec : NetworkPolicySpec) (namespace : string) (endpoint : Endpoint) : Prop :=
  ep_namespace endpoint = namespace ∧
  selector_holds (default LabelSelector_default (nps_pod_selector spec)) (ep_labels endpoint).

Definition admits (spec : NetworkPolicySpec) (namespace : string) (direction : PolicyDirection)
    (flow : Flow) (addresses : DestinationAddresses) : Prop :=
  match direction with
  | Ingress =>
      ∃ rule, rule ∈ default [] (nps_ingress spec) ∧
        peers_admit namespace (ing_from rule) (flow_source flow)
          (flow_source_ipv4 flow) (flow_source_ipv6 flow) ∧
        ports_admit (ing_ports rule) flow
  | Egress =>
      ∃ rule, rule ∈ default [] (nps_egress spec) ∧
        peers_admit namespace (eg_to rule) (flow_destination flow)
          (dst_ipv4 addresses) (dst_ipv6 addresses) ∧
        ports_admit (eg_ports rule) flow
  end.

(** A workload Kubernetes manages: it has an identity and its namespace carries the
    name label the API server sets. *)
Definition workload (endpoint : Endpoint) : Prop :=
  ep_identity endpoint ≠ 0 ∧
  ep_namespace_labels endpoint !! NAMESPACE_NAME_LABEL = Some (ep_namespace endpoint).

(** ** Label selectors *)

Lemma labels_all_subseteq expected labels : labels_all expected labels = true ↔ expected ⊆ labels.
Proof.
  unfold labels_all. rewrite forallb_forall, map_subseteq_spec. split.
  - intros H k v Hk. specialize (H (k, v)). rewrite <-list_elem_of_In, elem_of_map_to_list in H.
    specialize (H Hk). by apply bool_decide_eq_true in H.
  - intros H [k v] Hin. rewrite <-list_elem_of_In, elem_of_map_to_list in Hin.
    simpl. rewrite bool_decide_eq_true. auto.
Qed.

Lemma label_expression_spec r field e labels :
  label_expression r field = Ok e →
  LabelExpression_matches e labels = true ↔ requirement_holds r labels.
Proof.
  unfold label_expression, requirement_holds. cbv zeta.
  set (values := default [] (req_values r)). destruct (req_values r); subst values;
  destruct r as [key op vs]; simpl;
  repeat (case_bool_decide; simpl; try done); intros [= <-]; subst;
  unfold LabelExpression_matches; simpl; destruct (labels !! key) as [v|] eqn:E; simpl;
  rewrite ?bool_decide_eq_true, ?negb_true_iff, ?bool_decide_eq_false, ?elem_of_list_to_set;
  naive_solver.
Qed.

Lemma forallb_elem {A} (f : A → bool) l : forallb f l = true ↔ ∀ x, x ∈ l → f x = true.
Proof. rewrite forallb_forall. by setoid_rewrite list_elem_of_In. Qed.

Lemma try_map_elem_of {E A B} (f : A → result E B) l l' :
  try_map f l = Ok l' →
  (∀ y, y ∈ l' → ∃ x, x ∈ l ∧ f x = Ok y) ∧ (∀ x, x ∈ l → ∃ y, y ∈ l' ∧ f x = Ok y).
Proof.
  rewrite try_map_Forall2. intros H. split.
  - intros y Hy. apply list_elem_of_lookup in Hy as [i Hi].
    destruct (Forall2_lookup_r _ _ _ _ _ H Hi) as (x & Hx & Hf).
    exists x. split; [by eapply list_elem_of_lookup_2|done].
  - intros x Hx. apply list_elem_of_lookup in Hx as [i Hi].
    destruct (Forall2_lookup_l _ _ _ _ _ H Hi) as (y & Hy & Hf).
    exists y. split; [by eapply list_elem_of_lookup_2|done].
Qed.

Lemma elem_of_enumerate {A} (l : list A) x : x ∈ l ↔ ∃ i, (i, x) ∈ enumerate l.
Proof.
  unfold enumerate. split.
  - intros [i Hi]%list_elem_of_lookup. exists (Z.of_nat i). apply list_elem_of_lookup.
    exists i. by rewrite list_lookup_imap, Hi.
  - intros [i [j Hj]%list_elem_of_lookup]. rewrite list_lookup_imap in Hj.
    apply fmap_Some in Hj as (y & Hy & [= -> ->]). by eapply list_elem_of_lookup_2.
Qed.

Lemma label_expressions_spec reqs field es labels :
  label_expressions reqs field = Ok es →
  forallb (λ e, LabelExpression_matches e labels) es = true ↔
  ∀ r, r ∈ default [] reqs → requirement_holds r labels.
Proof.
  unfold label_expressions. destruct (try_map _ _) as [es'|] eqn:E; [|done]. intros [= <-].
  apply try_map_elem_of in E as [H1 H2]. rewrite forallb_elem. setoid_rewrite elem_of_sort_dedup.
  split.
  - intros Hall r Hr. destruct (H2 r Hr) as (e & He & Hf).
    eapply label_expression_spec; [exact Hf|auto].
  - intros Hall e He. destruct (H1 e He) as (r & Hr & Hf).
    eapply label_expression_spec; [exact Hf|auto].
Qed.

(** ** Selectors of peers and targets *)

Lemma IdentitySelector_matches_spec s ep :
  sel_service_account s = None → sel_application s = None →
  IdentitySelector_matches s ep = true ↔
  (is_none_or (sel_namespace s) (λ ns, bool_decide (ns = ep_namespace ep)) = true ∧
   sel_namespace_match_labels s ⊆ ep_namespace_labels ep ∧
   forallb (λ e, LabelExpression_matches e (ep_namespace_labels ep))
     (sel_namespace_match_expressions s) = true) ∧
  (sel_match_labels s ⊆ ep_labels ep ∧
   forallb (λ e, LabelExpression_matches e (ep_labels ep)) (sel_match_expressions s) = true).
Proof.
  intros Hsa Happ. unfold IdentitySelector_matches. rewrite Hsa, Happ. simpl.
  rewrite !andb_true_iff, !labels_all_subseteq. tauto.
Qed.

(** A selector without address blocks matches a workload by metadata alone, unless
    both address families are given. *)
Lemma matches_addressed_blockless s ep ipv4 ipv6 :
  blockless s → ep_identity ep ≠ 0 → ¬ (is_Some ipv4 ∧ is_Some ipv6) →
  IdentitySelector_matches_addressed s ep ipv4 ipv6 = IdentitySelector_matches s ep.
Proof.
  intros [H4 H6] Hid Hone. unfold IdentitySelector_matches_addressed. rewrite H4, H6. simpl.
  rewrite (proj2 (Z.eqb_neq _ _) Hid). simpl.
  destruct ipv4, ipv6; simpl; rewrite ?andb_true_r; try done. destruct Hone; split; eauto.
Qed.

Lemma pod_identity_selector_spec selector namespace field s :
  pod_identity_selector selector namespace field = Ok s →
  blockless s ∧ sel_service_account s = None ∧ sel_application s = None ∧
  sel_namespace s = namespace ∧ sel_namespace_match_labels s = ∅ ∧
  sel_namespace_match_expressions s = [] ∧
  ∀ labels, selector_holds selector labels ↔
    sel_match_labels s ⊆ labels ∧
    forallb (λ e, LabelExpression_matches e labels) (sel_match_expressions s) = true.
Proof.
  unfold pod_identity_selector. destruct (label_expressions _ _) as [es|] eqn:E; [|done].
  intros [= <-]. split_and!; try done. intros labels. simpl.
  by rewrite (label_expressions_spec _ _ _ _ E).
Qed.

Lemma delete_subseteq_name (m labels : gmap string string) k v :
  labels !! k = Some v →
  (is_none_or (m !! k) (λ x, bool_decide (x = v)) = true ∧ delete k m ⊆ labels) ↔ m ⊆ labels.
Proof.
  intros Hk. rewrite !map_subseteq_spec. split.
  - intros [Hm Hd] i x Hi. destruct (decide (i = k)) as [->|Hne].
    + rewrite Hi in Hm. simpl in Hm. apply bool_decide_eq_true in Hm. congruence.
    + apply Hd. by rewrite lookup_delete_ne.
  - intros Hm. split.
    + destruct (m !! k) as [x|] eqn:E; simpl; [|done]. apply bool_decide_eq_true.
      apply Hm in E. congruence.
    + intros i x [_ Hi]%lookup_delete_Some. auto.
Qed.

Lemma namespace_identity_selector_spec selector n ep :
  namespace_identity_selector selector = Ok n →
  ep_namespace_labels ep !! NAMESPACE_NAME_LABEL = Some (ep_namespace ep) →
  (is_none_or (nis_namespace n) (λ ns, bool_decide (ns = ep_namespace ep)) = true ∧
   nis_match_labels n ⊆ ep_namespace_labels ep ∧
   forallb (λ e, LabelExpression_matches e (ep_namespace_labels ep))
     (nis_match_expressions n) = true) ↔
  selector_holds selector (ep_namespace_labels ep).
Proof.
  unfold namespace_identity_selector, selector_holds.
  destruct (label_expressions _ _) as [es|] eqn:E; [|done]. intros [= <-] Hl. simpl.
  rewrite (label_expressions_spec _ _ _ _ E).
  pose proof (delete_subseteq_name (default ∅ (ls_match_labels selector)) _ _ _ Hl). tauto.
Qed.

Lemma existsb_false_elem {A} (f : A → bool) l :
  negb (existsb f l) = true ↔ ∀ x, x ∈ l → f x = false.
Proof.
  rewrite negb_true_iff, <-not_true_iff_false, existsb_exists.
  setoid_rewrite <-list_elem_of_In. setoid_rewrite <-not_true_iff_false. naive_solver.
Qed.

(** The metadata part of a block's selector matches every endpoint. *)
Lemma selector_of_blocks_matches b4 b6 ep : IdentitySelector_matches (selector_of_blocks b4 b6) ep = true.
Proof.
  apply IdentitySelector_matches_spec; [done..|]. simpl.
  split_and!; try done; apply map_empty_subseteq.
Qed.

Lemma ipv6_except_spec cidr text i j except_text c :
  ipv6_except cidr text i j except_text = Ok c →
  parse_ipv6_cidr except_text = Some c ∧ Ipv6Cidr_contains_cidr cidr c = true.
Proof.
  unfold ipv6_except, ok_or. destruct (parse_ipv6_cidr except_text) as [e|]; [|done].
  destruct (Ipv6Cidr_contains_cidr cidr e) eqn:E; simpl; [|done]. by intros [= <-].
Qed.

Lemma ipv4_except_spec cidr text i j except_text c :
  ipv4_except cidr text i j except_text = Ok c →
  parse_ipv4_cidr except_text = Some c ∧ Ipv4Cidr_contains_cidr cidr c = true.
Proof.
  unfold ipv4_except, ok_or. destruct (parse_ipv4_cidr except_text) as [e|]; [|done].
  destruct (Ipv4Cidr_contains_cidr cidr e) eqn:E; simpl; [|done]. by intros [= <-].
Qed.

Lemma excepts_outside {A} (parse : string → option A) (contains : A → bool)
    (except : string → np_result A) texts cs :
  (∀ t c, except t = Ok c → parse t = Some c) → try_map except texts = Ok cs →
  (∀ c, c ∈ cs → contains c = false) ↔
  (∀ t c, t ∈ texts → parse t = Some c → contains c = false).
Proof.
  intros Hp [H1 H2]%try_map_elem_of. split.
  - intros Hall t c Ht Hc. destruct (H2 t Ht) as (c' & Hin & He). apply Hp in He. naive_solver.
  - intros Hall c Hc. destruct (H1 c Hc) as (t & Ht & He). apply Hp in He. eauto.
Qed.

(** What a compiled block looks like. *)
Lemma ip_block_selector_Ok b i j s :
  ip_block_selector b i j = Ok s →
  (∃ cidr except, parse_ipv6_cidr (ipb_cidr b) = Some cidr ∧
     try_map (ipv6_except cidr (ipb_cidr b) i j) (default [] (ipb_except b)) = Ok except ∧
     s = selector_of_blocks [] [{| blk6_cidr := cidr; blk6_except := sort_dedup except |}]) ∨
  (∃ cidr except, parse_ipv6_cidr (ipb_cidr b) = None ∧ parse_ipv4_cidr (ipb_cidr b) = Some cidr ∧
     (c4_prefix_len cidr ≠ 0 → Ipv4Cidr_contains cidr 0 = false ∧
        Ipv4Cidr_address_count cidr ≤ KUBERNETES_NETWORK_POLICY_MAX_IP_BLOCK_ADDRESSES) ∧
     try_map (ipv4_except cidr (ipb_cidr b) i j) (default [] (ipb_except b)) = Ok except ∧
     validate_global_ipv4_exceptions cidr (sort_dedup except) i j = Ok () ∧
     s = selector_of_blocks [{| blk4_cidr := cidr; blk4_except := sort_dedup except |}] []).
Proof.
  unfold ip_block_selector. destruct (parse_ipv6_cidr _) as [cidr|].
  - destruct (try_map _ _) as [ex|] eqn:E; [|done]. destruct (_ <? _); [done|].
    intros [= <-]. left. by exists cidr, ex.
  - unfold ok_or. destruct (parse_ipv4_cidr _) as [cidr|]; [|done].
    destruct (negb _ && Ipv4Cidr_contains _ _) eqn:E1; [done|].
    destruct (negb _ && (_ <? _)) eqn:E2; [done|].
    destruct (try_map _ _) as [ex|] eqn:E; [|done].
    destruct (validate_global_ipv4_exceptions _ _ _ _) as [[]|] eqn:Ev; [|done].
    intros [= <-]. right. exists cidr, ex. split_and!; try done. intros Hne.
    rewrite (proj2 (Z.eqb_neq _ _) Hne) in E1, E2. simpl in E1, E2.
    split; [done|]. by apply Z.ltb_ge.
Qed.

Lemma ip_block_selector_spec b i j s ep ipv4 ipv6 :
  ip_block_selector b i j = Ok s →
  IdentitySelector_matches_addressed s ep ipv4 ipv6 = true ↔ block_admits b ipv4 ipv6.
Proof.
  intros [(cidr & ex & Hp & Hex & ->)|(cidr & ex & Hp6 & Hp & _ & Hex & _ & ->)]%ip_block_selector_Ok;
    unfold IdentitySelector_matches_addressed, block_admits; rewrite selector_of_blocks_matches; simpl;
    rewrite orb_true_r.
  - rewrite Hp. simpl. destruct ipv4, ipv6 as [a|]; simpl;
      try (split; [done|by intros (? & ? & ? & _)]).
    rewrite orb_false_r. unfold Ipv6Block_contains. simpl.
    rewrite andb_true_iff, existsb_false_elem. setoid_rewrite elem_of_sort_dedup.
    rewrite (excepts_outside parse_ipv6_cidr (λ c, Ipv6Cidr_contains c a) _ _ _
      (λ t c H, proj1 (ipv6_except_spec _ _ _ _ t c H)) Hex).
    split; [intros [??]; by exists a|]. by intros (? & _ & [= <-] & ? & ?).
  - rewrite Hp6, Hp. simpl. destruct ipv4 as [a|], ipv6; simpl;
      try (split; [done|by intros (? & ? & _ & ? & ? & _)]).
    rewrite orb_false_r. unfold Ipv4Block_contains. simpl.
    rewrite andb_true_iff, existsb_false_elem. setoid_rewrite elem_of_sort_dedup.
    rewrite (excepts_outside parse_ipv4_cidr (λ c, Ipv4Cidr_contains c a) _ _ _
      (λ t c H, proj1 (ipv4_except_spec _ _ _ _ t c H)) Hex).
    split; [intros [??]; by exists cidr, a|]. by intros (? & ? & [= <-] & [= <-] & _ & ? & ?).
Qed.

(** A compiled peer matches exactly the workloads the peer admits. *)
Lemma peer_selector_spec peer ns i j s ep ipv4 ipv6 :
  peer_selector peer ns i j = Ok s → workload ep → ¬ (is_Some ipv4 ∧ is_Some ipv6) →
  IdentitySelector_matches_addressed s ep ipv4 ipv6 = true ↔ peer_admits ns peer ep ipv4 ipv6.
Proof.
  intros Hs [Hid Hl] Hone. unfold peer_selector, peer_admits in *.
  destruct (peer_ip_block peer) as [b|].
  { destruct (_ || _); [done|]. by eapply ip_block_selector_spec. }
  destruct (match peer_namespace_selector peer with Some _ => _ | None => _ end)
    as [n|] eqn:En; [|done].
  destruct (match peer_pod_selector peer with None => _ | Some _ => _ end) as [p|] eqn:Ep; [|done].
  injection Hs as <-.
  assert (Hpod : blockless p ∧ sel_service_account p = None ∧ sel_application p = None ∧
    (match peer_pod_selector peer with
     | Some s => selector_holds s (ep_labels ep) | None => True end ↔
     sel_match_labels p ⊆ ep_labels ep ∧
     forallb (λ e, LabelExpression_matches e (ep_labels ep)) (sel_match_expressions p) = true)).
  { destruct (peer_pod_selector peer) as [ps|].
    - apply pod_identity_selector_spec in Ep as (? & ? & ? & _ & _ & _ & Hsel). auto.
    - injection Ep as <-. split_and!; try done. split; [|done]. intros _.
      split; [apply map_empty_subseteq|done]. }
  assert (Hns : (is_none_or (nis_namespace n) (λ ns, bool_decide (ns = ep_namespace ep)) = true ∧
     nis_match_labels n ⊆ ep_namespace_labels ep ∧
     forallb (λ e, LabelExpression_matches e (ep_namespace_labels ep))
       (nis_match_expressions n) = true) ↔
    match peer_namespace_selector peer, peer_pod_selector peer with
    | Some s, _ => selector_holds s (ep_namespace_labels ep)
    | None, Some _ => ep_namespace ep = ns
    | None, None => True
    end).
  { destruct (peer_namespace_selector peer) as [nsel|];
      [by apply namespace_identity_selector_spec|].
    destruct (peer_pod_selector peer); simpl in En; injection En as <-; simpl;
      rewrite ?bool_decide_eq_true; split; try done.
    - by intros [-> _].
    - intros ->. split_and!; try done. apply map_empty_subseteq.
    - intros _. split_and!; try done. apply map_empty_subseteq. }
  destruct Hpod as ([Hb4 Hb6] & Hsa & Happ & Hpod).
  rewrite matches_addressed_blockless by done.
  rewrite IdentitySelector_matches_spec by done. simpl. rewrite Hns, Hpod. done.
Qed.

Lemma IdentitySelector_default_matches ep ipv4 ipv6 :
  ¬ (is_Some ipv4 ∧ is_Some ipv6) →
  IdentitySelector_matches_addressed IdentitySelector_default ep ipv4 ipv6 = true.
Proof.
  intros Hone. unfold IdentitySelector_matches_addressed.
  assert (IdentitySelector_matches IdentitySelector_default ep = true) as ->
    by apply (selector_of_blocks_matches [] []).
  assert (IdentitySelector_is_unconstrained IdentitySelector_default = true) as -> by done.
  rewrite orb_true_r. simpl. destruct ipv4, ipv6; simpl; try done. destruct Hone. eauto.
Qed.

Lemma sources_spec peers ns i ss ep ipv4 ipv6 :
  sources peers ns i = Ok ss → workload ep → ¬ (is_Some ipv4 ∧ is_Some ipv6) →
  (∃ s, s ∈ ss ∧ IdentitySelector_matches_addressed s ep ipv4 ipv6 = true) ↔
  peers_admit ns peers ep ipv4 ipv6.
Proof.
  unfold sources, peers_admit. intros Hs Hw Hone.
  destruct (default [] peers) as [|p0 ps0] eqn:E.
  { simpl in Hs. injection Hs as <-. split; [by left|]. intros _.
    exists IdentitySelector_default. split; [by left|]. by apply IdentitySelector_default_matches. }
  rewrite <-E in Hs |- *. assert (is_nil (default [] peers) = false) as Hn by by rewrite E.
  rewrite Hn in Hs. apply try_map_elem_of in Hs as [H1 H2]. split.
  - intros (s & Hin & Hm). destruct (H1 s Hin) as ([j p] & Hp & Hsel).
    right. exists p. split; [apply elem_of_enumerate; eauto|].
    by apply (peer_selector_spec p ns i j s ep).
  - intros [Hnil|(p & Hp & Ha)]; [by rewrite Hnil in Hn|].
    apply elem_of_enumerate in Hp as [j Hj]. destruct (H2 _ Hj) as (s & Hs & Hsel).
    exists s. split; [done|]. by apply (peer_selector_spec p ns i j s ep).
Qed.

(** ** Ports *)

Lemma resolve_named_port_lookup ep name protocol :
  Endpoint_resolve_named_port ep name protocol
  = ep_named_ports ep !! {| np_name := name; np_protocol := protocol |}.
Proof.
  unfold Endpoint_resolve_named_port. set (key := {| np_name := name; np_protocol := protocol |}).
  destruct (List.find _ _) as [[k v]|] eqn:E; simpl.
  - apply find_some in E as [Hin Hk]. apply list_elem_of_In, elem_of_btree_iter in Hin.
    apply andb_true_iff in Hk as [H1%bool_decide_eq_true H2%bool_decide_eq_true].
    destruct k. simpl in *. by subst.
  - symmetry. destruct (ep_named_ports ep !! key) as [v|] eqn:Ek; [|done].
    apply elem_of_btree_iter, list_elem_of_In in Ek. apply (find_none _ _ E) in Ek.
    simpl in Ek. by rewrite !bool_decide_true in Ek.
Qed.

(** The protocol and port test of [rule_matches]. *)
Definition tuple_matches (tuple : PortTuple) (flow : Flow) : bool :=
  is_none_or tuple.1 (λ value, bool_decide (value = flow_protocol flow))
  && port_matches tuple.2 flow.

Lemma port_protocol_spec protocol i j p q :
  port_protocol protocol i j = Ok p →
  default "TCP"%string protocol = protocol_name q ↔ p = q.
Proof.
  unfold port_protocol. generalize (default "TCP"%string protocol) as name. intros name.
  repeat (case_bool_decide; [intros [= <-]; subst; by destruct q|]). done.
Qed.

Lemma port_range_spec value start end_value i j port flow :
  1 ≤ start → 0 ≤ flow_destination_port flow < 65536 → 1 ≤ flow_destination_port flow →
  port_range value start end_value i j = Ok port →
  port_matches port flow = true ↔ start ≤ flow_destination_port flow ≤ end_value.
Proof.
  intros Hs Hf Hf1. unfold port_range, ok_or.
  destruct (try_width 16 end_value) as [e|] eqn:E; [|done].
  apply try_width_Some in E as [-> Hw]. destruct (end_value <? start) eqn:El; [done|].
  destruct ((start =? 1) && (end_value =? u_max 16)) eqn:Ea.
  { intros [= <-]. simpl. split; [|done]. intros _. change (u_max 16) with 65535 in Ea. lia. }
  destruct (KUBERNETES_NETWORK_POLICY_MAX_PORT_RANGE_WIDTH <? _); [done|].
  destruct (start =? end_value) eqn:Ee; intros [= <-]; simpl; lia.
Qed.

(** A flow of a transport connection: a nonzero 16-bit destination port. *)
Definition port_in_range (flow : Flow) : Prop := 1 ≤ flow_destination_port flow < 65536.

Lemma port_tuple_spec p i j tuple flow :
  port_tuple p i j = Ok tuple → port_in_range flow →
  tuple_matches tuple flow = true ↔ port_admits p flow.
Proof.
  unfold port_tuple, port_admits, port_in_range, tuple_matches. intros Ht Hf.
  destruct (port_protocol _ _ _) as [proto|] eqn:Ep; [|done].
  rewrite (port_protocol_spec _ _ _ _ (flow_protocol flow) Ep).
  destruct (match npp_port p with Some (IntVal _) => _ | Some (StrVal _) => _ | None => _ end)
    as [port|] eqn:E; [|done]. injection Ht as <-. simpl.
  rewrite andb_true_iff, bool_decide_eq_true.
  assert (Hport : port_matches port flow = true ↔
    match npp_port p with
    | None => True
    | Some (IntVal start) => start ≤ flow_destination_port flow ≤ default start (npp_end_port p)
    | Some (StrVal name) => ep_named_ports (flow_destination flow)
        !! {| np_name := name; np_protocol := flow_protocol flow |}
        = Some (flow_destination_port flow)
    end); [|by rewrite Hport].
  destruct (npp_port p) as [[v|name]|].
  - unfold ok_or in E. destruct (try_width 16 v) as [start|] eqn:Ew; [|done].
    apply try_width_Some in Ew as [-> Hw]. destruct (v =? 0) eqn:Ez; [done|].
    apply Z.eqb_neq in Ez. unfold in_width in Hw. destruct (npp_end_port p) as [e|]; simpl.
    + eapply port_range_spec; [..|exact E]; lia.
    + injection E as <-. simpl. lia.
  - destruct (negb _); [|done]. destruct (bool_decide _); [done|]. injection E as <-. simpl.
    rewrite resolve_named_port_lookup. destruct (_ !! _) as [n|]; simpl; [|done].
    rewrite Z.eqb_eq. naive_solver.
  - destruct (npp_end_port p); [done|]. by injection E as <-.
Qed.

Lemma ports_spec pps i tuples flow :
  ports pps i = Ok tuples → port_in_range flow →
  (∃ t, t ∈ tuples ∧ tuple_matches t flow = true) ↔ ports_admit pps flow.
Proof.
  unfold ports, ports_admit. intros Hs Hf.
  destruct (default [] pps) as [|p0 ps0] eqn:E.
  { simpl in Hs. injection Hs as <-. split; [by left|]. intros _. eexists. by split; [left|]. }
  rewrite <-E in Hs |- *. assert (is_nil (default [] pps) = false) as Hn by by rewrite E.
  rewrite Hn in Hs. apply try_map_elem_of in Hs as [H1 H2]. split.
  - intros (t & Hin & Hm). destruct (H1 t Hin) as ([j p] & Hp & Hsel).
    right. exists p. split; [apply elem_of_enumerate; eauto|]. by apply (port_tuple_spec p i j t).
  - intros [Hnil|(p & Hp & Ha)]; [by rewrite Hnil in Hn|].
    apply elem_of_enumerate in Hp as [j Hj]. destruct (H2 _ Hj) as (t & Ht & Hsel).
    exists t. split; [done|]. by apply (port_tuple_spec p i j t).
Qed.

(** ** Rules *)

Definition rules_match (flow : Flow) (addresses : DestinationAddresses)
    (rules : list PolicyRule) : Prop :=
  ∃ r, r ∈ rules ∧ rule_matches r flow addresses = true.

Definition endpoints_match (source destination : IdentitySelector) (flow : Flow)
    (addresses : DestinationAddresses) : bool :=
  IdentitySelector_matches_addressed source (flow_source flow)
    (flow_source_ipv4 flow) (flow_source_ipv6 flow)
  && IdentitySelector_matches_addressed destination (flow_destination flow)
       (dst_ipv4 addresses) (dst_ipv6 addresses).

Lemma np_push_rule_match rules policy_id name ns source destination tuple i rules' flow addresses :
  np_push_rule rules policy_id name ns source destination tuple i = Ok rules' →
  rules_match flow addresses rules' ↔
  rules_match flow addresses rules ∨
  (endpoints_match source destination flow addresses = true ∧ tuple_matches tuple flow = true).
Proof.
  unfold np_push_rule, push_rule, ok_or. destruct (try_width 32 (Z.of_nat _)); [|done].
  destruct (try_width 32 i); [|done]. intros [= <-]. unfold rules_match.
  setoid_rewrite elem_of_app. setoid_rewrite list_elem_of_singleton.
  assert (Hr : ∀ r, rule_source r = source → rule_destination r = destination →
    rule_protocol r = tuple.1 → rule_destination_port r = tuple.2 →
    rule_matches r flow addresses = true ↔
    endpoints_match source destination flow addresses = true ∧ tuple_matches tuple flow = true).
  { intros r H1 H2 H3 H4. unfold rule_matches, endpoints_match, tuple_matches.
    rewrite H1, H2, H3, H4, !andb_true_iff. tauto. }
  split.
  - intros (r & [Hin| ->] & Hm); [left; eauto|right]. by apply Hr in Hm.
  - intros [(r & Hin & Hm)|Hm]; [by exists r; auto|]. eexists. split; [by right|]. by apply Hr.
Qed.

(** The product of peers and ports one rule expands to. *)
Lemma push_product_match policy_id name ns i (mk : IdentitySelector → IdentitySelector * IdentitySelector)
    peers tuples rules rules' flow addresses :
  try_fold (λ rules peer,
    try_fold (λ rules tuple,
      np_push_rule rules policy_id name ns (mk peer).1 (mk peer).2 tuple i) rules tuples)
    rules peers = Ok rules' →
  rules_match flow addresses rules' ↔
  rules_match flow addresses rules ∨
  ((∃ p, p ∈ peers ∧ endpoints_match (mk p).1 (mk p).2 flow addresses = true) ∧
   (∃ t, t ∈ tuples ∧ tuple_matches t flow = true)).
Proof.
  intros H. apply (try_fold_collect (rules_match flow addresses)
    (λ p, endpoints_match (mk p).1 (mk p).2 flow addresses = true ∧
          ∃ t, t ∈ tuples ∧ tuple_matches t flow = true)) in H.
  - rewrite H. naive_solver.
  - intros b p b' _ Hb. apply (try_fold_collect (rules_match flow addresses)
      (λ t, endpoints_match (mk p).1 (mk p).2 flow addresses = true ∧
            tuple_matches t flow = true)) in Hb.
    + rewrite Hb. naive_solver.
    + intros c t c' _ Hc. by eapply np_push_rule_match.
Qed.

Section Compiled.
Context (policy_id : PolicyId) (name namespace : string) (target : IdentitySelector).
Context (flow : Flow) (addresses : DestinationAddresses).
Context (Hsource : workload (flow_source flow)) (Hdestination : workload (flow_destination flow)).
Context (Hport : port_in_range flow).
Context (Hsource_one : ¬ (is_Some (flow_source_ipv4 flow) ∧ is_Some (flow_source_ipv6 flow))).
Context (Hdestination_one : ¬ (is_Some (dst_ipv4 addresses) ∧ is_Some (dst_ipv6 addresses))).
Context (Htarget : blockless target).

Lemma compile_ingress_match items rules :
  IdentitySelector_matches target (flow_destination flow) = true →
  try_fold (compile_ingress policy_id name namespace target) [] (enumerate items) = Ok rules →
  rules_match flow addresses rules ↔
  ∃ rule, rule ∈ items ∧
    peers_admit namespace (ing_from rule) (flow_source flow)
      (flow_source_ipv4 flow) (flow_source_ipv6 flow) ∧
    ports_admit (ing_ports rule) flow.
Proof.
  intros Hsel H. apply (try_fold_collect (rules_match flow addresses)
    (λ item : Z * NetworkPolicyIngressRule,
      peers_admit namespace (ing_from item.2) (flow_source flow)
        (flow_source_ipv4 flow) (flow_source_ipv6 flow) ∧
      ports_admit (ing_ports item.2) flow)) in H.
  - rewrite H. split.
    + intros [(r & ?%not_elem_of_nil & _)|([i rule] & ? & ?)]; [done|].
      exists rule. split; [apply elem_of_enumerate; by exists i|done].
    + intros (rule & [i ?]%elem_of_enumerate & ?). right. by exists (i, rule).
  - intros b [i rule] b' _ Hb. unfold compile_ingress in Hb.
    destruct (sources _ _ _) as [ss|] eqn:Es; [|done].
    destruct (ports _ _) as [ts|] eqn:Et; [|done].
    apply (push_product_match _ _ _ _ (λ s, (s, target)) _ _ _ _ flow addresses) in Hb.
    rewrite Hb. simpl. rewrite <-(sources_spec _ _ _ _ _ _ _ Es), <-(ports_spec _ _ _ _ Et) by done.
    assert (He : ∀ s, endpoints_match s target flow addresses
      = IdentitySelector_matches_addressed s (flow_source flow)
      (flow_source_ipv4 flow) (flow_source_ipv6 flow)).
    { intros s. unfold endpoints_match.
      rewrite (matches_addressed_blockless target) by (apply Hdestination || done).
      by rewrite Hsel, ?andb_true_r. }
    by setoid_rewrite He.
Qed.

Lemma compile_egress_match items rules :
  IdentitySelector_matches target (flow_source flow) = true →
  try_fold (compile_egress policy_id name namespace target) [] (enumerate items) = Ok rules →
  rules_match flow addresses rules ↔
  ∃ rule, rule ∈ items ∧
    peers_admit namespace (eg_to rule) (flow_destination flow)
      (dst_ipv4 addresses) (dst_ipv6 addresses) ∧
    ports_admit (eg_ports rule) flow.
Proof.
  intros Hsel H. apply (try_fold_collect (rules_match flow addresses)
    (λ item : Z * NetworkPolicyEgressRule,
      peers_admit namespace (eg_to item.2) (flow_destination flow)
        (dst_ipv4 addresses) (dst_ipv6 addresses) ∧
      ports_admit (eg_ports item.2) flow)) in H.
  - rewrite H. split.
    + intros [(r & ?%not_elem_of_nil & _)|([i rule] & ? & ?)]; [done|].
      exists rule. split; [apply elem_of_enumerate; by exists i|done].
    + intros (rule & [i ?]%elem_of_enumerate & ?). right. by exists (i, rule).
  - intros b [i rule] b' _ Hb. unfold compile_egress in Hb.
    destruct (destinations _ _ _) as [ss|] eqn:Es; [|done].
    destruct (ports _ _) as [ts|] eqn:Et; [|done].
    apply (push_product_match _ _ _ _ (λ s, (target, s)) _ _ _ _ flow addresses) in Hb.
    rewrite Hb. simpl. rewrite <-(sources_spec _ _ _ _ _ _ _ Es), <-(ports_spec _ _ _ _ Et) by done.
    assert (He : ∀ s, endpoints_match target s flow addresses
      = IdentitySelector_matches_addressed s (flow_destination flow)
      (dst_ipv4 addresses) (dst_ipv6 addresses)).
    { intros s. unfold endpoints_match.
      rewrite (matches_addressed_blockless target) by (apply Hsource || done).
      by rewrite Hsel, ?andb_true_r. }
    by setoid_rewrite He.
Qed.
End Compiled.

(** ** Compiled objects *)

Lemma policy_directions_spec spec dirs :
  policy_directions (nps_policy_types spec) (nps_egress spec) = Ok dirs →
  (dirs_ingress dirs = true ↔ isolates spec Ingress) ∧
  (dirs_egress dirs = true ↔ isolates spec Egress).
Proof.
  unfold policy_directions, isolates.
  assert (Hn : is_none_or (nps_policy_types spec) is_nil = is_nil (default [] (nps_policy_types spec)))
    by by destruct (nps_policy_types spec).
  rewrite Hn. generalize (default [] (nps_policy_types spec)) as types. intros types.
  destruct types as [|t ts].
  { intros [= <-]. simpl. split; [done|]. destruct (nps_egress spec) as [[|??]|]; simpl; naive_solver. }
  cbn [is_nil]. intros H. split.
  - apply (try_fold_collect (λ d, dirs_ingress d = true) (λ t, t = "Ingress"%string)) in H.
    + rewrite H. simpl. naive_solver.
    + intros b x b' _. repeat case_bool_decide; intros [= <-]; simpl; naive_solver.
  - apply (try_fold_collect (λ d, dirs_egress d = true) (λ t, t = "Egress"%string)) in H.
    + rewrite H. simpl. naive_solver.
    + intros b x b' _. repeat case_bool_decide; intros [= <-]; simpl; naive_solver.
Qed.

(** The loop over the rules of one direction. *)
Definition compiled_rules (policy_id : PolicyId) (name namespace : string)
    (target : IdentitySelector) (spec : NetworkPolicySpec) (direction : PolicyDirection) :
    np_result (list PolicyRule) :=
  match direction with
  | Ingress => try_fold (compile_ingress policy_id name namespace target) []
                 (enumerate (default [] (nps_ingress spec)))
  | Egress => try_fold (compile_egress policy_id name namespace target) []
                (enumerate (default [] (nps_egress spec)))
  end.

(** A compiled object yields exactly one policy per isolated direction. *)
Lemma compile_directions_Ok policy_id np policies :
  compile_directions policy_id np = Ok policies →
  ∃ name namespace spec target,
    meta_name (np_metadata np) = Some name ∧ meta_namespace (np_metadata np) = Some namespace ∧
    np_spec np = Some spec ∧
    pod_identity_selector (default LabelSelector_default (nps_pod_selector spec))
      (Some namespace) "podSelector" = Ok target ∧
    (∀ direction, isolates spec direction →
       is_ok (compiled_rules policy_id name namespace target spec direction) = true) ∧
    (∀ p, p ∈ policies ↔ ∃ direction rules,
       isolates spec direction ∧
       compiled_rules policy_id name namespace target spec direction = Ok rules ∧
       p = compatibility_policy_ir policy_id name namespace direction target rules).
Proof.
  unfold compile_directions, ok_or.
  destruct (meta_name _) as [name|]; [|done]. destruct (meta_namespace _) as [ns|]; [|done].
  destruct (np_spec np) as [spec|]; [|done].
  destruct (policy_directions _ _) as [dirs|] eqn:Ed; [|done].
  apply policy_directions_spec in Ed as [Hi He].
  destruct (pod_identity_selector _ _ _) as [target|] eqn:Et; [|done]. intros H.
  exists name, ns, spec, target. split_and!; [done..| |]; revert H;
    destruct (dirs_ingress dirs), (dirs_egress dirs);
    try (destruct (try_fold (compile_ingress _ _ _ _) _ _) as [ri|] eqn:Ei; [|done]);
    try (destruct (try_fold (compile_egress _ _ _ _) _ _) as [re|] eqn:Ee; [|done]);
    intros [= <-].
  1-4: intros [] Hd; simpl; rewrite ?Ei, ?Ee; first [done|exfalso; naive_solver].
  all: intros p; simpl; rewrite ?elem_of_cons, ?elem_of_nil; split;
    [intros Hp|intros ([] & rules & Hd & Hr & ->); simpl in Hr;
               rewrite ?Ei, ?Ee in Hr; naive_solver].
  all: destruct_or? Hp; subst; try done;
    first [by exists Ingress, ri; split; [apply Hi|] | by exists Egress, re; split; [apply He|]].
Qed.

(** The object applies to an endpoint, and admits a flow. *)
Definition np_applies (np : NetworkPolicy) (direction : PolicyDirection) (endpoint : Endpoint) :
    Prop :=
  ∃ namespace spec, meta_namespace (np_metadata np) = Some namespace ∧ np_spec np = Some spec ∧
    isolates spec direction ∧ selects spec namespace endpoint.

Definition np_admits (np : NetworkPolicy) (direction : PolicyDirection) (flow : Flow)
    (addresses : DestinationAddresses) : Prop :=
  ∃ namespace spec, meta_namespace (np_metadata np) = Some namespace ∧ np_spec np = Some spec ∧
    admits spec namespace direction flow addresses.

Lemma target_selects spec namespace field target endpoint :
  pod_identity_selector (default LabelSelector_default (nps_pod_selector spec))
    (Some namespace) field = Ok target →
  IdentitySelector_matches target endpoint = true ↔ selects spec namespace endpoint.
Proof.
  intros (Hb & Hsa & Happ & Hns & Hnl & Hne & Hsel)%pod_identity_selector_spec.
  rewrite IdentitySelector_matches_spec by done. rewrite Hns, Hnl, Hne. simpl.
  unfold selects. rewrite Hsel, bool_decide_eq_true. split; [naive_solver|].
  intros (-> & ?). split_and!; try done; [apply map_empty_subseteq|naive_solver..].
Qed.

(** ** Well-formedness of the compiled rules *)

Lemma prefix_masked_wf w p a :
  0 ≤ p ≤ w → in_width w a →
  in_width w (Z.land a (prefix_mask w p)) ∧ Z.land a (prefix_mask w p) mod 2 ^ (w - p) = 0.
Proof.
  intros Hp Ha. pose proof (proj1 (land_prefix_eq_iff w p a _ Hp Ha) eq_refl) as [Hm Hr].
  split; [|done]. rewrite land_prefix_mask in Hr |- * by done. unfold in_width in *.
  split; [|lia]. apply Z.mul_nonneg_nonneg; [apply Z.div_pos; [lia|]|]; [|lia..|].
  - apply Z.pow_pos_nonneg; lia.
  - apply Z.pow_nonneg; lia.
Qed.

Lemma parse_ipv4_cidr_wf text c : parse_ipv4_cidr text = Some c → wf_cidr4 c.
Proof.
  unfold parse_ipv4_cidr. destruct (split_once _ _) as [[a p]|]; [|done]. simpl.
  destruct (parse_ipv4_addr a) as [addr|] eqn:Ea; [|done]. simpl.
  destruct (parse_u 8 p) as [len|] eqn:Ep; [|done]. simpl.
  apply parse_ipv4_addr_width in Ea. apply parse_u_width in Ep; [|lia]. unfold in_width in Ep.
  destruct (Z.ltb_spec 32 len); [done|]. intros [= <-].
  split; simpl; [lia|]. apply prefix_masked_wf; [lia|done].
Qed.

Lemma parse_ipv6_cidr_wf text c : parse_ipv6_cidr text = Some c → wf_cidr6 c.
Proof.
  unfold parse_ipv6_cidr. destruct (split_once _ _) as [[a p]|]; [|done]. simpl.
  destruct (parse_ipv6_addr a) as [addr|] eqn:Ea; [|done]. simpl.
  destruct (parse_u 8 p) as [len|] eqn:Ep; [|done]. simpl.
  apply parse_ipv6_addr_width in Ea. apply parse_u_width in Ep; [|lia]. unfold in_width in Ep.
  destruct (Z.ltb_spec 128 len); [done|]. intros [= <-].
  split; simpl; [lia|]. apply prefix_masked_wf; [lia|done].
Qed.

Lemma blockless_wf s : blockless s → wf_selector s.
Proof. intros [H4 H6]. unfold wf_selector. rewrite H4, H6. by split. Qed.

(** A bounded total bounds every summand. *)
Lemma total_address_count_bound except total :
  total_address_count except = Some total → Forall wf_cidr4 except →
  Forall (λ e, Ipv4Cidr_address_count e ≤ total) except.
Proof.
  unfold total_address_count. intros H Hwf.
  assert (Hpos : ∀ e, wf_cidr4 e → 0 ≤ Ipv4Cidr_address_count e).
  { intros e [Hp _]. unfold Ipv4Cidr_address_count. destruct (32 <? _); [done|].
    rewrite Z.shiftl_1_l. apply Z.pow_nonneg. lia. }
  assert (Hgen : ∀ acc, fold_left (λ total item, t ← total;
      checked_add 64 t (Ipv4Cidr_address_count item)) except acc = Some total →
    ∃ a, acc = Some a ∧ a ≤ total ∧
      Forall (λ e, 0 ≤ a → Ipv4Cidr_address_count e ≤ total) except).
  { clear H. induction Hwf as [|e l He Hl IH]; intros acc; simpl.
    { intros ->. exists total. by split_and!. }
    intros (b & Hb & Hle & Hall)%IH. destruct acc as [a|]; [|done]. simpl in Hb.
    unfold checked_add in Hb. apply try_width_Some in Hb as [-> Hw].
    pose proof (Hpos e He). exists a. split_and!; [done|lia|]. constructor; [lia|].
    eapply Forall_impl; [exact Hall|]. simpl. intros x Hx Ha. apply Hx. lia. }
  apply Hgen in H as (a & [= <-] & _ & Hall).
  eapply Forall_impl; [exact Hall|]. simpl. intros x Hx. by apply Hx.
Qed.

Lemma validate_global_ipv4_exceptions_bound cidr except i j :
  validate_global_ipv4_exceptions cidr except i j = Ok () → c4_prefix_len cidr = 0 →
  Forall wf_cidr4 except →
  Forall (λ e, Ipv4Cidr_address_count e ≤ KUBERNETES_NETWORK_POLICY_MAX_IP_BLOCK_ADDRESSES) except.
Proof.
  unfold validate_global_ipv4_exceptions. intros H Hz Hwf. rewrite Hz in H. simpl in H.
  destruct (total_address_count except) as [t|] eqn:E; simpl in H; [|done].
  destruct (Z.leb_spec t KUBERNETES_NETWORK_POLICY_MAX_IP_BLOCK_ADDRESSES); [|done].
  apply total_address_count_bound in E; [|done]. eapply Forall_impl; [exact E|]. simpl. lia.
Qed.

Lemma ip_block_selector_wf b i j s : ip_block_selector b i j = Ok s → wf_selector s.
Proof.
  intros [(c & ex & Hp & Hex & ->)|(c & ex & _ & Hp & _ & Hex & Hv & ->)]%ip_block_selector_Ok;
    unfold wf_selector; simpl; (split; [try done|try done]); constructor; try done; simpl;
    apply try_map_elem_of in Hex as [H1 _].
  - split; [by eapply parse_ipv6_cidr_wf|]. apply Forall_forall. intros e He.
    rewrite elem_of_sort_dedup in He. destruct (H1 e He) as (t & _ & Ht).
    apply ipv6_except_spec in Ht as [Ht _]. by eapply parse_ipv6_cidr_wf.
  - assert (Hall : Forall wf_cidr4 (sort_dedup ex)).
    { apply Forall_forall. intros e He.
      rewrite elem_of_sort_dedup in He. destruct (H1 e He) as (t & _ & Ht).
      apply ipv4_except_spec in Ht as [Ht _]. by eapply parse_ipv4_cidr_wf. }
    split_and!; simpl; [by eapply parse_ipv4_cidr_wf|done|]. intros Hz.
    by eapply validate_global_ipv4_exceptions_bound.
Qed.

Lemma peer_selector_wf peer ns i j s : peer_selector peer ns i j = Ok s → wf_selector s.
Proof.
  unfold peer_selector. destruct (peer_ip_block peer) as [b|].
  { destruct (_ || _); [done|]. apply ip_block_selector_wf. }
  destruct (match peer_namespace_selector peer with Some _ => _ | None => _ end); [|done].
  destruct (peer_pod_selector peer) as [ps|].
  - destruct (pod_identity_selector _ _ _) as [p|] eqn:Ep; [|done]. intros [= <-].
    apply pod_identity_selector_spec in Ep as (Hb & _). by apply blockless_wf.
  - intros [= <-]. by apply blockless_wf.
Qed.

Lemma sources_wf peers ns i ss s : sources peers ns i = Ok ss → s ∈ ss → wf_selector s.
Proof.
  unfold sources. destruct (is_nil _).
  - intros [= <-] ->%list_elem_of_singleton. by apply blockless_wf.
  - intros [H1 _]%try_map_elem_of Hs. destruct (H1 s Hs) as ([j p] & _ & Hp).
    by eapply peer_selector_wf.
Qed.

Definition wf_tuple (tuple : PortTuple) : Prop :=
  (tuple.1 = None → tuple.2 = PortAny) ∧ wf_port tuple.2.

Lemma port_tuple_wf p i j tuple : port_tuple p i j = Ok tuple → wf_tuple tuple.
Proof.
  unfold port_tuple. destruct (port_protocol _ _ _) as [proto|]; [|done].
  destruct (match npp_port p with Some (IntVal _) => _ | Some (StrVal _) => _ | None => _ end)
    as [port|] eqn:E; [|done]. intros [= <-]. split; [done|]. simpl.
  destruct (npp_port p) as [[v|name]|].
  - unfold ok_or in E. destruct (try_width 16 v) as [start|] eqn:Ew; [|done].
    apply try_width_Some in Ew as [-> Hw]. unfold in_width in Hw.
    destruct (Z.eqb_spec v 0); [done|].
    destruct (npp_end_port p) as [e|]; [|injection E as <-; simpl; lia].
    revert E. unfold port_range, ok_or. destruct (try_width 16 e) as [e'|] eqn:Ee; [|done].
    apply try_width_Some in Ee as [-> He]. unfold in_width in He.
    destruct (Z.ltb_spec e v); [done|]. destruct (_ && _); [by intros [= <-]|].
    destruct (KUBERNETES_NETWORK_POLICY_MAX_PORT_RANGE_WIDTH <? _); [done|].
    destruct (v =? e); intros [= <-]; simpl; lia.
  - destruct (negb _); [|done]. destruct (bool_decide _); [done|]. by injection E as <-.
  - destruct (npp_end_port p); [done|]. by injection E as <-.
Qed.

Lemma ports_wf pps i tuples t : ports pps i = Ok tuples → t ∈ tuples → wf_tuple t.
Proof.
  unfold ports. destruct (is_nil _).
  - by intros [= <-] ->%list_elem_of_singleton.
  - intros [H1 _]%try_map_elem_of Ht. destruct (H1 t Ht) as ([j p] & _ & Hp).
    by eapply port_tuple_wf.
Qed.

(** What every compiled rule satisfies. *)
Definition compat_rule (policy_id : PolicyId) (r : PolicyRule) : Prop :=
  rule_action r = ActAllow ∧ wf_rule r ∧ wf_selector (rule_source r) ∧
  wf_selector (rule_destination r) ∧ prov_policy_id (rule_provenance r) = policy_id ∧
  in_width 32 (rule_id r).

Lemma np_push_rule_wf rules policy_id name ns source destination tuple i rules' :
  np_push_rule rules policy_id name ns source destination tuple i = Ok rules' →
  wf_tuple tuple → wf_selector source → wf_selector destination →
  Forall (compat_rule policy_id) rules → Forall (compat_rule policy_id) rules'.
Proof.
  unfold np_push_rule. destruct (push_rule _ _ _ _ _ _ _ _ _ _) as [rs|] eqn:E; [|done].
  intros [= <-] [Hn Hw] Hs Hd Hr. eapply push_rule_Forall; [exact E|done|].
  intros. by split_and!.
Qed.

Lemma push_product_wf policy_id name ns i (mk : IdentitySelector → IdentitySelector * IdentitySelector)
    peers tuples rules rules' :
  try_fold (λ rules peer,
    try_fold (λ rules tuple,
      np_push_rule rules policy_id name ns (mk peer).1 (mk peer).2 tuple i) rules tuples)
    rules peers = Ok rules' →
  (∀ p, p ∈ peers → wf_selector (mk p).1 ∧ wf_selector (mk p).2) →
  (∀ t, t ∈ tuples → wf_tuple t) →
  Forall (compat_rule policy_id) rules → Forall (compat_rule policy_id) rules'.
Proof.
  intros H Hp Ht Hr. revert H. apply try_fold_inv; [done|]. intros b p b' Hin Hb.
  apply try_fold_inv; [done|]. intros c t c' Htin Hc Hpush.
  eapply np_push_rule_wf; [exact Hpush|auto|by apply Hp..|done].
Qed.

Lemma compiled_rules_wf policy_id name ns target spec direction rules :
  blockless target → compiled_rules policy_id name ns target spec direction = Ok rules →
  Forall (compat_rule policy_id) rules.
Proof.
  intros Hb%blockless_wf. unfold compiled_rules. destruct direction.
  - apply try_fold_inv; [constructor|]. intros b [i rule] b' _ Hr. unfold compile_ingress.
    destruct (sources _ _ _) as [ss|] eqn:Es; [|done].
    destruct (ports _ _) as [ts|] eqn:Et; [|done]. intros Hpush.
    eapply (push_product_wf _ _ _ _ (λ s, (s, target))); [exact Hpush|..|done].
    + intros s Hs. split; [by eapply sources_wf|done].
    + intros t. by eapply ports_wf.
  - apply try_fold_inv; [constructor|]. intros b [i rule] b' _ Hr. unfold compile_egress.
    destruct (destinations _ _ _) as [ss|] eqn:Es; [|done].
    destruct (ports _ _) as [ts|] eqn:Et; [|done]. intros Hpush.
    eapply (push_product_wf _ _ _ _ (λ s, (target, s))); [exact Hpush|..|done].
    + intros s Hs. split; [done|by eapply sources_wf].
    + intros t. by eapply ports_wf.
Qed.

Lemma compile_directions_compat policy_id np policies p :
  compile_directions policy_id np = Ok policies → p ∈ policies →
  compat_policy p ∧ blockless (pol_target p) ∧ Forall (compat_rule policy_id) (pol_rules p).
Proof.
  intros (name & ns & spec & target & _ & _ & _ & Ht & _ & Hin)%compile_directions_Ok.
  intros (d & rules & _ & Hr & ->)%Hin. apply pod_identity_selector_spec in Ht as (Hb & _).
  apply compiled_rules_wf in Hr; [|done]. split_and!; try done. split_and!; try done. simpl.
  eapply Forall_impl; [exact Hr|]. by intros r [? _].
Qed.

(** ** Properties *)

Lemma or_iff_both (P Q P' Q' : Prop) : (P ↔ P') → (Q ↔ Q') → P ∨ Q ↔ P' ∨ Q'.
Proof. tauto. Qed.

Section Object.
Context (flow : Flow) (addresses : DestinationAddresses).
Context (Hsource : workload (flow_source flow)) (Hdestination : workload (flow_destination flow)).
Context (Hport : port_in_range flow).
Context (Hsource_one : ¬ (is_Some (flow_source_ipv4 flow) ∧ is_Some (flow_source_ipv6 flow))).
Context (Hdestination_one : ¬ (is_Some (dst_ipv4 addresses) ∧ is_Some (dst_ipv6 addresses))).

Lemma compile_directions_applies policy_id np policies direction :
  compile_directions policy_id np = Ok policies →
  (∃ p, p ∈ applicable policies direction flow) ↔
  np_applies np direction (selected_endpoint direction flow).
Proof.
  intros (name & ns & spec & target & _ & Hns & Hspec & Ht & Hok & Hin)%compile_directions_Ok.
  unfold np_applies. setoid_rewrite elem_of_applicable. split.
  - intros (p & Hp & Hd & Hm). apply Hin in Hp as (d & rules & Hi & _ & ->). simpl in *. subst d.
    exists ns, spec. split_and!; try done. by eapply target_selects.
  - intros (ns' & spec' & Hns' & Hspec' & Hi & Hs). simplify_eq.
    specialize (Hok _ Hi). destruct (compiled_rules _ _ _ _ _ _) as [rules|] eqn:Er; [|done].
    exists (compatibility_policy_ir policy_id name ns direction target rules).
    split_and!; [apply Hin; by exists direction, rules|done|]. by eapply target_selects.
Qed.

Lemma compile_directions_admits policy_id np policies direction :
  compile_directions policy_id np = Ok policies →
  (∃ p, p ∈ applicable policies direction flow ∧ rules_match flow addresses (pol_rules p)) ↔
  np_applies np direction (selected_endpoint direction flow) ∧
  np_admits np direction flow addresses.
Proof.
  intros (name & ns & spec & target & _ & Hns & Hspec & Ht & Hok & Hin)%compile_directions_Ok.
  pose proof Ht as (Hb & _)%pod_identity_selector_spec.
  assert (Hrules : ∀ rules, compiled_rules policy_id name ns target spec direction = Ok rules →
    IdentitySelector_matches target (selected_endpoint direction flow) = true →
    rules_match flow addresses rules ↔ admits spec ns direction flow addresses).
  { intros rules Hr Hm. destruct direction; simpl in *.
    - by eapply compile_ingress_match.
    - by eapply compile_egress_match. }
  unfold np_applies, np_admits. setoid_rewrite elem_of_applicable. split.
  - intros (p & (Hp & Hd & Hm) & Hr). apply Hin in Hp as (d & rules & Hi & Hc & ->).
    simpl in *. subst d. split; exists ns, spec; split_and!; try done.
    + by eapply target_selects.
    + by eapply Hrules.
  - intros [(ns1 & spec1 & ? & ? & Hi & Hs) (ns2 & spec2 & ? & ? & Ha)]. simplify_eq.
    specialize (Hok _ Hi). destruct (compiled_rules _ _ _ _ _ _) as [rules|] eqn:Er; [|done].
    rewrite <-(target_selects _ _ _ _ _ Ht) in Hs.
    exists (compatibility_policy_ir policy_id name ns direction target rules).
    split_and!; [apply Hin; by exists direction, rules|done..|]. by apply Hrules.
Qed.
End Object.

Lemma network_policy_verdict objects compiled direction flow addresses :
  try_map (λ '(policy_id, np), compile_directions policy_id np) objects = Ok compiled →
  workload (flow_source flow) → workload (flow_destination flow) → port_in_range flow →
  ¬ (is_Some (flow_source_ipv4 flow) ∧ is_Some (flow_source_ipv6 flow)) →
  ¬ (is_Some (dst_ipv4 addresses) ∧ is_Some (dst_ipv6 addresses)) →
  let d := evaluate_for_direction_with_addresses (concat compiled) direction flow addresses in
  let endpoint := selected_endpoint direction flow in
  (dec_verdict d = VAllow ↔
     (∀ policy_id np, (policy_id, np) ∈ objects → ¬ np_applies np direction endpoint) ∨
     (∃ policy_id np, (policy_id, np) ∈ objects ∧ np_applies np direction endpoint ∧
        np_admits np direction flow addresses)) ∧
  (dec_verdict d = VAllow ∨ dec_verdict d = VDeny).
Proof.
  intros [H1 H2]%try_map_elem_of Hs Hd Hp Hs1 Hd1. cbv zeta.
  assert (Hin : ∀ p, p ∈ applicable (concat compiled) direction flow ↔
    ∃ policies, policies ∈ compiled ∧ p ∈ applicable policies direction flow).
  { intros p. setoid_rewrite elem_of_applicable. rewrite list_elem_of_In, in_concat.
    setoid_rewrite <-list_elem_of_In. naive_solver. }
  assert (Hc : Forall compat_policy (concat compiled)).
  { apply Forall_concat, Forall_forall. intros ps Hps. destruct (H1 ps Hps) as ([i np] & _ & Hnp).
    apply Forall_forall. intros p Hpp. by eapply compile_directions_compat. }
  destruct (compat_verdict _ direction flow addresses Hc) as [Hv Hor]. split; [|done].
  rewrite Hv. apply or_iff_both.
  - split.
    + intros Hnil i np Hnp Ha. destruct (H2 _ Hnp) as (ps & Hps & Hcomp).
      rewrite <-(compile_directions_applies _ _ _ _ _ Hcomp) in Ha. destruct Ha as [p Hpa].
      apply (not_elem_of_nil p). rewrite <-Hnil. apply Hin. by exists ps.
    + intros Hno. apply elem_of_nil_inv. intros p (ps & Hps & Hpa)%Hin.
      destruct (H1 ps Hps) as ([i np] & Hnp & Hcomp). apply (Hno i np Hnp).
      eapply compile_directions_applies; eauto.
  - split.
    + intros (p & r & (ps & Hps & Hpa)%Hin & Hr & Hm).
      destruct (H1 ps Hps) as ([i np] & Hnp & Hcomp). exists i, np. split; [done|].
      eapply compile_directions_admits; try done. exists p. split; [done|]. by exists r.
    + intros (i & np & Hnp & Ha). destruct (H2 _ Hnp) as (ps & Hps & Hcomp).
      eapply compile_directions_admits in Ha as (p & Hpa & r & Hr & Hm); try done.
      exists p, r. split_and!; try done. apply Hin. by exists ps.
Qed.

(** C20. The compiler and evaluator implement Kubernetes NetworkPolicy semantics: for
    a set of objects that compile, traffic between two workloads is allowed in a
    direction exactly when no object isolates the selected workload in that
    direction, or some object that does admits the flow by its peers and ports as
    written in the API. *)
Theorem network_policy_semantics objects compiled direction flow addresses :
  try_map (λ '(policy_id, np), compile_directions policy_id np) objects = Ok compiled →
  workload (flow_source flow) → workload (flow_destination flow) → port_in_range flow →
  ¬ (is_Some (flow_source_ipv4 flow) ∧ is_Some (flow_source_ipv6 flow)) →
  ¬ (is_Some (dst_ipv4 addresses) ∧ is_Some (dst_ipv6 addresses)) →
  let d := evaluate_for_direction_with_addresses (concat compiled) direction flow addresses in
  let endpoint := selected_endpoint direction flow in
  (dec_verdict d = VAllow ↔
     (∀ policy_id np, (policy_id, np) ∈ objects → ¬ np_applies np direction endpoint) ∨
     (∃ policy_id np, (policy_id, np) ∈ objects ∧ np_applies np direction endpoint ∧
        np_admits np direction flow addresses)) ∧
  (dec_verdict d = VAllow ∨ dec_verdict d = VDeny).
Proof. apply network_policy_verdict. Qed.

(** A NetworkPolicy for the witnesses: pods labelled [app=db] accept TCP 5432 from
    pods labelled [app=web] of the same namespace, and any traffic from one subnet
    with an excepted address. *)
Definition demo_app_selector (app : string) : LabelSelector :=
  {| ls_match_expressions := None; ls_match_labels := Some {["app" := app]} |}.

Definition demo_network_policy : NetworkPolicy := {|
  np_metadata := named_object "prod" "db";
  np_spec := Some {|
    nps_egress := None;
    nps_ingress := Some
      [{| ing_from := Some [{| peer_ip_block := None; peer_namespace_selector := None;
                               peer_pod_selector := Some (demo_app_selector "web") |}];
          ing_ports := Some [{| npp_end_port := None; npp_port := Some (IntVal 5432);
                                npp_protocol := None |}] |};
       {| ing_from := Some [{| peer_ip_block := Some {| ipb_cidr := "10.1.2.0/24";
                                 ipb_except := Some ["10.1.2.128/25"] |};
                               peer_namespace_selector := None; peer_pod_selector := None |}];
          ing_ports := None |}];
    nps_pod_selector := Some (demo_app_selector "db");
    nps_policy_types := None |} |}.

Definition demo_workload (id : Z) (app : string) : Endpoint := {|
  ep_identity := id; ep_namespace := "prod";
  ep_namespace_labels := {[NAMESPACE_NAME_LABEL := "prod"%string]};
  ep_service_account := "default"; ep_application := None;
  ep_labels := {["app" := app]}; ep_named_ports := ∅ |}.

Definition demo_pod_flow (port : Z) (ipv4 : option Z) : Flow := {|
  flow_source := demo_workload 7 "web"; flow_destination := demo_workload 8 "db";
  flow_protocol := Tcp; flow_destination_port := port;
  flow_source_ipv4 := ipv4; flow_source_ipv6 := None |}.

Lemma demo_np_applies :
  np_applies demo_network_policy Ingress (selected_endpoint Ingress (demo_pod_flow 5432 None)).
Proof.
  eexists _, _. split_and!; [reflexivity|reflexivity|exact I|]. split; [reflexivity|]. split.
  - apply map_singleton_subseteq_l. reflexivity.
  - by intros r ?%not_elem_of_nil.
Qed.

Lemma network_policy_semantics_witness :
  ∃ compiled,
    try_map (λ '(policy_id, np), compile_directions policy_id np) [(3, demo_network_policy)]
      = Ok compiled ∧
    dec_verdict (evaluate_for_direction_with_addresses (concat compiled) Ingress
      (demo_pod_flow 5432 None) DestinationAddresses_default) = VAllow.
Proof.
  eexists. split; [reflexivity|].
  apply (network_policy_semantics [(3, demo_network_policy)] _ Ingress (demo_pod_flow 5432 None)
    DestinationAddresses_default eq_refl).
  - by split.
  - by split.
  - unfold port_in_range. simpl. lia.
  - intros [[? Hs] _]. discriminate Hs.
  - intros [[? Hs] _]. discriminate Hs.
  - right. exists 3, demo_network_policy. split_and!; [by left|apply demo_np_applies|].
    eexists _, _. split_and!; [reflexivity|reflexivity|].
    eexists. split; [by left|]. split; right.
    + eexists. split; [by left|]. split; [reflexivity|]. split; [|by intros r ?%not_elem_of_nil].
      apply map_singleton_subseteq_l. reflexivity.
    + eexists. split; [by left|]. split; [reflexivity|]. simpl. lia.
Defined.

(** Everything the NetworkPolicy compiler emits is enforced, allow-only and
    default-deny, traces back to its object, and is well formed for lowering:
    ports are nonzero and bounded, an any-protocol rule is any-port, and every
    address block is canonical. *)
Lemma compile_directions_wf policy_id np policies :
  compile_directions policy_id np = Ok policies →
  Forall (λ p, compat_policy p ∧ blockless (pol_target p) ∧ pol_id p = policy_id ∧
               Forall (compat_rule policy_id) (pol_rules p)) policies ∧
  NoDup (map pol_direction policies).
Proof.
  intros H. split.
  - apply Forall_forall. intros p Hp.
    destruct (compile_directions_compat _ _ _ _ H Hp) as (? & ? & ?). split_and!; try done.
    apply compile_directions_Ok in H as (? & ? & ? & ? & _ & _ & _ & _ & _ & Hin).
    by apply Hin in Hp as (? & ? & _ & _ & ->).
  - unfold compile_directions, ok_or in H.
    destruct (meta_name _); [|done]. destruct (meta_namespace _); [|done].
    destruct (np_spec _); [|done]. destruct (policy_directions _ _) as [dirs|]; [|done].
    destruct (pod_identity_selector _ _ _); [|done]. revert H.
    destruct (dirs_ingress dirs), (dirs_egress dirs);
      repeat (destruct (try_fold _ _ _); [|done]); intros [= <-];
      repeat constructor; set_solver.
Qed.


(** C40. A peer that selects every namespace also admits traffic from outside the
    cluster: it compiles to the unconstrained selector, which matches an endpoint
    without identity at any address, although the peer names pods. *)
Theorem empty_namespace_selector_admits_external namespace rule_index peer_index endpoint ipv4 ipv6 :
  ep_identity endpoint = 0 → ¬ (is_Some ipv4 ∧ is_Some ipv6) →
  ∃ s,
    peer_selector {| peer_ip_block := None; peer_pod_selector := None;
                     peer_namespace_selector := Some LabelSelector_default |}
      namespace rule_index peer_index = Ok s ∧
    IdentitySelector_matches_addressed s endpoint ipv4 ipv6 = true.
Proof.
  intros _ Hone. exists IdentitySelector_default. split; [reflexivity|].
  by apply IdentitySelector_default_matches.
Qed.

Lemma empty_namespace_selector_admits_external_witness :
  ∃ s,
    peer_selector {| peer_ip_block := None; peer_pod_selector := None;
                     peer_namespace_selector := Some LabelSelector_default |} "prod" 0 0 = Ok s ∧
    IdentitySelector_matches_addressed s (demo_workload 0 "internet") (Some 3405803785) None = true.
Proof.
  apply (empty_namespace_selector_admits_external "prod" 0 0 (demo_workload 0 "internet")).
  - reflexivity.
  - intros [_ [? Hs]]. discriminate Hs.
Defined.
