(* ===== verification/PolicyLower.v ===== *)
(** * Lowering policy IR to dataplane maps ([crates/unf-policy/src/lib.rs])

    The compilers that turn policies and endpoints into the entries of the five
    policy maps (identity pair, IPv4 and IPv6 source, IPv4 and IPv6 egress
    destination), with the map key and entry types of [crates/unf-state/src/lib.rs].
    A map entry is one record polymorphic in its key. *)

From S2P Require Import Prelude Common PolicyIr PolicyCompile NetworkPolicy.

Definition POLICY_MAP_BANK_ENTRY_LIMIT : Z := 131072.

(** ** Keys and entries *)

Record PolicyMapKey := {
  pk_source_identity : IdentityId;
  pk_destination_identity : IdentityId;
  pk_protocol : Z;
  pk_destination_port : Z;
}.

Record Ipv4PolicyMapKey := {
  pk4_source_address : Z;
  pk4_destination_identity : IdentityId;
  pk4_protocol : Z;
  pk4_destination_port : Z;
}.

Record Ipv6PolicyMapKey := {
  pk6_source_network : Z;
  pk6_source_prefix_len : Z;
  pk6_destination_identity : IdentityId;
  pk6_protocol : Z;
  pk6_destination_port : Z;
}.

Record EgressIpv4PolicyMapKey := {
  ek4_source_identity : IdentityId;
  ek4_destination_address : Z;
  ek4_protocol : Z;
  ek4_destination_port : Z;
}.

Record EgressIpv6PolicyMapKey := {
  ek6_source_identity : IdentityId;
  ek6_destination_network : Z;
  ek6_destination_prefix_len : Z;
  ek6_protocol : Z;
  ek6_destination_port : Z;
}.

Record PolicyDecisionRecord := {
  rec_verdict : Verdict;
  rec_reason : PolicyReason;
  rec_policy_id : option PolicyId;
  rec_rule_id : option RuleId;
}.

Record MapEntry (K : Type) := {
  entry_key : K;
  entry_decision : PolicyDecisionRecord;
  entry_shadow : option PolicyDecisionRecord;
}.
Arguments entry_key {K} _.
Arguments entry_decision {K} _.
Arguments entry_shadow {K} _.

Abbreviation PolicyMapEntry := (MapEntry PolicyMapKey).
Abbreviation Ipv4PolicyMapEntry := (MapEntry Ipv4PolicyMapKey).
Abbreviation Ipv6PolicyMapEntry := (MapEntry Ipv6PolicyMapKey).
Abbreviation EgressIpv4PolicyMapEntry := (MapEntry EgressIpv4PolicyMapKey).
Abbreviation EgressIpv6PolicyMapEntry := (MapEntry EgressIpv6PolicyMapKey).

#[export] Instance PolicyMapKey_eq_dec : EqDecision PolicyMapKey.
Proof. solve_decision. Defined.
#[export] Instance Ipv4PolicyMapKey_eq_dec : EqDecision Ipv4PolicyMapKey.
Proof. solve_decision. Defined.
#[export] Instance Ipv6PolicyMapKey_eq_dec : EqDecision Ipv6PolicyMapKey.
Proof. solve_decision. Defined.
#[export] Instance EgressIpv4PolicyMapKey_eq_dec : EqDecision EgressIpv4PolicyMapKey.
Proof. solve_decision. Defined.
#[export] Instance EgressIpv6PolicyMapKey_eq_dec : EqDecision EgressIpv6PolicyMapKey.
Proof. solve_decision. Defined.
#[export] Instance PolicyDecisionRecord_eq_dec : EqDecision PolicyDecisionRecord.
Proof. solve_decision. Defined.

(** [derive(Ord)]: the fields in declaration order. *)
#[export] Instance PolicyMapKey_ord : Ord PolicyMapKey :=
  cmp_via (λ k, (pk_source_identity k, (pk_destination_identity k,
    (pk_protocol k, pk_destination_port k)))).
#[export] Instance Ipv4PolicyMapKey_ord : Ord Ipv4PolicyMapKey :=
  cmp_via (λ k, (pk4_source_address k, (pk4_destination_identity k,
    (pk4_protocol k, pk4_destination_port k)))).
#[export] Instance Ipv6PolicyMapKey_ord : Ord Ipv6PolicyMapKey :=
  cmp_via (λ k, (pk6_source_network k, (pk6_source_prefix_len k, (pk6_destination_identity k,
    (pk6_protocol k, pk6_destination_port k))))).
#[export] Instance EgressIpv4PolicyMapKey_ord : Ord EgressIpv4PolicyMapKey :=
  cmp_via (λ k, (ek4_source_identity k, (ek4_destination_address k,
    (ek4_protocol k, ek4_destination_port k)))).
#[export] Instance EgressIpv6PolicyMapKey_ord : Ord EgressIpv6PolicyMapKey :=
  cmp_via (λ k, (ek6_source_identity k, (ek6_destination_network k,
    (ek6_destination_prefix_len k, (ek6_protocol k, ek6_destination_port k))))).

Inductive DataplaneCompileError :=
| IdentityMetadataConflict (identity_id : IdentityId)
| EntryLimitExceeded (limit : Z)
| Ipv4MetadataConflict (address : Z)
| EgressIpv4MetadataConflict (address : Z)
| Ipv4BlockTooLarge (address_count limit : Z)
| Ipv6MetadataConflict (address : Z)
| EgressIpv6MetadataConflict (address : Z)
| UnsupportedPolicyDirection (direction : PolicyDirection).

Abbreviation dp_result := (result DataplaneCompileError).

(** ** Building entries *)

Definition policy_decision_record (decision : PolicyDecision) : PolicyDecisionRecord :=
  {| rec_verdict := dec_verdict decision; rec_reason := dec_reason decision;
     rec_policy_id := dec_policy_id decision; rec_rule_id := dec_rule_id decision |}.

(** [shadow_verdict.zip(shadow_reason).map(..)]. *)
Definition shadow_policy_decision_record (decision : PolicyDecision) :
    option PolicyDecisionRecord :=
  match dec_shadow_verdict decision, dec_shadow_reason decision with
  | Some verdict, Some reason =>
      Some {| rec_verdict := verdict; rec_reason := reason;
              rec_policy_id := dec_shadow_policy_id decision;
              rec_rule_id := dec_shadow_rule_id decision |}
  | _, _ => None
  end.

Definition policy_map_entry (source destination : Endpoint) (protocol destination_port : Z)
    (decision : PolicyDecision) : PolicyMapEntry :=
  {| entry_key := {| pk_source_identity := ep_identity source;
                     pk_destination_identity := ep_identity destination;
                     pk_protocol := protocol; pk_destination_port := destination_port |};
     entry_decision := policy_decision_record decision;
     entry_shadow := shadow_policy_decision_record decision |}.

Definition ipv4_policy_map_entry (source_address : Z) (destination : Endpoint)
    (protocol destination_port : Z) (decision : PolicyDecision) : Ipv4PolicyMapEntry :=
  {| entry_key := {| pk4_source_address := source_address;
                     pk4_destination_identity := ep_identity destination;
                     pk4_protocol := protocol; pk4_destination_port := destination_port |};
     entry_decision := policy_decision_record decision;
     entry_shadow := shadow_policy_decision_record decision |}.

Definition ipv6_policy_map_entry (source : Ipv6Cidr) (destination : Endpoint)
    (protocol destination_port : Z) (decision : PolicyDecision) : Ipv6PolicyMapEntry :=
  {| entry_key := {| pk6_source_network := c6_network source;
                     pk6_source_prefix_len := c6_prefix_len source;
                     pk6_destination_identity := ep_identity destination;
                     pk6_protocol := protocol; pk6_destination_port := destination_port |};
     entry_decision := policy_decision_record decision;
     entry_shadow := shadow_policy_decision_record decision |}.

Definition egress_ipv4_policy_map_entry (source : Endpoint) (destination_address : Z)
    (protocol destination_port : Z) (decision : PolicyDecision) : EgressIpv4PolicyMapEntry :=
  {| entry_key := {| ek4_source_identity := ep_identity source;
                     ek4_destination_address := destination_address;
                     ek4_protocol := protocol; ek4_destination_port := destination_port |};
     entry_decision := policy_decision_record decision;
     entry_shadow := shadow_policy_decision_record decision |}.

Definition egress_ipv6_policy_map_entry (source : Endpoint) (destination : Ipv6Cidr)
    (protocol destination_port : Z) (decision : PolicyDecision) : EgressIpv6PolicyMapEntry :=
  {| entry_key := {| ek6_source_identity := ep_identity source;
                     ek6_destination_network := c6_network destination;
                     ek6_destination_prefix_len := c6_prefix_len destination;
                     ek6_protocol := protocol; ek6_destination_port := destination_port |};
     entry_decision := policy_decision_record decision;
     entry_shadow := shadow_policy_decision_record decision |}.

Definition has_policy_provenance (decision : PolicyDecision) : bool :=
  bool_decide (is_Some (dec_policy_id decision))
  || bool_decide (is_Some (dec_shadow_policy_id decision)).

Definition ensure_dataplane_capacity (entry_count : Z) : dp_result unit :=
  if POLICY_MAP_BANK_ENTRY_LIMIT <=? entry_count
  then Err (EntryLimitExceeded POLICY_MAP_BANK_ENTRY_LIMIT) else Ok ().

(** [push_dataplane_entry] and its four siblings, one per entry type. *)
Definition push_dataplane_entry {K} (entries : list (MapEntry K)) (entry : MapEntry K) :
    dp_result (list (MapEntry K)) :=
  let? _ := ensure_dataplane_capacity (Z.of_nat (length entries)) in
  Ok (entries ++ [entry]).

(** [entry.decision != other.decision || entry.shadow != other.shadow]. *)
Definition entry_differs {K} (entry other : MapEntry K) : bool :=
  negb (bool_decide (entry_decision entry = entry_decision other))
  || negb (bool_decide (entry_shadow entry = entry_shadow other)).

Definition exact_rule_ports (rule : PolicyRule) (destination : Endpoint) : list (Protocol * Z) :=
  match rule_protocol rule with
  | None => []
  | Some protocol =>
      match rule_destination_port rule with
      | PortAny => []
      | PortNumber port => [(protocol, port)]
      | PortNamed name =>
          match Endpoint_resolve_named_port destination name protocol with
          | None => []
          | Some port => [(protocol, port)]
          end
      | PortRange start end_ => map (λ port, (protocol, port)) (seqZ start (end_ - start + 1))
      end
  end.

Definition external_endpoint : Endpoint :=
  {| ep_identity := 0; ep_namespace := ""; ep_namespace_labels := ∅; ep_service_account := "";
     ep_application := None; ep_labels := ∅; ep_named_ports := ∅ |}.

Definition global_fallback_policies (policies : list PolicyIr) : list PolicyIr :=
  map (λ policy, {|
    pol_id := pol_id policy; pol_name := pol_name policy; pol_namespace := pol_namespace policy;
    pol_priority := pol_priority policy; pol_origin := pol_origin policy;
    pol_direction := pol_direction policy; pol_target := pol_target policy;
    pol_default_action := pol_default_action policy;
    pol_enforcement_mode := pol_enforcement_mode policy;
    pol_rules := List.filter (λ rule, bool_decide (rule_protocol rule = None)) (pol_rules policy)
  |}) policies.

Definition ensure_direction (direction : PolicyDirection) (policies : list PolicyIr) :
    dp_result unit :=
  match List.find (λ policy, negb (bool_decide (pol_direction policy = direction))) policies with
  | Some policy => Err (UnsupportedPolicyDirection (pol_direction policy))
  | None => Ok ()
  end.
Definition ensure_ingress_dataplane_policies : list PolicyIr → dp_result unit :=
  ensure_direction Ingress.
Definition ensure_egress_dataplane_policies : list PolicyIr → dp_result unit :=
  ensure_direction Egress.

Definition unique_endpoints (endpoints : list Endpoint) : dp_result (gmap IdentityId Endpoint) :=
  try_fold (λ unique endpoint,
    if is_some_and (unique !! ep_identity endpoint) (λ existing, negb (bool_decide (existing = endpoint)))
    then Err (IdentityMetadataConflict (ep_identity endpoint))
    else Ok (<[ep_identity endpoint := endpoint]> unique)) ∅ endpoints.

(** The loops that index endpoints by address, with the error of each caller. *)
Definition known_addresses (conflict : Z → DataplaneCompileError) (l : list (Z * Endpoint)) :
    dp_result (gmap Z Endpoint) :=
  try_fold (λ known '(address, endpoint),
    if is_some_and (known !! address) (λ existing, negb (bool_decide (existing = endpoint)))
    then Err (conflict address)
    else Ok (<[address := endpoint]> known)) ∅ l.

(** ** Identity-pair entries *)

Definition flow_of (source destination : Endpoint) (protocol : Protocol) (port : Z)
    (source_ipv4 source_ipv6 : option Z) : Flow :=
  {| flow_source := source; flow_destination := destination; flow_protocol := protocol;
     flow_destination_port := port; flow_source_ipv4 := source_ipv4;
     flow_source_ipv6 := source_ipv6 |}.

(** The rules of the policies that select an endpoint and pass a test. *)
Definition targeted_rules (policies : list PolicyIr) (endpoint : Endpoint)
    (keep : PolicyRule → bool) : list PolicyRule :=
  List.filter keep
    (List.flat_map pol_rules
      (List.filter (λ policy, IdentitySelector_matches (pol_target policy) endpoint) policies)).

Definition is_port_any (rule : PolicyRule) : bool :=
  bool_decide (rule_destination_port rule = PortAny).

(** [filter_map(|rule| rule.protocol).collect::<BTreeSet<_>>()]. *)
Definition protocol_set (rules : list PolicyRule) : gset Protocol :=
  list_to_set (omap rule_protocol rules).

(** [flat_map(|rule| exact_rule_ports(rule, destination)).collect::<BTreeSet<_>>()]. *)
Definition tuple_set (rules : list PolicyRule) (destination : Endpoint) : gset (Protocol * Z) :=
  list_to_set (List.flat_map (λ rule, exact_rule_ports rule destination) rules).

(** The body of the loop over source and destination of [compile_dataplane_entries]. *)
Definition compile_pair (policies global_policies : list PolicyIr) (source destination : Endpoint)
    (entries : list PolicyMapEntry) : dp_result (list PolicyMapEntry) :=
  let global_fallback := evaluate global_policies (flow_of source destination Tcp 0 None None) in
  let global_entry := policy_map_entry source destination 0 0 global_fallback in
  let? entries :=
    if has_policy_provenance global_fallback then push_dataplane_entry entries global_entry
    else Ok entries in
  let wildcard_protocols :=
    protocol_set (targeted_rules policies destination (λ rule,
      IdentitySelector_matches_addressed (rule_source rule) source None None
      && IdentitySelector_matches (rule_destination rule) destination
      && is_port_any rule)) in
  let? (entries, protocol_entries) :=
    try_fold (λ '(entries, protocol_entries) protocol,
      let decision := evaluate policies (flow_of source destination protocol 0 None None) in
      let entry := policy_map_entry source destination (protocol_u8 protocol) 0 decision in
      let? entries :=
        if has_policy_provenance decision && entry_differs entry global_entry
        then push_dataplane_entry entries entry else Ok entries in
      Ok (entries, <[protocol := entry]> protocol_entries))
      (entries, ∅ : gmap Protocol PolicyMapEntry) (bset_iter wildcard_protocols) in
  let exact_tuples :=
    tuple_set (targeted_rules policies destination (λ rule,
      IdentitySelector_matches_addressed (rule_source rule) source None None
      && IdentitySelector_matches (rule_destination rule) destination)) destination in
  try_fold (λ entries '(protocol, port),
    let decision := evaluate policies (flow_of source destination protocol port None None) in
    let entry := policy_map_entry source destination (protocol_u8 protocol) port decision in
    let inherited := default global_entry (protocol_entries !! protocol) in
    if has_policy_provenance decision && entry_differs entry inherited
    then push_dataplane_entry entries entry else Ok entries)
    entries (bset_iter exact_tuples).

Definition compile_dataplane_entries (policies : list PolicyIr) (endpoints : list Endpoint) :
    dp_result (list PolicyMapEntry) :=
  let? _ := ensure_ingress_dataplane_policies policies in
  let global_policies := global_fallback_policies policies in
  let? unique_endpoints := unique_endpoints endpoints in
  let? entries :=
    try_fold (λ entries source,
      try_fold (λ entries destination,
        compile_pair policies global_policies source destination entries)
        entries (btree_values unique_endpoints))
      [] (btree_values unique_endpoints) in
  Ok (sort_by_key entry_key entries).

(** ** IPv4 source entries *)

Definition compile_ipv4_pair (policies global_policies : list PolicyIr) (source : Endpoint)
    (source_ipv4 : option Z) (source_address : Z) (destination : Endpoint)
    (entries : list Ipv4PolicyMapEntry) : dp_result (list Ipv4PolicyMapEntry) :=
  let global_fallback :=
    evaluate global_policies (flow_of source destination Tcp 0 source_ipv4 None) in
  let global_entry := ipv4_policy_map_entry source_address destination 0 0 global_fallback in
  let? entries :=
    if has_policy_provenance global_fallback then push_dataplane_entry entries global_entry
    else Ok entries in
  let wildcard_protocols :=
    protocol_set (targeted_rules policies destination (λ rule,
      IdentitySelector_matches_addressed (rule_source rule) source source_ipv4 None
      && IdentitySelector_matches (rule_destination rule) destination
      && is_port_any rule)) in
  let? (entries, protocol_entries) :=
    try_fold (λ '(entries, protocol_entries) protocol,
      let decision := evaluate policies (flow_of source destination protocol 0 source_ipv4 None) in
      let entry :=
        ipv4_policy_map_entry source_address destination (protocol_u8 protocol) 0 decision in
      let? entries :=
        if has_policy_provenance decision && entry_differs entry global_entry
        then push_dataplane_entry entries entry else Ok entries in
      Ok (entries, <[protocol := entry]> protocol_entries))
      (entries, ∅ : gmap Protocol Ipv4PolicyMapEntry) (bset_iter wildcard_protocols) in
  let exact_tuples :=
    tuple_set (targeted_rules policies destination (λ rule,
      IdentitySelector_matches_addressed (rule_source rule) source source_ipv4 None
      && IdentitySelector_matches (rule_destination rule) destination)) destination in
  try_fold (λ entries '(protocol, port),
    let decision := evaluate policies (flow_of source destination protocol port source_ipv4 None) in
    let entry :=
      ipv4_policy_map_entry source_address destination (protocol_u8 protocol) port decision in
    let inherited := default global_entry (protocol_entries !! protocol) in
    if has_policy_provenance decision && entry_differs entry inherited
    then push_dataplane_entry entries entry else Ok entries)
    entries (bset_iter exact_tuples).

(** The size check of the blocks a lowering expands address by address. *)
Definition check_ipv4_block_sizes (blocks : list Ipv4Block) : dp_result unit :=
  try_fold (λ _ block,
    let address_count := Ipv4Cidr_address_count (blk4_cidr block) in
    if negb (c4_prefix_len (blk4_cidr block) =? 0)
       && (KUBERNETES_NETWORK_POLICY_MAX_IP_BLOCK_ADDRESSES <? address_count)
    then Err (Ipv4BlockTooLarge address_count KUBERNETES_NETWORK_POLICY_MAX_IP_BLOCK_ADDRESSES)
    else Ok ()) () blocks.

(** The addresses named one by one: those of the bounded blocks and those excepted
    from the global ones. *)
Definition listed_ipv4_addresses (blocks : list Ipv4Block) : list Z :=
  List.flat_map Ipv4Block_addresses
    (List.filter (λ block, negb (c4_prefix_len (blk4_cidr block) =? 0)) blocks)
  ++ List.flat_map Ipv4Cidr_addresses
       (List.flat_map blk4_except
         (List.filter (λ block, c4_prefix_len (blk4_cidr block) =? 0) blocks)).

(** The loop that adds them to the address set, bounded by one bank. *)
Definition insert_ipv4_addresses (addresses : gset Z) (listed : list Z) : dp_result (gset Z) :=
  try_fold (λ addresses address,
    if negb (address =? 0) && negb (bool_decide (address ∈ addresses)) then
      let addresses := {[ address ]} ∪ addresses in
      if POLICY_MAP_BANK_ENTRY_LIMIT <? Z.of_nat (size addresses)
      then Err (EntryLimitExceeded POLICY_MAP_BANK_ENTRY_LIMIT)
      else Ok addresses
    else Ok addresses) addresses listed.

Definition has_global_ipv4_block (blocks : list Ipv4Block) : bool :=
  existsb (λ block, c4_prefix_len (blk4_cidr block) =? 0) blocks.

Definition compile_ipv4_dataplane_entries (policies : list PolicyIr) (endpoints : list Endpoint)
    (ipv4_endpoints : list Ipv4Endpoint) : dp_result (list Ipv4PolicyMapEntry) :=
  let? _ := ensure_ingress_dataplane_policies policies in
  let global_policies := global_fallback_policies policies in
  let? destinations := unique_endpoints endpoints in
  let? known_sources :=
    known_addresses Ipv4MetadataConflict
      (map (λ source, (ep4_address source, ep4_endpoint source)) ipv4_endpoints) in
  let ipv4_blocks :=
    List.flat_map (λ rule, sel_ipv4_blocks (rule_source rule))
      (List.flat_map pol_rules policies) in
  let? _ := check_ipv4_block_sizes ipv4_blocks in
  let? source_addresses :=
    insert_ipv4_addresses (dom known_sources) (listed_ipv4_addresses ipv4_blocks) in
  let? entries :=
    try_fold (λ entries address,
      let source := default external_endpoint (known_sources !! address) in
      try_fold (λ entries destination,
        compile_ipv4_pair policies global_policies source (Some address) address destination entries)
        entries (btree_values destinations))
      [] (bset_iter source_addresses) in
  let? entries :=
    try_fold (λ entries destination,
      let fallback_address :=
        if has_global_ipv4_block ipv4_blocks then arbitrary_ipv4_address source_addresses
        else None in
      compile_ipv4_pair policies global_policies external_endpoint fallback_address 0
        destination entries)
      entries
      (List.filter (λ destination,
         existsb (λ policy, bool_decide (pol_origin policy = KubernetesNetworkPolicy)
           && IdentitySelector_matches (pol_target policy) destination) policies)
         (btree_values destinations)) in
  Ok (sort_by_key entry_key entries).

(** ** IPv6 source entries *)

(** Recursive halving of a prefix; [fuel] exceeds the number of host bits. *)
Fixpoint uncovered_ipv6_address_fuel (fuel : nat) (cidr : Ipv6Cidr) (excluded : list Ipv6Cidr) :
    option Z :=
  match fuel with
  | O => None
  | S fuel =>
      if bool_decide (cidr ∈ excluded) then None
      else if forallb (λ item, negb (Ipv6Cidr_contains item (c6_network cidr))) excluded
      then Some (c6_network cidr)
      else if c6_prefix_len cidr =? 128 then None
      else
        let child_prefix := c6_prefix_len cidr + 1 in
        let step := Z.shiftl 1 (128 - child_prefix) in
        let visit network :=
          let child := {| c6_network := network; c6_prefix_len := child_prefix |} in
          let child_excluded := List.filter (Ipv6Cidr_contains_cidr child) excluded in
          if is_nil child_excluded then Some network
          else uncovered_ipv6_address_fuel fuel child child_excluded in
        match visit (c6_network cidr) with
        | Some address => Some address
        | None => visit (c6_network cidr + step)
        end
  end.

Definition uncovered_ipv6_address (cidr : Ipv6Cidr) (excluded : list Ipv6Cidr) : option Z :=
  uncovered_ipv6_address_fuel 129 cidr excluded.

Definition compile_ipv6_pair (policies global_policies : list PolicyIr) (source : Endpoint)
    (source_address : Z) (source_cidr : Ipv6Cidr) (destination : Endpoint)
    (entries : list Ipv6PolicyMapEntry) : dp_result (list Ipv6PolicyMapEntry) :=
  let global_fallback :=
    evaluate global_policies (flow_of source destination Tcp 0 None (Some source_address)) in
  let global_entry := ipv6_policy_map_entry source_cidr destination 0 0 global_fallback in
  let? entries :=
    if has_policy_provenance global_fallback then push_dataplane_entry entries global_entry
    else Ok entries in
  let wildcard_protocols :=
    protocol_set (targeted_rules policies destination (λ rule,
      IdentitySelector_matches (rule_destination rule) destination && is_port_any rule)) in
  let? entries :=
    try_fold (λ entries protocol,
      let decision :=
        evaluate policies (flow_of source destination protocol 0 None (Some source_address)) in
      let entry :=
        ipv6_policy_map_entry source_cidr destination (protocol_u8 protocol) 0 decision in
      if has_policy_provenance decision then push_dataplane_entry entries entry else Ok entries)
      entries (bset_iter wildcard_protocols) in
  let exact_tuples :=
    tuple_set (targeted_rules policies destination (λ rule,
      IdentitySelector_matches (rule_destination rule) destination)) destination in
  try_fold (λ entries '(protocol, port),
    let decision :=
      evaluate policies (flow_of source destination protocol port None (Some source_address)) in
    let entry :=
      ipv6_policy_map_entry source_cidr destination (protocol_u8 protocol) port decision in
    if has_policy_provenance decision then push_dataplane_entry entries entry else Ok entries)
    entries (bset_iter exact_tuples).

(** The prefixes decisions may change at: the default prefix, every block and
    exception, and every known address. *)
Definition ipv6_boundaries (blocks : list Ipv6Block) (known : gmap Z Endpoint) : gset Ipv6Cidr :=
  {[ {| c6_network := 0; c6_prefix_len := 0 |} ]}
  ∪ list_to_set (List.flat_map (λ block, blk6_cidr block :: blk6_except block) blocks)
  ∪ set_map (λ network, {| c6_network := network; c6_prefix_len := 128 |}) (dom known).

(** The boundaries strictly inside a boundary. *)
Definition inner_boundaries (boundaries : list Ipv6Cidr) (boundary : Ipv6Cidr) : list Ipv6Cidr :=
  List.filter (λ candidate, (c6_prefix_len boundary <? c6_prefix_len candidate)
    && Ipv6Cidr_contains_cidr boundary candidate) boundaries.

Definition compile_ipv6_dataplane_entries (policies : list PolicyIr) (endpoints : list Endpoint)
    (ipv6_endpoints : list Ipv6Endpoint) : dp_result (list Ipv6PolicyMapEntry) :=
  let? _ := ensure_ingress_dataplane_policies policies in
  let global_policies := global_fallback_policies policies in
  let? destinations := unique_endpoints endpoints in
  let? known_sources :=
    known_addresses Ipv6MetadataConflict
      (map (λ source, (ep6_address source, ep6_endpoint source)) ipv6_endpoints) in
  let boundaries :=
    ipv6_boundaries
      (List.flat_map (λ rule, sel_ipv6_blocks (rule_source rule))
        (List.flat_map pol_rules policies)) known_sources in
  if POLICY_MAP_BANK_ENTRY_LIMIT <? Z.of_nat (size boundaries)
  then Err (EntryLimitExceeded POLICY_MAP_BANK_ENTRY_LIMIT)
  else
    let boundaries := bset_iter boundaries in
    let? entries :=
      try_fold (λ entries destination,
        try_fold (λ entries boundary,
          match uncovered_ipv6_address boundary (inner_boundaries boundaries boundary) with
          | None => Ok entries
          | Some address =>
              let source := default external_endpoint (known_sources !! address) in
              compile_ipv6_pair policies global_policies source address boundary destination entries
          end) entries boundaries)
        [] (btree_values destinations) in
    Ok (sort_by_key entry_key entries).

(** ** Egress entries *)

Definition dataplane_flow (source destination : Endpoint) (protocol : Protocol) (port : Z) : Flow :=
  {| flow_source := source; flow_destination := destination; flow_protocol := protocol;
     flow_destination_port := port; flow_source_ipv4 := None; flow_source_ipv6 := None |}.

Definition egress_wildcard_protocols (policies : list PolicyIr) (source destination : Endpoint)
    (destination_addresses : DestinationAddresses) : gset Protocol :=
  protocol_set (targeted_rules policies source (λ rule,
    IdentitySelector_matches_addressed (rule_source rule) source None None
    && IdentitySelector_matches_addressed (rule_destination rule) destination
         (dst_ipv4 destination_addresses) (dst_ipv6 destination_addresses)
    && is_port_any rule)).

Definition egress_exact_tuples (policies : list PolicyIr) (source destination : Endpoint)
    (destination_addresses : DestinationAddresses) : gset (Protocol * Z) :=
  tuple_set (targeted_rules policies source (λ rule,
    IdentitySelector_matches_addressed (rule_source rule) source None None
    && IdentitySelector_matches_addressed (rule_destination rule) destination
         (dst_ipv4 destination_addresses) (dst_ipv6 destination_addresses))) destination.

Definition compile_egress_ipv4_pair (policies global_policies : list PolicyIr)
    (source destination : Endpoint) (destination_ipv4 : option Z) (key_address : Z)
    (entries : list EgressIpv4PolicyMapEntry) : dp_result (list EgressIpv4PolicyMapEntry) :=
  let destination_addresses := {| dst_ipv4 := destination_ipv4; dst_ipv6 := None |} in
  let global_fallback :=
    evaluate_for_direction_with_addresses global_policies Egress
      (dataplane_flow source destination Tcp 0) destination_addresses in
  let global_entry := egress_ipv4_policy_map_entry source key_address 0 0 global_fallback in
  let? entries :=
    if has_policy_provenance global_fallback then push_dataplane_entry entries global_entry
    else Ok entries in
  let wildcard_protocols :=
    egress_wildcard_protocols policies source destination destination_addresses in
  let? (entries, protocol_entries) :=
    try_fold (λ '(entries, protocol_entries) protocol,
      let decision :=
        evaluate_for_direction_with_addresses policies Egress
          (dataplane_flow source destination protocol 0) destination_addresses in
      let entry :=
        egress_ipv4_policy_map_entry source key_address (protocol_u8 protocol) 0 decision in
      let? entries :=
        if has_policy_provenance decision && entry_differs entry global_entry
        then push_dataplane_entry entries entry else Ok entries in
      Ok (entries, <[protocol := entry]> protocol_entries))
      (entries, ∅ : gmap Protocol EgressIpv4PolicyMapEntry) (bset_iter wildcard_protocols) in
  try_fold (λ entries '(protocol, port),
    let decision :=
      evaluate_for_direction_with_addresses policies Egress
        (dataplane_flow source destination protocol port) destination_addresses in
    let entry :=
      egress_ipv4_policy_map_entry source key_address (protocol_u8 protocol) port decision in
    let inherited := default global_entry (protocol_entries !! protocol) in
    if has_policy_provenance decision && entry_differs entry inherited
    then push_dataplane_entry entries entry else Ok entries)
    entries
    (bset_iter (egress_exact_tuples policies source destination destination_addresses)).

Definition compile_egress_ipv4_dataplane_entries (policies : list PolicyIr)
    (endpoints : list Endpoint) (ipv4_endpoints : list Ipv4Endpoint) :
    dp_result (list EgressIpv4PolicyMapEntry) :=
  let? _ := ensure_egress_dataplane_policies policies in
  let global_policies := global_fallback_policies policies in
  let? sources := unique_endpoints endpoints in
  let? known_destinations :=
    known_addresses EgressIpv4MetadataConflict
      (map (λ destination, (ep4_address destination, ep4_endpoint destination)) ipv4_endpoints) in
  let ipv4_blocks :=
    List.flat_map (λ rule, sel_ipv4_blocks (rule_destination rule))
      (List.flat_map pol_rules policies) in
  let? _ := check_ipv4_block_sizes ipv4_blocks in
  if POLICY_MAP_BANK_ENTRY_LIMIT <? Z.of_nat (size (dom known_destinations))
  then Err (EntryLimitExceeded POLICY_MAP_BANK_ENTRY_LIMIT)
  else
    let? destination_addresses :=
      insert_ipv4_addresses (dom known_destinations) (listed_ipv4_addresses ipv4_blocks) in
    let? entries :=
      try_fold (λ entries source,
        let? entries :=
          try_fold (λ entries address,
            let destination := default external_endpoint (known_destinations !! address) in
            compile_egress_ipv4_pair policies global_policies source destination (Some address)
              address entries)
            entries (bset_iter destination_addresses) in
        if existsb (λ policy, IdentitySelector_matches (pol_target policy) source) policies then
          let fallback_address :=
            if has_global_ipv4_block ipv4_blocks then arbitrary_ipv4_address destination_addresses
            else None in
          compile_egress_ipv4_pair policies global_policies source external_endpoint
            fallback_address 0 entries
        else Ok entries)
        [] (btree_values sources) in
    Ok (sort_by_key entry_key entries).

Definition compile_egress_ipv6_pair (policies global_policies : list PolicyIr)
    (source destination : Endpoint) (destination_address : Z) (destination_cidr : Ipv6Cidr)
    (entries : list EgressIpv6PolicyMapEntry) : dp_result (list EgressIpv6PolicyMapEntry) :=
  let destination_addresses :=
    {| dst_ipv4 := None; dst_ipv6 := Some destination_address |} in
  let global_fallback :=
    evaluate_for_direction_with_addresses global_policies Egress
      (dataplane_flow source destination Tcp 0) destination_addresses in
  let? entries :=
    if has_policy_provenance global_fallback then
      push_dataplane_entry entries
        (egress_ipv6_policy_map_entry source destination_cidr 0 0 global_fallback)
    else Ok entries in
  let? entries :=
    try_fold (λ entries protocol,
      let decision :=
        evaluate_for_direction_with_addresses policies Egress
          (dataplane_flow source destination protocol 0) destination_addresses in
      if has_policy_provenance decision then
        push_dataplane_entry entries
          (egress_ipv6_policy_map_entry source destination_cidr (protocol_u8 protocol) 0 decision)
      else Ok entries)
      entries
      (bset_iter (egress_wildcard_protocols policies source destination destination_addresses)) in
  try_fold (λ entries '(protocol, port),
    let decision :=
      evaluate_for_direction_with_addresses policies Egress
        (dataplane_flow source destination protocol port) destination_addresses in
    if has_policy_provenance decision then
      push_dataplane_entry entries
        (egress_ipv6_policy_map_entry source destination_cidr (protocol_u8 protocol) port decision)
    else Ok entries)
    entries
    (bset_iter (egress_exact_tuples policies source destination destination_addresses)).

Definition compile_egress_ipv6_dataplane_entries (policies : list PolicyIr)
    (endpoints : list Endpoint) (ipv6_endpoints : list Ipv6Endpoint) :
    dp_result (list EgressIpv6PolicyMapEntry) :=
  let? _ := ensure_egress_dataplane_policies policies in
  let global_policies := global_fallback_policies policies in
  let? sources := unique_endpoints endpoints in
  let? known_destinations :=
    known_addresses EgressIpv6MetadataConflict
      (map (λ destination, (ep6_address destination, ep6_endpoint destination)) ipv6_endpoints) in
  let boundaries :=
    ipv6_boundaries
      (List.flat_map (λ rule, sel_ipv6_blocks (rule_destination rule))
        (List.flat_map pol_rules policies)) known_destinations in
  if POLICY_MAP_BANK_ENTRY_LIMIT <? Z.of_nat (size boundaries)
  then Err (EntryLimitExceeded POLICY_MAP_BANK_ENTRY_LIMIT)
  else
    let boundaries := bset_iter boundaries in
    let? entries :=
      try_fold (λ entries source,
        if negb (existsb (λ policy, IdentitySelector_matches (pol_target policy) source) policies)
        then Ok entries
        else
          try_fold (λ entries boundary,
            match uncovered_ipv6_address boundary (inner_boundaries boundaries boundary) with
            | None => Ok entries
            | Some address =>
                let destination := default external_endpoint (known_destinations !! address) in
                compile_egress_ipv6_pair policies global_policies source destination address
                  boundary entries
            end) entries boundaries)
        [] (btree_values sources) in
    Ok (sort_by_key entry_key entries).
