(* ===== verification/PolicyLowerSpec.v ===== *)
(** * Lowering: generic theory

    What one source/destination pair contributes to a map, stated once for all
    maps: the loops of the pair compilers are a bounded append of a list of entries,
    and looking up exact tuple, protocol wildcard, then global fallback in that
    list gives back the evaluator's decision. *)

From S2P Require Import Prelude Common PolicyIr PolicyCompile NetworkPolicy PolicyLower.

(** ** Bounded appends *)

Definition push_all {K} (entries new : list (MapEntry K)) : dp_result (list (MapEntry K)) :=
  try_fold push_dataplane_entry entries new.

Definition when {A} (b : bool) (x : A) : list A := if b then [x] else [].

Lemma elem_of_when {A} b (x y : A) : y ∈ when b x ↔ b = true ∧ y = x.
Proof. destruct b; simpl; rewrite ?list_elem_of_singleton, ?elem_of_nil; naive_solver. Qed.

Lemma try_fold_app {E A B} (f : B → A → result E B) acc l l' :
  try_fold f acc (l ++ l') = let? acc := try_fold f acc l in try_fold f acc l'.
Proof. revert acc. induction l; intros acc; simpl; [done|]. by destruct (f _ _). Qed.

Lemma try_fold_ext {E A B} (f g : B → A → result E B) acc l :
  (∀ b x, x ∈ l → f b x = g b x) → try_fold f acc l = try_fold g acc l.
Proof.
  revert acc. induction l as [|x l IH]; intros acc H; simpl; [done|].
  rewrite H by (by left). destruct (g acc x); [|done]. apply IH. intros. apply H. by right.
Qed.

Section Push.
Context {K : Type}.

Lemma push_all_app (entries new new' : list (MapEntry K)) :
  push_all entries (new ++ new') = let? entries := push_all entries new in push_all entries new'.
Proof. apply try_fold_app. Qed.

Lemma push_all_cons (entries new : list (MapEntry K)) e :
  push_all entries (e :: new)
  = if POLICY_MAP_BANK_ENTRY_LIMIT <=? Z.of_nat (length entries)
    then Err (EntryLimitExceeded POLICY_MAP_BANK_ENTRY_LIMIT)
    else push_all (entries ++ [e]) new.
Proof.
  unfold push_all. simpl. unfold push_dataplane_entry at 1, ensure_dataplane_capacity.
  by destruct (_ <=? _).
Qed.

Lemma push_all_when (entries : list (MapEntry K)) (b : bool) (e : MapEntry K) :
  (if b then push_dataplane_entry entries e else Ok entries) = push_all entries (when b e).
Proof. unfold push_all. destruct b; simpl; [|done]. by destruct (push_dataplane_entry _ _). Qed.

(** A loop whose body appends a list is one append of all the lists. *)
Lemma push_all_flat_map {A} (f : A → list (MapEntry K)) entries l :
  try_fold (λ entries x, push_all entries (f x)) entries l = push_all entries (List.flat_map f l).
Proof.
  revert entries. induction l as [|x l IH]; intros entries; simpl; [done|].
  rewrite push_all_app. destruct (push_all entries (f x)); [|done]. apply IH.
Qed.

Lemma push_all_Ok (entries new r : list (MapEntry K)) :
  push_all entries new = Ok r →
  r = entries ++ new ∧
  (Z.of_nat (length entries) ≤ POLICY_MAP_BANK_ENTRY_LIMIT →
   Z.of_nat (length r) ≤ POLICY_MAP_BANK_ENTRY_LIMIT).
Proof.
  revert entries. induction new as [|e new IH]; intros entries.
  { unfold push_all. simpl. intros [= <-]. by rewrite app_nil_r. }
  rewrite push_all_cons.
  destruct (Z.leb_spec POLICY_MAP_BANK_ENTRY_LIMIT (Z.of_nat (length entries))); [done|].
  intros [-> Hl]%IH. rewrite <-app_assoc in *. split; [done|]. intros _. apply Hl.
  rewrite length_app. simpl. lia.
Qed.

Lemma push_all_fits (entries new : list (MapEntry K)) :
  Z.of_nat (length entries + length new) ≤ POLICY_MAP_BANK_ENTRY_LIMIT →
  push_all entries new = Ok (entries ++ new).
Proof.
  revert entries. induction new as [|e new IH]; intros entries Hl; simpl in Hl.
  { by rewrite app_nil_r. }
  rewrite push_all_cons.
  destruct (Z.leb_spec POLICY_MAP_BANK_ENTRY_LIMIT (Z.of_nat (length entries))); [lia|].
  rewrite IH by (rewrite length_app; simpl; lia). by rewrite <-app_assoc.
Qed.

Lemma push_all_Err (entries new : list (MapEntry K)) :
  POLICY_MAP_BANK_ENTRY_LIMIT < Z.of_nat (length entries + length new) →
  Z.of_nat (length entries) ≤ POLICY_MAP_BANK_ENTRY_LIMIT →
  push_all entries new = Err (EntryLimitExceeded POLICY_MAP_BANK_ENTRY_LIMIT).
Proof.
  revert entries. induction new as [|e new IH]; intros entries Hl Hle; simpl in Hl; [lia|].
  rewrite push_all_cons.
  destruct (Z.leb_spec POLICY_MAP_BANK_ENTRY_LIMIT (Z.of_nat (length entries))); [done|].
  apply IH; rewrite length_app; simpl; lia.
Qed.

(** All of a bank's entries, or the capacity error. *)
Lemma push_all_nil (new : list (MapEntry K)) :
  push_all [] new
  = if Z.of_nat (length new) <=? POLICY_MAP_BANK_ENTRY_LIMIT then Ok new
    else Err (EntryLimitExceeded POLICY_MAP_BANK_ENTRY_LIMIT).
Proof.
  destruct (Z.leb_spec (Z.of_nat (length new)) POLICY_MAP_BANK_ENTRY_LIMIT).
  - by rewrite push_all_fits.
  - apply push_all_Err; simpl; [lia|]. unfold POLICY_MAP_BANK_ENTRY_LIMIT. lia.
Qed.
End Push.

(** ** Decisions as records *)

Definition records (d : PolicyDecision) : PolicyDecisionRecord * option PolicyDecisionRecord :=
  (policy_decision_record d, shadow_policy_decision_record d).

Definition entry_value {K} (e : MapEntry K) : PolicyDecisionRecord * option PolicyDecisionRecord :=
  (entry_decision e, entry_shadow e).

Lemma entry_differs_false {K} (e e' : MapEntry K) :
  entry_differs e e' = false ↔ entry_value e = entry_value e'.
Proof.
  unfold entry_differs, entry_value.
  rewrite orb_false_iff, !negb_false_iff, !bool_decide_eq_true.
  split; [by intros [-> ->]|by intros [= -> ->]].
Qed.

(** Provenance is visible in the records. *)
Definition value_provenance (v : PolicyDecisionRecord * option PolicyDecisionRecord) : bool :=
  bool_decide (is_Some (rec_policy_id v.1))
  || is_some_and v.2 (λ s, bool_decide (is_Some (rec_policy_id s))).

Lemma evaluate_provenance policies direction flow addresses :
  let d := evaluate_for_direction_with_addresses policies direction flow addresses in
  has_policy_provenance d = value_provenance (records d).
Proof.
  cbv zeta. unfold evaluate_for_direction_with_addresses.
  destruct (default _ _) as [[[v r] i] k], (decide_for_mode _ _ _ Shadow) as [[[[??]?]?]|]; done.
Qed.

(** The records are a function of the decision of each mode. *)
Definition mode_records
    (enforced shadow : option (Verdict * PolicyReason * option PolicyId * option RuleId)) :
    PolicyDecisionRecord * option PolicyDecisionRecord :=
  let mk d := let '(v, r, i, k) := d in
    {| rec_verdict := v; rec_reason := r; rec_policy_id := i; rec_rule_id := k |} in
  (mk (default no_applicable_decision enforced), option_map mk shadow).

Lemma records_evaluate policies direction flow addresses :
  records (evaluate_for_direction_with_addresses policies direction flow addresses)
  = mode_records (decide_for_mode (applicable policies direction flow) flow addresses Enforce)
      (decide_for_mode (applicable policies direction flow) flow addresses Shadow).
Proof.
  unfold evaluate_for_direction_with_addresses, mode_records.
  destruct (decide_for_mode _ _ _ Enforce) as [[[[??]?]?]|],
    (decide_for_mode _ _ _ Shadow) as [[[[??]?]?]|]; done.
Qed.

(** Every decision carries the policy that made it. *)
Lemma decide_for_mode_policy policies flow addresses mode d :
  decide_for_mode policies flow addresses mode = Some d → is_Some d.1.2.
Proof.
  intros (c & _ & ->)%decide_for_mode_Some. destruct c as [[[[??]?]?]?]. simpl. eauto.
Qed.

Lemma provenance_iff policies direction flow addresses :
  has_policy_provenance (evaluate_for_direction_with_addresses policies direction flow addresses)
    = true ↔
  ∃ mode c, candidate (applicable policies direction flow) flow addresses mode c.
Proof.
  rewrite evaluate_provenance, records_evaluate. unfold value_provenance, mode_records. simpl.
  rewrite orb_true_iff. split.
  - intros [H|H].
    + destruct (decide_for_mode _ _ _ Enforce) as [d|] eqn:E.
      * apply decide_for_mode_Some in E as (c & [Hc _] & _). eauto.
      * by apply bool_decide_eq_true in H as [? [=]].
    + destruct (decide_for_mode _ _ _ Shadow) as [d|] eqn:E; [|done].
      apply decide_for_mode_Some in E as (c & [Hc _] & _). eauto.
  - intros ([] & c & Hc).
    + left. destruct (decide_for_mode _ _ _ Enforce) as [d|] eqn:E.
      * apply decide_for_mode_policy in E. destruct d as [[[??]?]?]. by apply bool_decide_eq_true.
      * rewrite decide_for_mode_None in E. by destruct (E c).
    + right. destruct (decide_for_mode _ _ _ Shadow) as [d|] eqn:E.
      * apply decide_for_mode_policy in E. destruct d as [[[??]?]?]. by apply bool_decide_eq_true.
      * rewrite decide_for_mode_None in E. by destruct (E c).
Qed.

(** ** Looking entries up *)

(** A list of entries holds a value under a key. *)
Definition holds {K} (entries : list (MapEntry K)) (k : K)
    (v : PolicyDecisionRecord * option PolicyDecisionRecord) : Prop :=
  ∃ e, e ∈ entries ∧ entry_key e = k ∧ entry_value e = v.

(** The value of the first entry with a key. *)
Definition entry_at {K} `{EqDecision K} (entries : list (MapEntry K)) (k : K) :
    option (PolicyDecisionRecord * option PolicyDecisionRecord) :=
  option_map entry_value (List.find (λ e, bool_decide (entry_key e = k)) entries).

Lemma entry_at_holds {K} `{EqDecision K} (entries : list (MapEntry K)) k v :
  NoDup (map entry_key entries) → entry_at entries k = Some v ↔ holds entries k v.
Proof.
  intros Hnd. unfold entry_at, holds.
  destruct (List.find _ _) as [e|] eqn:E; simpl.
  - apply find_some in E as [Hin Hk%bool_decide_eq_true]. apply list_elem_of_In in Hin. split.
    + intros [= <-]. by exists e.
    + intros (e' & Hin' & Hk' & <-). do 2 f_equal.
      apply (NoDup_map_elem entry_key entries); congruence.
  - split; [done|]. intros (e & Hin & Hk & _). apply list_elem_of_In in Hin.
    apply (find_none _ _ E) in Hin. by apply bool_decide_eq_false in Hin.
Qed.

(** Longest prefix match: the matching entry of greatest prefix length. *)
Definition lpm_get {K} (prefix_len : K → Z) (matches : K → bool) (entries : list (MapEntry K)) :
    option (MapEntry K) :=
  longest (λ e, prefix_len (entry_key e)) (λ e, matches (entry_key e)) entries.

(** [a.or_else(|| b)]. *)
Definition or_else {A} (a b : option A) : option A :=
  match a with Some _ => a | None => b end.

(** Exact tuple, protocol wildcard, global fallback: the dataplane's order. *)
Definition lookup_tuple {A} (at_ : Z → Z → option A) (protocol port : Z) : option A :=
  or_else (at_ protocol port) (or_else (at_ protocol 0) (at_ 0 0)).

Lemma protocol_u8_nonzero p : protocol_u8 p ≠ 0.
Proof. by destruct p. Qed.

Section Pair.
Context {K : Type} (key : Z → Z → K).
Context (D : Protocol → Z → PolicyDecision) (G : PolicyDecision).
Context (W : gset Protocol) (X : gset (Protocol * Z)).

Definition mk_entry (protocol port : Z) (d : PolicyDecision) : MapEntry K :=
  {| entry_key := key protocol port; entry_decision := policy_decision_record d;
     entry_shadow := shadow_policy_decision_record d |}.

(** The shape of the compilers that leave out an entry equal to the one it would
    inherit. *)
Definition lower_inherit (entries : list (MapEntry K)) : dp_result (list (MapEntry K)) :=
  let global_entry := mk_entry 0 0 G in
  let? entries :=
    if has_policy_provenance G then push_dataplane_entry entries global_entry else Ok entries in
  let? (entries, protocol_entries) :=
    try_fold (λ '(entries, protocol_entries) protocol,
      let decision := D protocol 0 in
      let entry := mk_entry (protocol_u8 protocol) 0 decision in
      let? entries :=
        if has_policy_provenance decision && entry_differs entry global_entry
        then push_dataplane_entry entries entry else Ok entries in
      Ok (entries, <[protocol := entry]> protocol_entries))
      (entries, ∅ : gmap Protocol (MapEntry K)) (bset_iter W) in
  try_fold (λ entries '(protocol, port),
    let decision := D protocol port in
    let entry := mk_entry (protocol_u8 protocol) port decision in
    let inherited := default global_entry (protocol_entries !! protocol) in
    if has_policy_provenance decision && entry_differs entry inherited
    then push_dataplane_entry entries entry else Ok entries)
    entries (bset_iter X).

(** The shape of the prefix compilers, which emit every entry. *)
Definition lower_plain (entries : list (MapEntry K)) : dp_result (list (MapEntry K)) :=
  let? entries :=
    if has_policy_provenance G then push_dataplane_entry entries (mk_entry 0 0 G)
    else Ok entries in
  let? entries :=
    try_fold (λ entries protocol,
      let decision := D protocol 0 in
      if has_policy_provenance decision
      then push_dataplane_entry entries (mk_entry (protocol_u8 protocol) 0 decision)
      else Ok entries) entries (bset_iter W) in
  try_fold (λ entries '(protocol, port),
    let decision := D protocol port in
    if has_policy_provenance decision
    then push_dataplane_entry entries (mk_entry (protocol_u8 protocol) port decision)
    else Ok entries) entries (bset_iter X).

(** What an exact tuple inherits: the protocol's wildcard decision if the protocol
    has one, the global fallback otherwise. *)
Definition inherited (p : Protocol) : PolicyDecision := if bool_decide (p ∈ W) then D p 0 else G.

Definition differs (d d' : PolicyDecision) : bool := negb (bool_decide (records d = records d')).

Definition pair_inherit : list (MapEntry K) :=
  when (has_policy_provenance G) (mk_entry 0 0 G)
  ++ List.flat_map (λ p, when (has_policy_provenance (D p 0) && differs (D p 0) G)
       (mk_entry (protocol_u8 p) 0 (D p 0))) (bset_iter W)
  ++ List.flat_map (λ '(p, port), when (has_policy_provenance (D p port)
         && differs (D p port) (inherited p)) (mk_entry (protocol_u8 p) port (D p port)))
       (bset_iter X).

Definition pair_plain : list (MapEntry K) :=
  when (has_policy_provenance G) (mk_entry 0 0 G)
  ++ List.flat_map (λ p, when (has_policy_provenance (D p 0))
       (mk_entry (protocol_u8 p) 0 (D p 0))) (bset_iter W)
  ++ List.flat_map (λ '(p, port), when (has_policy_provenance (D p port))
       (mk_entry (protocol_u8 p) port (D p port))) (bset_iter X).

Lemma entry_differs_mk p q d p' q' d' :
  entry_differs (mk_entry p q d) (mk_entry p' q' d') = differs d d'.
Proof.
  unfold differs. destruct (entry_differs _ _) eqn:E.
  - case_bool_decide as Hr; [|done]. assert (Hv : entry_value (mk_entry p q d) = entry_value (mk_entry p' q' d')) by exact Hr.
    apply entry_differs_false in Hv. congruence.
  - apply entry_differs_false in E. by rewrite bool_decide_true by exact E.
Qed.

Lemma protocol_loop entries (m : gmap Protocol (MapEntry K)) l :
  try_fold (λ '(entries, protocol_entries) protocol,
      let decision := D protocol 0 in
      let entry := mk_entry (protocol_u8 protocol) 0 decision in
      let? entries :=
        if has_policy_provenance decision && entry_differs entry (mk_entry 0 0 G)
        then push_dataplane_entry entries entry else Ok entries in
      Ok (entries, <[protocol := entry]> protocol_entries))
      (entries, m) l
  = let? entries := push_all entries
      (List.flat_map (λ p, when (has_policy_provenance (D p 0) && differs (D p 0) G)
         (mk_entry (protocol_u8 p) 0 (D p 0))) l) in
    Ok (entries, fold_left (λ m p, <[p := mk_entry (protocol_u8 p) 0 (D p 0)]> m) l m).
Proof.
  revert entries m. induction l as [|p l IH]; intros entries m; [done|].
  cbn [try_fold List.flat_map]. rewrite push_all_when, push_all_app, entry_differs_mk.
  destruct (push_all entries (when _ _)) as [es|]; [|done]. by rewrite IH.
Qed.

Lemma protocol_map_lookup l (m : gmap Protocol (MapEntry K)) p :
  fold_left (λ m p, <[p := mk_entry (protocol_u8 p) 0 (D p 0)]> m) l m !! p
  = if bool_decide (p ∈ l) then Some (mk_entry (protocol_u8 p) 0 (D p 0)) else m !! p.
Proof.
  revert m. induction l as [|q l IH]; intros m; simpl; [done|]. rewrite IH.
  destruct (decide (p ∈ l)) as [Hin|Hin].
  - rewrite !bool_decide_true; [done|by right|done].
  - rewrite (bool_decide_false (p ∈ l)) by done. destruct (decide (p = q)) as [->|Hne].
    + rewrite lookup_insert_eq, bool_decide_true by by left. done.
    + rewrite lookup_insert_ne, bool_decide_false by (rewrite ?elem_of_cons; naive_solver). done.
Qed.

Lemma lower_inherit_spec entries : lower_inherit entries = push_all entries pair_inherit.
Proof.
  unfold lower_inherit, pair_inherit. cbv zeta. rewrite push_all_when, !push_all_app.
  destruct (push_all entries (when _ _)) as [es|]; [|done]. rewrite protocol_loop, push_all_app.
  destruct (push_all es _) as [es'|]; [|done].
  rewrite <-push_all_flat_map. apply try_fold_ext. intros b [p port] _.
  rewrite protocol_map_lookup, lookup_empty, push_all_when.
  assert (Hi : entry_differs (mk_entry (protocol_u8 p) port (D p port))
     (default (mk_entry 0 0 G)
        (if bool_decide (p ∈ bset_iter W) then Some (mk_entry (protocol_u8 p) 0 (D p 0)) else None))
    = differs (D p port) (inherited p)); [|by rewrite Hi].
  unfold inherited. destruct (decide (p ∈ W)) as [HW|HW].
  - rewrite !bool_decide_true by (done || by apply elem_of_bset_iter). simpl. apply entry_differs_mk.
  - rewrite !bool_decide_false by (done || by rewrite elem_of_bset_iter). simpl. apply entry_differs_mk.
Qed.

Lemma lower_plain_spec entries : lower_plain entries = push_all entries pair_plain.
Proof.
  unfold lower_plain, pair_plain. cbv zeta. rewrite push_all_when, !push_all_app.
  destruct (push_all entries (when _ _)) as [es|]; [|done]. rewrite push_all_app.
  rewrite (try_fold_ext _ (λ entries p, push_all entries (when (has_policy_provenance (D p 0))
    (mk_entry (protocol_u8 p) 0 (D p 0))))) by (intros; apply push_all_when).
  rewrite push_all_flat_map. destruct (push_all es _) as [es'|]; [|done].
  rewrite <-push_all_flat_map. apply try_fold_ext. intros b [p port] _. apply push_all_when.
Qed.

Lemma elem_of_pair_inherit e :
  e ∈ pair_inherit ↔
  (has_policy_provenance G = true ∧ e = mk_entry 0 0 G) ∨
  (∃ p, p ∈ W ∧ has_policy_provenance (D p 0) = true ∧ records (D p 0) ≠ records G ∧
     e = mk_entry (protocol_u8 p) 0 (D p 0)) ∨
  (∃ p port, (p, port) ∈ X ∧ has_policy_provenance (D p port) = true ∧
     records (D p port) ≠ records (inherited p) ∧ e = mk_entry (protocol_u8 p) port (D p port)).
Proof.
  unfold pair_inherit. rewrite !elem_of_app, elem_of_when, !elem_of_list_flat_map.
  apply or_iff_both; [done|]. apply or_iff_both.
  - setoid_rewrite elem_of_bset_iter. setoid_rewrite elem_of_when.
    unfold differs. setoid_rewrite andb_true_iff. setoid_rewrite negb_true_iff.
    setoid_rewrite bool_decide_eq_false. naive_solver.
  - split.
    + intros ([p port] & Hin & Hw). rewrite elem_of_bset_iter in Hin.
      apply elem_of_when in Hw as [[Hp Hd]%andb_true_iff ->]. exists p, port.
      unfold differs in Hd. by apply negb_true_iff, bool_decide_eq_false in Hd.
    + intros (p & port & Hin & Hp & Hd & ->). exists (p, port).
      split; [by apply elem_of_bset_iter|]. apply elem_of_when. split; [|done].
      unfold differs. by rewrite Hp, bool_decide_false.
Qed.

Lemma elem_of_pair_plain e :
  e ∈ pair_plain ↔
  (has_policy_provenance G = true ∧ e = mk_entry 0 0 G) ∨
  (∃ p, p ∈ W ∧ has_policy_provenance (D p 0) = true ∧ e = mk_entry (protocol_u8 p) 0 (D p 0)) ∨
  (∃ p port, (p, port) ∈ X ∧ has_policy_provenance (D p port) = true ∧
     e = mk_entry (protocol_u8 p) port (D p port)).
Proof.
  unfold pair_plain. rewrite !elem_of_app, elem_of_when, !elem_of_list_flat_map.
  apply or_iff_both; [done|]. apply or_iff_both.
  - setoid_rewrite elem_of_bset_iter. setoid_rewrite elem_of_when. naive_solver.
  - split.
    + intros ([p port] & Hin & Hw). rewrite elem_of_bset_iter in Hin.
      apply elem_of_when in Hw as [Hp ->]. by exists p, port.
    + intros (p & port & Hin & Hp & ->). exists (p, port).
      split; [by apply elem_of_bset_iter|]. by apply elem_of_when.
Qed.

(** ** Keys are unique within a pair *)

Definition pair_keys : list K :=
  key 0 0 :: map (λ p, key (protocol_u8 p) 0) (bset_iter W)
  ++ map (λ '(p, port), key (protocol_u8 p) port) (bset_iter X).

Lemma flat_map_when_keys {A} (b : A → bool) (e : A → MapEntry K) l :
  map entry_key (List.flat_map (λ x, when (b x) (e x)) l) `sublist_of` map (λ x, entry_key (e x)) l.
Proof.
  induction l as [|x l IH]; simpl; [constructor|]. rewrite map_app.
  destruct (b x); simpl; by constructor.
Qed.

Lemma when_keys (b : bool) (e : MapEntry K) :
  map entry_key (when b e) `sublist_of` [entry_key e].
Proof. destruct b; simpl; repeat constructor. Qed.

Lemma pair_inherit_keys : map entry_key pair_inherit `sublist_of` pair_keys.
Proof.
  unfold pair_inherit, pair_keys. rewrite !map_app.
  apply (sublist_app _ [key 0 0]); [apply when_keys|].
  apply sublist_app; [apply flat_map_when_keys|].
  assert (Hext : ∀ l, List.flat_map (λ '(p, port), when (has_policy_provenance (D p port)
         && differs (D p port) (inherited p)) (mk_entry (protocol_u8 p) port (D p port))) l
    = List.flat_map (λ x, when (has_policy_provenance (D x.1 x.2)
         && differs (D x.1 x.2) (inherited x.1)) (mk_entry (protocol_u8 x.1) x.2 (D x.1 x.2))) l).
  { intros l. apply flat_map_ext. by intros []. }
  rewrite Hext, (map_ext (λ '(p, port), key (protocol_u8 p) port)
    (λ x, entry_key (mk_entry (protocol_u8 x.1) x.2 (D x.1 x.2)))) by by intros [].
  apply flat_map_when_keys.
Qed.

Lemma pair_plain_keys : map entry_key pair_plain `sublist_of` pair_keys.
Proof.
  unfold pair_plain, pair_keys. rewrite !map_app.
  apply (sublist_app _ [key 0 0]); [apply when_keys|].
  apply sublist_app; [apply flat_map_when_keys|].
  assert (Hext : ∀ l, List.flat_map (λ '(p, port), when (has_policy_provenance (D p port))
       (mk_entry (protocol_u8 p) port (D p port))) l
    = List.flat_map (λ x, when (has_policy_provenance (D x.1 x.2))
       (mk_entry (protocol_u8 x.1) x.2 (D x.1 x.2))) l).
  { intros l. apply flat_map_ext. by intros []. }
  rewrite Hext, (map_ext (λ '(p, port), key (protocol_u8 p) port)
    (λ x, entry_key (mk_entry (protocol_u8 x.1) x.2 (D x.1 x.2)))) by by intros [].
  apply flat_map_when_keys.
Qed.

Context (key_inj : ∀ p q p' q', key p q = key p' q' → p = p' ∧ q = q').
Context (HX0 : ∀ p port, (p, port) ∈ X → port ≠ 0).

Lemma pair_keys_NoDup : NoDup pair_keys.
Proof.
  unfold pair_keys. apply NoDup_cons. split.
  - rewrite elem_of_app, !elem_of_list_map. intros [(p & _ & Hk)|([p port] & _ & Hk)];
      apply key_inj in Hk as [Hp _]; by destruct (protocol_u8_nonzero p).
  - apply NoDup_app. split_and!.
    + apply NoDup_fmap_2_strong; [|apply bset_iter_NoDup].
      intros p q _ _ [Hp%(inj _) _]%key_inj. done.
    + intros k (p & _ & ->)%elem_of_list_map ([q port] & Hq & Hk)%elem_of_list_map.
      rewrite elem_of_bset_iter in Hq. apply key_inj in Hk as [_ Hk]. by eapply HX0.
    + apply NoDup_fmap_2_strong; [|apply bset_iter_NoDup].
      intros [p port] [q port'] _ _ [Hp%(inj _) ->]%key_inj. by subst.
Qed.

Lemma pair_inherit_NoDup : NoDup (map entry_key pair_inherit).
Proof. eapply sublist_NoDup; [apply pair_keys_NoDup|apply pair_inherit_keys]. Qed.

Lemma pair_plain_NoDup : NoDup (map entry_key pair_plain).
Proof. eapply sublist_NoDup; [apply pair_keys_NoDup|apply pair_plain_keys]. Qed.

(** ** The lookup order recovers the decision *)

(** Decisions depend on the tuple as the tuple sets say: outside the exact tuples
    the port is irrelevant, and so is the protocol unless it has a wildcard. *)
Context (Hprov : ∀ p port, has_policy_provenance (D p port) = value_provenance (records (D p port))).
Context (HprovG : has_policy_provenance G = value_provenance (records G)).
Context (Hwild : ∀ p port, p ∈ W → (p, port) ∉ X → records (D p port) = records (D p 0)).
Context (Hglobal : ∀ p port, p ∉ W → (p, port) ∉ X → records (D p port) = records G).
Context (Hmono : ∀ p port, has_policy_provenance (D p port) = false →
  has_policy_provenance (D p 0) = false ∧ has_policy_provenance G = false).

Definition decided (d : PolicyDecision) :
    option (PolicyDecisionRecord * option PolicyDecisionRecord) :=
  if has_policy_provenance d then Some (records d) else None.

(** Any map that holds exactly the pair's entries. *)
Context (at_ : Z → Z → option (PolicyDecisionRecord * option PolicyDecisionRecord)).
Context (Hat : ∀ protocol port v, at_ protocol port = Some v ↔
  holds pair_inherit (key protocol port) v).

Lemma at_global : at_ 0 0 = decided G.
Proof.
  apply option_eq. intros v. rewrite Hat. unfold holds, decided. setoid_rewrite elem_of_pair_inherit.
  split.
  - intros (e & [[-> ->]|[(p & _ & _ & _ & ->)|(p & port & _ & _ & _ & ->)]] & Hk & <-); [done|..];
      apply key_inj in Hk as [Hp _]; by destruct (protocol_u8_nonzero p).
  - destruct (has_policy_provenance G) eqn:E; [|done]. intros [= <-].
    exists (mk_entry 0 0 G). split; [by left|done].
Qed.

Lemma at_protocol p :
  at_ (protocol_u8 p) 0
  = if bool_decide (p ∈ W) && differs (D p 0) G then decided (D p 0) else None.
Proof.
  apply option_eq. intros v. rewrite Hat. unfold holds, decided, differs.
  setoid_rewrite elem_of_pair_inherit. split.
  - intros (e & [[_ ->]|[(q & Hq & Hpr & Hd & ->)|(q & port & Hq & _ & _ & ->)]] & Hk & <-);
      apply key_inj in Hk as [Hp Hport].
    + symmetry in Hp. by destruct (protocol_u8_nonzero p).
    + apply (inj _) in Hp as ->. by rewrite bool_decide_true, bool_decide_false, Hpr by done.
    + by apply HX0 in Hq.
  - case_bool_decide as HW; simpl; [|done]. case_bool_decide as Hd; simpl; [done|].
    destruct (has_policy_provenance (D p 0)) eqn:E; [|done]. intros [= <-].
    exists (mk_entry (protocol_u8 p) 0 (D p 0)). split; [|done].
    right. left. by exists p.
Qed.

Lemma at_exact p port :
  port ≠ 0 →
  at_ (protocol_u8 p) port
  = if bool_decide ((p, port) ∈ X) && differs (D p port) (inherited p)
    then decided (D p port) else None.
Proof.
  intros Hne. apply option_eq. intros v. rewrite Hat. unfold holds, decided, differs.
  setoid_rewrite elem_of_pair_inherit. split.
  - intros (e & [[_ ->]|[(q & Hq & Hpr & Hd & ->)|(q & port' & Hq & Hpr & Hd & ->)]] & Hk & <-);
      apply key_inj in Hk as [Hp Hport]; try congruence.
    apply (inj _) in Hp as ->. subst port'.
    by rewrite bool_decide_true, bool_decide_false, Hpr by done.
  - case_bool_decide as HX; simpl; [|done]. case_bool_decide as Hd; simpl; [done|].
    destruct (has_policy_provenance (D p port)) eqn:E; [|done]. intros [= <-].
    exists (mk_entry (protocol_u8 p) port (D p port)). split; [|done].
    right. right. by exists p, port.
Qed.

Lemma decided_records d d' :
  has_policy_provenance d = value_provenance (records d) →
  has_policy_provenance d' = value_provenance (records d') →
  records d = records d' → decided d = decided d'.
Proof. intros H H' Hr. unfold decided. by rewrite H, H', Hr. Qed.

Lemma protocol_or_global p :
  p ∈ W → or_else (at_ (protocol_u8 p) 0) (at_ 0 0) = decided (D p 0).
Proof.
  intros HW. rewrite at_protocol, at_global, bool_decide_true by done. unfold differs. simpl.
  case_bool_decide as Hd; simpl.
  - symmetry. by apply decided_records.
  - unfold decided at 1 3. destruct (has_policy_provenance (D p 0)) eqn:E; [done|].
    simpl. unfold decided. by destruct (Hmono p 0 E) as [_ ->].
Qed.

Lemma no_protocol p : p ∉ W → at_ (protocol_u8 p) 0 = None.
Proof. intros HW. by rewrite at_protocol, bool_decide_false. Qed.

Lemma pair_lookup p port : lookup_tuple at_ (protocol_u8 p) port = decided (D p port).
Proof.
  unfold lookup_tuple.
  assert (Hfall : or_else (at_ (protocol_u8 p) 0) (at_ 0 0) = decided (inherited p)).
  { unfold inherited. case_bool_decide; [by apply protocol_or_global|].
    rewrite no_protocol by done. apply at_global. }
  assert (Hinh : has_policy_provenance (inherited p) = value_provenance (records (inherited p))).
  { unfold inherited. by case_bool_decide. }
  destruct (decide (port = 0)) as [->|Hne].
  { transitivity (or_else (at_ (protocol_u8 p) 0) (at_ 0 0)); [by destruct (at_ (protocol_u8 p) 0)|].
    rewrite Hfall. apply decided_records; [done..|]. unfold inherited. case_bool_decide; [done|].
    symmetry. apply Hglobal; [done|]. intros ?%HX0. done. }
  rewrite at_exact, Hfall by done. destruct (decide ((p, port) ∈ X)) as [HX|HX].
  - rewrite bool_decide_true by done. unfold differs. simpl. case_bool_decide as Hd; simpl.
    + symmetry. by apply decided_records.
    + unfold decided at 1 3. destruct (has_policy_provenance (D p port)) eqn:E; [done|]. simpl.
      unfold decided, inherited. destruct (Hmono p port E) as [H1 H2].
      case_bool_decide; by rewrite ?H1, ?H2.
  - rewrite bool_decide_false by done. simpl. apply decided_records; [done..|].
    unfold inherited. case_bool_decide; symmetry; auto.
Qed.

(** The same for the prefix compilers, which emit every decided tuple. *)
Definition plain_at (protocol port : Z) :
    option (PolicyDecisionRecord * option PolicyDecisionRecord) → Prop := λ v,
  ∀ w, v = Some w ↔ holds pair_plain (key protocol port) w.

Lemma plain_at_global v : plain_at 0 0 v → v = decided G.
Proof.
  intros Hv. apply option_eq. intros w. rewrite (Hv w). unfold holds, decided.
  setoid_rewrite elem_of_pair_plain. split.
  - intros (e & [[-> ->]|[(p & _ & _ & ->)|(p & port & _ & _ & ->)]] & Hk & <-); [done|..];
      apply key_inj in Hk as [Hp _]; by destruct (protocol_u8_nonzero p).
  - destruct (has_policy_provenance G) eqn:E; [|done]. intros [= <-].
    exists (mk_entry 0 0 G). split; [by left|done].
Qed.

Lemma plain_at_protocol p v :
  plain_at (protocol_u8 p) 0 v → v = if bool_decide (p ∈ W) then decided (D p 0) else None.
Proof.
  intros Hv. apply option_eq. intros w. rewrite (Hv w). unfold holds, decided.
  setoid_rewrite elem_of_pair_plain. split.
  - intros (e & [[_ ->]|[(q & Hq & Hpr & ->)|(q & port & Hq & _ & ->)]] & Hk & <-);
      apply key_inj in Hk as [Hp Hport].
    + symmetry in Hp. by destruct (protocol_u8_nonzero p).
    + apply (inj _) in Hp as ->. by rewrite bool_decide_true, Hpr by done.
    + by apply HX0 in Hq.
  - case_bool_decide as HW; simpl; [|done].
    destruct (has_policy_provenance (D p 0)) eqn:E; [|done]. intros [= <-].
    exists (mk_entry (protocol_u8 p) 0 (D p 0)). split; [|done]. right. left. by exists p.
Qed.

Lemma plain_at_exact p port v :
  port ≠ 0 → plain_at (protocol_u8 p) port v →
  v = if bool_decide ((p, port) ∈ X) then decided (D p port) else None.
Proof.
  intros Hne Hv. apply option_eq. intros w. rewrite (Hv w). unfold holds, decided.
  setoid_rewrite elem_of_pair_plain. split.
  - intros (e & [[_ ->]|[(q & Hq & Hpr & ->)|(q & port' & Hq & Hpr & ->)]] & Hk & <-);
      apply key_inj in Hk as [Hp Hport]; try congruence.
    apply (inj _) in Hp as ->. subst port'. by rewrite bool_decide_true, Hpr by done.
  - case_bool_decide as HX; simpl; [|done].
    destruct (has_policy_provenance (D p port)) eqn:E; [|done]. intros [= <-].
    exists (mk_entry (protocol_u8 p) port (D p port)). split; [|done]. right. right. by exists p, port.
Qed.

Context (at_plain : Z → Z → option (PolicyDecisionRecord * option PolicyDecisionRecord)).
Context (Hat_plain : ∀ protocol port, plain_at protocol port (at_plain protocol port)).

Lemma pair_plain_lookup p port : lookup_tuple at_plain (protocol_u8 p) port = decided (D p port).
Proof.
  unfold lookup_tuple. rewrite (plain_at_global _ (Hat_plain 0 0)).
  rewrite (plain_at_protocol p _ (Hat_plain _ 0)).
  assert (Hfall : or_else (if bool_decide (p ∈ W) then decided (D p 0) else None) (decided G)
    = decided (inherited p)).
  { unfold inherited. case_bool_decide; [|done].
    unfold decided. destruct (has_policy_provenance (D p 0)) eqn:E; [done|]. simpl.
    by destruct (Hmono p 0 E) as [_ ->]. }
  rewrite Hfall. clear Hfall. destruct (decide (port = 0)) as [->|Hne].
  - rewrite (plain_at_protocol p _ (Hat_plain _ 0)). unfold inherited.
    case_bool_decide as HW; simpl.
    + by destruct (decided (D p 0)).
    + symmetry. apply decided_records; [done..|]. apply Hglobal; [done|]. by intros ?%HX0.
  - rewrite (plain_at_exact p port _ Hne (Hat_plain _ port)). case_bool_decide as HX; simpl.
    + unfold decided, inherited.
      destruct (has_policy_provenance (D p port)) eqn:E; [done|]. simpl.
      destruct (Hmono p port E) as [H1 H2]. case_bool_decide; by rewrite ?H1, ?H2.
    + unfold inherited. case_bool_decide; symmetry; apply decided_records; auto.
Qed.
End Pair.
