(* ===== verification/PolicyLowerFacts.v ===== *)
(** * Lowering: how decisions depend on the tuple

    Outside the tuples the compilers enumerate, the evaluator's records do not
    depend on the port, nor on the protocol; and a wider tuple has provenance only
    if every narrower one has.  These discharge the hypotheses of the pair theory
    for all maps. *)

From S2P Require Import Prelude Common PolicyIr PolicyCompile NetworkPolicy PolicyLower.
From S2P Require Import PolicyLowerSpec.

(** ** Candidates depend on the matched rules only *)

Definition same_policy (p q : PolicyIr) : Prop :=
  pol_id p = pol_id q ∧ pol_priority p = pol_priority q ∧ pol_origin p = pol_origin q ∧
  pol_default_action p = pol_default_action q ∧
  pol_enforcement_mode p = pol_enforcement_mode q ∧
  pol_direction p = pol_direction q ∧ pol_target p = pol_target q.

Section Matched.
Context (f : PolicyIr → PolicyIr) (Hf : ∀ p, same_policy (f p) p).
Context (policies : list PolicyIr) (flow flow' : Flow).
Context (addresses addresses' : DestinationAddresses).
Context (Hrules : ∀ p r, p ∈ policies →
  r ∈ pol_rules (f p) ∧ rule_matches r flow' addresses' = true ↔
  r ∈ pol_rules p ∧ rule_matches r flow addresses = true).

Lemma candidate_map_l mode c :
  candidate (map f policies) flow' addresses' mode c → candidate policies flow addresses mode c.
Proof.
  destruct 1 as [q r Hq ? ? Hr Hm|q Hq ? ? ? Hall|q r Hq ? ? Hr Hm|q Hq ? ? ? Hall];
    apply elem_of_list_map in Hq as (p & Hp & ->);
    destruct (Hf p) as (Hi & Hpr & Ho & Hd & He & _).
  - destruct (proj1 (Hrules p r Hp) (conj Hr Hm)) as [Hr' Hm'].
    rewrite Hi, Hpr. eapply candidate_native_rule; try done; congruence.
  - rewrite Hi, Hpr, Hd. eapply candidate_native_default; try done; try congruence.
    intros r Hr Hm. destruct (proj2 (Hrules p r Hp) (conj Hr Hm)). auto.
  - destruct (proj1 (Hrules p r Hp) (conj Hr Hm)) as [Hr' Hm'].
    eapply candidate_compat_rule; try done; congruence.
  - rewrite Hi, Hpr, Hd. eapply candidate_compat_default; try done; try congruence.
    intros o r Hpo Hmo Hoo Hr. apply not_true_iff_false. intros Hm.
    destruct (proj2 (Hrules o r Hpo) (conj Hr Hm)) as [Hr' Hm'].
    destruct (Hf o) as (_ & _ & Ho' & _ & He' & _).
    rewrite (Hall (f o) r) in Hm'; try done; [|congruence..].
    apply elem_of_list_map. by exists o.
Qed.

Lemma candidate_map_r mode c :
  candidate policies flow addresses mode c → candidate (map f policies) flow' addresses' mode c.
Proof.
  assert (Hin : ∀ p, p ∈ policies → f p ∈ map f policies).
  { intros p Hp. apply elem_of_list_map. by exists p. }
  destruct 1 as [p r Hp ? ? Hr Hm|p Hp ? ? ? Hall|p r Hp ? ? Hr Hm|p Hp ? ? ? Hall];
    destruct (Hf p) as (Hi & Hpr & Ho & Hd & He & _).
  - destruct (proj2 (Hrules p r Hp) (conj Hr Hm)) as [Hr' Hm'].
    rewrite <-Hi, <-Hpr. eapply candidate_native_rule; eauto; congruence.
  - rewrite <-Hi, <-Hpr, <-Hd. eapply candidate_native_default; eauto; try congruence.
    intros r Hr Hm. destruct (proj1 (Hrules p r Hp) (conj Hr Hm)). auto.
  - destruct (proj2 (Hrules p r Hp) (conj Hr Hm)) as [Hr' Hm'].
    eapply candidate_compat_rule; eauto; congruence.
  - rewrite <-Hi, <-Hpr, <-Hd. eapply candidate_compat_default; eauto; try congruence.
    intros q r Hq Hmo Hoo Hr. apply elem_of_list_map in Hq as (o & Hpo & ->).
    apply not_true_iff_false. intros Hm.
    destruct (proj1 (Hrules o r Hpo) (conj Hr Hm)) as [Hr' Hm'].
    destruct (Hf o) as (_ & _ & Ho' & _ & He' & _).
    rewrite (Hall o r) in Hm'; try done; congruence.
Qed.

Lemma decide_for_mode_map mode :
  decide_for_mode (map f policies) flow' addresses' mode
  = decide_for_mode policies flow addresses mode.
Proof.
  apply decide_for_mode_ext. intros c. split; [apply candidate_map_l|apply candidate_map_r].
Qed.
End Matched.

Lemma applicable_map f policies direction flow flow' :
  (∀ p, same_policy (f p) p) →
  selected_endpoint direction flow' = selected_endpoint direction flow →
  applicable (map f policies) direction flow' = map f (applicable policies direction flow).
Proof.
  intros Hf He. unfold applicable. rewrite He. induction policies as [|p l IH]; simpl; [done|].
  destruct (Hf p) as (_ & _ & _ & _ & _ & Hd & Ht). rewrite Hd, Ht, IH. by destruct (_ && _).
Qed.

Lemma records_map f policies direction flow flow' addresses addresses' :
  (∀ p, same_policy (f p) p) →
  selected_endpoint direction flow' = selected_endpoint direction flow →
  (∀ p r, p ∈ applicable policies direction flow →
     r ∈ pol_rules (f p) ∧ rule_matches r flow' addresses' = true ↔
     r ∈ pol_rules p ∧ rule_matches r flow addresses = true) →
  records (evaluate_for_direction_with_addresses (map f policies) direction flow' addresses')
  = records (evaluate_for_direction_with_addresses policies direction flow addresses).
Proof.
  intros Hf He Hr. rewrite !records_evaluate, (applicable_map f _ _ flow) by done.
  by rewrite !(decide_for_mode_map f Hf _ flow flow' addresses addresses' Hr).
Qed.

(** When some candidate exists. *)
Lemma candidate_exists policies flow addresses mode :
  (∃ c, candidate policies flow addresses mode c) ↔
  ∃ p, p ∈ policies ∧ pol_enforcement_mode p = mode ∧
    (pol_default_action p ≠ ActAudit ∨
     ∃ r, r ∈ pol_rules p ∧ rule_matches r flow addresses = true ∧
       (pol_origin p = Native → rule_action r ≠ ActAudit)).
Proof.
  split.
  - intros [c Hc]. destruct Hc as [p r|p|p r Hp Hm Ho Hr Hrm|p]; exists p.
    + split_and!; [done..|]. right. by exists r.
    + split_and!; [done..|]. by left.
    + split_and!; [done..|]. right. exists r. split_and!; [done..|]. by rewrite Ho.
    + split_and!; [done..|]. by left.
  - intros (p & Hp & Hm & Hor). destruct (pol_origin p) eqn:Ho.
    + destruct (decide (Exists (λ r, rule_matches r flow addresses = true ∧
        rule_action r ≠ ActAudit) (pol_rules p))) as [Hex|Hno].
      * apply Exists_exists in Hex as (r & Hr & Hrm & Ha).
        eexists. by eapply (candidate_native_rule _ _ _ _ p r).
      * rewrite Exists_exists in Hno. destruct Hor as [Hd|(r & Hr & Hrm & Ha)].
        -- eexists. eapply (candidate_native_default _ _ _ _ p); try done.
           intros r Hr Hrm. destruct (decide (rule_action r = ActAudit)); [done|].
           destruct Hno. by exists r.
        -- destruct Hno. exists r. auto.
    + destruct (compat_matched policies flow addresses mode) as [|r rs] eqn:E.
      * assert (Hnone : ∀ o r, o ∈ policies → pol_enforcement_mode o = mode →
          pol_origin o = KubernetesNetworkPolicy → r ∈ pol_rules o →
          rule_matches r flow addresses = false).
        { intros o r ? ? ? ?. apply not_true_iff_false. intros Hrm.
          assert (Hin : r ∈ compat_matched policies flow addresses mode)
            by (apply elem_of_compat_matched; by exists o).
          rewrite E in Hin. by apply not_elem_of_nil in Hin. }
        destruct Hor as [Hd|(r & Hr & Hrm & _)].
        -- eexists. by eapply (candidate_compat_default _ _ _ _ p).
        -- by rewrite (Hnone p r) in Hrm.
      * assert (Hr : r ∈ compat_matched policies flow addresses mode) by (rewrite E; by left).
        apply elem_of_compat_matched in Hr as (q & ? & ? & ? & ? & ?).
        eexists. by eapply (candidate_compat_rule _ _ _ _ q r).
Qed.

(** Provenance is monotone in the matched rules. *)
Lemma provenance_mono f policies direction flow flow' addresses addresses' :
  (∀ p, same_policy (f p) p) →
  selected_endpoint direction flow' = selected_endpoint direction flow →
  (∀ p r, p ∈ applicable policies direction flow →
     r ∈ pol_rules (f p) → rule_matches r flow' addresses' = true →
     r ∈ pol_rules p ∧ rule_matches r flow addresses = true) →
  has_policy_provenance
    (evaluate_for_direction_with_addresses (map f policies) direction flow' addresses') = true →
  has_policy_provenance
    (evaluate_for_direction_with_addresses policies direction flow addresses) = true.
Proof.
  intros Hf He Hr. rewrite !provenance_iff, (applicable_map f _ _ flow) by done.
  intros (mode & Hc). exists mode. apply candidate_exists. apply candidate_exists in Hc.
  destruct Hc as (q & Hq & Hm & Hor). apply elem_of_list_map in Hq as (p & Hp & ->).
  destruct (Hf p) as (_ & _ & Ho & Hd & Hen & _). rewrite Ho, Hd in Hor.
  exists p. split_and!; [done|congruence|]. destruct Hor as [?|(r & Hr1 & Hr2 & Ha)]; [by left|right].
  destruct (Hr p r Hp Hr1 Hr2). by exists r.
Qed.

(** Flows that match the same rules are decided alike. *)
Lemma records_flow_ext policies direction flow flow' addresses addresses' :
  selected_endpoint direction flow' = selected_endpoint direction flow →
  (∀ p r, p ∈ policies → r ∈ pol_rules p →
     rule_matches r flow' addresses' = rule_matches r flow addresses) →
  records (evaluate_for_direction_with_addresses policies direction flow' addresses')
  = records (evaluate_for_direction_with_addresses policies direction flow addresses).
Proof.
  intros He Hr. rewrite <-(map_id policies) at 1. apply (records_map id); [done..|].
  intros p r [Hp _]%elem_of_applicable. unfold id. split; intros [Hin Hm]; split; try done.
  - by rewrite <-(Hr p r).
  - by rewrite (Hr p r).
Qed.

(** ** Tuples *)

Lemma elem_of_exact_rule_ports rule destination p port :
  (p, port) ∈ exact_rule_ports rule destination ↔
  rule_protocol rule = Some p ∧
  match rule_destination_port rule with
  | PortAny => False
  | PortNumber n => n = port
  | PortNamed name => Endpoint_resolve_named_port destination name p = Some port
  | PortRange start end_ => start ≤ port ≤ end_
  end.
Proof.
  unfold exact_rule_ports. destruct (rule_protocol rule) as [q|].
  2:{ rewrite elem_of_nil. naive_solver. }
  destruct (rule_destination_port rule) as [|n|name|s e].
  - rewrite elem_of_nil. naive_solver.
  - rewrite list_elem_of_singleton. naive_solver.
  - destruct (Endpoint_resolve_named_port destination name q) as [n|] eqn:E;
      rewrite ?list_elem_of_singleton, ?elem_of_nil; naive_solver.
  - rewrite elem_of_list_map. setoid_rewrite elem_of_seqZ. split.
    + intros (x & Hx & [= -> ->]). split; [done|lia].
    + intros ([= ->] & Hx). exists port. split; [lia|done].
Qed.

Lemma exact_rule_ports_nonzero rule destination p port :
  wf_rule rule → wf_endpoint destination → (p, port) ∈ exact_rule_ports rule destination →
  port ≠ 0.
Proof.
  intros [_ Hp] He [_ Hm]%elem_of_exact_rule_ports. unfold wf_port in Hp.
  destruct (rule_destination_port rule) as [|n|name|s e]; [done|lia| |lia].
  rewrite resolve_named_port_lookup in Hm. apply He in Hm. lia.
Qed.

Definition rule_tuple (rule : PolicyRule) : PortTuple :=
  (rule_protocol rule, rule_destination_port rule).

Lemma rule_matches_split rule flow addresses :
  rule_matches rule flow addresses
  = endpoints_match (rule_source rule) (rule_destination rule) flow addresses
    && tuple_matches (rule_tuple rule) flow.
Proof.
  unfold rule_matches, endpoints_match, tuple_matches, rule_tuple. simpl. by rewrite !andb_assoc.
Qed.

(** When a rule's protocol and port match a tuple. *)
Lemma tuple_matches_iff rule source destination p port v4 v6 :
  wf_rule rule →
  tuple_matches (rule_tuple rule) (flow_of source destination p port v4 v6) = true ↔
  rule_protocol rule = None ∨
  (rule_protocol rule = Some p ∧
   (rule_destination_port rule = PortAny ∨ (p, port) ∈ exact_rule_ports rule destination)).
Proof.
  intros [Hn _]. rewrite elem_of_exact_rule_ports.
  unfold tuple_matches, rule_tuple, port_matches. simpl.
  destruct (rule_protocol rule) as [q|]; simpl.
  2:{ rewrite Hn by done. naive_solver. }
  rewrite andb_true_iff, bool_decide_eq_true.
  destruct (rule_destination_port rule) as [|n|name|s e]; simpl.
  - naive_solver.
  - rewrite Z.eqb_eq. naive_solver.
  - split.
    + intros [-> Hr]. right. destruct (Endpoint_resolve_named_port _ _ _) as [n|]; [|done].
      simpl in Hr. apply Z.eqb_eq in Hr as ->. auto.
    + intros [?|([= ->] & [?|[_ ->]])]; try done. simpl. by rewrite Z.eqb_refl.
  - rewrite andb_true_iff, !Z.leb_le. naive_solver.
Qed.

(** The any-protocol part of a policy. *)
Definition strip_policy (policy : PolicyIr) : PolicyIr := {|
  pol_id := pol_id policy; pol_name := pol_name policy; pol_namespace := pol_namespace policy;
  pol_priority := pol_priority policy; pol_origin := pol_origin policy;
  pol_direction := pol_direction policy; pol_target := pol_target policy;
  pol_default_action := pol_default_action policy;
  pol_enforcement_mode := pol_enforcement_mode policy;
  pol_rules := List.filter (λ rule, bool_decide (rule_protocol rule = None)) (pol_rules policy) |}.

Lemma global_fallback_strip policies : global_fallback_policies policies = map strip_policy policies.
Proof. done. Qed.

Section Tuples.
Context (policies : list PolicyIr) (direction : PolicyDirection).
Context (source destination : Endpoint) (v4 v6 : option Z) (addresses : DestinationAddresses).
Context (Hwf : Forall (λ policy, Forall wf_rule (pol_rules policy)) policies).
Context (W : gset Protocol) (X : gset (Protocol * Z)).

Definition tuple_flow (p : Protocol) (port : Z) : Flow := flow_of source destination p port v4 v6.
Definition tuple_decision (p : Protocol) (port : Z) : PolicyDecision :=
  evaluate_for_direction_with_addresses policies direction (tuple_flow p port) addresses.
Definition global_decision : PolicyDecision :=
  evaluate_for_direction_with_addresses (global_fallback_policies policies) direction
    (tuple_flow Tcp 0) addresses.

(** Rules of selecting policies that match the endpoints. *)
Definition relevant (rule : PolicyRule) : Prop :=
  ∃ policy, policy ∈ applicable policies direction (tuple_flow Tcp 0) ∧ rule ∈ pol_rules policy ∧
    endpoints_match (rule_source rule) (rule_destination rule) (tuple_flow Tcp 0) addresses = true.

Context (HW : ∀ rule p, relevant rule → rule_protocol rule = Some p →
  rule_destination_port rule = PortAny → p ∈ W).
Context (HX : ∀ rule p port, relevant rule → (p, port) ∈ exact_rule_ports rule destination →
  (p, port) ∈ X).

Lemma relevant_wf policy rule p port :
  policy ∈ applicable policies direction (tuple_flow p port) → rule ∈ pol_rules policy → wf_rule rule.
Proof.
  intros [Hp _]%elem_of_applicable Hr. rewrite Forall_forall in Hwf.
  specialize (Hwf _ Hp). rewrite Forall_forall in Hwf. auto.
Qed.

Lemma applicable_tuple p port :
  applicable policies direction (tuple_flow p port) = applicable policies direction (tuple_flow Tcp 0).
Proof. unfold applicable. by destruct direction. Qed.

Lemma tuple_rule_matches policy rule p port q port' :
  policy ∈ applicable policies direction (tuple_flow q port') → rule ∈ pol_rules policy →
  rule_matches rule (tuple_flow p port) addresses = true ↔
  relevant rule ∧
  (rule_protocol rule = None ∨
   (rule_protocol rule = Some p ∧
    (rule_destination_port rule = PortAny ∨ (p, port) ∈ exact_rule_ports rule destination))).
Proof.
  intros Hp Hr. pose proof (relevant_wf _ _ _ _ Hp Hr) as Hw. rewrite applicable_tuple in Hp.
  rewrite rule_matches_split, andb_true_iff. unfold tuple_flow at 2. rewrite tuple_matches_iff by done.
  split.
  - intros [He Ht]. split; [by exists policy|done].
  - intros [(pol & _ & _ & He) Ht]. done.
Qed.

Lemma tuple_records_ext p port q port' :
  (∀ rule, relevant rule →
     (rule_protocol rule = None ∨ (rule_protocol rule = Some p ∧
       (rule_destination_port rule = PortAny ∨ (p, port) ∈ exact_rule_ports rule destination))) ↔
     (rule_protocol rule = None ∨ (rule_protocol rule = Some q ∧
       (rule_destination_port rule = PortAny ∨ (q, port') ∈ exact_rule_ports rule destination)))) →
  records (tuple_decision p port) = records (tuple_decision q port').
Proof.
  intros Hext. unfold tuple_decision. rewrite <-(map_id policies) at 1.
  apply (records_map id); [done|by destruct direction|].
  intros pol r Hpol. split; intros [Hr Hm]; split; try done.
  - rewrite (tuple_rule_matches pol r q port' q port') by done.
    rewrite (tuple_rule_matches pol r p port q port') in Hm by done.
    destruct Hm as [Hrel Ht]. split; [done|]. by apply Hext.
  - rewrite (tuple_rule_matches pol r p port q port') by done.
    rewrite (tuple_rule_matches pol r q port' q port') in Hm by done.
    destruct Hm as [Hrel Ht]. split; [done|]. by apply Hext.
Qed.

Context (Hdestination : wf_endpoint destination).

Lemma relevant_exact_nonzero rule p port :
  relevant rule → (p, port) ∈ exact_rule_ports rule destination → port ≠ 0.
Proof.
  intros (pol & Hpol & Hr & _). apply exact_rule_ports_nonzero; [|done].
  by eapply relevant_wf.
Qed.

(** Outside the exact tuples the port is irrelevant. *)
Lemma tuple_wild p port :
  (p, port) ∉ X → records (tuple_decision p port) = records (tuple_decision p 0).
Proof.
  intros HnX. apply tuple_records_ext. intros rule Hrel.
  assert (H1 : (p, port) ∉ exact_rule_ports rule destination) by (intros ?; by eapply HnX, HX).
  assert (H2 : (p, 0) ∉ exact_rule_ports rule destination).
  { intros Hx. by apply (relevant_exact_nonzero rule p 0). }
  naive_solver.
Qed.

Lemma strip_same policy : same_policy (strip_policy policy) policy.
Proof. done. Qed.

Lemma strip_rule_matches policy rule p port :
  policy ∈ applicable policies direction (tuple_flow p port) →
  rule ∈ pol_rules (strip_policy policy) ∧
    rule_matches rule (tuple_flow Tcp 0) addresses = true ↔
  rule ∈ pol_rules policy ∧ relevant rule ∧ rule_protocol rule = None.
Proof.
  intros Hp. simpl. rewrite elem_of_list_filter, bool_decide_eq_true. split.
  - intros [[Hr Hn] Hm]. rewrite (tuple_rule_matches policy rule Tcp 0 p port) in Hm by done.
    naive_solver.
  - intros (Hr & Hrel & Hn). split; [done|].
    rewrite (tuple_rule_matches policy rule Tcp 0 p port) by done. auto.
Qed.

(** Outside the exact tuples and the wildcard protocols so is the protocol. *)
Lemma tuple_global p port :
  p ∉ W → (p, port) ∉ X → records (tuple_decision p port) = records global_decision.
Proof.
  intros HnW HnX. symmetry. unfold global_decision. rewrite global_fallback_strip.
  apply records_map; [apply strip_same|by destruct direction|].
  intros pol r Hpol. rewrite (strip_rule_matches pol r p port) by done. split.
  - intros (Hr & Hrel & Hn). split; [done|].
    rewrite (tuple_rule_matches pol r p port p port) by done. auto.
  - intros [Hr Hm]. rewrite (tuple_rule_matches pol r p port p port) in Hm by done.
    destruct Hm as [Hrel [Hn|(Hs & [Ha|Hx])]]; [done|exfalso..].
    + by eapply HnW, HW.
    + by eapply HnX, HX.
Qed.

(** A wider tuple has provenance only if the narrower one has. *)
Lemma tuple_mono p port :
  has_policy_provenance (tuple_decision p port) = false →
  has_policy_provenance (tuple_decision p 0) = false ∧
  has_policy_provenance global_decision = false.
Proof.
  intros Hf. split; apply not_true_iff_false; intros Ht; apply not_true_iff_false in Hf;
    apply Hf; revert Ht; unfold tuple_decision, global_decision.
  - rewrite <-(map_id policies) at 1. apply (provenance_mono id); [done|by destruct direction|].
    intros pol r Hpol Hr Hm. split; [done|].
    rewrite (tuple_rule_matches pol r p port p port) by done.
    rewrite (tuple_rule_matches pol r p 0 p port) in Hm by done.
    destruct Hm as [Hrel [Hn|(Hs & [Ha|Hx])]]; [by auto..|].
    exfalso. by apply (relevant_exact_nonzero r p 0).
  - rewrite global_fallback_strip. apply provenance_mono; [apply strip_same|by destruct direction|].
    intros pol r Hpol Hr Hm.
    destruct (proj1 (strip_rule_matches pol r p port Hpol) (conj Hr Hm)) as (Hr' & Hrel & Hn).
    split; [done|]. rewrite (tuple_rule_matches pol r p port p port) by done. auto.
Qed.
End Tuples.

(** ** The tuple sets the compilers compute *)

Lemma elem_of_targeted_rules policies endpoint keep rule :
  rule ∈ targeted_rules policies endpoint keep ↔
  keep rule = true ∧ ∃ policy, policy ∈ policies ∧
    IdentitySelector_matches (pol_target policy) endpoint = true ∧ rule ∈ pol_rules policy.
Proof.
  unfold targeted_rules. rewrite elem_of_list_filter, elem_of_list_flat_map.
  setoid_rewrite elem_of_list_filter. naive_solver.
Qed.

Lemma elem_of_protocol_set rules p :
  p ∈ protocol_set rules ↔ ∃ rule, rule ∈ rules ∧ rule_protocol rule = Some p.
Proof. unfold protocol_set. by rewrite elem_of_list_to_set, list_elem_of_omap. Qed.

Lemma elem_of_tuple_set rules destination t :
  t ∈ tuple_set rules destination ↔ ∃ rule, rule ∈ rules ∧ t ∈ exact_rule_ports rule destination.
Proof. unfold tuple_set. by rewrite elem_of_list_to_set, elem_of_list_flat_map. Qed.

(** Tests that keep at least the relevant rules give tuple sets large enough. *)
Section TupleSets.
Context (policies : list PolicyIr) (direction : PolicyDirection).
Context (source destination : Endpoint) (v4 v6 : option Z) (addresses : DestinationAddresses).
Context (Hwf : Forall (λ policy, Forall wf_rule (pol_rules policy)) policies).
Context (Hdestination : wf_endpoint destination).
Context (keep : PolicyRule → bool).
Context (Hkeep : ∀ rule,
  endpoints_match (rule_source rule) (rule_destination rule)
    (flow_of source destination Tcp 0 v4 v6) addresses = true → keep rule = true).

Definition endpoint_of (direction : PolicyDirection) : Endpoint :=
  match direction with Ingress => destination | Egress => source end.

Definition wild_set : gset Protocol :=
  protocol_set (targeted_rules policies (endpoint_of direction) (λ rule, keep rule && is_port_any rule)).
Definition exact_set : gset (Protocol * Z) :=
  tuple_set (targeted_rules policies (endpoint_of direction) keep) destination.

Lemma relevant_targeted rule :
  relevant policies direction source destination v4 v6 addresses rule →
  keep rule = true ∧ ∃ policy, policy ∈ policies ∧
    IdentitySelector_matches (pol_target policy) (endpoint_of direction) = true ∧
    rule ∈ pol_rules policy.
Proof.
  intros (policy & (Hp & _ & Ht)%elem_of_applicable & Hr & Hm). split; [by apply Hkeep|].
  exists policy. by destruct direction.
Qed.

Lemma wild_set_complete rule p :
  relevant policies direction source destination v4 v6 addresses rule →
  rule_protocol rule = Some p → rule_destination_port rule = PortAny → p ∈ wild_set.
Proof.
  intros [Hk Hpol]%relevant_targeted Hp Ha. apply elem_of_protocol_set. exists rule.
  split; [|done]. apply elem_of_targeted_rules. unfold is_port_any.
  by rewrite Hk, Ha, bool_decide_true.
Qed.

Lemma exact_set_complete rule p port :
  relevant policies direction source destination v4 v6 addresses rule →
  (p, port) ∈ exact_rule_ports rule destination → (p, port) ∈ exact_set.
Proof.
  intros [Hk Hpol]%relevant_targeted Hx. apply elem_of_tuple_set. exists rule.
  split; [by apply elem_of_targeted_rules|done].
Qed.

Lemma exact_set_nonzero p port : (p, port) ∈ exact_set → port ≠ 0.
Proof.
  intros (rule & (_ & policy & Hp & _ & Hr)%elem_of_targeted_rules & Hx)%elem_of_tuple_set.
  eapply exact_rule_ports_nonzero; [|done|exact Hx]. rewrite Forall_forall in Hwf.
  specialize (Hwf _ Hp). rewrite Forall_forall in Hwf. auto.
Qed.

(** The pair theorem for an evaluated pair. *)
Context {K : Type} (key : Z → Z → K).
Context (key_inj : ∀ p q p' q', key p q = key p' q' → p = p' ∧ q = q').

Definition evaluated_pair : list (MapEntry K) :=
  pair_inherit key
    (tuple_decision policies direction source destination v4 v6 addresses)
    (global_decision policies direction source destination v4 v6 addresses)
    wild_set exact_set.

Lemma evaluated_pair_NoDup : NoDup (map entry_key evaluated_pair).
Proof. apply pair_inherit_NoDup; [done|apply exact_set_nonzero]. Qed.

Lemma evaluated_pair_lookup at_ p port :
  (∀ protocol port v, at_ protocol port = Some v ↔ holds evaluated_pair (key protocol port) v) →
  lookup_tuple at_ (protocol_u8 p) port
  = decided (tuple_decision policies direction source destination v4 v6 addresses p port).
Proof.
  intros Hat. eapply (pair_lookup key); [..|exact Hat].
  - exact key_inj.
  - apply exact_set_nonzero.
  - intros. apply evaluate_provenance.
  - apply evaluate_provenance.
  - intros. by eapply tuple_wild; eauto using exact_set_complete.
  - intros. by eapply tuple_global; eauto using wild_set_complete, exact_set_complete.
  - intros. by eapply tuple_mono.
Qed.

(** The same for the prefix compilers. *)
Definition evaluated_plain : list (MapEntry K) :=
  pair_plain key
    (tuple_decision policies direction source destination v4 v6 addresses)
    (global_decision policies direction source destination v4 v6 addresses)
    wild_set exact_set.

Lemma evaluated_plain_NoDup : NoDup (map entry_key evaluated_plain).
Proof. apply pair_plain_NoDup; [done|apply exact_set_nonzero]. Qed.

Lemma evaluated_plain_lookup at_ p port :
  (∀ protocol port v, at_ protocol port = Some v ↔ holds evaluated_plain (key protocol port) v) →
  lookup_tuple at_ (protocol_u8 p) port
  = decided (tuple_decision policies direction source destination v4 v6 addresses p port).
Proof.
  intros Hat. eapply (pair_plain_lookup key); [..|exact Hat].
  - exact key_inj.
  - apply exact_set_nonzero.
  - intros. apply evaluate_provenance.
  - apply evaluate_provenance.
  - intros. by eapply tuple_wild; eauto using exact_set_complete.
  - intros. by eapply tuple_global; eauto using wild_set_complete, exact_set_complete.
  - intros. by eapply tuple_mono.
Qed.
End TupleSets.

Lemma pair_inherit_key {K} (key : Z → Z → K) D G W X e :
  e ∈ pair_inherit key D G W X → ∃ p q, entry_key e = key p q.
Proof.
  rewrite elem_of_pair_inherit.
  intros [[_ ->]|[(p & _ & _ & _ & ->)|(p & port & _ & _ & _ & ->)]];
    eexists _, _; reflexivity.
Qed.

Lemma pair_plain_key {K} (key : Z → Z → K) D G W X e :
  e ∈ pair_plain key D G W X → ∃ p q, entry_key e = key p q.
Proof.
  rewrite elem_of_pair_plain.
  intros [[_ ->]|[(p & _ & _ & ->)|(p & port & _ & _ & ->)]];
    eexists _, _; reflexivity.
Qed.

(** ** A map is the union of its pairs *)

Lemma NoDup_flat_map {A B} (f : A → list B) l :
  NoDup l → (∀ x, x ∈ l → NoDup (f x)) →
  (∀ x y b, x ∈ l → y ∈ l → b ∈ f x → b ∈ f y → x = y) → NoDup (List.flat_map f l).
Proof.
  induction 1 as [|x l Hx Hnd IH]; intros Hf Hdis; simpl; [constructor|].
  apply NoDup_app. split_and!.
  - apply Hf. by left.
  - intros b Hb (y & Hy & Hby)%elem_of_list_flat_map. apply Hx.
    rewrite (Hdis x y b); [done|by left|by right|done..].
  - apply IH.
    + intros y Hy. apply Hf. by right.
    + intros y z b Hy Hz. apply Hdis; by right.
Qed.

Section Union.
Context {A K : Type} `{EqDecision K} (kx : A → Z → Z → K) (f : A → list (MapEntry K)) (l : list A).
Context (Hl : NoDup l).
Context (Hinj : ∀ x y p q p' q', x ∈ l → y ∈ l → kx x p q = kx y p' q' → x = y ∧ p = p' ∧ q = q').
Context (Hkey : ∀ x e, x ∈ l → e ∈ f x → ∃ p q, entry_key e = kx x p q).
Context (Hf : ∀ x, x ∈ l → NoDup (map entry_key (f x))).
Context (entries : list (MapEntry K)) (Hentries : entries ≡ₚ List.flat_map f l).

Lemma union_NoDup : NoDup (map entry_key entries).
Proof.
  rewrite Hentries. replace (map entry_key (List.flat_map f l))
    with (List.flat_map (λ x, map entry_key (f x)) l).
  2:{ clear. induction l; simpl; [done|]. by rewrite map_app, <-IHl0. }
  apply NoDup_flat_map; [done..|].
  intros x y k Hx Hy (e & He & ->)%elem_of_list_map (e' & He' & Hk)%elem_of_list_map.
  destruct (Hkey x e Hx He) as (p & q & Hk1), (Hkey y e' Hy He') as (p' & q' & Hk2).
  by destruct (Hinj x y p q p' q') as [-> _]; [done..|congruence|].
Qed.

Lemma union_lookup x p q v :
  x ∈ l → entry_at entries (kx x p q) = Some v ↔ holds (f x) (kx x p q) v.
Proof.
  intros Hx. rewrite entry_at_holds by apply union_NoDup. unfold holds.
  setoid_rewrite Hentries. setoid_rewrite elem_of_list_flat_map. split.
  - intros (e & (y & Hy & He) & Hk & Hv). destruct (Hkey y e Hy He) as (p' & q' & Hk').
    destruct (Hinj x y p q p' q') as [-> _]; [done..|congruence|]. by exists e.
  - intros (e & He & Hk & Hv). exists e. split; [by exists x|done].
Qed.

Lemma union_absent k v :
  (∀ x p q, x ∈ l → k ≠ kx x p q) → entry_at entries k ≠ Some v.
Proof.
  intros Hno. rewrite entry_at_holds by apply union_NoDup.
  intros (e & He & Hk & _). rewrite Hentries, elem_of_list_flat_map in He.
  destruct He as (x & Hx & He). destruct (Hkey x e Hx He) as (p & q & Hk').
  apply (Hno x p q Hx). congruence.
Qed.
End Union.

(** ** Indexing endpoints *)

Lemma unique_endpoints_spec endpoints m :
  unique_endpoints endpoints = Ok m →
  ∀ i e, m !! i = Some e ↔ e ∈ endpoints ∧ ep_identity e = i.
Proof.
  unfold unique_endpoints. intros H i e.
  assert (Hgen : ∀ l (acc m : gmap Z Endpoint), try_fold (λ unique endpoint,
      if is_some_and (unique !! ep_identity endpoint) (λ existing, negb (bool_decide (existing = endpoint)))
      then Err (IdentityMetadataConflict (ep_identity endpoint))
      else Ok (<[ep_identity endpoint := endpoint]> unique)) acc l = Ok m →
    (∀ j x, acc !! j = Some x → ep_identity x = j) →
    m !! i = Some e ↔ acc !! i = Some e ∨ (e ∈ l ∧ ep_identity e = i)).
  { clear. induction l as [|x l IH]; intros acc m; simpl.
    { intros [= <-] _. rewrite elem_of_nil. naive_solver. }
    destruct (is_some_and _ _) eqn:Ec; [done|]. intros Hm Hacc.
    rewrite (IH _ _ Hm).
    2:{ intros j y. rewrite lookup_insert_Some. naive_solver. }
    rewrite lookup_insert_Some, elem_of_cons. split; [naive_solver|].
    intros [Ha|[[->|Hin] Hi]]; [|by left; left|by right].
    destruct (decide (ep_identity x = i)) as [<-|Hne]; [|by left; right].
    rewrite Ha in Ec. simpl in Ec. apply negb_false_iff, bool_decide_eq_true in Ec as ->.
    by left; left. }
  rewrite (Hgen _ _ _ H); [|by intros j x Hj; rewrite lookup_empty in Hj].
  rewrite lookup_empty. naive_solver.
Qed.

Lemma known_addresses_spec conflict l m :
  known_addresses conflict l = Ok m → ∀ a e, m !! a = Some e ↔ (a, e) ∈ l.
Proof.
  unfold known_addresses. intros H a e.
  assert (Hgen : ∀ l (acc m : gmap Z Endpoint), try_fold (λ known '(address, endpoint),
      if is_some_and (known !! address) (λ existing, negb (bool_decide (existing = endpoint)))
      then Err (conflict address)
      else Ok (<[address := endpoint]> known)) acc l = Ok m →
    m !! a = Some e ↔ acc !! a = Some e ∨ (a, e) ∈ l).
  { clear. induction l as [|[b x] l IH]; intros acc m; simpl.
    { intros [= <-]. rewrite elem_of_nil. naive_solver. }
    destruct (is_some_and _ _) eqn:Ec; [done|]. intros Hm. rewrite (IH _ _ Hm).
    rewrite lookup_insert_Some, elem_of_cons. split; [naive_solver|].
    intros [Ha|[[= -> ->]|Hin]]; [|by left; left|by right].
    destruct (decide (b = a)) as [<-|Hne]; [|by left; right].
    rewrite Ha in Ec. simpl in Ec. apply negb_false_iff, bool_decide_eq_true in Ec as ->.
    by left; left. }
  rewrite (Hgen _ _ _ H), lookup_empty. naive_solver.
Qed.

Lemma ensure_direction_Ok direction policies :
  ensure_direction direction policies = Ok () →
  Forall (λ policy, pol_direction policy = direction) policies.
Proof.
  unfold ensure_direction. destruct (List.find _ _) eqn:E; [done|]. intros _.
  apply Forall_forall. intros p Hp. apply list_elem_of_In in Hp. apply (find_none _ _ E) in Hp.
  by apply negb_false_iff, bool_decide_eq_true in Hp.
Qed.

Lemma btree_values_NoDup {V} `{EqDecision V} (m : gmap Z V) :
  (∀ i j e, m !! i = Some e → m !! j = Some e → i = j) → NoDup (btree_values m).
Proof.
  intros Hinj. unfold btree_values. pose proof (btree_iter_NoDup_keys m) as Hnd.
  assert (Hin : ∀ k v, (k, v) ∈ btree_iter m → m !! k = Some v) by (intros; by apply elem_of_btree_iter).
  revert Hnd Hin. generalize (btree_iter m) as l. induction l as [|[k v] l IH]; simpl; [constructor|].
  intros [Hk Hnd]%NoDup_cons Hin. apply NoDup_cons. split.
  - intros ([k' v'] & -> & Hkv)%list_elem_of_fmap. simpl in *. apply Hk.
    rewrite (Hinj k k' v') by (apply Hin; by (left || right)).
    apply list_elem_of_fmap. by exists (k', v').
  - apply IH; [done|]. intros. apply Hin. by right.
Qed.
