(* ===== verification/LowerAddresses.v ===== *)
(** * Lowering: IPv4 address sets

    The exact-address maps list the known addresses and those named by bounded
    blocks; every other address is represented by one arbitrary unlisted address, or
    by none.  This file shows that the representative stands for all of them. *)

From S2P Require Import Prelude Common PolicyIr PolicyCompile NetworkPolicy PolicyLower.
From S2P Require Import PolicyLowerSpec PolicyLowerFacts.

(** ** Enumerating a block *)

Lemma Ipv4Cidr_contains_iff c a :
  wf_cidr4 c → in_width 32 a →
  Ipv4Cidr_contains c a = true ↔
  c4_network c ≤ a < c4_network c + 2 ^ (32 - c4_prefix_len c).
Proof.
  intros (Hp & Hw & Hm) Ha. unfold Ipv4Cidr_contains.
  destruct (Z.ltb_spec 32 (c4_prefix_len c)); [lia|].
  rewrite Z.eqb_eq, land_prefix_eq_iff by done. tauto.
Qed.

Lemma elem_of_Ipv4Cidr_addresses c a :
  wf_cidr4 c → Ipv4Cidr_address_count c ≤ 1024 → in_width 32 a →
  a ∈ Ipv4Cidr_addresses c ↔ Ipv4Cidr_contains c a = true.
Proof.
  intros Hwf Hc Ha. rewrite Ipv4Cidr_contains_iff by done. destruct Hwf as (Hp & Hw & Hm).
  assert (Hcount : Ipv4Cidr_address_count c = 2 ^ (32 - c4_prefix_len c)).
  { unfold Ipv4Cidr_address_count. destruct (Z.ltb_spec 32 (c4_prefix_len c)); [lia|].
    apply Z.shiftl_1_l. }
  unfold Ipv4Cidr_addresses.
  assert (Htry : try_width 32 (Ipv4Cidr_address_count c) = Some (Ipv4Cidr_address_count c)).
  { apply try_width_Some. split; [done|]. unfold in_width. rewrite Hcount in *.
    split; [apply Z.pow_nonneg; lia|]. lia. }
  rewrite Htry. simpl. rewrite elem_of_list_map. unfold range. setoid_rewrite elem_of_seqZ.
  rewrite Hcount. split.
  - intros (i & Hi & ->). lia.
  - intros Hr. exists (a - c4_network c). lia.
Qed.

Lemma Ipv4Cidr_addresses_width c a :
  wf_cidr4 c → a ∈ Ipv4Cidr_addresses c → in_width 32 a.
Proof.
  intros (Hp & Hw & Hm) (i & Hi & ->)%elem_of_list_map. unfold range in Hi.
  rewrite elem_of_seqZ in Hi. pose proof (aligned_top 32 _ _ Hp Hw Hm) as Ht.
  assert (Hcount : Ipv4Cidr_address_count c = 2 ^ (32 - c4_prefix_len c)).
  { unfold Ipv4Cidr_address_count. destruct (Z.ltb_spec 32 (c4_prefix_len c)); [lia|].
    apply Z.shiftl_1_l. }
  rewrite Hcount in Hi. unfold in_width, try_width in *. unfold u_max in Hi. rewrite Z.ones_equiv in Hi.
  destruct (_ && _) eqn:E; simpl in Hi; [lia|].
  assert (c4_prefix_len c = 0) as Hz.
  { destruct (decide (c4_prefix_len c = 0)); [done|]. apply andb_false_iff in E.
    assert (2 ^ (32 - c4_prefix_len c) < 2 ^ 32) by (apply Z.pow_lt_mono_r; lia).
    assert (0 < 2 ^ (32 - c4_prefix_len c)) by (apply Z.pow_pos_nonneg; lia).
    destruct E as [?%Z.leb_gt|?%Z.ltb_ge]; lia. }
  rewrite Hz in *. change (32 - 0) with 32 in *. lia.
Qed.

Lemma listed_ipv4_width blocks a :
  Forall wf_block4 blocks → a ∈ listed_ipv4_addresses blocks → in_width 32 a.
Proof.
  rewrite Forall_forall. intros Hw [(b & [Hb _]%elem_of_list_filter & Ha)%elem_of_list_flat_map
    |(c & (b & [Hb _]%elem_of_list_filter & Hc)%elem_of_list_flat_map & Ha)%elem_of_list_flat_map]%elem_of_app.
  - apply elem_of_list_filter in Ha as [Ha _]. destruct (Hw b Hb) as (Hc & _).
    by eapply Ipv4Cidr_addresses_width.
  - destruct (Hw b Hb) as (_ & He & _). rewrite Forall_forall in He.
    eapply Ipv4Cidr_addresses_width; [by apply He|done].
Qed.

(** ** The address set *)

Lemma insert_ipv4_addresses_spec init listed s :
  insert_ipv4_addresses init listed = Ok s →
  ∀ a, a ∈ s ↔ a ∈ init ∨ (a ∈ listed ∧ a ≠ 0).
Proof.
  intros H a. unfold insert_ipv4_addresses in H.
  apply (try_fold_collect (λ s, a ∈ s) (λ x, a = x ∧ a ≠ 0)) in H.
  - rewrite H. naive_solver.
  - clear. intros s x s' _. destruct (Z.eqb_spec x 0) as [->|Hne]; simpl.
    { intros [= <-]. naive_solver. }
    case_bool_decide as Hin; simpl; [intros [= <-]; naive_solver|].
    destruct (_ <? _); [done|]. intros [= <-]. set_solver.
Qed.

(** The bounded search finds an unlisted address whenever there is one. *)
Lemma first_absent_spec fuel start (s : gset Z) :
  match first_absent fuel start s with
  | Some r => start ≤ r ≤ u_max 32 ∧ (r ∉ s)
  | None => ∀ a, start ≤ a < start + Z.of_nat fuel → a ≤ u_max 32 → a ∈ s
  end.
Proof.
  revert start. induction fuel as [|n IH]; intros start; simpl; [intros; lia|].
  destruct (Z.ltb_spec (u_max 32) start) as [Hlt|Hge]; [intros; lia|].
  case_bool_decide as Hin; [|split; [lia|done]].
  specialize (IH (start + 1)). destruct (first_absent n (start + 1) s) as [r|].
  - split; [lia|apply IH].
  - intros a Ha Hm. destruct (decide (a = start)) as [->|]; [done|]. apply IH; lia.
Qed.

Lemma interval_size (s : gset Z) start n :
  (∀ a, start ≤ a < start + Z.of_nat n → a ∈ s) → (n ≤ size s)%nat.
Proof.
  intros H. assert (Hsub : (list_to_set (seqZ start (Z.of_nat n)) : gset Z) ⊆ s).
  { intros a. rewrite elem_of_list_to_set, elem_of_seqZ. apply H. }
  apply subseteq_size in Hsub. rewrite size_list_to_set, length_seqZ in Hsub by apply NoDup_seqZ. lia.
Qed.

Lemma arbitrary_ipv4_address_spec (s : gset Z) a :
  1 ≤ a < 2 ^ 32 → (a ∉ s) →
  ∃ r, arbitrary_ipv4_address s = Some r ∧ 1 ≤ r < 2 ^ 32 ∧ (r ∉ s).
Proof.
  intros Ha Hn. unfold arbitrary_ipv4_address. pose proof (first_absent_spec (S (size s)) 1 s) as H.
  change (u_max 32) with (2 ^ 32 - 1) in H.
  destruct (first_absent _ _ _) as [r|].
  { destruct H as [Hr Hrn]. exists r. split; [done|]. split; [lia|done]. }
  exfalso.
  destruct (Z.le_gt_cases (1 + Z.of_nat (S (size s))) a) as [Hle|Hgt].
  - assert (S (size s) ≤ size s)%nat; [|lia].
    apply (interval_size s 1). intros b Hb. apply H; lia.
  - apply Hn, H; lia.
Qed.

(** ** Unlisted addresses are alike *)

Lemma existsb_ext_elem {A} (f g : A → bool) l :
  (∀ x, x ∈ l → f x = g x) → existsb f l = existsb g l.
Proof.
  induction l as [|x l IH]; intros H; simpl; [done|]. rewrite H by by left.
  f_equal. apply IH. intros y Hy. apply H. by right.
Qed.

Section Unlisted.
Context (blocks : list Ipv4Block) (s : gset Z).
Context (Hwf : Forall wf_block4 blocks).
Context (Hsizes : check_ipv4_block_sizes blocks = Ok ()).
Context (Hs : ∀ a, a ∈ listed_ipv4_addresses blocks → a ≠ 0 → a ∈ s).

Lemma block_size_bound b :
  b ∈ blocks → c4_prefix_len (blk4_cidr b) ≠ 0 → Ipv4Cidr_address_count (blk4_cidr b) ≤ 1024.
Proof.
  intros Hb Hne. clear Hwf Hs. revert Hsizes Hb. unfold check_ipv4_block_sizes.
  induction blocks as [|c l IH]; simpl; [by intros _ ?%not_elem_of_nil|].
  destruct (negb _ && _) eqn:E; [done|]. intros Hl [->|Hin]%elem_of_cons; [|auto].
  rewrite (proj2 (Z.eqb_neq _ _) Hne) in E. simpl in E. apply Z.ltb_ge in E. exact E.
Qed.

Lemma unlisted_contains b a :
  b ∈ blocks → 1 ≤ a < 2 ^ 32 → (a ∉ s) →
  Ipv4Block_contains b a = (c4_prefix_len (blk4_cidr b) =? 0).
Proof.
  intros Hb Ha Hn. assert (Hw : in_width 32 a) by (unfold in_width; lia).
  pose proof (proj1 (Forall_forall _ _) Hwf b Hb) as (Hc & He & Hg).
  destruct (Z.eqb_spec (c4_prefix_len (blk4_cidr b)) 0) as [Hz|Hnz].
  - unfold Ipv4Block_contains. apply andb_true_iff. split.
    + apply Ipv4Cidr_contains_iff; [done..|]. destruct Hc as (_ & Hcw & Hcm). rewrite Hz in *.
      unfold in_width in Hcw. change (32 - 0) with 32 in *.
      rewrite Z.mod_small in Hcm by lia. lia.
    + apply existsb_false_elem. intros e Hin. apply not_true_iff_false. intros Hcon. apply Hn, Hs; [|lia].
      unfold listed_ipv4_addresses. apply elem_of_app. right.
      apply elem_of_list_flat_map. exists e. split.
      * apply elem_of_list_flat_map. exists b. split; [|done]. apply elem_of_list_filter.
        by rewrite Z.eqb_eq.
      * rewrite Forall_forall in He. specialize (Hg Hz). rewrite Forall_forall in Hg.
        apply elem_of_Ipv4Cidr_addresses; auto.
  - apply not_true_iff_false. intros Hcon. apply Hn, Hs; [|lia].
    unfold listed_ipv4_addresses. apply elem_of_app. left.
    apply elem_of_list_flat_map. exists b. split.
    + apply elem_of_list_filter. split; [done|]. by apply negb_true_iff, Z.eqb_neq.
    + unfold Ipv4Block_addresses. apply elem_of_list_filter. split; [|done].
      apply andb_true_iff in Hcon as [Hcon _].
      apply elem_of_Ipv4Cidr_addresses; [done|by apply block_size_bound|done..].
Qed.

(** The address the compilers evaluate for all unlisted ones. *)
Definition fallback_ipv4 : option Z :=
  if has_global_ipv4_block blocks then arbitrary_ipv4_address s else None.

Lemma unlisted_selector sel endpoint a :
  (∀ b, b ∈ sel_ipv4_blocks sel → b ∈ blocks) → 1 ≤ a < 2 ^ 32 → (a ∉ s) →
  IdentitySelector_matches_addressed sel endpoint fallback_ipv4 None
  = IdentitySelector_matches_addressed sel endpoint (Some a) None.
Proof.
  intros Hsub Ha Hn. unfold IdentitySelector_matches_addressed. f_equal.
  assert (Hex : ∀ r, 1 ≤ r < 2 ^ 32 → (r ∉ s) →
    existsb (λ block, Ipv4Block_contains block r) (sel_ipv4_blocks sel)
    = existsb (λ block, c4_prefix_len (blk4_cidr block) =? 0) (sel_ipv4_blocks sel)).
  { intros r Hr Hrn. apply existsb_ext_elem. intros b Hb.
    apply unlisted_contains; auto. }
  unfold fallback_ipv4. destruct (has_global_ipv4_block blocks) eqn:Eg.
  - destruct (arbitrary_ipv4_address_spec s a Ha Hn) as (r & -> & Hr & Hrn).
    by rewrite (Hex r Hr Hrn), (Hex a Ha Hn).
  - assert (Hno : existsb (λ block, c4_prefix_len (blk4_cidr block) =? 0) (sel_ipv4_blocks sel)
      = false).
    { apply not_true_iff_false. intros (c & Hc & Hz)%existsb_exists.
      apply not_true_iff_false in Eg. apply Eg. unfold has_global_ipv4_block. apply existsb_exists.
      exists c. rewrite <-list_elem_of_In in *. auto. }
    rewrite (Hex a Ha Hn), Hno. destruct (sel_ipv4_blocks sel); simpl.
    + by rewrite andb_true_r.
    + by rewrite andb_false_r.
Qed.
End Unlisted.

(** ** What the external endpoint matches without address blocks, every endpoint matches *)

Lemma external_selector s v4 v6 endpoint v4' v6' :
  blockless s → ¬ (is_Some v4' ∧ is_Some v6') →
  IdentitySelector_matches_addressed s external_endpoint v4 v6 = true →
  IdentitySelector_matches_addressed s endpoint v4' v6' = true.
Proof.
  intros [H4 H6] Hno. unfold IdentitySelector_matches_addressed. rewrite H4, H6. simpl.
  intros [[Hu _]%andb_true_iff _]%andb_true_iff. rewrite Hu, orb_true_r. simpl.
  unfold IdentitySelector_is_unconstrained in Hu. rewrite !andb_true_iff, !bool_decide_eq_true in Hu.
  destruct Hu as ((((((Hn & Hl) & He) & Hsa) & Happ) & Hml) & Hme).
  unfold IdentitySelector_matches. rewrite Hn, Hl, Hsa, Happ, Hml.
  destruct (sel_namespace_match_expressions s); [|done].
  destruct (sel_match_expressions s); [|done]. simpl.
  destruct v4', v6'; try done. by destruct Hno.
Qed.

Lemma external_endpoint_wf : wf_endpoint external_endpoint.
Proof. intros ? ? Hq. simpl in Hq. by rewrite lookup_empty in Hq. Qed.
