(* ===== verification/LowerIngress.v ===== *)
(** * Ingress lowering is correct: identity-pair and IPv4-source maps

    For every flow between known endpoints (or from an external address) the
    entries, looked up in the dataplane's order, give exactly the evaluator's
    decision, or nothing when no policy decides. *)

From S2P Require Import Prelude Common PolicyIr PolicyCompile NetworkPolicy PolicyLower.
From S2P Require Import PolicyLowerSpec PolicyLowerFacts LowerAddresses.

Definition wf_policies (policies : list PolicyIr) : Prop :=
  Forall (λ policy, Forall wf_rule (pol_rules policy)) policies.

(** ** Nested loops *)

Lemma flat_map_prod {A B C} (f : A → B → list C) l k :
  List.flat_map (λ x, List.flat_map (f x) k) l
  = List.flat_map (λ xy, f xy.1 xy.2) (list_prod l k).
Proof.
  induction l as [|x l IH]; simpl; [done|]. rewrite IH, flat_map_app. f_equal. clear.
  induction k as [|y k IHk]; simpl; [done|]. by f_equal.
Qed.

Lemma elem_of_list_prod {A B} (l : list A) (k : list B) xy :
  xy ∈ list_prod l k ↔ xy.1 ∈ l ∧ xy.2 ∈ k.
Proof. destruct xy as [x y]. rewrite !list_elem_of_In. apply in_prod_iff. Qed.

Lemma list_prod_NoDup {A B} (l : list A) (k : list B) : NoDup l → NoDup k → NoDup (list_prod l k).
Proof.
  intros Hl Hk. induction Hl as [|x l Hx Hl IH]; simpl; [constructor|].
  apply NoDup_app. split_and!; [|..|done].
  - apply NoDup_fmap_2_strong; [|done]. by intros y y' _ _ [= ->].
  - intros xy (y & _ & ->)%elem_of_list_map [Hin _]%elem_of_list_prod. done.
Qed.

(** A doubly nested loop of bounded appends. *)
Lemma nested_push {A B K} (step : A → B → list (MapEntry K) → dp_result (list (MapEntry K)))
    (f : A → B → list (MapEntry K)) l k entries :
  (∀ x y es, x ∈ l → step x y es = push_all es (f x y)) →
  try_fold (λ es x, try_fold (λ es y, step x y es) es k) entries l
  = push_all entries (List.flat_map (λ xy, f xy.1 xy.2) (list_prod l k)).
Proof.
  intros Hstep. rewrite <-flat_map_prod, <-push_all_flat_map. apply try_fold_ext.
  intros es x Hx. rewrite <-push_all_flat_map. apply try_fold_ext. intros. by apply Hstep.
Qed.

(** Values of an endpoint index: each endpoint once, told apart by identity. *)
Lemma endpoint_values endpoints m :
  unique_endpoints endpoints = Ok m →
  NoDup (btree_values m) ∧ (∀ e, e ∈ btree_values m ↔ e ∈ endpoints) ∧
  (∀ e e', e ∈ btree_values m → e' ∈ btree_values m → ep_identity e = ep_identity e' → e = e').
Proof.
  intros H. pose proof (unique_endpoints_spec _ _ H) as Hm. split_and!.
  - apply btree_values_NoDup. intros i j e Hi Hj. apply Hm in Hi as [_ Hi], Hj as [_ Hj]. congruence.
  - intros e. rewrite elem_of_btree_values. setoid_rewrite Hm. naive_solver.
  - intros e e' (i & Hi)%elem_of_btree_values (j & Hj)%elem_of_btree_values Heq.
    pose proof (proj1 (Hm _ _) Hi) as [_ <-]. pose proof (proj1 (Hm _ _) Hj) as [_ <-].
    rewrite Heq in Hi. congruence.
Qed.

(** ** Identity pairs *)

Definition identity_key (source destination : Endpoint) (protocol port : Z) : PolicyMapKey :=
  {| pk_source_identity := ep_identity source; pk_destination_identity := ep_identity destination;
     pk_protocol := protocol; pk_destination_port := port |}.

Definition identity_keep (source destination : Endpoint) (rule : PolicyRule) : bool :=
  IdentitySelector_matches_addressed (rule_source rule) source None None
  && IdentitySelector_matches (rule_destination rule) destination.

Definition identity_pair (policies : list PolicyIr) (source destination : Endpoint) :
    list PolicyMapEntry :=
  evaluated_pair policies Ingress source destination None None DestinationAddresses_default
    (identity_keep source destination) (identity_key source destination).

Lemma compile_pair_spec policies source destination entries :
  compile_pair policies (global_fallback_policies policies) source destination entries
  = push_all entries (identity_pair policies source destination).
Proof. unfold identity_pair, evaluated_pair. rewrite <-lower_inherit_spec. reflexivity. Qed.

(** A selector that matches an addressed endpoint matches its metadata. *)
Lemma matches_addressed_matches s e v4 v6 :
  IdentitySelector_matches_addressed s e v4 v6 = true → IdentitySelector_matches s e = true.
Proof. unfold IdentitySelector_matches_addressed. rewrite !andb_true_iff. tauto. Qed.

Lemma identity_keep_relevant source destination rule :
  endpoints_match (rule_source rule) (rule_destination rule)
    (flow_of source destination Tcp 0 None None) DestinationAddresses_default = true →
  identity_keep source destination rule = true.
Proof.
  unfold endpoints_match, identity_keep. rewrite !andb_true_iff. simpl.
  intros [? ?%matches_addressed_matches]. done.
Qed.

(** Everything the identity map may hold, pair by pair. *)
Definition identity_entries (policies : list PolicyIr) (m : gmap IdentityId Endpoint) :
    list PolicyMapEntry :=
  List.flat_map (λ sd, identity_pair policies sd.1 sd.2)
    (list_prod (btree_values m) (btree_values m)).

Lemma compile_dataplane_entries_eq policies endpoints m :
  ensure_ingress_dataplane_policies policies = Ok () → unique_endpoints endpoints = Ok m →
  compile_dataplane_entries policies endpoints
  = if Z.of_nat (length (identity_entries policies m)) <=? POLICY_MAP_BANK_ENTRY_LIMIT
    then Ok (sort_by_key entry_key (identity_entries policies m))
    else Err (EntryLimitExceeded POLICY_MAP_BANK_ENTRY_LIMIT).
Proof.
  intros Hd Hm. unfold compile_dataplane_entries. rewrite Hd, Hm.
  rewrite (nested_push _ (identity_pair policies)) by (intros; apply compile_pair_spec).
  fold (identity_entries policies m). rewrite push_all_nil. by destruct (_ <=? _).
Qed.

Lemma identity_key_inj source destination p q p' q' :
  identity_key source destination p q = identity_key source destination p' q' → p = p' ∧ q = q'.
Proof. by intros [= -> ->]. Qed.

Lemma identity_lowering policies endpoints entries source destination p port :
  compile_dataplane_entries policies endpoints = Ok entries →
  wf_policies policies → Forall wf_endpoint endpoints →
  source ∈ endpoints → destination ∈ endpoints →
  lookup_tuple (λ protocol port, entry_at entries (identity_key source destination protocol port))
    (protocol_u8 p) port
  = decided (evaluate policies (flow_of source destination p port None None)).
Proof.
  intros H Hwf Hwfe Hs Hd. rewrite Forall_forall in Hwfe.
  destruct (ensure_ingress_dataplane_policies policies) as [[]|] eqn:Ed;
    [|unfold compile_dataplane_entries in H; by rewrite Ed in H].
  destruct (unique_endpoints endpoints) as [m|] eqn:Em;
    [|unfold compile_dataplane_entries in H; by rewrite Ed, Em in H].
  rewrite (compile_dataplane_entries_eq _ _ m) in H by done.
  destruct (_ <=? _); [|done]. injection H as <-.
  destruct (endpoint_values _ _ Em) as (Hnd & Hin & Hid).
  assert (Hat : ∀ pr po v,
    entry_at (sort_by_key entry_key (identity_entries policies m))
      (identity_key source destination pr po) = Some v ↔
    holds (identity_pair policies source destination) (identity_key source destination pr po) v).
  { intros pr po v. apply (union_lookup (λ sd, identity_key sd.1 sd.2)
      (λ sd, identity_pair policies sd.1 sd.2)
      (list_prod (btree_values m) (btree_values m))) with (x := (source, destination)).
    - by apply list_prod_NoDup.
    - intros [s d] [s' d'] a b a' b' [Hs1 Hd1]%elem_of_list_prod [Hs2 Hd2]%elem_of_list_prod.
      simpl. intros [= Hi Hj -> ->]. by rewrite (Hid s s'), (Hid d d').
    - intros [s d] e _. apply pair_inherit_key.
    - intros [s d] [Hs1 Hd1]%elem_of_list_prod. apply evaluated_pair_NoDup; [done|..].
      + apply Hwfe, Hin, Hd1.
      + apply identity_key_inj.
    - apply sort_by_perm.
    - apply elem_of_list_prod. simpl. by rewrite !Hin. }
  apply (evaluated_pair_lookup policies Ingress source destination None None
    DestinationAddresses_default Hwf (Hwfe _ Hd) (identity_keep source destination)
    (identity_keep_relevant source destination) (identity_key source destination)
    (identity_key_inj source destination)
    (λ pr po, entry_at _ (identity_key source destination pr po)) p port Hat).
Qed.

(** The identity-pair map decides like the evaluator: whenever lowering succeeds,
    looking up the exact tuple, then the protocol wildcard, then the global fallback
    yields exactly the enforced and shadow decision that evaluating the policies on
    the flow gives, and nothing exactly when no policy decides the flow. *)
Lemma identity_lowering_correct policies endpoints entries source destination p port :
  compile_dataplane_entries policies endpoints = Ok entries →
  wf_policies policies → Forall wf_endpoint endpoints →
  source ∈ endpoints → destination ∈ endpoints →
  lookup_tuple (λ protocol port, entry_at entries (identity_key source destination protocol port))
    (protocol_u8 p) port
  = decided (evaluate policies (flow_of source destination p port None None)).
Proof. apply identity_lowering. Qed.

(** ** IPv4 sources *)

Definition ipv4_key (address : Z) (destination : Endpoint) (protocol port : Z) : Ipv4PolicyMapKey :=
  {| pk4_source_address := address; pk4_destination_identity := ep_identity destination;
     pk4_protocol := protocol; pk4_destination_port := port |}.

Definition ipv4_keep (source : Endpoint) (ipv4 : option Z) (destination : Endpoint)
    (rule : PolicyRule) : bool :=
  IdentitySelector_matches_addressed (rule_source rule) source ipv4 None
  && IdentitySelector_matches (rule_destination rule) destination.

Definition ipv4_pair (policies : list PolicyIr) (source : Endpoint) (ipv4 : option Z)
    (address : Z) (destination : Endpoint) : list Ipv4PolicyMapEntry :=
  evaluated_pair policies Ingress source destination ipv4 None DestinationAddresses_default
    (ipv4_keep source ipv4 destination) (ipv4_key address destination).

Lemma compile_ipv4_pair_spec policies source ipv4 address destination entries :
  compile_ipv4_pair policies (global_fallback_policies policies) source ipv4 address destination
    entries
  = push_all entries (ipv4_pair policies source ipv4 address destination).
Proof. unfold ipv4_pair, evaluated_pair. rewrite <-lower_inherit_spec. reflexivity. Qed.

Lemma ipv4_keep_relevant source ipv4 destination rule :
  endpoints_match (rule_source rule) (rule_destination rule)
    (flow_of source destination Tcp 0 ipv4 None) DestinationAddresses_default = true →
  ipv4_keep source ipv4 destination rule = true.
Proof.
  unfold endpoints_match, ipv4_keep. rewrite !andb_true_iff. simpl.
  intros [? ?%matches_addressed_matches]. done.
Qed.

Lemma ipv4_key_inj address destination p q p' q' :
  ipv4_key address destination p q = ipv4_key address destination p' q' → p = p' ∧ q = q'.
Proof. by intros [= -> ->]. Qed.

(** The workload behind an address, or the external endpoint. *)
Definition ipv4_source (ipv4_endpoints : list Ipv4Endpoint) (address : Z) : Endpoint :=
  match List.find (λ e, ep4_address e =? address) ipv4_endpoints with
  | Some e => ep4_endpoint e
  | None => external_endpoint
  end.

Lemma known_ipv4_source conflict ipv4_endpoints m address :
  known_addresses conflict
    (map (λ source, (ep4_address source, ep4_endpoint source)) ipv4_endpoints) = Ok m →
  default external_endpoint (m !! address) = ipv4_source ipv4_endpoints address ∧
  (address ∈ dom m ↔ ∃ e, e ∈ ipv4_endpoints ∧ ep4_address e = address).
Proof.
  intros H. pose proof (known_addresses_spec _ _ _ H address) as Hm.
  setoid_rewrite elem_of_list_map in Hm. split.
  - unfold ipv4_source. destruct (List.find _ _) as [e|] eqn:E.
    + apply find_some in E as [Hin Heq%Z.eqb_eq]. apply list_elem_of_In in Hin.
      rewrite (proj2 (Hm (ep4_endpoint e))); [done|]. exists e. by rewrite Heq.
    + destruct (m !! address) as [x|]; [|done].
      destruct (proj1 (Hm x) eq_refl) as (e & Hin & [= -> ->]). apply list_elem_of_In in Hin.
      apply (find_none _ _ E) in Hin. by rewrite Z.eqb_refl in Hin.
  - rewrite elem_of_dom. unfold is_Some. setoid_rewrite Hm. naive_solver.
Qed.

(** A NetworkPolicy selects the endpoint. *)
Definition compat_targeted (policies : list PolicyIr) (endpoint : Endpoint) : bool :=
  existsb (λ policy, bool_decide (pol_origin policy = KubernetesNetworkPolicy)
    && IdentitySelector_matches (pol_target policy) endpoint) policies.

(** NetworkPolicies deny by default, so one that selects the endpoint always decides. *)
Lemma compat_provenance policies direction flow addresses :
  Forall (λ policy, pol_direction policy = direction) policies →
  Forall (λ policy, pol_origin policy = KubernetesNetworkPolicy →
    pol_default_action policy ≠ ActAudit) policies →
  compat_targeted policies (selected_endpoint direction flow) = true →
  has_policy_provenance (evaluate_for_direction_with_addresses policies direction flow addresses)
    = true.
Proof.
  intros Hdir Haudit (p & Hp & [Ho%bool_decide_eq_true Ht]%andb_true_iff)%existsb_exists.
  apply list_elem_of_In in Hp. rewrite Forall_forall in Hdir, Haudit. apply provenance_iff.
  exists (pol_enforcement_mode p). apply candidate_exists. exists p.
  split_and!; [|done|left; auto]. apply elem_of_applicable. auto.
Qed.

(** The blocks of the rule sources. *)
Definition source_ipv4_blocks (policies : list PolicyIr) : list Ipv4Block :=
  List.flat_map (λ rule, sel_ipv4_blocks (rule_source rule)) (List.flat_map pol_rules policies).

(** The pairs of the IPv4 map: every listed address, then address zero for the
    destinations a NetworkPolicy selects. *)
Definition ipv4_items (s : gset Z) (policies : list PolicyIr) (destinations : list Endpoint) :
    list (Z * Endpoint) :=
  list_prod (bset_iter s) destinations
  ++ map (pair 0) (List.filter (compat_targeted policies) destinations).

Definition ipv4_item_pair (policies : list PolicyIr) (known : gmap Z Endpoint) (s : gset Z)
    (item : Z * Endpoint) : list Ipv4PolicyMapEntry :=
  if item.1 =? 0
  then ipv4_pair policies external_endpoint (fallback_ipv4 (source_ipv4_blocks policies) s) 0 item.2
  else ipv4_pair policies (default external_endpoint (known !! item.1)) (Some item.1) item.1 item.2.

Lemma compile_ipv4_Ok policies endpoints ipv4_endpoints entries :
  compile_ipv4_dataplane_entries policies endpoints ipv4_endpoints = Ok entries →
  ∃ m known s,
    ensure_ingress_dataplane_policies policies = Ok () ∧
    unique_endpoints endpoints = Ok m ∧
    known_addresses Ipv4MetadataConflict
      (map (λ source, (ep4_address source, ep4_endpoint source)) ipv4_endpoints) = Ok known ∧
    check_ipv4_block_sizes (source_ipv4_blocks policies) = Ok () ∧
    insert_ipv4_addresses (dom known) (listed_ipv4_addresses (source_ipv4_blocks policies)) = Ok s ∧
    ((0 ∉ s) → entries ≡ₚ List.flat_map (ipv4_item_pair policies known s)
                      (ipv4_items s policies (btree_values m))).
Proof.
  unfold compile_ipv4_dataplane_entries. fold (source_ipv4_blocks policies).
  destruct (ensure_ingress_dataplane_policies policies) as [[]|]; [|done].
  destruct (unique_endpoints endpoints) as [m|]; [|done].
  destruct (known_addresses _ _) as [known|]; [|done].
  destruct (check_ipv4_block_sizes _) as [[]|]; [|done].
  destruct (insert_ipv4_addresses _ _) as [s|] eqn:Es; [|done].
  intros H. exists m, known, s. split_and!; [done..|]. intros H0. revert H.
  rewrite (nested_push _ (λ a d, ipv4_item_pair policies known s (a, d))).
  2:{ intros a d es Ha. rewrite elem_of_bset_iter in Ha. unfold ipv4_item_pair. simpl.
      rewrite (proj2 (Z.eqb_neq a 0)) by (intros ->; done). apply compile_ipv4_pair_spec. }
  destruct (push_all [] _) as [es|] eqn:E1; [|done]. apply push_all_Ok in E1 as [-> _].
  rewrite (try_fold_ext _ (λ es d, push_all es (ipv4_item_pair policies known s (0, d))))
    by (intros; apply compile_ipv4_pair_spec).
  rewrite push_all_flat_map. destruct (push_all _ _) as [es|] eqn:E2; [|done].
  apply push_all_Ok in E2 as [-> _]. intros [= <-]. unfold sort_by_key. rewrite sort_by_perm.
  unfold ipv4_items. rewrite flat_map_app. simpl. apply Permutation_app.
  - apply reflexive_eq, flat_map_ext. by intros [].
  - apply reflexive_eq. fold (compat_targeted policies). induction (List.filter _ _) as [|d l IH]; simpl; [done|]. by rewrite IH.
Qed.

Section Ipv4Map.
Context (policies : list PolicyIr) (endpoints : list Endpoint).
Context (ipv4_endpoints : list Ipv4Endpoint) (entries : list Ipv4PolicyMapEntry).
Context (m : gmap IdentityId Endpoint) (known : gmap Z Endpoint) (s : gset Z).
Context (Hwf : wf_policies policies) (Hwfe : ∀ e, e ∈ endpoints → wf_endpoint e).
Context (Hm : unique_endpoints endpoints = Ok m) (H0 : 0 ∉ s).
Context (Hentries : entries ≡ₚ List.flat_map (ipv4_item_pair policies known s)
                      (ipv4_items s policies (btree_values m))).

Lemma elem_of_ipv4_items a d :
  (a, d) ∈ ipv4_items s policies (btree_values m) ↔
  d ∈ endpoints ∧ (a ∈ s ∨ (a = 0 ∧ compat_targeted policies d = true)).
Proof.
  destruct (endpoint_values _ _ Hm) as (_ & Hin & _).
  unfold ipv4_items. rewrite elem_of_app, elem_of_list_prod, elem_of_list_map. simpl.
  rewrite elem_of_bset_iter, Hin. setoid_rewrite elem_of_list_filter. setoid_rewrite Hin.
  naive_solver.
Qed.

Lemma ipv4_at item pr po v :
  item ∈ ipv4_items s policies (btree_values m) →
  entry_at entries (ipv4_key item.1 item.2 pr po) = Some v ↔
  holds (ipv4_item_pair policies known s item) (ipv4_key item.1 item.2 pr po) v.
Proof.
  destruct (endpoint_values _ _ Hm) as (Hnd & Hin & Hid).
  apply (union_lookup (λ item, ipv4_key item.1 item.2) (ipv4_item_pair policies known s)
    (ipv4_items s policies (btree_values m))); [..|exact Hentries].
  - unfold ipv4_items. apply NoDup_app. split_and!.
    + apply list_prod_NoDup; [apply bset_iter_NoDup|done].
    + intros [a d] [Ha _]%elem_of_list_prod (d' & _ & [= -> _])%elem_of_list_map.
      simpl in Ha. by rewrite elem_of_bset_iter in Ha.
    + apply NoDup_fmap_2_strong; [by intros ? ? _ _ [= ->]|].
      by apply NoDup_ListNoDup, List.NoDup_filter, NoDup_ListNoDup.
  - intros [a d] [a' d'] p q p' q' [Hd _]%elem_of_ipv4_items [Hd' _]%elem_of_ipv4_items.
    simpl. intros [= -> Hi -> ->]. rewrite (Hid d d'); rewrite ?Hin; done.
  - intros [a d] e _. unfold ipv4_item_pair. simpl.
    destruct (Z.eqb_spec a 0) as [->|]; apply pair_inherit_key.
  - intros [a d] [Hd _]%elem_of_ipv4_items. unfold ipv4_item_pair. simpl.
    destruct (a =? 0); (apply evaluated_pair_NoDup; [done|by apply Hwfe|apply ipv4_key_inj]).
Qed.

Lemma ipv4_lookup_listed a d p port :
  a ∈ s → d ∈ endpoints →
  lookup_tuple (λ pr po, entry_at entries (ipv4_key a d pr po)) (protocol_u8 p) port
  = decided (evaluate policies
      (flow_of (default external_endpoint (known !! a)) d p port (Some a) None)).
Proof.
  intros Ha Hd. assert (a ≠ 0) as Hne by by intros ->.
  apply (evaluated_pair_lookup policies Ingress _ d (Some a) None DestinationAddresses_default Hwf
    (Hwfe d Hd) (ipv4_keep _ (Some a) d) (ipv4_keep_relevant _ (Some a) d) (ipv4_key a d)
    (ipv4_key_inj a d) (λ pr po, entry_at entries (ipv4_key a d pr po))).
  intros pr po v. rewrite (ipv4_at (a, d)) by (apply elem_of_ipv4_items; auto).
  unfold ipv4_item_pair. simpl. by rewrite (proj2 (Z.eqb_neq a 0)).
Qed.

Lemma ipv4_lookup_fallback d p port :
  compat_targeted policies d = true → d ∈ endpoints →
  lookup_tuple (λ pr po, entry_at entries (ipv4_key 0 d pr po)) (protocol_u8 p) port
  = decided (evaluate policies (flow_of external_endpoint d p port
      (fallback_ipv4 (source_ipv4_blocks policies) s) None)).
Proof.
  intros Ht Hd. set (fb := fallback_ipv4 _ _).
  apply (evaluated_pair_lookup policies Ingress _ d fb None DestinationAddresses_default Hwf
    (Hwfe d Hd) (ipv4_keep _ fb d) (ipv4_keep_relevant _ fb d) (ipv4_key 0 d)
    (ipv4_key_inj 0 d) (λ pr po, entry_at entries (ipv4_key 0 d pr po))).
  intros pr po v. by rewrite (ipv4_at (0, d)) by (apply elem_of_ipv4_items; auto).
Qed.

Lemma ipv4_lookup_absent a d p port :
  d ∈ endpoints → (a ∉ s) → (a = 0 → compat_targeted policies d = false) →
  lookup_tuple (λ pr po, entry_at entries (ipv4_key a d pr po)) p port = None.
Proof.
  intros Hd Ha Ht. destruct (endpoint_values _ _ Hm) as (Hnd & Hin & Hid).
  assert (Hnone : ∀ pr po, entry_at entries (ipv4_key a d pr po) = None).
  { intros pr po. unfold entry_at. destruct (List.find _ _) as [e|] eqn:E; [|done]. exfalso.
    apply find_some in E as [He Hk%bool_decide_eq_true]. apply list_elem_of_In in He.
    rewrite Hentries, elem_of_list_flat_map in He. destruct He as ([a' d'] & Hi & He).
    assert (∃ p q, entry_key e = ipv4_key a' d' p q) as (p' & q' & Hk').
    { unfold ipv4_item_pair in He. simpl in He.
      destruct (Z.eqb_spec a' 0) as [->|]; by eapply pair_inherit_key. }
    rewrite Hk in Hk'. injection Hk' as <- Hids _ _. apply elem_of_ipv4_items in Hi as [Hd' Hor].
    rewrite <-(Hid d d') in Hor by (rewrite ?Hin; done).
    destruct Hor as [?|[-> Htt]]; [done|]. rewrite Ht in Htt; done. }
  unfold lookup_tuple. by rewrite !Hnone.
Qed.
End Ipv4Map.

(** Decisions with the same records are the same answer. *)
Lemma decided_ext policies policies' direction direction' flow flow' addresses addresses' :
  records (evaluate_for_direction_with_addresses policies direction flow addresses)
  = records (evaluate_for_direction_with_addresses policies' direction' flow' addresses') →
  decided (evaluate_for_direction_with_addresses policies direction flow addresses)
  = decided (evaluate_for_direction_with_addresses policies' direction' flow' addresses').
Proof. intros Hr. unfold decided. by rewrite !evaluate_provenance, Hr. Qed.

(** What the IPv4 map relies on: canonical source blocks, NetworkPolicies that deny by
    default, and no workload at address zero, the key of the fallback. *)
Definition ipv4_inputs (policies : list PolicyIr) (ipv4_endpoints : list Ipv4Endpoint) : Prop :=
  Forall wf_block4 (source_ipv4_blocks policies) ∧
  Forall (λ policy, pol_origin policy = KubernetesNetworkPolicy →
    pol_default_action policy ≠ ActAudit) policies ∧
  Forall (λ e, ep4_address e ≠ 0) ipv4_endpoints.

(** The dataplane's order on the IPv4 map: the source address's tuples, then those of
    the fallback address. *)
Definition ipv4_lookup (entries : list Ipv4PolicyMapEntry) (address : Z) (destination : Endpoint)
    (protocol port : Z) : option (PolicyDecisionRecord * option PolicyDecisionRecord) :=
  or_else
    (lookup_tuple (λ pr po, entry_at entries (ipv4_key address destination pr po)) protocol port)
    (lookup_tuple (λ pr po, entry_at entries (ipv4_key 0 destination pr po)) protocol port).

Lemma ipv4_lowering policies endpoints ipv4_endpoints entries a destination p port :
  compile_ipv4_dataplane_entries policies endpoints ipv4_endpoints = Ok entries →
  wf_policies policies → Forall wf_endpoint endpoints → ipv4_inputs policies ipv4_endpoints →
  destination ∈ endpoints → 1 ≤ a < 2 ^ 32 →
  (∃ e, e ∈ ipv4_endpoints ∧ ep4_address e = a) ∨ compat_targeted policies destination = true →
  ipv4_lookup entries a destination (protocol_u8 p) port
  = decided (evaluate policies
      (flow_of (ipv4_source ipv4_endpoints a) destination p port (Some a) None)).
Proof.
  intros (m & known & s & Hdir & Hm & Hk & Hsizes & Hs & He)%compile_ipv4_Ok Hwf Hwfe
    (Hblk & Haudit & Hzero) Hd Ha Hor.
  rewrite Forall_forall in Hwfe. apply ensure_direction_Ok in Hdir.
  pose proof (insert_ipv4_addresses_spec _ _ _ Hs) as Hin.
  destruct (known_ipv4_source _ _ _ a Hk) as [Hsrc Hdom].
  assert (H0 : 0 ∉ s).
  { rewrite Hin. intros [Hz|[_ ?]]; [|done]. destruct (known_ipv4_source _ _ _ 0 Hk) as [_ Hd0].
    apply Hd0 in Hz as (e & Hine & Hez). rewrite Forall_forall in Hzero. by eapply Hzero. }
  specialize (He H0). unfold ipv4_lookup. destruct (decide (a ∈ s)) as [Hina|Hnin].
  - rewrite (ipv4_lookup_listed policies endpoints entries m known s Hwf Hwfe Hm H0 He a) by done.
    rewrite Hsrc. unfold decided.
    destruct (has_policy_provenance _) eqn:Ep; [done|]. simpl.
    apply (ipv4_lookup_absent policies endpoints entries m known s Hm He); [done..|].
    intros _. apply not_true_iff_false. intros Ht. apply not_true_iff_false in Ep.
    apply Ep. by apply compat_provenance.
  - rewrite (ipv4_lookup_absent policies endpoints entries m known s Hm He a) by (done || lia).
    assert (Ht : compat_targeted policies destination = true).
    { destruct Hor as [Hkn|?]; [|done]. destruct Hnin. apply Hin. left. by apply Hdom. }
    simpl. rewrite (ipv4_lookup_fallback policies endpoints entries m known s Hwf Hwfe Hm H0 He) by done.
    assert (Hext : ipv4_source ipv4_endpoints a = external_endpoint).
    { rewrite <-Hsrc. destruct (known !! a) eqn:E; [|done]. destruct Hnin. apply Hin. left.
      by apply elem_of_dom_2 in E. }
    rewrite Hext. apply decided_ext, records_flow_ext; [done|].
    intros pol r Hpol Hr. unfold rule_matches. simpl.
    rewrite (unlisted_selector (source_ipv4_blocks policies) s Hblk Hsizes) with (a := a); try done.
    + intros b Hb Hne. apply Hin. by right.
    + intros b Hb. unfold source_ipv4_blocks. apply elem_of_list_flat_map. exists r. split; [|done].
      apply elem_of_list_flat_map. by exists pol.
Qed.

(** The IPv4 map decides like the evaluator: for any source address that belongs to
    a known workload, and for any address at all when a NetworkPolicy selects the
    destination, the lookup yields exactly the decision of evaluating the policies
    with that source address, address blocks and exceptions included. *)
Lemma ipv4_lowering_correct policies endpoints ipv4_endpoints entries a destination p port :
  compile_ipv4_dataplane_entries policies endpoints ipv4_endpoints = Ok entries →
  wf_policies policies → Forall wf_endpoint endpoints → ipv4_inputs policies ipv4_endpoints →
  destination ∈ endpoints → 1 ≤ a < 2 ^ 32 →
  (∃ e, e ∈ ipv4_endpoints ∧ ep4_address e = a) ∨ compat_targeted policies destination = true →
  ipv4_lookup entries a destination (protocol_u8 p) port
  = decided (evaluate policies
      (flow_of (ipv4_source ipv4_endpoints a) destination p port (Some a) None)).
Proof. apply ipv4_lowering. Qed.

(** ** Witnesses: two workloads and a NetworkPolicy that admits web on one port and a
    subnet with an exception on any TCP port. *)

Definition demo_ipv4 (d : Z) : Z := 10 * 2 ^ 24 + 1 * 2 ^ 16 + 2 * 2 ^ 8 + d.

Definition demo_subnet : Ipv4Block := {|
  blk4_cidr := {| c4_network := demo_ipv4 4; c4_prefix_len := 31 |};
  blk4_except := [{| c4_network := demo_ipv4 5; c4_prefix_len := 32 |}] |}.

Definition demo_allow (id : Z) (source : IdentitySelector) (port : DestinationPort) : PolicyRule := {|
  rule_id := id; rule_source := source; rule_destination := demo_app "db";
  rule_protocol := Some Tcp; rule_destination_port := port; rule_action := ActAllow;
  rule_provenance := {| prov_policy_id := 3; prov_policy_name := "db"; prov_namespace := "prod";
                        prov_rule_index := id |} |}.

Definition demo_policies : list PolicyIr :=
  [compatibility_policy_ir 3 "db" "prod" Ingress (demo_app "db")
     [demo_allow 0 (demo_app "web") (PortNumber 5432);
      demo_allow 1 (selector_of_blocks [demo_subnet] []) PortAny]].

Definition demo_endpoints : list Endpoint := [demo_workload 7 "web"; demo_workload 8 "db"].
Definition demo_ipv4_endpoints : list Ipv4Endpoint :=
  [{| ep4_address := demo_ipv4 7; ep4_endpoint := demo_workload 7 "web" |}].

Lemma demo_policies_wf : wf_policies demo_policies.
Proof. unfold wf_policies, wf_rule. repeat constructor; simpl; try done; lia. Qed.

Lemma demo_endpoints_wf : Forall wf_endpoint demo_endpoints.
Proof.
  constructor; [|constructor; [|constructor]];
    intros n q Hq; simpl in Hq; by rewrite lookup_empty in Hq.
Qed.


