(* ===== verification/LowerIpv6.v ===== *)
(** * Ingress lowering is correct: the IPv6 prefix map

    Prefix boundaries, the search for an address no inner boundary covers, longest
    prefix match over the entries, and the agreement of the lookups with the
    evaluator. *)

From S2P Require Import Prelude Common PolicyIr PolicyCompile NetworkPolicy PolicyLower.
From S2P Require Import PolicyLowerSpec PolicyLowerFacts LowerAddresses LowerIngress.

(** ** Prefixes as intervals *)

Definition c6_size (c : Ipv6Cidr) : Z := 2 ^ (128 - c6_prefix_len c).

Lemma c6_size_pos c : wf_cidr6 c → 0 < c6_size c.
Proof. intros [Hp _]. apply Z.pow_pos_nonneg; lia. Qed.

Lemma Ipv6Cidr_contains_iff c a :
  wf_cidr6 c → in_width 128 a →
  Ipv6Cidr_contains c a = true ↔ c6_network c ≤ a < c6_network c + c6_size c.
Proof.
  intros (Hp & Hw & Hm) Ha. unfold Ipv6Cidr_contains, c6_size.
  destruct (Z.ltb_spec 128 (c6_prefix_len c)); [lia|].
  rewrite Z.eqb_eq, land_prefix_eq_iff by done. tauto.
Qed.

Lemma Ipv6Cidr_contains_network c : wf_cidr6 c → Ipv6Cidr_contains c (c6_network c) = true.
Proof.
  intros Hc. pose proof (c6_size_pos c Hc). apply Ipv6Cidr_contains_iff; [done|apply Hc|lia].
Qed.

(** Two prefixes that share an address are nested. *)
Lemma prefixes_nested c d a :
  wf_cidr6 c → wf_cidr6 d → c6_prefix_len d ≤ c6_prefix_len c →
  c6_network c ≤ a < c6_network c + c6_size c → c6_network d ≤ a < c6_network d + c6_size d →
  c6_network d ≤ c6_network c ∧ c6_network c + c6_size c ≤ c6_network d + c6_size d.
Proof.
  intros (Hp & _ & Hm) (Hp' & _ & Hm') Hle Hc Hd. unfold c6_size in *.
  apply (aligned_nested _ _ _ _ a); [lia|done..].
Qed.

Lemma contains_mono c d a b :
  wf_cidr6 c → wf_cidr6 d → in_width 128 a → in_width 128 b →
  c6_prefix_len d ≤ c6_prefix_len c →
  Ipv6Cidr_contains c a = true → Ipv6Cidr_contains d a = true →
  Ipv6Cidr_contains c b = true → Ipv6Cidr_contains d b = true.
Proof.
  intros Hc Hd Ha Hb Hle. rewrite !Ipv6Cidr_contains_iff by done. intros H1 H2 H3.
  pose proof (prefixes_nested c d a Hc Hd Hle H1 H2). lia.
Qed.

Lemma contains_cidr_iff c d a :
  wf_cidr6 c → wf_cidr6 d → in_width 128 a → c6_prefix_len d ≤ c6_prefix_len c →
  Ipv6Cidr_contains c a = true → Ipv6Cidr_contains d a = true →
  Ipv6Cidr_contains_cidr d c = true.
Proof.
  intros Hc Hd Ha Hle H1 H2. unfold Ipv6Cidr_contains_cidr. apply andb_true_iff.
  split; [by apply Z.leb_le|]. apply (contains_mono c d a); try done; [apply Hc|].
  by apply Ipv6Cidr_contains_network.
Qed.

Lemma contains_cidr_contains c d a :
  wf_cidr6 c → wf_cidr6 d → in_width 128 a → Ipv6Cidr_contains_cidr d c = true →
  Ipv6Cidr_contains c a = true → Ipv6Cidr_contains d a = true.
Proof.
  intros Hc Hd Ha [Hle%Z.leb_le Hn]%andb_true_iff.
  apply (contains_mono c d (c6_network c)); try done; [apply Hc|by apply Ipv6Cidr_contains_network].
Qed.

(** ** The two halves of a prefix *)

Section Halves.
Context (c : Ipv6Cidr) (Hc : wf_cidr6 c) (Hlt : c6_prefix_len c < 128).

Definition half (upper : bool) : Ipv6Cidr :=
  {| c6_network := if upper then c6_network c + Z.shiftl 1 (128 - (c6_prefix_len c + 1))
                   else c6_network c;
     c6_prefix_len := c6_prefix_len c + 1 |}.

Lemma half_size upper : c6_size c = 2 * c6_size (half upper).
Proof.
  destruct Hc as [Hp _]. unfold c6_size, half. simpl.
  rewrite <-Z.pow_succ_r by lia. f_equal. lia.
Qed.

Lemma half_network upper :
  c6_network (half upper) = c6_network c + (if upper then c6_size (half upper) else 0).
Proof.
  destruct Hc as [Hp _]. unfold half, c6_size. destruct upper; simpl; [|lia].
  by rewrite Z.shiftl_1_l.
Qed.

Lemma c6_top : c6_network c + c6_size c ≤ 2 ^ 128.
Proof. destruct Hc as (Hp & Hn & Hm). by apply aligned_top. Qed.

Lemma half_wf upper : wf_cidr6 (half upper).
Proof.
  pose proof (half_size upper) as Hs. pose proof (half_network upper) as Hn.
  pose proof c6_top as Ht. destruct Hc as (Hp & [Hn0 Hn1] & Hm).
  assert (Hpos : 0 < c6_size (half upper)) by (apply Z.pow_pos_nonneg; simpl; lia).
  split; [simpl; lia|]. split; [unfold in_width; destruct upper; lia|].
  change (2 ^ (128 - c6_prefix_len (half upper))) with (c6_size (half upper)).
  fold (c6_size c) in Hm. apply Z.mod_divide in Hm as [q Hq]; [|lia]. apply Z.mod_divide; [lia|].
  rewrite Hn. destruct upper; [exists (2 * q + 1)|exists (2 * q)]; lia.
Qed.

Lemma half_contains a :
  in_width 128 a → Ipv6Cidr_contains c a = true →
  Ipv6Cidr_contains (half false) a = true ∨ Ipv6Cidr_contains (half true) a = true.
Proof.
  intros Ha. rewrite !Ipv6Cidr_contains_iff by auto using half_wf.
  pose proof (half_size false). pose proof (half_size true).
  pose proof (half_network false). pose proof (half_network true). cbv iota in *. lia.
Qed.

Lemma half_inside upper a :
  in_width 128 a → Ipv6Cidr_contains (half upper) a = true → Ipv6Cidr_contains c a = true.
Proof.
  intros Ha. rewrite !Ipv6Cidr_contains_iff by auto using half_wf.
  pose proof (half_size upper). pose proof (half_network upper).
  pose proof (c6_size_pos _ (half_wf upper)). destruct upper; lia.
Qed.
End Halves.

(** ** The uncovered address *)

Definition covered (excluded : list Ipv6Cidr) (a : Z) : Prop :=
  ∃ e, e ∈ excluded ∧ Ipv6Cidr_contains e a = true.

(** What a search result means for the addresses of a prefix. *)
Definition search_result (cidr : Ipv6Cidr) (excluded : list Ipv6Cidr) (r : option Z) : Prop :=
  match r with
  | Some a => in_width 128 a ∧ Ipv6Cidr_contains cidr a = true ∧ ¬ covered excluded a
  | None => ∀ a, in_width 128 a → Ipv6Cidr_contains cidr a = true → covered excluded a
  end.

(** An excluded prefix that meets a half and is not the whole lies inside the half. *)
Lemma excluded_in_half cidr (Hc : wf_cidr6 cidr) (Hlt : c6_prefix_len cidr < 128) e upper a :
  wf_cidr6 e → Ipv6Cidr_contains_cidr cidr e = true → e ≠ cidr → in_width 128 a →
  Ipv6Cidr_contains e a = true → Ipv6Cidr_contains (half cidr upper) a = true →
  Ipv6Cidr_contains_cidr (half cidr upper) e = true.
Proof.
  intros He Hin Hne Ha Hea Hha. apply (contains_cidr_iff e _ a); try done; [by apply half_wf|].
  simpl. pose proof Hin as [Hle%Z.leb_le _]%andb_true_iff.
  destruct (decide (c6_prefix_len e = c6_prefix_len cidr)) as [Heq|]; [|lia]. destruct Hne.
  pose proof (contains_cidr_contains e cidr a He Hc Ha Hin Hea) as Hca.
  rewrite Ipv6Cidr_contains_iff in Hea, Hca by done.
  pose proof (prefixes_nested e cidr a He Hc ltac:(lia) Hea Hca) as Hn1.
  pose proof (prefixes_nested cidr e a Hc He ltac:(lia) Hca Hea) as Hn2.
  destruct e, cidr. simpl in *. f_equal; lia.
Qed.

(** The address no excluded prefix covers is the same question for a half and for the
    excluded prefixes inside it. *)
Lemma covered_half cidr (Hc : wf_cidr6 cidr) (Hlt : c6_prefix_len cidr < 128) excluded upper a :
  Forall (λ e, wf_cidr6 e ∧ Ipv6Cidr_contains_cidr cidr e = true) excluded → cidr ∉ excluded →
  in_width 128 a → Ipv6Cidr_contains (half cidr upper) a = true →
  covered excluded a ↔
  covered (List.filter (Ipv6Cidr_contains_cidr (half cidr upper)) excluded) a.
Proof.
  intros Hex Hin Ha Hha. unfold covered. setoid_rewrite elem_of_list_filter. split.
  - intros (e & He & Hea). exists e. split_and!; [done| |done].
    rewrite Forall_forall in Hex. destruct (Hex e He) as [Hwe Hce].
    apply (excluded_in_half cidr Hc Hlt e upper a); try done. by intros ->.
  - naive_solver.
Qed.

Lemma visit_half (visit : Ipv6Cidr → list Ipv6Cidr → option Z)
    cidr (Hc : wf_cidr6 cidr) (Hlt : c6_prefix_len cidr < 128) excluded upper :
  Forall (λ e, wf_cidr6 e ∧ Ipv6Cidr_contains_cidr cidr e = true) excluded → cidr ∉ excluded →
  (∀ inner, Forall (λ e, wf_cidr6 e ∧ Ipv6Cidr_contains_cidr (half cidr upper) e = true) inner →
    search_result (half cidr upper) inner (visit (half cidr upper) inner)) →
  search_result (half cidr upper) excluded
    (let child_excluded := List.filter (Ipv6Cidr_contains_cidr (half cidr upper)) excluded in
     if is_nil child_excluded then Some (c6_network (half cidr upper))
     else visit (half cidr upper) child_excluded).
Proof.
  intros Hex Hin IH. pose proof (half_wf cidr Hc Hlt upper) as Hw.
  pose proof (λ a, covered_half cidr Hc Hlt excluded upper a Hex Hin) as Hsub.
  cbv zeta. destruct (is_nil _) eqn:En.
  - pose proof (Ipv6Cidr_contains_network _ Hw) as Hcn. split_and!; [apply Hw|done|].
    rewrite Hsub by (done || apply Hw). intros (e & He & _).
    rewrite is_nil_true in En. by apply (En e).
  - specialize (IH (List.filter (Ipv6Cidr_contains_cidr (half cidr upper)) excluded)).
    opose proof* IH as IH.
    { apply Forall_forall. intros e [He Hce]%elem_of_list_filter.
      rewrite Forall_forall in Hex. by destruct (Hex e He). }
    destruct (visit _ _) as [a|].
    + destruct IH as (Ha & Hca & Hnc). split_and!; try done. by rewrite Hsub.
    + intros a Ha Hha. rewrite Hsub by done. by apply IH.
Qed.

Lemma covered_existsb excluded a :
  covered excluded a ↔
  forallb (λ item, negb (Ipv6Cidr_contains item a)) excluded = false.
Proof.
  rewrite <-not_true_iff_false, forallb_elem. split.
  - intros (e & He & Hea) H. specialize (H e He). by rewrite Hea in H.
  - intros H. destruct (existsb (λ e, Ipv6Cidr_contains e a) excluded) eqn:E.
    + apply existsb_exists in E as (e & He & Hea). exists e. by rewrite list_elem_of_In.
    + destruct H. intros e He. apply negb_true_iff. revert e He. by apply existsb_false_elem, negb_true_iff.
Qed.

(** The search finds an address of the prefix outside every excluded one, or there is
    none; the fuel covers the remaining host bits. *)
Lemma uncovered_spec fuel cidr excluded :
  wf_cidr6 cidr → Forall (λ e, wf_cidr6 e ∧ Ipv6Cidr_contains_cidr cidr e = true) excluded →
  128 - c6_prefix_len cidr < Z.of_nat fuel →
  search_result cidr excluded (uncovered_ipv6_address_fuel fuel cidr excluded).
Proof.
  revert cidr excluded. induction fuel as [|n IH]; intros cidr excluded Hc Hex Hf;
    [destruct Hc as [Hp _]; lia|].
  simpl. case_bool_decide as Hin; [intros a Ha Hca; by exists cidr|].
  destruct (forallb _ _) eqn:Enet.
  { split_and!; [apply Hc|by apply Ipv6Cidr_contains_network|].
    rewrite covered_existsb. by rewrite Enet. }
  destruct (Z.eqb_spec (c6_prefix_len cidr) 128) as [H128|Hn128].
  { intros a Ha Hca. rewrite Ipv6Cidr_contains_iff in Hca by done. unfold c6_size in Hca.
    rewrite H128 in Hca. assert (a = c6_network cidr) as -> by (simpl in Hca; lia).
    by apply covered_existsb. }
  assert (Hlt : c6_prefix_len cidr < 128) by (destruct Hc as [Hp _]; lia).
  assert (Hhalf : ∀ upper, _) by
    (intros upper; refine (visit_half (uncovered_ipv6_address_fuel n) cidr Hc Hlt excluded upper
       Hex Hin (λ inner Hi, IH _ inner (half_wf cidr Hc Hlt upper) Hi _)); simpl; lia).
  pose proof (Hhalf false) as H0. pose proof (Hhalf true) as H1. unfold half in H0, H1. simpl in H0, H1.
  destruct (if is_nil _ then _ else _) as [a|].
  { destruct H0 as (Ha & Hha & Hnc). split_and!; try done. by apply (half_inside cidr Hc Hlt false). }
  destruct (if is_nil _ then _ else _) as [a|].
  { destruct H1 as (Ha & Hha & Hnc). split_and!; try done. by apply (half_inside cidr Hc Hlt true). }
  intros a Ha Hca. destruct (half_contains cidr Hc Hlt a Ha Hca); auto.
Qed.

Lemma uncovered_ipv6_address_spec boundaries b :
  Forall wf_cidr6 boundaries → b ∈ boundaries →
  search_result b (inner_boundaries boundaries b)
    (uncovered_ipv6_address b (inner_boundaries boundaries b)).
Proof.
  intros Hw Hb. rewrite Forall_forall in Hw. pose proof (Hw b Hb) as Hwb.
  apply uncovered_spec; [done| |destruct Hwb as [? _]; simpl; lia].
  apply Forall_forall. intros e [He [_ Hin]%andb_true_iff]%elem_of_list_filter. auto.
Qed.

#[local] Opaque uncovered_ipv6_address_fuel uncovered_ipv6_address.

(** ** The deepest boundary that holds an address *)

Definition deepest (boundaries : list Ipv6Cidr) (a : Z) (b : Ipv6Cidr) : Prop :=
  b ∈ boundaries ∧ Ipv6Cidr_contains b a = true ∧
  ∀ c, c ∈ boundaries → Ipv6Cidr_contains c a = true → c6_prefix_len c ≤ c6_prefix_len b.

Lemma deepest_exists boundaries a :
  (∃ b, b ∈ boundaries ∧ Ipv6Cidr_contains b a = true) → ∃ b, deepest boundaries a b.
Proof.
  unfold deepest. induction boundaries as [|x l IH]; intros (b & Hb & Hc).
  { by apply not_elem_of_nil in Hb. }
  setoid_rewrite elem_of_cons.
  destruct (existsb (λ c, Ipv6Cidr_contains c a) l) eqn:El.
  - apply existsb_exists in El as (c & Hcl & Hca). apply list_elem_of_In in Hcl.
    destruct IH as (d & Hd & Hda & Hmax); [by exists c|].
    destruct (decide (Ipv6Cidr_contains x a = true ∧ c6_prefix_len d ≤ c6_prefix_len x))
      as [[Hx Hle]|Hno].
    + exists x. split_and!; [by left|done|]. intros y [->|Hy] Hya; [done|].
      specialize (Hmax y Hy Hya). lia.
    + exists d. split_and!; [by right|done|]. intros y [->|Hy] Hya; [|auto].
      destruct (decide (c6_prefix_len d ≤ c6_prefix_len x)); [by destruct Hno|lia].
  - assert (Hl : ∀ c, c ∈ l → Ipv6Cidr_contains c a = true → False).
    { intros c Hcl Hca. apply negb_true_iff in El. rewrite existsb_false_elem in El.
      specialize (El c Hcl). simpl in El. congruence. }
    apply elem_of_cons in Hb as [->|Hb]; [|by destruct (Hl b Hb)].
    exists x. split_and!; [by left|done|]. intros y [->|Hy] Hya; [done|by destruct (Hl y Hy)].
Qed.

Section Deepest.
Context (boundaries : list Ipv6Cidr) (Hw : Forall wf_cidr6 boundaries).
Context (a : Z) (Ha : in_width 128 a) (b : Ipv6Cidr) (Hb : deepest boundaries a b).

Lemma boundary_wf c : c ∈ boundaries → wf_cidr6 c.
Proof. rewrite Forall_forall in Hw. auto. Qed.

Lemma deepest_unique c :
  c ∈ boundaries → Ipv6Cidr_contains c a = true → c6_prefix_len b ≤ c6_prefix_len c → c = b.
Proof.
  destruct Hb as (Hin & Hba & Hmax). intros Hc Hca Hle. specialize (Hmax c Hc Hca).
  pose proof (boundary_wf b Hin) as Hwb. pose proof (boundary_wf c Hc) as Hwc.
  rewrite Ipv6Cidr_contains_iff in Hba, Hca by done.
  pose proof (prefixes_nested b c a Hwb Hwc ltac:(lia) Hba Hca) as Hn1.
  pose proof (prefixes_nested c b a Hwc Hwb ltac:(lia) Hca Hba) as Hn2.
  destruct b, c. simpl in *. f_equal; lia.
Qed.

(** The representative of the deepest boundary lies in the same boundaries. *)
Lemma deepest_representative :
  ∃ r, uncovered_ipv6_address b (inner_boundaries boundaries b) = Some r ∧ in_width 128 r ∧
    ∀ c, c ∈ boundaries → Ipv6Cidr_contains c r = Ipv6Cidr_contains c a.
Proof.
  destruct Hb as (Hin & Hba & Hmax). pose proof (boundary_wf b Hin) as Hwb.
  pose proof (uncovered_ipv6_address_spec boundaries b Hw Hin) as Hs.
  destruct (uncovered_ipv6_address _ _) as [r|].
  2:{ destruct (Hs a Ha Hba) as (e & [He [Hlt%Z.ltb_lt _]%andb_true_iff]%elem_of_list_filter & Hea).
      specialize (Hmax e He Hea). lia. }
  destruct Hs as (Hr & Hbr & Hnc). exists r. split_and!; [done..|]. intros c Hc.
  pose proof (boundary_wf c Hc) as Hwc. apply eq_true_iff_eq. split.
  - intros Hcr. destruct (decide (c6_prefix_len c ≤ c6_prefix_len b)) as [Hle|Hgt].
    + by apply (contains_mono b c r a).
    + destruct Hnc. exists c. split; [|done]. apply elem_of_list_filter. split; [done|].
      apply andb_true_iff. split; [apply Z.ltb_lt; lia|].
      apply (contains_cidr_iff c b r); try done. lia.
  - intros Hca. specialize (Hmax c Hc Hca). by apply (contains_mono b c a r).
Qed.

(** The representative of a shallower boundary is no listed address. *)
Lemma shallower_representative c r k :
  c ∈ boundaries → Ipv6Cidr_contains c a = true → c ≠ b →
  uncovered_ipv6_address c (inner_boundaries boundaries c) = Some r →
  {| c6_network := k; c6_prefix_len := 128 |} ∈ boundaries → r ≠ k.
Proof.
  intros Hc Hca Hne Hr Hk ->. destruct Hb as (Hin & Hba & Hmax).
  pose proof (uncovered_ipv6_address_spec boundaries c Hw Hc) as Hs. rewrite Hr in Hs.
  destruct Hs as (Hkw & Hck & Hnc). pose proof (boundary_wf _ Hk) as Hwk.
  pose proof (boundary_wf b Hin) as [Hb128 _]. pose proof (boundary_wf c Hc) as Hwc.
  pose proof (Ipv6Cidr_contains_network _ Hwk) as Hkk. simpl in Hkk.
  assert (Hlt : c6_prefix_len c < c6_prefix_len b).
  { destruct (decide (c6_prefix_len b ≤ c6_prefix_len c)) as [Hle|]; [|lia].
    destruct Hne. by apply deepest_unique. }
  apply Hnc. eexists. split; [|exact Hkk]. apply elem_of_list_filter. split; [done|].
  apply andb_true_iff. split; [apply Z.ltb_lt; simpl; lia|].
  apply (contains_cidr_iff _ c k); try done. simpl. lia.
Qed.
End Deepest.

(** ** Longest prefix match *)

Definition key6_cidr (k : Ipv6PolicyMapKey) : Ipv6Cidr :=
  {| c6_network := pk6_source_network k; c6_prefix_len := pk6_source_prefix_len k |}.

(** A key matches a tuple and an address. *)
Definition trie_match (identity protocol port a : Z) (k : Ipv6PolicyMapKey) : bool :=
  (pk6_destination_identity k =? identity) && (pk6_protocol k =? protocol)
  && (pk6_destination_port k =? port) && Ipv6Cidr_contains (key6_cidr k) a.

Definition lpm_at (entries : list Ipv6PolicyMapEntry) (destination : Endpoint)
    (protocol port a : Z) : option (PolicyDecisionRecord * option PolicyDecisionRecord) :=
  option_map entry_value (lpm_get pk6_source_prefix_len (trie_match (ep_identity destination) protocol port a) entries).

(** ** IPv6 sources *)

Definition ipv6_key (b : Ipv6Cidr) (destination : Endpoint) (protocol port : Z) :
    Ipv6PolicyMapKey :=
  {| pk6_source_network := c6_network b; pk6_source_prefix_len := c6_prefix_len b;
     pk6_destination_identity := ep_identity destination; pk6_protocol := protocol;
     pk6_destination_port := port |}.

Definition ipv6_keep (destination : Endpoint) (rule : PolicyRule) : bool :=
  IdentitySelector_matches (rule_destination rule) destination.

Definition ipv6_pair (policies : list PolicyIr) (source : Endpoint) (address : Z) (b : Ipv6Cidr)
    (destination : Endpoint) : list Ipv6PolicyMapEntry :=
  evaluated_plain policies Ingress source destination None (Some address)
    DestinationAddresses_default (ipv6_keep destination) (ipv6_key b destination).

Lemma compile_ipv6_pair_spec policies source address b destination entries :
  compile_ipv6_pair policies (global_fallback_policies policies) source address b destination entries
  = push_all entries (ipv6_pair policies source address b destination).
Proof. unfold ipv6_pair, evaluated_plain. rewrite <-lower_plain_spec. reflexivity. Qed.

Lemma ipv6_keep_relevant source address destination rule :
  endpoints_match (rule_source rule) (rule_destination rule)
    (flow_of source destination Tcp 0 None (Some address)) DestinationAddresses_default = true →
  ipv6_keep destination rule = true.
Proof.
  unfold endpoints_match, ipv6_keep. rewrite andb_true_iff. simpl.
  by intros [_ ?%matches_addressed_matches].
Qed.

Lemma ipv6_key_inj b destination p q p' q' :
  ipv6_key b destination p q = ipv6_key b destination p' q' → p = p' ∧ q = q'.
Proof. by intros [= -> ->]. Qed.

(** The workload behind an address, or the external endpoint. *)
Definition ipv6_source (ipv6_endpoints : list Ipv6Endpoint) (address : Z) : Endpoint :=
  match List.find (λ e, ep6_address e =? address) ipv6_endpoints with
  | Some e => ep6_endpoint e
  | None => external_endpoint
  end.

Lemma known_ipv6_source conflict ipv6_endpoints m address :
  known_addresses conflict
    (map (λ source, (ep6_address source, ep6_endpoint source)) ipv6_endpoints) = Ok m →
  default external_endpoint (m !! address) = ipv6_source ipv6_endpoints address ∧
  (address ∈ dom m ↔ ∃ e, e ∈ ipv6_endpoints ∧ ep6_address e = address).
Proof.
  intros H. pose proof (known_addresses_spec _ _ _ H address) as Hm.
  setoid_rewrite elem_of_list_map in Hm. split.
  - unfold ipv6_source. destruct (List.find _ _) as [e|] eqn:E.
    + apply find_some in E as [Hin Heq%Z.eqb_eq]. apply list_elem_of_In in Hin.
      rewrite (proj2 (Hm (ep6_endpoint e))); [done|]. exists e. by rewrite Heq.
    + destruct (m !! address) as [x|]; [|done].
      destruct (proj1 (Hm x) eq_refl) as (e & Hin & [= -> ->]). apply list_elem_of_In in Hin.
      apply (find_none _ _ E) in Hin. by rewrite Z.eqb_refl in Hin.
  - rewrite elem_of_dom. unfold is_Some. setoid_rewrite Hm. naive_solver.
Qed.

(** *** What an external source matches, every source matches *)

(** Native policies carry no address blocks, and NetworkPolicies deny by default. *)
Definition origin_shape (policies : list PolicyIr) : Prop :=
  Forall (λ policy, match pol_origin policy with
    | Native => Forall (λ rule, blockless (rule_source rule)) (pol_rules policy)
    | KubernetesNetworkPolicy => pol_default_action policy ≠ ActAudit
    end) policies.

Lemma external_provenance policies destination p port a source b :
  origin_shape policies →
  has_policy_provenance (evaluate policies
    (flow_of external_endpoint destination p port None (Some a))) = true →
  has_policy_provenance (evaluate policies
    (flow_of source destination p port None (Some b))) = true.
Proof.
  unfold origin_shape. rewrite Forall_forall. intros Hshape. unfold evaluate, evaluate_for_direction. rewrite !provenance_iff.
  intros (mode & Hc). exists mode. rewrite candidate_exists in Hc |- *.
  destruct Hc as (pol & Hpol & Hm & Hor). exists pol. split_and!; [done..|].
  destruct Hor as [Hd|(r & Hr & Hrm & Hact)]; [by left|].
  apply elem_of_applicable in Hpol as (Hin & _). specialize (Hshape pol Hin).
  destruct (pol_origin pol); [right|by left].
  exists r. split_and!; [done| |done]. rewrite Forall_forall in Hshape.
  unfold rule_matches in *. rewrite !andb_true_iff in *. simpl in *.
  destruct Hrm as [[[Hs ?] ?] ?]. split_and!; try done. by apply (external_selector _ None (Some a)); auto; intros [[] ?].
Qed.

Lemma origin_shape_strip policies : origin_shape policies → origin_shape (global_fallback_policies policies).
Proof.
  unfold origin_shape. rewrite global_fallback_strip, !Forall_forall. intros H q.
  intros (p & Hp & ->)%elem_of_list_map. specialize (H p Hp). simpl.
  destruct (pol_origin p); [|done]. rewrite Forall_forall in *.
  intros r [Hr _]%elem_of_list_filter. auto.
Qed.

(** *** The map *)

Definition source_ipv6_blocks (policies : list PolicyIr) : list Ipv6Block :=
  List.flat_map (λ rule, sel_ipv6_blocks (rule_source rule)) (List.flat_map pol_rules policies).

(** The prefixes the source decisions may change at. *)
Definition source_boundaries (policies : list PolicyIr) (known : gmap Z Endpoint) : list Ipv6Cidr :=
  bset_iter (ipv6_boundaries (source_ipv6_blocks policies) known).

(** The entries of a destination and a boundary. *)
Definition ipv6_item_pair (policies : list PolicyIr) (known : gmap Z Endpoint)
    (boundaries : list Ipv6Cidr) (item : Endpoint * Ipv6Cidr) : list Ipv6PolicyMapEntry :=
  match uncovered_ipv6_address item.2 (inner_boundaries boundaries item.2) with
  | None => []
  | Some r =>
      ipv6_pair policies (default external_endpoint (known !! r)) r item.2 item.1
  end.

Lemma elem_of_ipv6_item_pair policies known boundaries d c e :
  e ∈ ipv6_item_pair policies known boundaries (d, c) →
  ∃ source address, e ∈ ipv6_pair policies source address c d.
Proof.
  unfold ipv6_item_pair. cbn [fst snd].
  destruct (uncovered_ipv6_address _ _); [by eauto|by intros ?%not_elem_of_nil].
Qed.

Lemma ipv6_item_pair_key policies known boundaries d c e :
  e ∈ ipv6_item_pair policies known boundaries (d, c) → ∃ p q, entry_key e = ipv6_key c d p q.
Proof.
  unfold ipv6_item_pair. cbn [fst snd]. destruct (uncovered_ipv6_address _ _).
  - apply pair_plain_key.
  - by intros ?%not_elem_of_nil.
Qed.

Lemma compile_ipv6_Ok policies endpoints ipv6_endpoints entries :
  compile_ipv6_dataplane_entries policies endpoints ipv6_endpoints = Ok entries →
  ∃ m known,
    ensure_ingress_dataplane_policies policies = Ok () ∧
    unique_endpoints endpoints = Ok m ∧
    known_addresses Ipv6MetadataConflict
      (map (λ source, (ep6_address source, ep6_endpoint source)) ipv6_endpoints) = Ok known ∧
    entries ≡ₚ List.flat_map (ipv6_item_pair policies known (source_boundaries policies known))
      (list_prod (btree_values m) (source_boundaries policies known)).
Proof.
  unfold compile_ipv6_dataplane_entries. fold (source_ipv6_blocks policies).
  destruct (ensure_ingress_dataplane_policies policies) as [[]|]; [|done].
  destruct (unique_endpoints endpoints) as [m|]; [|done].
  destruct (known_addresses _ _) as [known|]; [|done].
  destruct (_ <? _); [done|]. intros H. exists m, known. split_and!; [done..|]. revert H.
  unfold source_boundaries.
  rewrite (nested_push _ (λ d b, ipv6_item_pair policies known
    (bset_iter (ipv6_boundaries (source_ipv6_blocks policies) known)) (d, b))).
  2:{ intros d b es _. unfold ipv6_item_pair. simpl. destruct (uncovered_ipv6_address _ _); [|done].
      apply compile_ipv6_pair_spec. }
  destruct (push_all [] _) as [es|] eqn:E1; [|done]. apply push_all_Ok in E1 as [-> _].
  intros [= <-]. unfold sort_by_key. rewrite sort_by_perm. simpl.
  apply reflexive_eq, flat_map_ext. by intros [].
Qed.

Lemma elem_of_ipv6_boundaries blocks (known : gmap Z Endpoint) c :
  c ∈ ipv6_boundaries blocks known ↔
  c = {| c6_network := 0; c6_prefix_len := 0 |} ∨
  (∃ block, block ∈ blocks ∧ (c = blk6_cidr block ∨ c ∈ blk6_except block)) ∨
  (∃ a, a ∈ dom known ∧ c = {| c6_network := a; c6_prefix_len := 128 |}).
Proof.
  unfold ipv6_boundaries. rewrite !elem_of_union, elem_of_singleton, elem_of_list_to_set.
  rewrite elem_of_map, elem_of_list_flat_map. setoid_rewrite elem_of_cons. naive_solver.
Qed.

Section Ipv6Map.
Context (policies : list PolicyIr) (endpoints : list Endpoint).
Context (entries : list Ipv6PolicyMapEntry).
Context (m : gmap IdentityId Endpoint) (known : gmap Z Endpoint).
Context (Hwf : wf_policies policies) (Hwfe : ∀ e, e ∈ endpoints → wf_endpoint e).
Context (Hshape : origin_shape policies).
Context (Hblk : Forall (λ b, wf_cidr6 (blk6_cidr b) ∧ Forall wf_cidr6 (blk6_except b))
  (source_ipv6_blocks policies)).
Context (Hknown : ∀ k, k ∈ dom known → in_width 128 k).
Context (Hm : unique_endpoints endpoints = Ok m).
Context (Hentries : entries ≡ₚ List.flat_map (ipv6_item_pair policies known (source_boundaries policies known))
  (list_prod (btree_values m) (source_boundaries policies known))).

Lemma boundaries_wf : Forall wf_cidr6 (source_boundaries policies known).
Proof.
  apply Forall_forall. intros c. unfold source_boundaries. rewrite elem_of_bset_iter, elem_of_ipv6_boundaries.
  rewrite Forall_forall in Hblk. intros [->|[(b & Hb & Hc)|(k & Hk & ->)]].
  - split; [simpl; lia|split; [unfold in_width; simpl; lia|done]].
  - destruct (Hblk b Hb) as [? Hex]. rewrite Forall_forall in Hex. destruct Hc as [->|?]; auto.
  - split; [simpl; lia|split; [by apply Hknown|apply Z.mod_1_r]].
Qed.

(** The entries of a destination whose key matches a tuple and an address. *)
Lemma ipv6_matching e d pr po a :
  d ∈ endpoints →
  e ∈ entries ∧ trie_match (ep_identity d) pr po a (entry_key e) = true ↔
  ∃ c, c ∈ source_boundaries policies known ∧ Ipv6Cidr_contains c a = true ∧
    e ∈ ipv6_item_pair policies known (source_boundaries policies known) (d, c) ∧ entry_key e = ipv6_key c d pr po.
Proof.
  intros Hd. destruct (endpoint_values _ _ Hm) as (_ & Hin & Hid).
  rewrite Hentries, elem_of_list_flat_map. split.
  - intros [([d' c] & [Hd' Hc]%elem_of_list_prod & He) Ht]. simpl in *.
    destruct (ipv6_item_pair_key _ _ _ _ _ _ He) as (p & q & Hk).
    unfold trie_match in Ht. rewrite Hk, !andb_true_iff, !Z.eqb_eq in Ht. simpl in Ht.
    destruct Ht as [[[Hdd ->] ->] Hca].
    assert (d' = d) as -> by (apply Hid; [done|by apply Hin|done]).
    exists c. split_and!; done.
  - intros (c & Hc & Hca & He & Hk). split.
    + exists (d, c). rewrite elem_of_list_prod. split; [split; [by apply Hin|exact Hc]|exact He].
    + unfold trie_match. rewrite Hk. simpl. rewrite !Z.eqb_refl. destruct c. exact Hca.
Qed.

(** An entry of a shallower boundary is overridden by one of the deepest. *)
Lemma ipv6_overridden e d pr po a b c :
  in_width 128 a → deepest (source_boundaries policies known) a b →
  c ∈ source_boundaries policies known → Ipv6Cidr_contains c a = true →
  e ∈ ipv6_item_pair policies known (source_boundaries policies known) (d, c) →
  entry_key e = ipv6_key c d pr po →
  ∃ e', e' ∈ ipv6_item_pair policies known (source_boundaries policies known) (d, b) ∧
    entry_key e' = ipv6_key b d pr po.
Proof.
  intros Ha Hb Hc Hca He Hk. destruct (decide (c = b)) as [->|Hne]; [by exists e|].
  destruct (deepest_representative _ boundaries_wf a Ha b Hb) as (r & Hr & _).
  unfold ipv6_item_pair in *. simpl in *. rewrite Hr.
  destruct (uncovered_ipv6_address c _) as [x|] eqn:Ex; [|by apply not_elem_of_nil in He].
  assert (Hx : known !! x = None).
  { apply not_elem_of_dom. intros Hx.
    apply (shallower_representative _ boundaries_wf a Ha b Hb c x x Hc Hca Hne Ex); [|done].
    unfold source_boundaries. rewrite elem_of_bset_iter, elem_of_ipv6_boundaries. eauto. }
  rewrite Hx in He. simpl in He. unfold ipv6_pair, evaluated_plain in *.
  apply elem_of_pair_plain in He.
  destruct He as [[Hp ->]|[(p & HW & Hp & ->)|(p & port & HX & Hp & ->)]]; simpl in Hk;
    injection Hk as <- <-.
  - eexists (mk_entry _ 0 0 _). split; [|reflexivity]. apply elem_of_pair_plain. left.
    split; [|reflexivity]. revert Hp. apply external_provenance. by apply origin_shape_strip.
  - eexists (mk_entry _ (protocol_u8 p) 0 _). split; [|reflexivity]. apply elem_of_pair_plain.
    right. left. exists p. split; [exact HW|]. split; [|reflexivity].
    revert Hp. by apply external_provenance.
  - eexists (mk_entry _ (protocol_u8 p) port _). split; [|reflexivity]. apply elem_of_pair_plain.
    right. right. exists p, port. split; [exact HX|]. split; [|reflexivity].
    revert Hp. by apply external_provenance.
Qed.

Lemma ipv6_item_NoDup d b :
  d ∈ endpoints →
  NoDup (map entry_key (ipv6_item_pair policies known (source_boundaries policies known) (d, b))).
Proof.
  intros Hd. unfold ipv6_item_pair. destruct (uncovered_ipv6_address _ _); [|constructor].
  apply evaluated_plain_NoDup; [done|by apply Hwfe|apply ipv6_key_inj].
Qed.

(** Longest prefix match finds the entries of the deepest boundary. *)
Lemma lpm_deepest d a b pr po v :
  d ∈ endpoints → in_width 128 a → deepest (source_boundaries policies known) a b →
  lpm_at entries d pr po a = Some v ↔
  holds (ipv6_item_pair policies known (source_boundaries policies known) (d, b))
    (ipv6_key b d pr po) v.
Proof.
  intros Hd Ha Hb. pose proof (longest_spec (λ e, pk6_source_prefix_len (entry_key e))
    (λ e, trie_match (ep_identity d) pr po a (entry_key e)) entries) as Hg.
  assert (Hbest : ∀ e', e' ∈ ipv6_item_pair policies known (source_boundaries policies known) (d, b) →
    entry_key e' = ipv6_key b d pr po → e' ∈ entries ∧ trie_match (ep_identity d) pr po a (entry_key e') = true).
  { intros e' He' Hk'. apply ipv6_matching; [done|]. exists b. destruct Hb as (? & ? & _). done. }
  unfold lpm_at, lpm_get, holds. destruct (longest _ _ _) as [e|]; simpl.
  - destruct Hg as (He & Hte & Hmax).
    apply (conj He), ipv6_matching in Hte as (c & Hc & Hca & Hec & Hk); [|done].
    destruct (ipv6_overridden e d pr po a b c) as (e' & He' & Hk'); [done..|].
    assert (c = b) as ->.
    { apply (deepest_unique _ boundaries_wf a Ha b Hb); [done..|].
      destruct (Hbest e' He' Hk') as [Hin Ht]. specialize (Hmax e' Hin Ht).
      by rewrite Hk, Hk' in Hmax. }
    split; [intros [= <-]; by exists e|]. intros (e2 & He2 & Hk2 & <-). f_equal. f_equal.
    apply (NoDup_map_elem entry_key) with
      (l := ipv6_item_pair policies known (source_boundaries policies known) (d, b)); try done.
    + by apply ipv6_item_NoDup.
    + congruence.
  - split; [done|]. intros (e2 & He2 & Hk2 & _). destruct (Hbest e2 He2 Hk2) as [Hin Ht].
    by rewrite Hg in Ht.
Qed.
End Ipv6Map.

(** ** The IPv6 map decides like the evaluator *)

(** Addresses in the same boundaries satisfy the same source selectors. *)
Lemma same_blocks policies known r a policy rule endpoint :
  (∀ c, c ∈ source_boundaries policies known → Ipv6Cidr_contains c r = Ipv6Cidr_contains c a) →
  policy ∈ policies → rule ∈ pol_rules policy →
  IdentitySelector_matches_addressed (rule_source rule) endpoint None (Some r)
  = IdentitySelector_matches_addressed (rule_source rule) endpoint None (Some a).
Proof.
  intros Hsame Hp Hr. unfold IdentitySelector_matches_addressed. do 3 f_equal.
  apply existsb_ext_elem. intros b Hb.
  assert (Hin : ∀ c, c = blk6_cidr b ∨ c ∈ blk6_except b →
    Ipv6Cidr_contains c r = Ipv6Cidr_contains c a).
  { intros c Hc. apply Hsame. unfold source_boundaries.
    rewrite elem_of_bset_iter, elem_of_ipv6_boundaries. right. left. exists b. split; [|done].
    unfold source_ipv6_blocks. apply elem_of_list_flat_map. exists rule. split; [|done].
    apply elem_of_list_flat_map. by exists policy. }
  unfold Ipv6Block_contains. rewrite Hin by by left. do 2 f_equal.
  apply existsb_ext_elem. intros c Hc. apply Hin. by right.
Qed.

(** Addresses in the same boundaries belong to the same workload. *)
Lemma same_source policies (known : gmap Z Endpoint) r a :
  (∀ c, c ∈ source_boundaries policies known → Ipv6Cidr_contains c r = Ipv6Cidr_contains c a) →
  (∀ k, k ∈ dom known → in_width 128 k) → in_width 128 r → in_width 128 a →
  known !! r = known !! a.
Proof.
  intros Hsame Hknown Hr Ha.
  assert (Hk : ∀ k, k ∈ dom known → k = r ∨ k = a → r = a).
  { intros k Hk Hor. assert (Hw : wf_cidr6 {| c6_network := k; c6_prefix_len := 128 |}).
    { split; [simpl; lia|split; [by apply Hknown|apply Z.mod_1_r]]. }
    assert (Hc : Ipv6Cidr_contains {| c6_network := k; c6_prefix_len := 128 |} r
      = Ipv6Cidr_contains {| c6_network := k; c6_prefix_len := 128 |} a).
    { apply Hsame. unfold source_boundaries. rewrite elem_of_bset_iter, elem_of_ipv6_boundaries.
      right. right. by exists k. }
    apply bool_eq_iff in Hc.
    rewrite !Ipv6Cidr_contains_iff in Hc by done.
    unfold c6_size in Hc. cbn [c6_network c6_prefix_len] in Hc. change (2 ^ (128 - 128)) with 1 in Hc. lia. }
  destruct (known !! r) as [e|] eqn:Er.
  { apply elem_of_dom_2 in Er as Hd. rewrite (Hk r) in Er by auto. done. }
  destruct (known !! a) as [e|] eqn:Ea; [|done].
  apply elem_of_dom_2 in Ea as Hd. rewrite <-(Hk a) in Ea by auto. congruence.
Qed.

(** What the IPv6 map relies on: canonical source blocks, 128-bit workload addresses,
    block-free native policies and NetworkPolicies that deny by default. *)
Definition ipv6_inputs (policies : list PolicyIr) (ipv6_endpoints : list Ipv6Endpoint) : Prop :=
  Forall (λ b, wf_cidr6 (blk6_cidr b) ∧ Forall wf_cidr6 (blk6_except b))
    (source_ipv6_blocks policies) ∧
  origin_shape policies ∧ Forall (λ e, in_width 128 (ep6_address e)) ipv6_endpoints.

(** The dataplane's order on the IPv6 map: one longest prefix match per tuple. *)
Definition ipv6_lookup (entries : list Ipv6PolicyMapEntry) (address : Z) (destination : Endpoint)
    (protocol port : Z) : option (PolicyDecisionRecord * option PolicyDecisionRecord) :=
  lookup_tuple (λ pr po, lpm_at entries destination pr po address) protocol port.

Lemma ipv6_lowering policies endpoints ipv6_endpoints entries a destination p port :
  compile_ipv6_dataplane_entries policies endpoints ipv6_endpoints = Ok entries →
  wf_policies policies → Forall wf_endpoint endpoints → ipv6_inputs policies ipv6_endpoints →
  destination ∈ endpoints → in_width 128 a →
  ipv6_lookup entries a destination (protocol_u8 p) port
  = decided (evaluate policies
      (flow_of (ipv6_source ipv6_endpoints a) destination p port None (Some a))).
Proof.
  intros (m & known & Hdir & Hm & Hk & He)%compile_ipv6_Ok Hwf Hwfe (Hblk & Hshape & Haddr) Hd Ha.
  rewrite Forall_forall in Hwfe. rewrite Forall_forall in Haddr.
  assert (Hknown : ∀ k, k ∈ dom known → in_width 128 k).
  { intros k Hin. apply (known_ipv6_source _ _ _ k Hk) in Hin as (e & Hin & <-). auto. }
  pose proof (boundaries_wf policies known Hblk Hknown) as Hbw.
  destruct (deepest_exists (source_boundaries policies known) a) as [b Hb].
  { exists {| c6_network := 0; c6_prefix_len := 0 |}. split.
    - unfold source_boundaries. rewrite elem_of_bset_iter, elem_of_ipv6_boundaries. by left.
    - apply Ipv6Cidr_contains_iff; [|done|exact Ha].
      split; [simpl; lia|split; [unfold in_width; simpl; lia|done]]. }
  destruct (deepest_representative _ Hbw a Ha b Hb) as (r & Hr & Hrw & Hsame).
  destruct (known_ipv6_source _ _ _ a Hk) as [<- _].
  rewrite <-(same_source policies known r a) by done.
  transitivity (decided (evaluate policies
    (flow_of (default external_endpoint (known !! r)) destination p port None (Some r)))).
  2:{ apply decided_ext, records_flow_ext; [done|]. intros pol rule Hpol Hrule.
      unfold rule_matches. simpl. by rewrite (same_blocks policies known r a pol). }
  apply (evaluated_plain_lookup policies Ingress _ destination None (Some r)
    DestinationAddresses_default Hwf (Hwfe _ Hd) (ipv6_keep destination)
    (ipv6_keep_relevant _ r destination) (ipv6_key b destination) (ipv6_key_inj b destination)
    (λ pr po, lpm_at entries destination pr po a)).
  intros pr po v. rewrite (lpm_deepest policies endpoints entries m known Hwf Hwfe Hshape Hblk
    Hknown Hm He destination a b) by done.
  unfold ipv6_item_pair. cbn [fst snd]. by rewrite Hr.
Qed.

(** The IPv6 map decides like the evaluator: for every 128-bit source address,
    known or external, longest prefix match on the exact tuple, then on the protocol
    wildcard, then on the global fallback yields exactly the decision of evaluating
    the policies with that source address; nested blocks, exceptions and workload
    addresses override each other as the evaluator says. *)
Lemma ipv6_lowering_correct policies endpoints ipv6_endpoints entries a destination p port :
  compile_ipv6_dataplane_entries policies endpoints ipv6_endpoints = Ok entries →
  wf_policies policies → Forall wf_endpoint endpoints → ipv6_inputs policies ipv6_endpoints →
  destination ∈ endpoints → in_width 128 a →
  ipv6_lookup entries a destination (protocol_u8 p) port
  = decided (evaluate policies
      (flow_of (ipv6_source ipv6_endpoints a) destination p port None (Some a))).
Proof. apply ipv6_lowering. Qed.

(** ** Witness: 2001:db8::/32 without 2001:db8:1::/48, around a known workload. *)

Definition demo_ipv6 (segment host : Z) : Z :=
  0x2001 * 2 ^ 112 + 0x0db8 * 2 ^ 96 + segment * 2 ^ 80 + host.

Definition demo_block6 : Ipv6Block := {|
  blk6_cidr := {| c6_network := demo_ipv6 0 0; c6_prefix_len := 32 |};
  blk6_except := [{| c6_network := demo_ipv6 1 0; c6_prefix_len := 48 |}] |}.

Definition demo_policies6 : list PolicyIr :=
  [compatibility_policy_ir 3 "db" "prod" Ingress (demo_app "db")
     [demo_allow 0 (demo_app "web") (PortNumber 5432);
      demo_allow 1 (selector_of_blocks [] [demo_block6]) PortAny]].

Definition demo_ipv6_endpoints : list Ipv6Endpoint :=
  [{| ep6_address := demo_ipv6 1 7; ep6_endpoint := demo_workload 7 "web" |}].

Lemma demo_block6_wf :
  wf_cidr6 (blk6_cidr demo_block6) ∧ Forall wf_cidr6 (blk6_except demo_block6).
Proof.
  split; [|constructor; [|constructor]];
    (split; [simpl; lia|split; [by split|vm_compute; reflexivity]]).
Qed.

