(* ===== verification/LowerEgress.v ===== *)
(** * Egress lowering: the IPv4 destination map is correct, the IPv6 one is not

    The IPv4 map answers like the evaluator for every destination address.  In the
    IPv6 map an exception inside a block does not override the block's tuples. *)

From S2P Require Import Prelude Common PolicyIr PolicyCompile NetworkPolicy PolicyLower.
From S2P Require Import PolicyLowerSpec PolicyLowerFacts LowerAddresses LowerIngress.

(** ** IPv4 destinations *)

Definition egress_key (source : Endpoint) (address protocol port : Z) : EgressIpv4PolicyMapKey :=
  {| ek4_source_identity := ep_identity source; ek4_destination_address := address;
     ek4_protocol := protocol; ek4_destination_port := port |}.

Definition egress_keep (source destination : Endpoint) (ipv4 : option Z) (rule : PolicyRule) : bool :=
  IdentitySelector_matches_addressed (rule_source rule) source None None
  && IdentitySelector_matches_addressed (rule_destination rule) destination ipv4 None.

Definition ipv4_destination (ipv4 : option Z) : DestinationAddresses :=
  {| dst_ipv4 := ipv4; dst_ipv6 := None |}.

Definition egress_pair (policies : list PolicyIr) (source destination : Endpoint)
    (ipv4 : option Z) (address : Z) : list EgressIpv4PolicyMapEntry :=
  evaluated_pair policies Egress source destination None None (ipv4_destination ipv4)
    (egress_keep source destination ipv4) (egress_key source address).

Lemma compile_egress_ipv4_pair_spec policies source destination ipv4 address entries :
  compile_egress_ipv4_pair policies (global_fallback_policies policies) source destination ipv4
    address entries
  = push_all entries (egress_pair policies source destination ipv4 address).
Proof. unfold egress_pair, evaluated_pair. rewrite <-lower_inherit_spec. reflexivity. Qed.

Lemma egress_keep_relevant source destination ipv4 rule :
  endpoints_match (rule_source rule) (rule_destination rule)
    (flow_of source destination Tcp 0 None None) (ipv4_destination ipv4) = true →
  egress_keep source destination ipv4 rule = true.
Proof. done. Qed.

Lemma egress_key_inj source address p q p' q' :
  egress_key source address p q = egress_key source address p' q' → p = p' ∧ q = q'.
Proof. by intros [= -> ->]. Qed.

Definition targeted (policies : list PolicyIr) (endpoint : Endpoint) : bool :=
  existsb (λ policy, IdentitySelector_matches (pol_target policy) endpoint) policies.

Definition destination_ipv4_blocks (policies : list PolicyIr) : list Ipv4Block :=
  List.flat_map (λ rule, sel_ipv4_blocks (rule_destination rule)) (List.flat_map pol_rules policies).

(** The pairs of the egress map: every source with every listed address, and with
    address zero if a policy selects it. *)
Definition egress_items (s : gset Z) (policies : list PolicyIr) (sources : list Endpoint) :
    list (Endpoint * Z) :=
  List.flat_map (λ source, map (pair source) (bset_iter s)
    ++ (if targeted policies source then [(source, 0)] else [])) sources.

Definition egress_item_pair (policies : list PolicyIr) (known : gmap Z Endpoint) (s : gset Z)
    (item : Endpoint * Z) : list EgressIpv4PolicyMapEntry :=
  if item.2 =? 0
  then egress_pair policies item.1 external_endpoint
         (fallback_ipv4 (destination_ipv4_blocks policies) s) 0
  else egress_pair policies item.1 (default external_endpoint (known !! item.2)) (Some item.2) item.2.

Lemma compile_egress_ipv4_Ok policies endpoints ipv4_endpoints entries :
  compile_egress_ipv4_dataplane_entries policies endpoints ipv4_endpoints = Ok entries →
  ∃ m known s,
    ensure_egress_dataplane_policies policies = Ok () ∧
    unique_endpoints endpoints = Ok m ∧
    known_addresses EgressIpv4MetadataConflict
      (map (λ destination, (ep4_address destination, ep4_endpoint destination)) ipv4_endpoints)
      = Ok known ∧
    check_ipv4_block_sizes (destination_ipv4_blocks policies) = Ok () ∧
    insert_ipv4_addresses (dom known) (listed_ipv4_addresses (destination_ipv4_blocks policies))
      = Ok s ∧
    ((0 ∉ s) → entries ≡ₚ List.flat_map (egress_item_pair policies known s)
                            (egress_items s policies (btree_values m))).
Proof.
  unfold compile_egress_ipv4_dataplane_entries. fold (destination_ipv4_blocks policies).
  destruct (ensure_egress_dataplane_policies policies) as [[]|]; [|done].
  destruct (unique_endpoints endpoints) as [m|]; [|done].
  destruct (known_addresses _ _) as [known|]; [|done].
  destruct (check_ipv4_block_sizes _) as [[]|]; [|done]. destruct (_ <? _); [done|].
  destruct (insert_ipv4_addresses _ _) as [s|] eqn:Es; [|done].
  intros H. exists m, known, s. split_and!; [done..|]. intros H0. revert H.
  rewrite (try_fold_ext _ (λ es src, push_all es (List.flat_map (egress_item_pair policies known s)
    (map (pair src) (bset_iter s) ++ (if targeted policies src then [(src, 0)] else []))))).
  2:{ intros es src _. rewrite flat_map_app, push_all_app.
      rewrite (try_fold_ext _ (λ es a, push_all es (egress_item_pair policies known s (src, a)))).
      2:{ intros es' a Ha. rewrite elem_of_bset_iter in Ha. unfold egress_item_pair. simpl.
          rewrite (proj2 (Z.eqb_neq a 0)) by (intros ->; done). apply compile_egress_ipv4_pair_spec. }
      rewrite push_all_flat_map, flat_map_map.
      destruct (push_all es _) as [es'|]; [|done]. fold (targeted policies src).
      destruct (targeted policies src); [|done]. cbn [List.flat_map]. rewrite app_nil_r.
      apply compile_egress_ipv4_pair_spec. }
  rewrite push_all_flat_map. destruct (push_all _ _) as [es|] eqn:E2; [|done].
  apply push_all_Ok in E2 as [-> _]. intros [= <-]. unfold sort_by_key. rewrite sort_by_perm.
  apply reflexive_eq. unfold egress_items. generalize (btree_values m) as l. intros l.
  simpl. induction l as [|x l IH]; simpl; [done|]. by rewrite IH, !flat_map_app.
Qed.

Section EgressMap.
Context (policies : list PolicyIr) (endpoints : list Endpoint).
Context (entries : list EgressIpv4PolicyMapEntry).
Context (m : gmap IdentityId Endpoint) (known : gmap Z Endpoint) (s : gset Z).
Context (Hwf : wf_policies policies) (Hwfk : ∀ a e, known !! a = Some e → wf_endpoint e).
Context (Hm : unique_endpoints endpoints = Ok m) (H0 : 0 ∉ s).
Context (Hentries : entries ≡ₚ List.flat_map (egress_item_pair policies known s)
                      (egress_items s policies (btree_values m))).

Lemma elem_of_egress_items x a :
  (x, a) ∈ egress_items s policies (btree_values m) ↔
  x ∈ endpoints ∧ (a ∈ s ∨ (a = 0 ∧ targeted policies x = true)).
Proof.
  destruct (endpoint_values _ _ Hm) as (_ & Hin & _).
  unfold egress_items. rewrite elem_of_list_flat_map. split.
  - intros (y & Hy%Hin & [(b & Hb & [= -> ->])%elem_of_list_map|Ht]%elem_of_app).
    { rewrite elem_of_bset_iter in Hb. auto. }
    destruct (targeted policies y) eqn:E; [|by apply not_elem_of_nil in Ht].
    apply list_elem_of_singleton in Ht as [= -> ->]. auto.
  - intros [Hx [Ha|[-> Ht]]]; exists x; (split; [by apply Hin|]);
      apply elem_of_app; [left|right; rewrite Ht; by left].
    apply elem_of_list_map. exists a. by rewrite elem_of_bset_iter.
Qed.

Lemma egress_items_NoDup : NoDup (egress_items s policies (btree_values m)).
Proof.
  destruct (endpoint_values _ _ Hm) as (Hnd & _ & _). apply NoDup_flat_map; [done|..].
  - intros x _. apply NoDup_app. split_and!.
    + apply NoDup_fmap_2_strong; [by intros ? ? _ _ [= ->]|apply bset_iter_NoDup].
    + intros xy (a & Ha & ->)%elem_of_list_map. rewrite elem_of_bset_iter in Ha.
      destruct (targeted policies x); [|apply not_elem_of_nil].
      intros [= ->]%list_elem_of_singleton. done.
    + destruct (targeted policies x); [apply NoDup_singleton|constructor].
  - assert (Hfst : ∀ x (b : Endpoint * Z), b ∈ map (pair x) (bset_iter s)
      ++ (if targeted policies x then [(x, 0)] else []) → b.1 = x).
    { intros x b [(a & _ & ->)%elem_of_list_map|Ht]%elem_of_app; [done|].
      destruct (targeted policies x); [|by apply not_elem_of_nil in Ht].
      by apply list_elem_of_singleton in Ht as ->. }
    intros x y b _ _ <-%Hfst <-%Hfst. done.
Qed.

Lemma egress_item_key item e :
  e ∈ egress_item_pair policies known s item → ∃ p q, entry_key e = egress_key item.1 item.2 p q.
Proof.
  unfold egress_item_pair. destruct item as [x a]. simpl.
  destruct (Z.eqb_spec a 0) as [->|]; apply pair_inherit_key.
Qed.

Lemma egress_at item pr po v :
  item ∈ egress_items s policies (btree_values m) →
  entry_at entries (egress_key item.1 item.2 pr po) = Some v ↔
  holds (egress_item_pair policies known s item) (egress_key item.1 item.2 pr po) v.
Proof.
  destruct (endpoint_values _ _ Hm) as (Hnd & Hin & Hid).
  apply (union_lookup (λ item, egress_key item.1 item.2) (egress_item_pair policies known s)
    (egress_items s policies (btree_values m))); [apply egress_items_NoDup|..|exact Hentries].
  - intros [x a] [x' a'] p q p' q' [Hd _]%elem_of_egress_items [Hd' _]%elem_of_egress_items.
    simpl. intros [= Hi -> -> ->]. rewrite (Hid x x'); rewrite ?Hin; done.
  - intros it e _. apply egress_item_key.
  - intros [x a] _. unfold egress_item_pair. simpl.
    destruct (a =? 0); (apply evaluated_pair_NoDup; [done| |apply egress_key_inj]).
    + apply external_endpoint_wf.
    + destruct (known !! a) eqn:E; [by eapply Hwfk|apply external_endpoint_wf].
Qed.

Lemma egress_lookup_listed x a p port :
  a ∈ s → x ∈ endpoints →
  lookup_tuple (λ pr po, entry_at entries (egress_key x a pr po)) (protocol_u8 p) port
  = decided (evaluate_for_direction_with_addresses policies Egress
      (flow_of x (default external_endpoint (known !! a)) p port None None)
      (ipv4_destination (Some a))).
Proof.
  intros Ha Hx. assert (a ≠ 0) as Hne by by intros ->.
  assert (Hd : wf_endpoint (default external_endpoint (known !! a))).
  { destruct (known !! a) eqn:E; [by eapply Hwfk|apply external_endpoint_wf]. }
  apply (evaluated_pair_lookup policies Egress x _ None None (ipv4_destination (Some a)) Hwf Hd
    (egress_keep x _ (Some a)) (egress_keep_relevant x _ (Some a)) (egress_key x a)
    (egress_key_inj x a) (λ pr po, entry_at entries (egress_key x a pr po))).
  intros pr po v. rewrite (egress_at (x, a)) by (apply elem_of_egress_items; auto).
  unfold egress_item_pair. simpl. by rewrite (proj2 (Z.eqb_neq a 0)).
Qed.

Lemma egress_lookup_fallback x p port :
  targeted policies x = true → x ∈ endpoints →
  lookup_tuple (λ pr po, entry_at entries (egress_key x 0 pr po)) (protocol_u8 p) port
  = decided (evaluate_for_direction_with_addresses policies Egress
      (flow_of x external_endpoint p port None None)
      (ipv4_destination (fallback_ipv4 (destination_ipv4_blocks policies) s))).
Proof.
  intros Ht Hx. set (fb := fallback_ipv4 _ _).
  pose proof external_endpoint_wf as Hd.
  apply (evaluated_pair_lookup policies Egress x _ None None (ipv4_destination fb) Hwf Hd
    (egress_keep x _ fb) (egress_keep_relevant x _ fb) (egress_key x 0)
    (egress_key_inj x 0) (λ pr po, entry_at entries (egress_key x 0 pr po))).
  intros pr po v. by rewrite (egress_at (x, 0)) by (apply elem_of_egress_items; auto).
Qed.

Lemma egress_lookup_absent x a p port :
  x ∈ endpoints → (a ∉ s) → (a = 0 → targeted policies x = false) →
  lookup_tuple (λ pr po, entry_at entries (egress_key x a pr po)) p port = None.
Proof.
  intros Hx Ha Ht. destruct (endpoint_values _ _ Hm) as (Hnd & Hin & Hid).
  assert (Hnone : ∀ pr po, entry_at entries (egress_key x a pr po) = None).
  { intros pr po. unfold entry_at. destruct (List.find _ _) as [e|] eqn:E; [|done]. exfalso.
    apply find_some in E as [He Hk%bool_decide_eq_true]. apply list_elem_of_In in He.
    rewrite Hentries, elem_of_list_flat_map in He. destruct He as ([x' a'] & Hi & He).
    destruct (egress_item_key _ _ He) as (p' & q' & Hk').
    rewrite Hk in Hk'. injection Hk' as Hids <- _ _. apply elem_of_egress_items in Hi as [Hx' Hor].
    rewrite <-(Hid x x') in Hor by (rewrite ?Hin; done).
    destruct Hor as [?|[-> Htt]]; [done|]. rewrite Ht in Htt; done. }
  unfold lookup_tuple. by rewrite !Hnone.
Qed.
End EgressMap.

(** Native policies select destinations without blocks; NetworkPolicies deny by default. *)
Definition egress_shape (policies : list PolicyIr) : Prop :=
  Forall (λ policy, match pol_origin policy with
    | Native => Forall (λ rule, blockless (rule_destination rule)) (pol_rules policy)
    | KubernetesNetworkPolicy => pol_default_action policy ≠ ActAudit
    end) policies.

(** A port that matches at the external endpoint, which names none, matches everywhere. *)
Lemma port_matches_external d x destination p port :
  port_matches d (flow_of x external_endpoint p port None None) = true →
  port_matches d (flow_of x destination p port None None) = true.
Proof. by destruct d. Qed.

(** A policy that decides the external fallback decides every destination. *)
Lemma egress_external_provenance policies x p port v4 destination a :
  egress_shape policies →
  has_policy_provenance (evaluate_for_direction_with_addresses policies Egress
    (flow_of x external_endpoint p port None None) (ipv4_destination v4)) = true →
  has_policy_provenance (evaluate_for_direction_with_addresses policies Egress
    (flow_of x destination p port None None) (ipv4_destination (Some a))) = true.
Proof.
  unfold egress_shape. rewrite Forall_forall. intros Hshape.
  rewrite !provenance_iff. intros (mode & Hc). exists mode. rewrite candidate_exists in Hc |- *.
  destruct Hc as (pol & Hpol & Hm & Hor). exists pol. split_and!; [done..|].
  destruct Hor as [Hd|(r & Hr & Hrm & Hact)]; [by left|].
  apply elem_of_applicable in Hpol as (Hin & _). specialize (Hshape pol Hin).
  destruct (pol_origin pol); [right|by left].
  exists r. split_and!; [done| |done]. rewrite Forall_forall in Hshape.
  unfold rule_matches in *. rewrite !andb_true_iff in *. simpl in *.
  destruct Hrm as [[[Hs ?] ?] ?]. split_and!; try done; [|by apply port_matches_external].
  apply (external_selector _ v4 None); [by apply Hshape| |done]. by intros [_ []].
Qed.

(** What the egress map relies on: canonical destination blocks, the policies' shape, and
    no workload at address zero. *)
Definition egress_ipv4_inputs (policies : list PolicyIr) (ipv4_endpoints : list Ipv4Endpoint) : Prop :=
  Forall wf_block4 (destination_ipv4_blocks policies) ∧ egress_shape policies ∧
  Forall (λ e, ep4_address e ≠ 0 ∧ wf_endpoint (ep4_endpoint e)) ipv4_endpoints.

(** The dataplane's order on the egress IPv4 map. *)
Definition egress_ipv4_lookup (entries : list EgressIpv4PolicyMapEntry) (source : Endpoint)
    (address protocol port : Z) : option (PolicyDecisionRecord * option PolicyDecisionRecord) :=
  or_else
    (lookup_tuple (λ pr po, entry_at entries (egress_key source address pr po)) protocol port)
    (lookup_tuple (λ pr po, entry_at entries (egress_key source 0 pr po)) protocol port).

(** No policy selects the source, so nothing decides. *)
Lemma untargeted_undecided policies direction flow addresses :
  targeted policies (selected_endpoint direction flow) = false →
  decided (evaluate_for_direction_with_addresses policies direction flow addresses) = None.
Proof.
  intros Ht. unfold decided. destruct (has_policy_provenance _) eqn:E; [|done]. exfalso.
  apply provenance_iff in E as (mode & (pol & Hpol & _)%candidate_exists).
  apply elem_of_applicable in Hpol as (Hin & _ & Hs). apply not_true_iff_false in Ht. apply Ht.
  apply existsb_exists. exists pol. by rewrite <-list_elem_of_In.
Qed.

Lemma egress_ipv4_lowering policies endpoints ipv4_endpoints entries source a p port :
  compile_egress_ipv4_dataplane_entries policies endpoints ipv4_endpoints = Ok entries →
  wf_policies policies → egress_ipv4_inputs policies ipv4_endpoints →
  source ∈ endpoints → 1 ≤ a < 2 ^ 32 →
  egress_ipv4_lookup entries source a (protocol_u8 p) port
  = decided (evaluate_for_direction_with_addresses policies Egress
      (flow_of source (ipv4_source ipv4_endpoints a) p port None None)
      (ipv4_destination (Some a))).
Proof.
  intros (m & known & s & Hdir & Hm & Hk & Hsizes & Hs & He)%compile_egress_ipv4_Ok Hwf
    (Hblk & Hshape & Hep) Hx Ha. rewrite Forall_forall in Hep.
  pose proof (insert_ipv4_addresses_spec _ _ _ Hs) as Hin.
  destruct (known_ipv4_source _ _ _ a Hk) as [Hsrc Hdom].
  assert (H0 : 0 ∉ s).
  { rewrite Hin. intros [Hz|[_ ?]]; [|done]. apply (known_ipv4_source _ _ _ 0 Hk) in Hz
      as (e & Hine & Hez). by destruct (Hep e Hine). }
  assert (Hwfk : ∀ b e, known !! b = Some e → wf_endpoint e).
  { intros b e Hbe. apply (known_addresses_spec _ _ _ Hk), elem_of_list_map in Hbe
      as (e' & Hin' & [= -> ->]). by apply Hep. }
  specialize (He H0). unfold egress_ipv4_lookup. rewrite <-Hsrc.
  destruct (decide (a ∈ s)) as [Hina|Hnin].
  - rewrite (egress_lookup_listed policies endpoints entries m known s Hwf Hwfk Hm H0 He source a)
      by done. unfold decided at 1 2.
    destruct (has_policy_provenance _) eqn:Ep; [done|]. simpl.
    destruct (targeted policies source) eqn:Et;
      [|by apply (egress_lookup_absent policies endpoints entries m known s Hm He)].
    rewrite (egress_lookup_fallback policies endpoints entries m known s Hwf Hwfk Hm H0 He) by done.
    unfold decided. destruct (has_policy_provenance (evaluate_for_direction_with_addresses _ _
      (flow_of _ external_endpoint _ _ _ _) _)) eqn:Ef; [|done].
    by rewrite (egress_external_provenance _ _ _ _ _ _ a Hshape Ef) in Ep.
  - rewrite (egress_lookup_absent policies endpoints entries m known s Hm He source a)
      by (done || lia). simpl.
    assert (known !! a = None) as ->.
    { apply not_elem_of_dom. intros Hd. apply Hnin, Hin. by left. }
    destruct (targeted policies source) eqn:Et.
    + rewrite (egress_lookup_fallback policies endpoints entries m known s Hwf Hwfk Hm H0 He) by done.
      apply decided_ext, records_flow_ext; [done|]. intros pol r Hpol Hr. unfold rule_matches. simpl.
      rewrite (unlisted_selector (destination_ipv4_blocks policies) s Hblk Hsizes) with (a := a);
        try done.
      * intros b Hb Hne. apply Hin. by right.
      * intros b Hb. unfold destination_ipv4_blocks. apply elem_of_list_flat_map. exists r.
        split; [|done]. apply elem_of_list_flat_map. by exists pol.
    + rewrite untargeted_undecided by done.
      by apply (egress_lookup_absent policies endpoints entries m known s Hm He).
Qed.

(** The egress IPv4 map decides like the evaluator for every destination address,
    known or external: the address's tuples, then those of the fallback address, give
    exactly the decision of evaluating the egress policies with that destination. *)
Lemma egress_ipv4_lowering_correct policies endpoints ipv4_endpoints entries source a p port :
  compile_egress_ipv4_dataplane_entries policies endpoints ipv4_endpoints = Ok entries →
  wf_policies policies → egress_ipv4_inputs policies ipv4_endpoints →
  source ∈ endpoints → 1 ≤ a < 2 ^ 32 →
  egress_ipv4_lookup entries source a (protocol_u8 p) port
  = decided (evaluate_for_direction_with_addresses policies Egress
      (flow_of source (ipv4_source ipv4_endpoints a) p port None None)
      (ipv4_destination (Some a))).
Proof. apply egress_ipv4_lowering. Qed.

(** ** Egress policies compiled from a NetworkPolicy object *)

Definition demo_egress_policy (block : IPBlock) : NetworkPolicy := {|
  np_metadata := named_object "prod" "web";
  np_spec := Some {|
    nps_egress := Some
      [{| eg_ports := Some [{| npp_end_port := None; npp_port := Some (IntVal 443);
                               npp_protocol := None |}];
          eg_to := Some [{| peer_ip_block := Some block; peer_namespace_selector := None;
                            peer_pod_selector := None |}] |}];
    nps_ingress := None;
    nps_pod_selector := Some (demo_app_selector "web");
    nps_policy_types := Some ["Egress"] |} |}.

Definition demo_egress_compiled (block : IPBlock) : list PolicyIr :=
  match compile_directions 5 (demo_egress_policy block) with
  | Ok policies => policies
  | Err _ => []
  end.

Definition demo_egress_policies : list PolicyIr :=
  demo_egress_compiled {| ipb_cidr := "10.1.2.4/31"; ipb_except := Some ["10.1.2.5/32"] |}.


(** ** IPv6 destinations *)

Definition egress_trie_match (source : Endpoint) (protocol port a : Z)
    (k : EgressIpv6PolicyMapKey) : bool :=
  (ek6_source_identity k =? ep_identity source) && (ek6_protocol k =? protocol)
  && (ek6_destination_port k =? port)
  && Ipv6Cidr_contains {| c6_network := ek6_destination_network k;
                          c6_prefix_len := ek6_destination_prefix_len k |} a.

Definition egress_ipv6_lookup (entries : list EgressIpv6PolicyMapEntry) (source : Endpoint)
    (address protocol port : Z) : option (PolicyDecisionRecord * option PolicyDecisionRecord) :=
  lookup_tuple (λ pr po, option_map entry_value
    (lpm_get ek6_destination_prefix_len (egress_trie_match source pr po address) entries))
    protocol port.

(** The entries of a source and a boundary. *)
Definition egress_key6 (source : Endpoint) (b : Ipv6Cidr) (protocol port : Z) :
    EgressIpv6PolicyMapKey :=
  {| ek6_source_identity := ep_identity source; ek6_destination_network := c6_network b;
     ek6_destination_prefix_len := c6_prefix_len b; ek6_protocol := protocol;
     ek6_destination_port := port |}.

Definition egress_pair6 (policies : list PolicyIr) (source destination : Endpoint) (address : Z)
    (b : Ipv6Cidr) : list EgressIpv6PolicyMapEntry :=
  let addresses := {| dst_ipv4 := None; dst_ipv6 := Some address |} in
  evaluated_plain policies Egress source destination None None addresses
    (λ rule, IdentitySelector_matches_addressed (rule_source rule) source None None
       && IdentitySelector_matches_addressed (rule_destination rule) destination None (Some address))
    (egress_key6 source b).

Lemma compile_egress_ipv6_pair_spec policies source destination address b entries :
  compile_egress_ipv6_pair policies (global_fallback_policies policies) source destination address b
    entries = push_all entries (egress_pair6 policies source destination address b).
Proof. unfold egress_pair6, evaluated_plain. rewrite <-lower_plain_spec. reflexivity. Qed.

Definition destination_ipv6_blocks (policies : list PolicyIr) : list Ipv6Block :=
  List.flat_map (λ rule, sel_ipv6_blocks (rule_destination rule)) (List.flat_map pol_rules policies).

Lemma compile_egress_ipv6_entries policies endpoints ipv6_endpoints entries x :
  compile_egress_ipv6_dataplane_entries policies endpoints ipv6_endpoints = Ok entries →
  x ∈ entries →
  ∃ m known source b address, unique_endpoints endpoints = Ok m ∧
    known_addresses EgressIpv6MetadataConflict
      (map (λ y, (ep6_address y, ep6_endpoint y)) ipv6_endpoints) = Ok known ∧
    source ∈ btree_values m ∧ b ∈ ipv6_boundaries (destination_ipv6_blocks policies) known ∧
    x ∈ egress_pair6 policies source (default external_endpoint (known !! address)) address b.
Proof.
  unfold compile_egress_ipv6_dataplane_entries. fold (destination_ipv6_blocks policies).
  destruct (ensure_egress_dataplane_policies policies) as [[]|]; [|done].
  destruct (unique_endpoints endpoints) as [m|]; [|done].
  destruct (known_addresses _ _) as [known|]; [|done]. destruct (_ <? _); [done|].
  destruct (try_fold _ _ _) as [es|] eqn:E; [|done]. intros [= <-] Hx.
  unfold sort_by_key in Hx. rewrite sort_by_perm in Hx. exists m, known.
  set (P (es : list EgressIpv6PolicyMapEntry) := ∀ x, x ∈ es → ∃ source b address,
    source ∈ btree_values m ∧ b ∈ ipv6_boundaries (destination_ipv6_blocks policies) known ∧
    x ∈ egress_pair6 policies source (default external_endpoint (known !! address)) address b).
  assert (P es) as Hall; [|destruct (Hall x Hx) as (source & b & address & ?); by exists source, b, address].
  revert E. apply (try_fold_inv P); [by intros ? ?%not_elem_of_nil|].
  intros acc source acc' Hs Hacc. destruct (negb _); [by intros [= <-]|].
  apply (try_fold_inv P); [done|]. intros acc1 b acc2 Hb Hacc1.
  destruct (uncovered_ipv6_address _ _) as [address|]; [|by intros [= <-]].
  rewrite compile_egress_ipv6_pair_spec. intros [-> _]%push_all_Ok y [Hy|Hy]%elem_of_app; [auto|].
  exists source, b, address. split_and!; [done| |done]. by apply elem_of_bset_iter in Hb.
Qed.

(** An address of 2001:db8:1::/48. *)
Definition demo_excepted : Z := 0x2001 * 2 ^ 112 + 0x0db8 * 2 ^ 96 + 1 * 2 ^ 80 + 9.

Definition demo_egress_block6 : IPBlock :=
  {| ipb_cidr := "2001:db8::/32"; ipb_except := Some ["2001:db8:1::/48"] |}.

Definition demo_egress_entries6 : list EgressIpv6PolicyMapEntry :=
  match compile_egress_ipv6_dataplane_entries (demo_egress_compiled demo_egress_block6)
          demo_endpoints [] with
  | Ok entries => entries
  | Err _ => []
  end.

