(* ===== verification/Bytes.v ===== *)
(** * Byte strings

    Fixed-width integers as byte sequences in both byte orders, writes into a
    zeroed array, and bit prefixes of big-endian byte strings. *)

From S2P Require Import Prelude.

(** A [u8] is an integer below 256. *)
Abbreviation bytes := (list Z).

Inductive Endian := LittleEndian | BigEndian.

#[export] Instance Endian_eq_dec : EqDecision Endian.
Proof. solve_decision. Defined.

Fixpoint le_bytes (n : nat) (v : Z) : bytes :=
  match n with
  | O => []
  | S n => v mod 256 :: le_bytes n (v / 256)
  end.

Fixpoint of_le (b : bytes) : Z :=
  match b with
  | [] => 0
  | x :: b => x + 256 * of_le b
  end.

(** [to_be_bytes], and [octets] of an address. *)
Definition be_bytes (n : nat) (v : Z) : bytes := rev (le_bytes n v).
Definition of_be (b : bytes) : Z := of_le (rev b).

(** [to_ne_bytes] and [from_ne_bytes] on a machine of either byte order. *)
Definition ne_bytes (e : Endian) (n : nat) (v : Z) : bytes :=
  match e with LittleEndian => le_bytes n v | BigEndian => be_bytes n v end.
Definition of_ne (e : Endian) (b : bytes) : Z :=
  match e with LittleEndian => of_le b | BigEndian => of_be b end.

(** [encoded[start..start + n].copy_from_slice(src)] with [src] of length [n]. *)
Definition copy_from_slice (dst : bytes) (start : nat) (src : bytes) : bytes :=
  take start dst ++ src ++ drop (start + length src) dst.

(** [encoded[start..stop]]. *)
Definition slice (b : bytes) (start stop : nat) : bytes := take (stop - start) (drop start b).

Definition zeroes (n : nat) : bytes := replicate n 0.

(** ** Round trips *)

Lemma le_bytes_length n v : length (le_bytes n v) = n.
Proof. revert v. induction n as [|n IH]; intros v; simpl; [done|]. by rewrite IH. Qed.

Lemma be_bytes_length n v : length (be_bytes n v) = n.
Proof. unfold be_bytes. by rewrite length_rev, le_bytes_length. Qed.

Lemma ne_bytes_length e n v : length (ne_bytes e n v) = n.
Proof. destruct e; [apply le_bytes_length|apply be_bytes_length]. Qed.

Lemma of_le_bytes n v : in_width (8 * Z.of_nat n) v → of_le (le_bytes n v) = v.
Proof.
  revert v. induction n as [|n IH]; intros v [H0 H1]; cbn [le_bytes of_le].
  { change (8 * Z.of_nat 0) with 0 in H1. simpl in H1. lia. }
  rewrite IH; [pose proof (Z.div_mod v 256); lia|].
  assert (2 ^ (8 * Z.of_nat (S n)) = 256 * 2 ^ (8 * Z.of_nat n)) as Hp.
  { replace (8 * Z.of_nat (S n)) with (8 + 8 * Z.of_nat n) by lia. by rewrite Z.pow_add_r by lia. }
  split; [apply Z.div_pos; lia|]. apply Z.div_lt_upper_bound; lia.
Qed.

Lemma of_be_bytes n v : in_width (8 * Z.of_nat n) v → of_be (be_bytes n v) = v.
Proof. unfold of_be, be_bytes. rewrite rev_involutive. apply of_le_bytes. Qed.

Lemma of_ne_bytes e n v : in_width (8 * Z.of_nat n) v → of_ne e (ne_bytes e n v) = v.
Proof. destruct e; [apply of_le_bytes|apply of_be_bytes]. Qed.

Lemma ne_bytes_inj e n v w :
  in_width (8 * Z.of_nat n) v → in_width (8 * Z.of_nat n) w →
  ne_bytes e n v = ne_bytes e n w → v = w.
Proof. intros Hv Hw H. apply (f_equal (of_ne e)) in H. by rewrite !of_ne_bytes in H. Qed.

Lemma be_bytes_inj n v w :
  in_width (8 * Z.of_nat n) v → in_width (8 * Z.of_nat n) w → be_bytes n v = be_bytes n w → v = w.
Proof. apply (ne_bytes_inj BigEndian). Qed.

(** ** Byte strings as numbers *)

Definition byte_string (b : bytes) : Prop := Forall (in_width 8) b.

Lemma le_bytes_byte n v : byte_string (le_bytes n v).
Proof.
  revert v. induction n as [|n IH]; intros v; constructor; [|apply IH].
  apply Z.mod_pos_bound. lia.
Qed.

Lemma be_bytes_byte n v : byte_string (be_bytes n v).
Proof. apply Forall_rev, le_bytes_byte. Qed.

Lemma ne_bytes_byte e n v : byte_string (ne_bytes e n v).
Proof. destruct e; [apply le_bytes_byte|apply be_bytes_byte]. Qed.

Lemma of_le_app b c : of_le (b ++ c) = of_le b + 256 ^ Z.of_nat (length b) * of_le c.
Proof.
  induction b as [|x b IH]; simpl of_le; [simpl; lia|]. rewrite IH. simpl length.
  rewrite Nat2Z.inj_succ, Z.pow_succ_r by lia. lia.
Qed.

Lemma of_be_app b c : of_be (b ++ c) = of_be b * 256 ^ Z.of_nat (length c) + of_be c.
Proof. unfold of_be. rewrite rev_app_distr, of_le_app, length_rev. lia. Qed.

Lemma of_le_bound b : byte_string b → 0 ≤ of_le b < 256 ^ Z.of_nat (length b).
Proof.
  induction 1 as [|x b Hx Hb IH]; simpl of_le; [simpl; lia|]. simpl length.
  rewrite Nat2Z.inj_succ, Z.pow_succ_r by lia. unfold in_width in Hx. change (2 ^ 8) with 256 in Hx. lia.
Qed.

Lemma of_be_bound b : byte_string b → 0 ≤ of_be b < 256 ^ Z.of_nat (length b).
Proof.
  intros Hb. unfold of_be. rewrite <-(length_rev b). apply of_le_bound. by apply Forall_rev.
Qed.

Lemma of_le_inj b c :
  byte_string b → byte_string c → length b = length c → of_le b = of_le c → b = c.
Proof.
  intros Hb. revert c. induction Hb as [|x b Hx Hb IH]; intros [|y c] Hc Hl; try done.
  inversion Hc as [|?? Hy Hc']; subst. intros H. simpl in H.
  unfold in_width in Hx, Hy. change (2 ^ 8) with 256 in *.
  assert (x = y ∧ of_le b = of_le c) as [-> Hbc] by lia.
  f_equal. apply IH; [done|by injection Hl|done].
Qed.

Lemma of_be_inj b c :
  byte_string b → byte_string c → length b = length c → of_be b = of_be c → b = c.
Proof.
  intros Hb Hc Hl H. rewrite <-(rev_involutive b), <-(rev_involutive c). f_equal.
  apply of_le_inj; [by apply Forall_rev..| |done]. by rewrite !length_rev.
Qed.
