(* ===== verification/PolicyAbi.v ===== *)
(** * The policy maps' ABI ([ebpf/unf-ebpf-common]) and the agent's encoding of it

    Key, value and configuration structures as the eBPF programs see them, their
    memory layout, the validation and encoding the agent applies to a controller
    snapshot, and that both sides agree on every byte. *)

From S2P Require Import Prelude Common PolicyIr PolicyCompile PolicyLower PolicyLowerSpec Bytes.

(** ** Constants *)

Definition POLICY_MAP_ABI_VERSION : Z := 3.
Definition POLICY_BANK_COUNT : Z := 2.
Definition POLICY_FLAG_HAS_POLICY : Z := Z.shiftl 1 0.
Definition POLICY_FLAG_HAS_RULE : Z := Z.shiftl 1 1.
Definition POLICY_FLAG_HAS_SHADOW : Z := Z.shiftl 1 2.
Definition POLICY_FLAG_SHADOW_HAS_POLICY : Z := Z.shiftl 1 3.
Definition POLICY_FLAG_SHADOW_HAS_RULE : Z := Z.shiftl 1 4.

(** ** Structures shared with the eBPF programs *)

Record AbiPolicyMapKey := {
  ak_source_identity : IdentityId;
  ak_destination_identity : IdentityId;
  ak_destination_port : bytes;
  ak_protocol : Z;
  ak_bank : Z;
}.

Record AbiIpv4PolicyMapKey := {
  ak4_source_address : bytes;
  ak4_destination_identity : IdentityId;
  ak4_destination_port : bytes;
  ak4_protocol : Z;
  ak4_bank : Z;
}.

Record AbiIpv6PolicyMapData := {
  ad6_destination_identity : IdentityId;
  ad6_destination_port : bytes;
  ad6_protocol : Z;
  ad6_bank : Z;
  ad6_source_address : bytes;
}.

Record AbiEgressIpv4PolicyMapKey := {
  aek4_destination_address : bytes;
  aek4_source_identity : IdentityId;
  aek4_destination_port : bytes;
  aek4_protocol : Z;
  aek4_bank : Z;
}.

Record AbiEgressIpv6PolicyMapData := {
  aed6_source_identity : IdentityId;
  aed6_destination_port : bytes;
  aed6_protocol : Z;
  aed6_bank : Z;
  aed6_destination_address : bytes;
}.

Record PolicyMapValue := {
  pv_policy_id : PolicyId;
  pv_rule_id : RuleId;
  pv_shadow_policy_id : PolicyId;
  pv_shadow_rule_id : RuleId;
  pv_revision : Z;
  pv_schema_version : Z;
  pv_flags : Z;
  pv_verdict : Z;
  pv_reason : Z;
  pv_shadow_verdict : Z;
  pv_shadow_reason : Z;
}.

Record PolicyMapConfig := {
  cfg_source_epoch : Z;
  cfg_revision : Z;
  cfg_entry_count : Z;
  cfg_schema_version : Z;
  cfg_active_bank : Z;
  cfg_flags : Z;
}.

(** The [repr(C)] layouts; none has padding. *)
Section Layout.
Context (e : Endian).

Definition policy_key_layout (k : AbiPolicyMapKey) : bytes :=
  ne_bytes e 4 (ak_source_identity k) ++ ne_bytes e 4 (ak_destination_identity k)
  ++ ak_destination_port k ++ [ak_protocol k] ++ [ak_bank k].

Definition ipv4_policy_key_layout (k : AbiIpv4PolicyMapKey) : bytes :=
  ak4_source_address k ++ ne_bytes e 4 (ak4_destination_identity k)
  ++ ak4_destination_port k ++ [ak4_protocol k] ++ [ak4_bank k].

Definition ipv6_policy_data_layout (k : AbiIpv6PolicyMapData) : bytes :=
  ne_bytes e 4 (ad6_destination_identity k) ++ ad6_destination_port k
  ++ [ad6_protocol k] ++ [ad6_bank k] ++ ad6_source_address k.

Definition egress_ipv4_policy_key_layout (k : AbiEgressIpv4PolicyMapKey) : bytes :=
  aek4_destination_address k ++ ne_bytes e 4 (aek4_source_identity k)
  ++ aek4_destination_port k ++ [aek4_protocol k] ++ [aek4_bank k].

Definition egress_ipv6_policy_data_layout (k : AbiEgressIpv6PolicyMapData) : bytes :=
  ne_bytes e 4 (aed6_source_identity k) ++ aed6_destination_port k
  ++ [aed6_protocol k] ++ [aed6_bank k] ++ aed6_destination_address k.

Definition policy_value_layout (v : PolicyMapValue) : bytes :=
  ne_bytes e 4 (pv_policy_id v) ++ ne_bytes e 4 (pv_rule_id v)
  ++ ne_bytes e 4 (pv_shadow_policy_id v) ++ ne_bytes e 4 (pv_shadow_rule_id v)
  ++ ne_bytes e 8 (pv_revision v) ++ ne_bytes e 2 (pv_schema_version v)
  ++ ne_bytes e 2 (pv_flags v)
  ++ [pv_verdict v; pv_reason v; pv_shadow_verdict v; pv_shadow_reason v].

Definition policy_config_layout (c : PolicyMapConfig) : bytes :=
  ne_bytes e 8 (cfg_source_epoch c) ++ ne_bytes e 8 (cfg_revision c)
  ++ ne_bytes e 4 (cfg_entry_count c) ++ ne_bytes e 2 (cfg_schema_version c)
  ++ [cfg_active_bank c; cfg_flags c].

(** A value read back from its 32 bytes. *)
Definition policy_value_of_bytes (b : bytes) : PolicyMapValue := {|
  pv_policy_id := of_ne e (slice b 0 4);
  pv_rule_id := of_ne e (slice b 4 8);
  pv_shadow_policy_id := of_ne e (slice b 8 12);
  pv_shadow_rule_id := of_ne e (slice b 12 16);
  pv_revision := of_ne e (slice b 16 24);
  pv_schema_version := of_ne e (slice b 24 26);
  pv_flags := of_ne e (slice b 26 28);
  pv_verdict := nth 28 b 0;
  pv_reason := nth 29 b 0;
  pv_shadow_verdict := nth 30 b 0;
  pv_shadow_reason := nth 31 b 0 |}.

Definition policy_config_of_bytes (b : bytes) : PolicyMapConfig := {|
  cfg_source_epoch := of_ne e (slice b 0 8);
  cfg_revision := of_ne e (slice b 8 16);
  cfg_entry_count := of_ne e (slice b 16 20);
  cfg_schema_version := of_ne e (slice b 20 22);
  cfg_active_bank := nth 22 b 0;
  cfg_flags := nth 23 b 0 |}.
End Layout.

(** ** Validation of a controller snapshot ([bins/unf-agent]) *)

Inductive AgentPolicyError :=
| InvalidPolicyBank (bank : Z)
| PolicyBankCapacity (entry_count : Z)
| DuplicatePolicyKey
| ReservedIdentityZero
| InvalidWildcardCombination
| InvalidPrefixLength
| NonCanonicalNetwork
| VerdictNotAllowOrDeny
| ReservedPolicyIdZero
| UnexpectedProvenance
| MissingRuleProvenance
| MissingPolicyProvenance
| EntryCountExceedsU32.

Abbreviation agent_result := (result AgentPolicyError).

Definition validate_policy_bank_capacity (entry_count : Z) : agent_result () :=
  if POLICY_MAP_BANK_ENTRY_LIMIT <? entry_count then Err (PolicyBankCapacity entry_count) else Ok ().

Definition validate_policy_transport (protocol destination_port : Z) : agent_result () :=
  if ((protocol =? 0) && (destination_port =? 0))
     || ((protocol =? 6) || (protocol =? 17) || (protocol =? 132))
  then Ok () else Err InvalidWildcardCombination.

Definition platform_node_exception (decision : PolicyDecisionRecord)
    (shadow : option PolicyDecisionRecord) : bool :=
  bool_decide (rec_verdict decision = VAllow)
  && bool_decide (rec_reason decision = NoApplicablePolicy)
  && bool_decide (rec_policy_id decision = None)
  && bool_decide (rec_rule_id decision = None)
  && bool_decide (shadow = None).

Definition validate_policy_decision (decision : PolicyDecisionRecord) : agent_result () :=
  match rec_verdict decision with
  | VAllow | VDeny =>
      if is_some_and (rec_policy_id decision) (λ id, id =? 0) then Err ReservedPolicyIdZero
      else
        match rec_reason decision, rec_policy_id decision, rec_rule_id decision with
        | NoApplicablePolicy, None, None => Ok ()
        | NoApplicablePolicy, _, _ => Err UnexpectedProvenance
        | ExplicitRule, Some _, Some _ => Ok ()
        | ExplicitRule, _, _ => Err MissingRuleProvenance
        | DefaultAction, Some _, None => Ok ()
        | DefaultAction, _, _ => Err MissingPolicyProvenance
        end
  | _ => Err VerdictNotAllowOrDeny
  end.

(** The decision and, if there is one, the shadow decision. *)
Definition validate_policy_decisions {K} (entry : MapEntry K) : agent_result () :=
  let? _ := validate_policy_decision (entry_decision entry) in
  match entry_shadow entry with
  | Some shadow => validate_policy_decision shadow
  | None => Ok ()
  end.

Definition validate_policy_entry (entry : PolicyMapEntry) : agent_result () :=
  let key := entry_key entry in
  if (pk_source_identity key =? 0) || (pk_destination_identity key =? 0)
  then Err ReservedIdentityZero
  else
    let? _ := validate_policy_transport (pk_protocol key) (pk_destination_port key) in
    validate_policy_decisions entry.

Definition validate_ipv4_policy_entry (entry : Ipv4PolicyMapEntry) : agent_result () :=
  let key := entry_key entry in
  if (pk4_destination_identity key =? 0)
     && negb (negb (pk4_source_address key =? 0) && (pk4_protocol key =? 0)
              && (pk4_destination_port key =? 0)
              && platform_node_exception (entry_decision entry) (entry_shadow entry))
  then Err ReservedIdentityZero
  else
    let? _ := validate_policy_transport (pk4_protocol key) (pk4_destination_port key) in
    validate_policy_decisions entry.

(** [u128::MAX << (128 - prefix)], zero for the empty prefix. *)
Definition canonical_network (network prefix_len : Z) : bool :=
  Z.land network (prefix_mask 128 prefix_len) =? network.

Definition validate_ipv6_policy_entry (entry : Ipv6PolicyMapEntry) : agent_result () :=
  let key := entry_key entry in
  if (pk6_destination_identity key =? 0)
     && negb (negb (pk6_source_network key =? 0) && (pk6_source_prefix_len key =? 128)
              && (pk6_protocol key =? 0) && (pk6_destination_port key =? 0)
              && platform_node_exception (entry_decision entry) (entry_shadow entry))
  then Err ReservedIdentityZero
  else if 128 <? pk6_source_prefix_len key then Err InvalidPrefixLength
  else if negb (canonical_network (pk6_source_network key) (pk6_source_prefix_len key))
  then Err NonCanonicalNetwork
  else
    let? _ := validate_policy_transport (pk6_protocol key) (pk6_destination_port key) in
    validate_policy_decisions entry.

Definition validate_egress_ipv4_policy_entry (entry : EgressIpv4PolicyMapEntry) : agent_result () :=
  let key := entry_key entry in
  if (ek4_source_identity key =? 0)
     && negb (negb (ek4_destination_address key =? 0) && (ek4_protocol key =? 0)
              && (ek4_destination_port key =? 0)
              && platform_node_exception (entry_decision entry) (entry_shadow entry))
  then Err ReservedIdentityZero
  else
    let? _ := validate_policy_transport (ek4_protocol key) (ek4_destination_port key) in
    validate_policy_decisions entry.

Definition validate_egress_ipv6_policy_entry (entry : EgressIpv6PolicyMapEntry) : agent_result () :=
  let key := entry_key entry in
  if (ek6_source_identity key =? 0)
     && negb (negb (ek6_destination_network key =? 0) && (ek6_destination_prefix_len key =? 128)
              && (ek6_protocol key =? 0) && (ek6_destination_port key =? 0)
              && platform_node_exception (entry_decision entry) (entry_shadow entry))
  then Err ReservedIdentityZero
  else if 128 <? ek6_destination_prefix_len key then Err InvalidPrefixLength
  else if negb (canonical_network (ek6_destination_network key) (ek6_destination_prefix_len key))
  then Err NonCanonicalNetwork
  else
    let? _ := validate_policy_transport (ek6_protocol key) (ek6_destination_port key) in
    validate_policy_decisions entry.

(** ** Encoding *)

Section Encode.
Context (e : Endian).

Definition encode_policy_key (entry : PolicyMapEntry) (bank : Z) : bytes :=
  let key := entry_key entry in
  let encoded := zeroes 12 in
  let encoded := copy_from_slice encoded 0 (ne_bytes e 4 (pk_source_identity key)) in
  let encoded := copy_from_slice encoded 4 (ne_bytes e 4 (pk_destination_identity key)) in
  let encoded := copy_from_slice encoded 8 (be_bytes 2 (pk_destination_port key)) in
  let encoded := <[10%nat := pk_protocol key]> encoded in
  <[11%nat := bank]> encoded.

Definition encode_ipv4_policy_key (entry : Ipv4PolicyMapEntry) (bank : Z) : bytes :=
  let key := entry_key entry in
  let encoded := zeroes 12 in
  let encoded := copy_from_slice encoded 0 (be_bytes 4 (pk4_source_address key)) in
  let encoded := copy_from_slice encoded 4 (ne_bytes e 4 (pk4_destination_identity key)) in
  let encoded := copy_from_slice encoded 8 (be_bytes 2 (pk4_destination_port key)) in
  let encoded := <[10%nat := pk4_protocol key]> encoded in
  <[11%nat := bank]> encoded.

Definition encode_ipv6_policy_key (entry : Ipv6PolicyMapEntry) (bank : Z) : Z * bytes :=
  let key := entry_key entry in
  let encoded := zeroes 24 in
  let encoded := copy_from_slice encoded 0 (ne_bytes e 4 (pk6_destination_identity key)) in
  let encoded := copy_from_slice encoded 4 (be_bytes 2 (pk6_destination_port key)) in
  let encoded := <[6%nat := pk6_protocol key]> encoded in
  let encoded := <[7%nat := bank]> encoded in
  let encoded := copy_from_slice encoded 8 (be_bytes 16 (pk6_source_network key)) in
  (64 + pk6_source_prefix_len key, encoded).

Definition encode_egress_ipv4_policy_key (entry : EgressIpv4PolicyMapEntry) (bank : Z) : bytes :=
  let key := entry_key entry in
  let encoded := zeroes 12 in
  let encoded := copy_from_slice encoded 0 (be_bytes 4 (ek4_destination_address key)) in
  let encoded := copy_from_slice encoded 4 (ne_bytes e 4 (ek4_source_identity key)) in
  let encoded := copy_from_slice encoded 8 (be_bytes 2 (ek4_destination_port key)) in
  let encoded := <[10%nat := ek4_protocol key]> encoded in
  <[11%nat := bank]> encoded.

Definition encode_egress_ipv6_policy_key (entry : EgressIpv6PolicyMapEntry) (bank : Z) : Z * bytes :=
  let key := entry_key entry in
  let encoded := zeroes 24 in
  let encoded := copy_from_slice encoded 0 (ne_bytes e 4 (ek6_source_identity key)) in
  let encoded := copy_from_slice encoded 4 (be_bytes 2 (ek6_destination_port key)) in
  let encoded := <[6%nat := ek6_protocol key]> encoded in
  let encoded := <[7%nat := bank]> encoded in
  let encoded := copy_from_slice encoded 8 (be_bytes 16 (ek6_destination_network key)) in
  (64 + ek6_destination_prefix_len key, encoded).

Definition encode_policy_decisions (decision : PolicyDecisionRecord)
    (shadow : option PolicyDecisionRecord) (revision : Z) : bytes :=
  let encoded := zeroes 32 in
  let flags := 0 in
  let (encoded, flags) :=
    match rec_policy_id decision with
    | Some policy_id => (copy_from_slice encoded 0 (ne_bytes e 4 policy_id),
                         Z.lor flags POLICY_FLAG_HAS_POLICY)
    | None => (encoded, flags)
    end in
  let (encoded, flags) :=
    match rec_rule_id decision with
    | Some rule_id => (copy_from_slice encoded 4 (ne_bytes e 4 rule_id),
                       Z.lor flags POLICY_FLAG_HAS_RULE)
    | None => (encoded, flags)
    end in
  let (encoded, flags) :=
    match shadow with
    | None => (encoded, flags)
    | Some shadow =>
        let flags := Z.lor flags POLICY_FLAG_HAS_SHADOW in
        let (encoded, flags) :=
          match rec_policy_id shadow with
          | Some policy_id => (copy_from_slice encoded 8 (ne_bytes e 4 policy_id),
                               Z.lor flags POLICY_FLAG_SHADOW_HAS_POLICY)
          | None => (encoded, flags)
          end in
        let (encoded, flags) :=
          match rec_rule_id shadow with
          | Some rule_id => (copy_from_slice encoded 12 (ne_bytes e 4 rule_id),
                             Z.lor flags POLICY_FLAG_SHADOW_HAS_RULE)
          | None => (encoded, flags)
          end in
        let encoded := <[30%nat := verdict_u8 (rec_verdict shadow)]> encoded in
        (<[31%nat := reason_u8 (rec_reason shadow)]> encoded, flags)
    end in
  let encoded := copy_from_slice encoded 16 (ne_bytes e 8 revision) in
  let encoded := copy_from_slice encoded 24 (ne_bytes e 2 POLICY_MAP_ABI_VERSION) in
  let encoded := copy_from_slice encoded 26 (ne_bytes e 2 flags) in
  let encoded := <[28%nat := verdict_u8 (rec_verdict decision)]> encoded in
  <[29%nat := reason_u8 (rec_reason decision)]> encoded.

Definition encode_policy_value (entry : PolicyMapEntry) (revision : Z) : bytes :=
  encode_policy_decisions (entry_decision entry) (entry_shadow entry) revision.

Definition encode_map_config (source_epoch revision entry_count schema_version active_bank
    bank_count : Z) : agent_result bytes :=
  if bank_count <=? active_bank then Err (InvalidPolicyBank active_bank)
  else
    let? entry_count := ok_or (try_width 32 entry_count) EntryCountExceedsU32 in
    let encoded := zeroes 24 in
    let encoded := copy_from_slice encoded 0 (ne_bytes e 8 source_epoch) in
    let encoded := copy_from_slice encoded 8 (ne_bytes e 8 revision) in
    let encoded := copy_from_slice encoded 16 (ne_bytes e 4 entry_count) in
    let encoded := copy_from_slice encoded 20 (ne_bytes e 2 schema_version) in
    Ok (<[22%nat := active_bank]> encoded).

Definition encode_policy_config (source_epoch revision entry_count active_bank : Z) :
    agent_result bytes :=
  encode_map_config source_epoch revision entry_count POLICY_MAP_ABI_VERSION active_bank
    POLICY_BANK_COUNT.

(** *** The desired contents of a bank *)

(** The loop of the [desired_*] functions. *)
Definition desired_entries {E K} `{Countable K} (validate : E → agent_result ())
    (key : E → K) (value : E → bytes) (entries : list E) (bank : Z) :
    agent_result (gmap K bytes) :=
  if POLICY_BANK_COUNT <=? bank then Err (InvalidPolicyBank bank)
  else
    let? _ := validate_policy_bank_capacity (Z.of_nat (length entries)) in
    try_fold (λ desired entry,
      let? _ := validate entry in
      if bool_decide (is_Some (desired !! key entry)) then Err DuplicatePolicyKey
      else Ok (<[key entry := value entry]> desired)) ∅ entries.

Definition entry_bytes {K} (revision : Z) (entry : MapEntry K) : bytes :=
  encode_policy_decisions (entry_decision entry) (entry_shadow entry) revision.

Definition desired_policy_entries (entries : list PolicyMapEntry) (revision bank : Z) :
    agent_result (gmap bytes bytes) :=
  desired_entries validate_policy_entry (λ entry, encode_policy_key entry bank)
    (λ entry, encode_policy_value entry revision) entries bank.

Definition desired_ipv4_policy_entries (entries : list Ipv4PolicyMapEntry) (revision bank : Z) :
    agent_result (gmap bytes bytes) :=
  desired_entries validate_ipv4_policy_entry (λ entry, encode_ipv4_policy_key entry bank)
    (entry_bytes revision) entries bank.

Definition desired_ipv6_policy_entries (entries : list Ipv6PolicyMapEntry) (revision bank : Z) :
    agent_result (gmap (Z * bytes) bytes) :=
  desired_entries validate_ipv6_policy_entry (λ entry, encode_ipv6_policy_key entry bank)
    (entry_bytes revision) entries bank.

Definition desired_egress_ipv4_policy_entries (entries : list EgressIpv4PolicyMapEntry)
    (revision bank : Z) : agent_result (gmap bytes bytes) :=
  desired_entries validate_egress_ipv4_policy_entry
    (λ entry, encode_egress_ipv4_policy_key entry bank) (entry_bytes revision) entries bank.

Definition desired_egress_ipv6_policy_entries (entries : list EgressIpv6PolicyMapEntry)
    (revision bank : Z) : agent_result (gmap (Z * bytes) bytes) :=
  desired_entries validate_egress_ipv6_policy_entry
    (λ entry, encode_egress_ipv6_policy_key entry bank) (entry_bytes revision) entries bank.
End Encode.

(** ** Both sides agree on the layout *)

Definition flag_if (bit : Z) (id : option Z) : Z := match id with Some _ => bit | None => 0 end.

(** The structure a decision is encoded as. *)
Definition decision_flags (decision : PolicyDecisionRecord) (shadow : option PolicyDecisionRecord) :
    Z :=
  flag_if 1 (rec_policy_id decision) + flag_if 2 (rec_rule_id decision)
  + match shadow with
    | None => 0
    | Some shadow => 4 + flag_if 8 (rec_policy_id shadow) + flag_if 16 (rec_rule_id shadow)
    end.

Definition decision_value (decision : PolicyDecisionRecord) (shadow : option PolicyDecisionRecord)
    (revision : Z) : PolicyMapValue := {|
  pv_policy_id := default 0 (rec_policy_id decision);
  pv_rule_id := default 0 (rec_rule_id decision);
  pv_shadow_policy_id := default 0 (shadow ≫= rec_policy_id);
  pv_shadow_rule_id := default 0 (shadow ≫= rec_rule_id);
  pv_revision := revision;
  pv_schema_version := POLICY_MAP_ABI_VERSION;
  pv_flags := decision_flags decision shadow;
  pv_verdict := verdict_u8 (rec_verdict decision);
  pv_reason := reason_u8 (rec_reason decision);
  pv_shadow_verdict := default 0 (option_map (λ s, verdict_u8 (rec_verdict s)) shadow);
  pv_shadow_reason := default 0 (option_map (λ s, reason_u8 (rec_reason s)) shadow) |}.

Section Agreement.
Context (e : Endian).

Lemma encode_policy_key_layout entry bank :
  encode_policy_key e entry bank = policy_key_layout e {|
    ak_source_identity := pk_source_identity (entry_key entry);
    ak_destination_identity := pk_destination_identity (entry_key entry);
    ak_destination_port := be_bytes 2 (pk_destination_port (entry_key entry));
    ak_protocol := pk_protocol (entry_key entry); ak_bank := bank |}.
Proof. by destruct e. Qed.

Lemma encode_ipv4_policy_key_layout entry bank :
  encode_ipv4_policy_key e entry bank = ipv4_policy_key_layout e {|
    ak4_source_address := be_bytes 4 (pk4_source_address (entry_key entry));
    ak4_destination_identity := pk4_destination_identity (entry_key entry);
    ak4_destination_port := be_bytes 2 (pk4_destination_port (entry_key entry));
    ak4_protocol := pk4_protocol (entry_key entry); ak4_bank := bank |}.
Proof. by destruct e. Qed.

Lemma encode_ipv6_policy_key_layout entry bank :
  encode_ipv6_policy_key e entry bank =
  (64 + pk6_source_prefix_len (entry_key entry), ipv6_policy_data_layout e {|
    ad6_destination_identity := pk6_destination_identity (entry_key entry);
    ad6_destination_port := be_bytes 2 (pk6_destination_port (entry_key entry));
    ad6_protocol := pk6_protocol (entry_key entry); ad6_bank := bank;
    ad6_source_address := be_bytes 16 (pk6_source_network (entry_key entry)) |}).
Proof. by destruct e. Qed.

Lemma encode_egress_ipv4_policy_key_layout entry bank :
  encode_egress_ipv4_policy_key e entry bank = egress_ipv4_policy_key_layout e {|
    aek4_destination_address := be_bytes 4 (ek4_destination_address (entry_key entry));
    aek4_source_identity := ek4_source_identity (entry_key entry);
    aek4_destination_port := be_bytes 2 (ek4_destination_port (entry_key entry));
    aek4_protocol := ek4_protocol (entry_key entry); aek4_bank := bank |}.
Proof. by destruct e. Qed.

Lemma encode_egress_ipv6_policy_key_layout entry bank :
  encode_egress_ipv6_policy_key e entry bank =
  (64 + ek6_destination_prefix_len (entry_key entry), egress_ipv6_policy_data_layout e {|
    aed6_source_identity := ek6_source_identity (entry_key entry);
    aed6_destination_port := be_bytes 2 (ek6_destination_port (entry_key entry));
    aed6_protocol := ek6_protocol (entry_key entry); aed6_bank := bank;
    aed6_destination_address := be_bytes 16 (ek6_destination_network (entry_key entry)) |}).
Proof. by destruct e. Qed.

Lemma encode_policy_decisions_layout decision shadow revision :
  encode_policy_decisions e decision shadow revision
  = policy_value_layout e (decision_value decision shadow revision).
Proof.
  destruct decision as [v r [p|] [q|]], shadow as [[sv sr [sp|] [sq|]]|], e; reflexivity.
Qed.
End Agreement.

(** ** Round trips *)

Definition wf_value (v : PolicyMapValue) : Prop :=
  in_width 32 (pv_policy_id v) ∧ in_width 32 (pv_rule_id v) ∧
  in_width 32 (pv_shadow_policy_id v) ∧ in_width 32 (pv_shadow_rule_id v) ∧
  in_width 64 (pv_revision v) ∧ in_width 16 (pv_schema_version v) ∧ in_width 16 (pv_flags v).

Lemma policy_value_roundtrip e v :
  wf_value v → policy_value_of_bytes e (policy_value_layout e v) = v.
Proof.
  intros (H1 & H2 & H3 & H4 & H5 & H6 & H7).
  assert (Hs : ∀ n a b (f : Z), slice (policy_value_layout e v) a b = ne_bytes e n f →
    in_width (8 * Z.of_nat n) f → of_ne e (slice (policy_value_layout e v) a b) = f).
  { intros n a b f -> Hf. by apply of_ne_bytes. }
  unfold policy_value_of_bytes.
  rewrite (Hs 4%nat 0%nat 4%nat (pv_policy_id v)), (Hs 4%nat 4%nat 8%nat (pv_rule_id v)),
    (Hs 4%nat 8%nat 12%nat (pv_shadow_policy_id v)), (Hs 4%nat 12%nat 16%nat (pv_shadow_rule_id v)),
    (Hs 8%nat 16%nat 24%nat (pv_revision v)), (Hs 2%nat 24%nat 26%nat (pv_schema_version v)),
    (Hs 2%nat 26%nat 28%nat (pv_flags v)) by (done || by destruct e).
  by destruct v, e.
Qed.

Definition wf_config (c : PolicyMapConfig) : Prop :=
  in_width 64 (cfg_source_epoch c) ∧ in_width 64 (cfg_revision c) ∧
  in_width 32 (cfg_entry_count c) ∧ in_width 16 (cfg_schema_version c).

Lemma policy_config_roundtrip e c :
  wf_config c → policy_config_of_bytes e (policy_config_layout e c) = c.
Proof.
  intros (H1 & H2 & H3 & H4).
  assert (Hs : ∀ n a b (f : Z), slice (policy_config_layout e c) a b = ne_bytes e n f →
    in_width (8 * Z.of_nat n) f → of_ne e (slice (policy_config_layout e c) a b) = f).
  { intros n a b f -> Hf. by apply of_ne_bytes. }
  unfold policy_config_of_bytes.
  rewrite (Hs 8%nat 0%nat 8%nat (cfg_source_epoch c)), (Hs 8%nat 8%nat 16%nat (cfg_revision c)),
    (Hs 4%nat 16%nat 20%nat (cfg_entry_count c)), (Hs 2%nat 20%nat 22%nat (cfg_schema_version c))
    by (done || by destruct e).
  by destruct c, e.
Qed.

(** An encoded configuration is the structure with clear flags. *)
Lemma encode_policy_config_Ok e epoch revision count bank b :
  encode_policy_config e epoch revision count bank = Ok b →
  0 ≤ count < 2 ^ 32 ∧ bank < POLICY_BANK_COUNT ∧
  b = policy_config_layout e {| cfg_source_epoch := epoch; cfg_revision := revision;
    cfg_entry_count := count; cfg_schema_version := POLICY_MAP_ABI_VERSION;
    cfg_active_bank := bank; cfg_flags := 0 |}.
Proof.
  unfold encode_policy_config, encode_map_config, try_width.
  destruct (Z.leb_spec POLICY_BANK_COUNT bank); [done|].
  destruct (_ && _) eqn:Ew; [|done]. simpl. intros [= <-].
  apply andb_true_iff in Ew as [?%Z.leb_le ?%Z.ltb_lt]. split_and!; try done. by destruct e.
Qed.

(** ** The desired contents *)

Section Desired.
Context {E K : Type} `{Countable K}.
Context (validate : E → agent_result ()) (key : E → K) (value : E → bytes).

Definition desired_step (desired : gmap K bytes) (entry : E) : agent_result (gmap K bytes) :=
  let? _ := validate entry in
  if bool_decide (is_Some (desired !! key entry)) then Err DuplicatePolicyKey
  else Ok (<[key entry := value entry]> desired).

Lemma desired_step_Ok acc x m :
  desired_step acc x = Ok m →
  validate x = Ok () ∧ acc !! key x = None ∧ m = <[key x := value x]> acc.
Proof.
  unfold desired_step. destruct (validate x) as [[]|]; [|done]. simpl.
  case_bool_decide as Hn; [done|]. apply eq_None_not_Some in Hn. by intros [= <-].
Qed.

Lemma desired_loop l : ∀ acc m,
  try_fold desired_step acc l = Ok m →
  Forall (λ x, validate x = Ok ()) l ∧ NoDup (map key l) ∧
  (∀ x, x ∈ l → acc !! key x = None) ∧
  ∀ k v, m !! k = Some v ↔ acc !! k = Some v ∨ ∃ x, x ∈ l ∧ key x = k ∧ value x = v.
Proof.
  induction l as [|x l IH]; intros acc m; cbn [try_fold].
  { intros [= <-]. split_and!; [apply Forall_nil_2|apply NoDup_nil_2|by intros x ?%not_elem_of_nil|].
    intros k v. setoid_rewrite elem_of_nil. naive_solver. }
  destruct (desired_step acc x) as [acc'|] eqn:Es; [|done].
  apply desired_step_Ok in Es as (Hv & Hn & ->). intros (Hall & Hnd & Hfresh & Hm)%IH. split_and!.
  - by constructor.
  - apply NoDup_cons. split; [|done]. intros (y & Hy & Hin)%list_elem_of_fmap.
    specialize (Hfresh y Hin). by rewrite <-Hy, lookup_insert_eq in Hfresh.
  - intros y [->|Hy]%elem_of_cons; [done|]. specialize (Hfresh y Hy).
    by apply lookup_insert_None in Hfresh as [? _].
  - intros k v. rewrite Hm, lookup_insert_Some. setoid_rewrite elem_of_cons. split.
    + intros [[[<- <-]|[_ ?]]|(y & ? & ? & ?)]; [right; exists x; auto|by left|right; exists y; auto].
    + intros [Ha|(y & [->|Hy] & <- & <-)]; [|by left; left|right; by exists y].
      left. right. split; [|done]. intros <-. congruence.
Qed.

(** The desired contents are exactly the validated entries under distinct keys. *)
Lemma desired_entries_Ok entries bank m :
  desired_entries validate key value entries bank = Ok m →
  bank < POLICY_BANK_COUNT ∧ Z.of_nat (length entries) ≤ POLICY_MAP_BANK_ENTRY_LIMIT ∧
  Forall (λ x, validate x = Ok ()) entries ∧ NoDup (map key entries) ∧
  ∀ k v, m !! k = Some v ↔ ∃ x, x ∈ entries ∧ key x = k ∧ value x = v.
Proof.
  unfold desired_entries, validate_policy_bank_capacity.
  destruct (Z.leb_spec POLICY_BANK_COUNT bank); [done|].
  destruct (Z.ltb_spec POLICY_MAP_BANK_ENTRY_LIMIT (Z.of_nat (length entries))); [done|].
  intros (Hall & Hnd & _ & Hm)%desired_loop. split_and!; try done.
  intros k v. rewrite Hm, lookup_empty. naive_solver.
Qed.

(** Valid entries under distinct keys that fit a bank are accepted. *)
Lemma desired_entries_accepts entries bank :
  bank < POLICY_BANK_COUNT → Z.of_nat (length entries) ≤ POLICY_MAP_BANK_ENTRY_LIMIT →
  Forall (λ x, validate x = Ok ()) entries → NoDup (map key entries) →
  ∃ m, desired_entries validate key value entries bank = Ok m.
Proof.
  intros Hb Hl Hall Hnd. unfold desired_entries, validate_policy_bank_capacity.
  destruct (Z.leb_spec POLICY_BANK_COUNT bank) as [|_]; [lia|].
  destruct (Z.ltb_spec POLICY_MAP_BANK_ENTRY_LIMIT (Z.of_nat (length entries))) as [|_]; [lia|]. simpl.
  fold desired_step. clear Hl. assert (Hacc : ∀ x, x ∈ entries → (∅ : gmap K bytes) !! key x = None)
    by (intros; apply lookup_empty).
  revert Hacc. generalize (∅ : gmap K bytes) as acc.
  induction entries as [|x l IH]; intros acc Hacc; [by eexists|]. cbn [try_fold].
  inversion Hall as [|?? Hx Hl']; subst. apply NoDup_cons in Hnd as [Hx' Hnd'].
  unfold desired_step at 1. rewrite Hx. simpl. rewrite bool_decide_false.
  2:{ rewrite (Hacc x) by by left. by intros []. }
  apply IH; [exact Hl'|exact Hnd'|]. intros y Hy. rewrite lookup_insert_ne; [apply Hacc; by right|].
  intros Heq. apply Hx'. rewrite Heq. apply list_elem_of_fmap. by exists y.
Qed.
End Desired.
