(* ===== verification/TcPolicy.v ===== *)
(** * Policy enforcement in the TC classifier ([ebpf/unf-ebpf-tc])

    The lookups the classifier makes in the active bank, the decoding of a value, and
    the combination of the ingress and egress answers. *)

From S2P Require Import Prelude Common PolicyIr PolicyCompile PolicyLower PolicyLowerSpec Bytes PolicyAbi.

(** ** The maps the agent shares with the classifier *)

Record PolicyKernel := {
  kn_rules : gmap bytes bytes;
  kn_ipv4 : gmap bytes bytes;
  kn_ipv6 : gmap (Z * bytes) bytes;
  kn_egress_ipv4 : gmap bytes bytes;
  kn_egress_ipv6 : gmap (Z * bytes) bytes;
  kn_config : bytes;
}.

(** The first [n] bits of a key of 24 bytes. *)
Definition prefix_bits (n : Z) (data : bytes) : Z := Z.shiftr (of_be data) (192 - n).

Definition trie_matches (prefix_len : Z) (data : bytes) (key : Z * bytes) : bool :=
  (key.1 <=? prefix_len) && (prefix_bits key.1 key.2 =? prefix_bits key.1 data).

(** A longest-prefix-match trie: the value under the longest stored prefix of the key. *)
Definition trie_get (trie : gmap (Z * bytes) bytes) (prefix_len : Z) (data : bytes) : option bytes :=
  option_map snd
    (longest (λ kv, kv.1.1) (λ kv, trie_matches prefix_len data kv.1) (map_to_list trie)).

(** ** Decisions *)

Inductive ReasonCode :=
| Observed | AllowExplicit | DenyExplicit | DenyDefault | IdentityUnknown | AllowDefault
| AllowEstablished.

Definition reason_code_u8 (r : ReasonCode) : Z :=
  match r with
  | Observed => 0 | AllowExplicit => 1 | DenyExplicit => 2 | DenyDefault => 3
  | IdentityUnknown => 4 | AllowDefault => 5 | AllowEstablished => 6
  end.

Record DataplaneDecision := {
  dp_policy_revision : Z;
  dp_policy_id : PolicyId;
  dp_rule_id : RuleId;
  dp_shadow_policy_id : PolicyId;
  dp_shadow_rule_id : RuleId;
  dp_verdict : Verdict;
  dp_reason : Z;
  dp_shadow_verdict : Z;
  dp_shadow_reason : Z;
  dp_direction : PolicyDirection;
}.

Definition DataplaneDecision_observed (direction : PolicyDirection) (reason : ReasonCode) :
    DataplaneDecision := {|
  dp_policy_revision := 0; dp_policy_id := 0; dp_rule_id := 0;
  dp_shadow_policy_id := 0; dp_shadow_rule_id := 0;
  dp_verdict := VAllow; dp_reason := reason_code_u8 reason;
  dp_shadow_verdict := verdict_u8 VUnknown; dp_shadow_reason := reason_code_u8 Observed;
  dp_direction := direction |}.

Definition decode_verdict (value : Z) : option Verdict :=
  if value =? 1 then Some VAllow else if value =? 2 then Some VDeny else None.

Definition decode_reason (value : Z) (verdict : Verdict) : option Z :=
  match verdict with
  | VAllow =>
      if value =? reason_u8 NoApplicablePolicy then Some (reason_code_u8 Observed)
      else if value =? reason_u8 ExplicitRule then Some (reason_code_u8 AllowExplicit)
      else if value =? reason_u8 DefaultAction then Some (reason_code_u8 AllowDefault)
      else None
  | VDeny =>
      if value =? reason_u8 ExplicitRule then Some (reason_code_u8 DenyExplicit)
      else if value =? reason_u8 DefaultAction then Some (reason_code_u8 DenyDefault)
      else None
  | _ => None
  end.

Definition has_flag (flags flag : Z) : bool := negb (Z.land flags flag =? 0).

Definition valid_provenance (flags reason : Z) (shadow : bool) : bool :=
  let '(has_policy, has_rule) :=
    if shadow then (has_flag flags POLICY_FLAG_SHADOW_HAS_POLICY,
                    has_flag flags POLICY_FLAG_SHADOW_HAS_RULE)
    else (has_flag flags POLICY_FLAG_HAS_POLICY, has_flag flags POLICY_FLAG_HAS_RULE) in
  if reason =? reason_u8 NoApplicablePolicy then negb has_policy && negb has_rule
  else if reason =? reason_u8 ExplicitRule then has_policy && has_rule
  else if reason =? reason_u8 DefaultAction then has_policy && negb has_rule
  else false.

Definition decode_policy_value (value : PolicyMapValue) (revision : Z)
    (direction : PolicyDirection) : DataplaneDecision :=
  let observed := DataplaneDecision_observed direction Observed in
  match decode_verdict (pv_verdict value) with
  | None => observed
  | Some verdict =>
      match decode_reason (pv_reason value) verdict with
      | None => observed
      | Some reason =>
          if negb (valid_provenance (pv_flags value) (pv_reason value) false) then observed
          else
            let has_shadow := has_flag (pv_flags value) POLICY_FLAG_HAS_SHADOW in
            let shadow :=
              if has_shadow then
                match decode_verdict (pv_shadow_verdict value) with
                | None => None
                | Some shadow_verdict =>
                    match decode_reason (pv_shadow_reason value) shadow_verdict with
                    | None => None
                    | Some shadow_reason =>
                        if negb (valid_provenance (pv_flags value) (pv_shadow_reason value) true)
                        then None
                        else Some (verdict_u8 shadow_verdict, shadow_reason)
                    end
                end
              else Some (verdict_u8 VUnknown, reason_code_u8 Observed) in
            match shadow with
            | None => observed
            | Some (shadow_verdict, shadow_reason) => {|
                dp_policy_revision := revision;
                dp_policy_id :=
                  if has_flag (pv_flags value) POLICY_FLAG_HAS_POLICY then pv_policy_id value else 0;
                dp_rule_id :=
                  if has_flag (pv_flags value) POLICY_FLAG_HAS_RULE then pv_rule_id value else 0;
                dp_shadow_policy_id :=
                  if has_flag (pv_flags value) POLICY_FLAG_SHADOW_HAS_POLICY
                  then pv_shadow_policy_id value else 0;
                dp_shadow_rule_id :=
                  if has_flag (pv_flags value) POLICY_FLAG_SHADOW_HAS_RULE
                  then pv_shadow_rule_id value else 0;
                dp_verdict := verdict; dp_reason := reason;
                dp_shadow_verdict := shadow_verdict; dp_shadow_reason := shadow_reason;
                dp_direction := direction |}
            end
      end
  end.

(** ** Lookups *)

Section Lookup.
Context (e : Endian) (kernel : PolicyKernel).

Definition active_policy_config : option PolicyMapConfig :=
  let config := policy_config_of_bytes e (kn_config kernel) in
  if (cfg_schema_version config =? POLICY_MAP_ABI_VERSION)
     && (cfg_active_bank config <? POLICY_BANK_COUNT)
     && negb (cfg_revision config =? 0)
  then Some config else None.

(** A stored value counts only at the expected schema and revision. *)
Definition current_value (stored : option bytes) (revision : Z) : option PolicyMapValue :=
  match stored with
  | None => None
  | Some b =>
      let value := policy_value_of_bytes e b in
      if (pv_schema_version value =? POLICY_MAP_ABI_VERSION) && (pv_revision value =? revision)
      then Some value else None
  end.

Definition lookup_policy_value (key : AbiPolicyMapKey) (revision : Z) : option PolicyMapValue :=
  current_value (kn_rules kernel !! policy_key_layout e key) revision.

Definition lookup_ipv4_policy_value (key : AbiIpv4PolicyMapKey) (revision : Z) :
    option PolicyMapValue :=
  current_value (kn_ipv4 kernel !! ipv4_policy_key_layout e key) revision.

Definition lookup_ipv6_policy_value (key : AbiIpv6PolicyMapData) (revision : Z) :
    option PolicyMapValue :=
  current_value (trie_get (kn_ipv6 kernel) 192 (ipv6_policy_data_layout e key)) revision.

Definition lookup_egress_ipv4_policy_value (key : AbiEgressIpv4PolicyMapKey) (revision : Z) :
    option PolicyMapValue :=
  current_value (kn_egress_ipv4 kernel !! egress_ipv4_policy_key_layout e key) revision.

Definition lookup_egress_ipv6_policy_value (key : AbiEgressIpv6PolicyMapData) (revision : Z) :
    option PolicyMapValue :=
  current_value (trie_get (kn_egress_ipv6 kernel) 192 (egress_ipv6_policy_data_layout e key)) revision.

Definition no_port : bytes := [0; 0].
Definition no_ipv4 : bytes := [0; 0; 0; 0].

(** The source address's tuples after the node exception, then those of the fallback
    address. *)
Definition ipv4_ingress_value (source_ipv4 : bytes) (destination_identity : IdentityId)
    (destination_port : bytes) (protocol : Z) (config : PolicyMapConfig) : option PolicyMapValue :=
  let key source_address destination_identity destination_port protocol := {|
    ak4_source_address := source_address; ak4_destination_identity := destination_identity;
    ak4_destination_port := destination_port; ak4_protocol := protocol;
    ak4_bank := cfg_active_bank config |} in
  let get k := lookup_ipv4_policy_value k (cfg_revision config) in
  or_else (get (key source_ipv4 0 no_port 0))
  (or_else (get (key source_ipv4 destination_identity destination_port protocol))
  (or_else (get (key source_ipv4 destination_identity no_port protocol))
  (or_else (get (key source_ipv4 destination_identity no_port 0))
  (or_else (get (key no_ipv4 destination_identity destination_port protocol))
  (or_else (get (key no_ipv4 destination_identity no_port protocol))
           (get (key no_ipv4 destination_identity no_port 0))))))).

Definition ipv6_ingress_value (source_ipv6 : bytes) (destination_identity : IdentityId)
    (destination_port : bytes) (protocol : Z) (config : PolicyMapConfig) : option PolicyMapValue :=
  let key destination_identity destination_port protocol := {|
    ad6_destination_identity := destination_identity; ad6_destination_port := destination_port;
    ad6_protocol := protocol; ad6_bank := cfg_active_bank config;
    ad6_source_address := source_ipv6 |} in
  let get k := lookup_ipv6_policy_value k (cfg_revision config) in
  or_else (get (key 0 no_port 0))
  (or_else (get (key destination_identity destination_port protocol))
  (or_else (get (key destination_identity no_port protocol))
           (get (key destination_identity no_port 0)))).

Definition identity_value (source_identity destination_identity : IdentityId)
    (destination_port : bytes) (protocol : Z) (config : PolicyMapConfig) : option PolicyMapValue :=
  let key destination_port protocol := {|
    ak_source_identity := source_identity; ak_destination_identity := destination_identity;
    ak_destination_port := destination_port; ak_protocol := protocol;
    ak_bank := cfg_active_bank config |} in
  let get k := lookup_policy_value k (cfg_revision config) in
  or_else (get (key destination_port protocol))
  (or_else (get (key no_port protocol)) (get (key no_port 0))).

Definition lookup_ingress_policy (source_ipv4 source_ipv6 : option bytes)
    (source_identity destination_identity : IdentityId) (destination_port : bytes) (protocol : Z)
    (config : PolicyMapConfig) : DataplaneDecision :=
  let decode value := decode_policy_value value (cfg_revision config) Ingress in
  if destination_identity =? 0 then DataplaneDecision_observed Ingress IdentityUnknown
  else
    match source_ipv4 ≫= λ a, ipv4_ingress_value a destination_identity destination_port protocol config
    with
    | Some value => decode value
    | None =>
        match source_ipv6 ≫= λ a,
                ipv6_ingress_value a destination_identity destination_port protocol config with
        | Some value => decode value
        | None =>
            if source_identity =? 0 then DataplaneDecision_observed Ingress IdentityUnknown
            else
              match identity_value source_identity destination_identity destination_port protocol
                      config with
              | None => DataplaneDecision_observed Ingress Observed
              | Some value => decode value
              end
        end
    end.

Definition egress_ipv4_value (destination_ipv4 : bytes) (source_identity : IdentityId)
    (destination_port : bytes) (protocol : Z) (config : PolicyMapConfig) : option PolicyMapValue :=
  let key destination_address source_identity destination_port protocol := {|
    aek4_destination_address := destination_address; aek4_source_identity := source_identity;
    aek4_destination_port := destination_port; aek4_protocol := protocol;
    aek4_bank := cfg_active_bank config |} in
  let get k := lookup_egress_ipv4_policy_value k (cfg_revision config) in
  or_else (get (key destination_ipv4 0 no_port 0))
  (or_else (get (key destination_ipv4 source_identity destination_port protocol))
  (or_else (get (key destination_ipv4 source_identity no_port protocol))
  (or_else (get (key destination_ipv4 source_identity no_port 0))
  (or_else (get (key no_ipv4 source_identity destination_port protocol))
  (or_else (get (key no_ipv4 source_identity no_port protocol))
           (get (key no_ipv4 source_identity no_port 0))))))).

Definition egress_ipv6_value (destination_ipv6 : bytes) (source_identity : IdentityId)
    (destination_port : bytes) (protocol : Z) (config : PolicyMapConfig) : option PolicyMapValue :=
  let key source_identity destination_port protocol := {|
    aed6_source_identity := source_identity; aed6_destination_port := destination_port;
    aed6_protocol := protocol; aed6_bank := cfg_active_bank config;
    aed6_destination_address := destination_ipv6 |} in
  let get k := lookup_egress_ipv6_policy_value k (cfg_revision config) in
  or_else (get (key 0 no_port 0))
  (or_else (get (key source_identity destination_port protocol))
  (or_else (get (key source_identity no_port protocol))
           (get (key source_identity no_port 0)))).

Definition lookup_egress_policy (destination_ipv4 destination_ipv6 : option bytes)
    (source_identity : IdentityId) (destination_port : bytes) (protocol : Z)
    (config : PolicyMapConfig) : DataplaneDecision :=
  let decode value := decode_policy_value value (cfg_revision config) Egress in
  if source_identity =? 0 then DataplaneDecision_observed Egress IdentityUnknown
  else
    match destination_ipv4 ≫= λ a, egress_ipv4_value a source_identity destination_port protocol config
    with
    | Some value => decode value
    | None =>
        match destination_ipv6 ≫= λ a,
                egress_ipv6_value a source_identity destination_port protocol config with
        | Some value => decode value
        | None => DataplaneDecision_observed Egress Observed
        end
    end.

Definition decisive_directional_policy (ingress egress observed : DataplaneDecision) :
    DataplaneDecision :=
  let has_ingress := negb (dp_policy_revision ingress =? 0) in
  let has_egress := negb (dp_policy_revision egress =? 0) in
  if has_ingress && bool_decide (dp_verdict ingress = VDeny) then ingress
  else if has_egress && bool_decide (dp_verdict egress = VDeny) then egress
  else if has_ingress then ingress
  else if has_egress then egress
  else observed.

(** ** Observations *)

Inductive AddressFamily := Ipv4Family | Ipv6Family.

Record FlowObservation := {
  ob_source_address : bytes;
  ob_destination_address : bytes;
  ob_source_port : bytes;
  ob_destination_port : bytes;
  ob_source_identity : IdentityId;
  ob_destination_identity : IdentityId;
  ob_direction : PolicyDirection;
  ob_address_family : AddressFamily;
  ob_protocol : Z;
  ob_tcp_flags : Z;
  ob_enforce : bool;
}.

Definition observation_policy_decision (observation : FlowObservation)
    (ingress egress : DataplaneDecision) : DataplaneDecision :=
  let reason :=
    if (ob_source_identity observation =? 0) || (ob_destination_identity observation =? 0)
    then IdentityUnknown else Observed in
  decisive_directional_policy ingress egress
    (DataplaneDecision_observed (ob_direction observation) reason).

(** An IPv4 address occupies the first four bytes. *)
Definition lookup_ipv4_ingress_policy (observation : FlowObservation) (config : PolicyMapConfig) :
    DataplaneDecision :=
  lookup_ingress_policy (Some (take 4 (ob_source_address observation))) None
    (ob_source_identity observation) (ob_destination_identity observation)
    (ob_destination_port observation) (ob_protocol observation) config.

Definition lookup_ipv4_egress_policy (observation : FlowObservation) (config : PolicyMapConfig) :
    DataplaneDecision :=
  lookup_egress_policy (Some (take 4 (ob_destination_address observation))) None
    (ob_source_identity observation) (ob_destination_port observation)
    (ob_protocol observation) config.

Definition lookup_ipv6_ingress_policy (observation : FlowObservation) (config : PolicyMapConfig) :
    DataplaneDecision :=
  lookup_ingress_policy None (Some (ob_source_address observation))
    (ob_source_identity observation) (ob_destination_identity observation)
    (ob_destination_port observation) (ob_protocol observation) config.

Definition lookup_ipv6_egress_policy (observation : FlowObservation) (config : PolicyMapConfig) :
    DataplaneDecision :=
  lookup_egress_policy None (Some (ob_destination_address observation))
    (ob_source_identity observation) (ob_destination_port observation)
    (ob_protocol observation) config.

Definition lookup_ipv4_observation_policy (observation : FlowObservation) : DataplaneDecision :=
  match active_policy_config with
  | None => DataplaneDecision_observed (ob_direction observation) Observed
  | Some config =>
      let ingress := lookup_ipv4_ingress_policy observation config in
      let egress := lookup_ipv4_egress_policy observation config in
      observation_policy_decision observation ingress egress
  end.

Definition lookup_ipv6_observation_policy (observation : FlowObservation) : DataplaneDecision :=
  match active_policy_config with
  | None => DataplaneDecision_observed (ob_direction observation) Observed
  | Some config =>
      let ingress := lookup_ipv6_ingress_policy observation config in
      let egress := lookup_ipv6_egress_policy observation config in
      observation_policy_decision observation ingress egress
  end.

Definition lookup_observation_policy (observation : FlowObservation) : DataplaneDecision :=
  match ob_address_family observation with
  | Ipv4Family => lookup_ipv4_observation_policy observation
  | Ipv6Family => lookup_ipv6_observation_policy observation
  end.

Definition active_policy_revision : Z :=
  match active_policy_config with Some config => cfg_revision config | None => 0 end.
End Lookup.

(** ** Encoding then decoding *)

Definition reason_code (verdict : Verdict) (reason : PolicyReason) : ReasonCode :=
  match verdict, reason with
  | _, NoApplicablePolicy => Observed
  | VDeny, ExplicitRule => DenyExplicit
  | VDeny, DefaultAction => DenyDefault
  | _, ExplicitRule => AllowExplicit
  | _, DefaultAction => AllowDefault
  end.

(** What the classifier reports for a decision and its shadow. *)
Definition dataplane_decision (decision : PolicyDecisionRecord)
    (shadow : option PolicyDecisionRecord) (revision : Z) (direction : PolicyDirection) :
    DataplaneDecision := {|
  dp_policy_revision := revision;
  dp_policy_id := default 0 (rec_policy_id decision);
  dp_rule_id := default 0 (rec_rule_id decision);
  dp_shadow_policy_id := default 0 (shadow ≫= rec_policy_id);
  dp_shadow_rule_id := default 0 (shadow ≫= rec_rule_id);
  dp_verdict := rec_verdict decision;
  dp_reason := reason_code_u8 (reason_code (rec_verdict decision) (rec_reason decision));
  dp_shadow_verdict := default 0 (option_map (λ s, verdict_u8 (rec_verdict s)) shadow);
  dp_shadow_reason :=
    default 0 (option_map (λ s, reason_code_u8 (reason_code (rec_verdict s) (rec_reason s))) shadow);
  dp_direction := direction |}.

(** Records the evaluator produces: provenance as the reason says, and only an allow
    without a policy. *)
Definition wf_record (r : PolicyDecisionRecord) : Prop :=
  match rec_reason r, rec_policy_id r, rec_rule_id r with
  | NoApplicablePolicy, None, None => rec_verdict r = VAllow
  | ExplicitRule, Some policy, Some rule =>
      (rec_verdict r = VAllow ∨ rec_verdict r = VDeny) ∧ 1 ≤ policy < 2 ^ 32 ∧ in_width 32 rule
  | DefaultAction, Some policy, None =>
      (rec_verdict r = VAllow ∨ rec_verdict r = VDeny) ∧ 1 ≤ policy < 2 ^ 32
  | _, _, _ => False
  end.

Definition wf_records (d : PolicyDecisionRecord) (s : option PolicyDecisionRecord) : Prop :=
  wf_record d ∧ match s with Some s => wf_record s | None => True end.

Lemma wf_record_valid r : wf_record r → validate_policy_decision r = Ok ().
Proof.
  destruct r as [v reason [p|] [q|]], reason; unfold wf_record, validate_policy_decision; simpl;
    try done.
  - intros ([->| ->] & Hp & _); simpl; by rewrite (proj2 (Z.eqb_neq p 0)) by lia.
  - intros ([->| ->] & Hp); simpl; by rewrite (proj2 (Z.eqb_neq p 0)) by lia.
  - by intros ->.
Qed.

Lemma wf_records_valid {K} (entry : MapEntry K) :
  wf_records (entry_decision entry) (entry_shadow entry) → validate_policy_decisions entry = Ok ().
Proof.
  intros [Hd Hs]. unfold validate_policy_decisions. rewrite (wf_record_valid _ Hd). simpl.
  destruct (entry_shadow entry); [by apply wf_record_valid|done].
Qed.

Lemma wf_record_ids r :
  wf_record r → in_width 32 (default 0 (rec_policy_id r)) ∧ in_width 32 (default 0 (rec_rule_id r)).
Proof.
  destruct r as [v reason [p|] [q|]], reason; unfold wf_record; simpl; try done;
    unfold in_width; intuition lia.
Qed.

Lemma decision_value_wf d s revision :
  wf_records d s → in_width 64 revision → wf_value (decision_value d s revision).
Proof.
  intros [Hd Hs] Hr. destruct (wf_record_ids _ Hd) as [H1 H2]. unfold wf_value. simpl.
  assert (in_width 32 (default 0 (s ≫= rec_policy_id)) ∧ in_width 32 (default 0 (s ≫= rec_rule_id)))
    as [H3 H4].
  { destruct s as [s|]; [by apply wf_record_ids|]. by split. }
  split_and!; try done.
  all: unfold decision_flags, flag_if;
    destruct (rec_policy_id d), (rec_rule_id d), s as [[? ? [] []]|]; done.
Qed.

Lemma wf_record_cases r :
  wf_record r →
  (rec_verdict r = VAllow ∧ rec_reason r = NoApplicablePolicy ∧
     rec_policy_id r = None ∧ rec_rule_id r = None) ∨
  (∃ policy rule, (rec_verdict r = VAllow ∨ rec_verdict r = VDeny) ∧ rec_reason r = ExplicitRule ∧
     rec_policy_id r = Some policy ∧ rec_rule_id r = Some rule) ∨
  (∃ policy, (rec_verdict r = VAllow ∨ rec_verdict r = VDeny) ∧ rec_reason r = DefaultAction ∧
     rec_policy_id r = Some policy ∧ rec_rule_id r = None).
Proof.
  destruct r as [v reason [p|] [q|]], reason; unfold wf_record; simpl; try done.
  - intros (Hv & _). right. left. by exists p, q.
  - intros (Hv & _). right. right. by exists p.
  - intros ->. by left.
Qed.

Ltac split_record H :=
  apply wf_record_cases in H as
    [(?Hv & ?Hr & ?Hp & ?Hq)|[(?p & ?q & [?Hv|?Hv] & ?Hr & ?Hp & ?Hq)|(?p & [?Hv|?Hv] & ?Hr & ?Hp & ?Hq)]].

Lemma decode_decision_value d s revision direction :
  wf_records d s →
  decode_policy_value (decision_value d s revision) revision direction
  = dataplane_decision d s revision direction.
Proof.
  intros [Hd Hs]. destruct d as [v r p q]. split_record Hd; simpl in *; subst.
  all: destruct s as [[sv sr sp sq]|]; [split_record Hs; simpl in *; subst|]; reflexivity.
Qed.

(** C34. The two sides of the policy value ABI agree: the bytes the agent encodes for a decision
    and its shadow decision, read back by the classifier at the same revision, decode to that
    decision, with its reason, provenance and shadow verdict, on either byte order. *)
Theorem policy_abi_roundtrip e d s revision direction :
  wf_records d s → in_width 64 revision →
  decode_policy_value (policy_value_of_bytes e (encode_policy_decisions e d s revision)) revision
    direction
  = dataplane_decision d s revision direction.
Proof.
  intros Hw Hr. rewrite encode_policy_decisions_layout, policy_value_roundtrip
    by by apply decision_value_wf.
  by apply decode_decision_value.
Qed.

Lemma policy_abi_roundtrip_witness :
  decode_policy_value (policy_value_of_bytes BigEndian (encode_policy_decisions BigEndian
    {| rec_verdict := VDeny; rec_reason := ExplicitRule; rec_policy_id := Some 70000;
       rec_rule_id := Some 3 |}
    (Some {| rec_verdict := VAllow; rec_reason := DefaultAction; rec_policy_id := Some 9;
             rec_rule_id := None |}) 258)) 258 Egress
  = dataplane_decision
      {| rec_verdict := VDeny; rec_reason := ExplicitRule; rec_policy_id := Some 70000;
         rec_rule_id := Some 3 |}
      (Some {| rec_verdict := VAllow; rec_reason := DefaultAction; rec_policy_id := Some 9;
               rec_rule_id := None |}) 258 Egress.
Proof.
  apply policy_abi_roundtrip.
  - split; simpl.
    + split; [by right|]. split; [lia|by split].
    + split; [by left|lia].
  - by split.
Defined.
