(* ===== verification/TcFlow.v ===== *)
(** * The classifier's packet decision and its reply state

    [emit_flow] of ebpf/unf-ebpf-tc/src/main.rs: a packet is dropped when policy denies
    it and no live connection of the opposite direction admits it as a reply.  The
    [CONNECTIONS] map is a bounded LRU; an insertion may evict other entries, which the
    event [Evicted] models at any point of an execution. *)

From S2P Require Import Prelude Common PolicyLower Bytes PolicyAbi TcPolicy.

Definition CONNECTION_TCP_TIMEOUT_NS : Z := 300000000000.
Definition CONNECTION_UDP_TIMEOUT_NS : Z := 30000000000.
Definition CONNECTION_SCTP_TIMEOUT_NS : Z := 60000000000.
Definition TCP_FLAG_SYN : Z := 0x02.
Definition TCP_FLAG_ACK : Z := 0x10.
Definition FLOW_ABI_VERSION : Z := 2.
Definition FLOW_EVENT_SIZE : Z := 96.

(** ** Connections *)

Record ConnectionKey := {
  ck_source_address : bytes;
  ck_destination_address : bytes;
  ck_source_port : bytes;
  ck_destination_port : bytes;
  ck_protocol : Z;
  ck_address_family : Z;
  ck_reserved : bytes;
}.

#[export] Instance ConnectionKey_eq_dec : EqDecision ConnectionKey.
Proof. solve_decision. Defined.

#[export] Instance ConnectionKey_countable : Countable ConnectionKey.
Proof.
  refine (inj_countable'
    (λ k, (ck_source_address k, ck_destination_address k, ck_source_port k, ck_destination_port k,
           ck_protocol k, ck_address_family k, ck_reserved k))
    (λ '(a, b, c, d, e, f, g),
      {| ck_source_address := a; ck_destination_address := b; ck_source_port := c;
         ck_destination_port := d; ck_protocol := e; ck_address_family := f; ck_reserved := g |}) _).
  by intros [].
Defined.

Definition ConnectionKey_reverse (k : ConnectionKey) : ConnectionKey := {|
  ck_source_address := ck_destination_address k; ck_destination_address := ck_source_address k;
  ck_source_port := ck_destination_port k; ck_destination_port := ck_source_port k;
  ck_protocol := ck_protocol k; ck_address_family := ck_address_family k; ck_reserved := [0; 0] |}.

Record ConnectionState := {
  cs_last_seen_ns : Z;
  cs_policy_revision : Z;
}.

Abbreviation connections := (gmap ConnectionKey ConnectionState).

Definition connection_timeout_ns (protocol : Z) : option Z :=
  if protocol =? 6 then Some CONNECTION_TCP_TIMEOUT_NS
  else if protocol =? 17 then Some CONNECTION_UDP_TIMEOUT_NS
  else if protocol =? 132 then Some CONNECTION_SCTP_TIMEOUT_NS
  else None.

Definition packet_starts_connection (protocol tcp_flags : Z) : bool :=
  if protocol =? 6 then
    negb (Z.land tcp_flags TCP_FLAG_SYN =? 0) && (Z.land tcp_flags TCP_FLAG_ACK =? 0)
  else (protocol =? 17) || (protocol =? 132).

Definition connection_is_active (state : ConnectionState) (active_policy_revision now_ns protocol : Z) :
    bool :=
  match connection_timeout_ns protocol with
  | None => false
  | Some timeout_ns =>
      negb (cs_policy_revision state =? 0) && negb (active_policy_revision =? 0)
      && (saturating_sub now_ns (cs_last_seen_ns state) <=? timeout_ns)
  end.

Definition refresh_connection (m : connections) (key : ConnectionKey) (policy_revision now_ns : Z) :
    bool * connections :=
  match m !! key with
  | None => (false, m)
  | Some state =>
      if connection_is_active state policy_revision now_ns (ck_protocol key)
      then (true, <[key := {| cs_last_seen_ns := now_ns;
                              cs_policy_revision := cs_policy_revision state |}]> m)
      else (false, delete key m)
  end.

Definition seed_forwarded_connection (m : connections) (key reverse : ConnectionKey)
    (policy_revision now_ns tcp_flags : Z) : connections :=
  if policy_revision =? 0 then m
  else
    let '(known, m) := refresh_connection m key policy_revision now_ns in
    if known then m
    else
      let '(known, m) := refresh_connection m reverse policy_revision now_ns in
      if known || negb (packet_starts_connection (ck_protocol key) tcp_flags) then m
      else <[key := {| cs_last_seen_ns := now_ns; cs_policy_revision := policy_revision |}]> m.

Definition address_family_u8 (f : AddressFamily) : Z :=
  match f with Ipv4Family => 4 | Ipv6Family => 6 end.

(** The two keys [populate_connection_keys] fills in. *)
Definition connection_key (observation : FlowObservation) : ConnectionKey := {|
  ck_source_address := ob_source_address observation;
  ck_destination_address := ob_destination_address observation;
  ck_source_port := ob_source_port observation;
  ck_destination_port := ob_destination_port observation;
  ck_protocol := ob_protocol observation;
  ck_address_family := address_family_u8 (ob_address_family observation);
  ck_reserved := [0; 0] |}.

Definition reverse_key (observation : FlowObservation) : ConnectionKey := {|
  ck_source_address := ob_destination_address observation;
  ck_destination_address := ob_source_address observation;
  ck_source_port := ob_destination_port observation;
  ck_destination_port := ob_source_port observation;
  ck_protocol := ob_protocol observation;
  ck_address_family := address_family_u8 (ob_address_family observation);
  ck_reserved := [0; 0] |}.

(** The client-to-frontend tuple of an admitted Service flow. *)
Record ServiceTuple := {
  st_client_address : bytes;
  st_frontend_address : bytes;
  st_client_port : bytes;
  st_frontend_port : bytes;
  st_protocol : Z;
  st_address_family : Z;
}.

Definition service_key (value : ServiceTuple) : ConnectionKey := {|
  ck_source_address := st_client_address value; ck_destination_address := st_frontend_address value;
  ck_source_port := st_client_port value; ck_destination_port := st_frontend_port value;
  ck_protocol := st_protocol value; ck_address_family := st_address_family value;
  ck_reserved := [0; 0] |}.

Definition service_reverse_key (value : ServiceTuple) : ConnectionKey := {|
  ck_source_address := st_frontend_address value; ck_destination_address := st_client_address value;
  ck_source_port := st_frontend_port value; ck_destination_port := st_client_port value;
  ck_protocol := st_protocol value; ck_address_family := st_address_family value;
  ck_reserved := [0; 0] |}.

Definition seed_service_frontend_policy_connection (e : Endian) (kernel : PolicyKernel)
    (m : connections) (value : ServiceTuple) (now_ns tcp_flags : Z) : connections :=
  seed_forwarded_connection m (service_key value) (service_reverse_key value)
    (active_policy_revision e kernel) now_ns tcp_flags.

(** ** The packet decision *)

Inductive TcAction := TC_ACT_PIPE | TC_ACT_SHOT.

Definition DataplaneDecision_established (denied : DataplaneDecision) : DataplaneDecision := {|
  dp_policy_revision := dp_policy_revision denied; dp_policy_id := 0; dp_rule_id := 0;
  dp_shadow_policy_id := 0; dp_shadow_rule_id := 0;
  dp_verdict := VAllow; dp_reason := reason_code_u8 AllowEstablished;
  dp_shadow_verdict := verdict_u8 VUnknown; dp_shadow_reason := reason_code_u8 Observed;
  dp_direction := dp_direction denied |}.

Record FlowEvent := {
  fe_timestamp_ns : Z;
  fe_source_identity : IdentityId;
  fe_destination_identity : IdentityId;
  fe_source_address : bytes;
  fe_destination_address : bytes;
  fe_source_port : bytes;
  fe_destination_port : bytes;
  fe_protocol : Z;
  fe_address_family : Z;
  fe_policy_revision : Z;
  fe_policy_id : PolicyId;
  fe_rule_id : RuleId;
  fe_shadow_policy_id : PolicyId;
  fe_shadow_rule_id : RuleId;
  fe_interface_index : Z;
  fe_version : Z;
  fe_size : Z;
  fe_verdict : Verdict;
  fe_direction : PolicyDirection;
  fe_reason : Z;
  fe_shadow_verdict : Z;
  fe_shadow_reason : Z;
}.

Definition flow_event (observation : FlowObservation) (decision : DataplaneDecision)
    (timestamp_ns : Z) : FlowEvent := {|
  fe_timestamp_ns := timestamp_ns;
  fe_source_identity := ob_source_identity observation;
  fe_destination_identity := ob_destination_identity observation;
  fe_source_address := ob_source_address observation;
  fe_destination_address := ob_destination_address observation;
  fe_source_port := ob_source_port observation;
  fe_destination_port := ob_destination_port observation;
  fe_protocol := ob_protocol observation;
  fe_address_family := address_family_u8 (ob_address_family observation);
  fe_policy_revision := dp_policy_revision decision;
  fe_policy_id := dp_policy_id decision; fe_rule_id := dp_rule_id decision;
  fe_shadow_policy_id := dp_shadow_policy_id decision;
  fe_shadow_rule_id := dp_shadow_rule_id decision;
  fe_interface_index := 0; fe_version := FLOW_ABI_VERSION; fe_size := FLOW_EVENT_SIZE;
  fe_verdict := dp_verdict decision; fe_direction := dp_direction decision;
  fe_reason := dp_reason decision; fe_shadow_verdict := dp_shadow_verdict decision;
  fe_shadow_reason := dp_shadow_reason decision |}.

(** The action, the connections left behind and the telemetry event.  The per-CPU scratch
    slots the program asks for exist at their constant indexes. *)
Definition emit_flow (e : Endian) (kernel : PolicyKernel) (m : connections)
    (observation : FlowObservation) (timestamp_ns : Z) : TcAction * connections * option FlowEvent :=
  let policy_revision := active_policy_revision e kernel in
  let connection_key := connection_key observation in
  let reverse_key := reverse_key observation in
  if negb (ob_enforce observation) then
    (TC_ACT_PIPE,
     seed_forwarded_connection m connection_key reverse_key policy_revision timestamp_ns
       (ob_tcp_flags observation), None)
  else
    let decision := lookup_observation_policy e kernel observation in
    let '(decision, m) :=
      if bool_decide (dp_verdict decision = VDeny) then
        let '(live, m) := refresh_connection m reverse_key policy_revision timestamp_ns in
        (if live then DataplaneDecision_established decision else decision, m)
      else
        let '(live, m) := refresh_connection m connection_key policy_revision timestamp_ns in
        (decision,
         if negb live && packet_starts_connection (ob_protocol observation) (ob_tcp_flags observation)
            && negb (policy_revision =? 0)
         then <[connection_key := {| cs_last_seen_ns := timestamp_ns;
                                     cs_policy_revision := policy_revision |}]> m
         else m) in
    (if bool_decide (dp_verdict decision = VDeny) then TC_ACT_SHOT else TC_ACT_PIPE, m,
     Some (flow_event observation decision timestamp_ns)).

(** ** Which packets pass *)

(** A connection that would admit a packet of its opposite direction. *)
Definition live (m : connections) (key : ConnectionKey) (policy_revision now_ns : Z) : bool :=
  match m !! key with
  | Some state => connection_is_active state policy_revision now_ns (ck_protocol key)
  | None => false
  end.

Lemma refresh_connection_live m key r now : (refresh_connection m key r now).1 = live m key r now.
Proof. unfold refresh_connection, live. destruct (m !! key); [|done]. by destruct (connection_is_active _ _ _ _). Qed.

Lemma emit_flow_drops e kernel m observation now :
  ob_enforce observation = true →
  (emit_flow e kernel m observation now).1.1 = TC_ACT_SHOT ↔
  dp_verdict (lookup_observation_policy e kernel observation) = VDeny ∧
  live m (reverse_key observation) (active_policy_revision e kernel) now = false.
Proof.
  intros He. unfold emit_flow. rewrite He. cbn [negb]. cbv zeta. rewrite <-refresh_connection_live.
  case_bool_decide as Hd.
  - destruct (refresh_connection _ (reverse_key _) _ _) as [[] m']; simpl; [naive_solver|].
    rewrite bool_decide_true by done. naive_solver.
  - destruct (refresh_connection _ (connection_key _) _ _) as [l m']; simpl.
    rewrite bool_decide_false by done. naive_solver.
Qed.

(** What an enforcing hook does to a packet: it is dropped exactly when policy denies it
    and no live connection has its reversed tuple, and the telemetry event reports the
    action taken and the policy decision behind it, or the established-reply decision. *)
Lemma emit_flow_action e kernel m observation now :
  ob_enforce observation = true →
  let decision := lookup_observation_policy e kernel observation in
  let reply := live m (reverse_key observation) (active_policy_revision e kernel) now in
  let '(action, _, event) := emit_flow e kernel m observation now in
  (action = TC_ACT_SHOT ↔ dp_verdict decision = VDeny ∧ reply = false) ∧
  event = Some (flow_event observation
    (if bool_decide (dp_verdict decision = VDeny) && reply
     then DataplaneDecision_established decision else decision) now) ∧
  (action = TC_ACT_SHOT ↔ fe_verdict <$> event = Some VDeny).
Proof.
  intros He. cbv zeta. unfold emit_flow. rewrite He. cbn [negb]. cbv zeta.
  rewrite <-refresh_connection_live. case_bool_decide as Hd.
  - destruct (refresh_connection _ (reverse_key _) _ _) as [[] m']; simpl.
    + repeat split; naive_solver.
    + rewrite bool_decide_true by done. rewrite Hd. repeat split; naive_solver.
  - destruct (refresh_connection _ (connection_key _) _ _) as [l m']; simpl.
    rewrite bool_decide_false by done. repeat split; naive_solver.
Qed.

(** ** Executions *)

(** What changes the connection table: a packet at a hook, a Service flow's frontend
    tuple, and an eviction.  The policy maps may differ from one event to the next. *)
Inductive TcEvent :=
| Packet (kernel : PolicyKernel) (observation : FlowObservation) (now_ns : Z)
| ServiceFlow (kernel : PolicyKernel) (value : ServiceTuple) (now_ns tcp_flags : Z)
| Evicted (key : ConnectionKey).

Section Executions.
Context (e : Endian).

Definition tc_step (m : connections) (event : TcEvent) : connections :=
  match event with
  | Packet kernel observation now => (emit_flow e kernel m observation now).1.2
  | ServiceFlow kernel value now flags =>
      seed_service_frontend_policy_connection e kernel m value now flags
  | Evicted key => delete key m
  end.

(** The table after a sequence of events, from an empty one. *)
Definition connections_after (events : list TcEvent) : connections := fold_left tc_step events ∅.

(** The event records a connection under [key]: it starts one, a policy is active, and an
    enforcing hook has not denied it. *)
Definition opens (key : ConnectionKey) (event : TcEvent) : Prop :=
  match event with
  | Packet kernel o _ =>
      connection_key o = key ∧ packet_starts_connection (ob_protocol o) (ob_tcp_flags o) = true ∧
      active_policy_revision e kernel ≠ 0 ∧
      (ob_enforce o = true → dp_verdict (lookup_observation_policy e kernel o) ≠ VDeny)
  | ServiceFlow kernel value _ flags =>
      service_key value = key ∧ packet_starts_connection (st_protocol value) flags = true ∧
      active_policy_revision e kernel ≠ 0
  | Evicted _ => False
  end.

(** The event is a packet of the connection, in either direction, at time [t]. *)
Definition carries (key : ConnectionKey) (t : Z) (event : TcEvent) : Prop :=
  match event with
  | Packet _ o now => now = t ∧ (connection_key o = key ∨ reverse_key o = key)
  | ServiceFlow _ value now _ => now = t ∧ (service_key value = key ∨ service_reverse_key value = key)
  | Evicted _ => False
  end.

(** What the table knows about a connection. *)
Definition accounted (events : list TcEvent) (m : connections) : Prop :=
  ∀ key state, m !! key = Some state →
    cs_policy_revision state ≠ 0 ∧ Exists (opens key) events ∧
    Exists (carries key (cs_last_seen_ns state)) events.

Lemma accounted_delete events m key : accounted events m → accounted events (delete key m).
Proof. intros H k s [_ Hk]%lookup_delete_Some. by apply H. Qed.

Lemma accounted_more events event m : accounted events m → accounted (events ++ [event]) m.
Proof. intros H k s (? & ? & ?)%H. rewrite !Exists_app. auto. Qed.

(** A packet of the connection refreshes it. *)
Lemma accounted_refresh events event m key r now :
  carries key now event → accounted (events ++ [event]) m →
  accounted (events ++ [event]) (refresh_connection m key r now).2.
Proof.
  intros Hc H. unfold refresh_connection. destruct (m !! key) as [s|] eqn:Es; [|done].
  destruct (connection_is_active _ _ _ _); cbn [snd]; [|by apply accounted_delete].
  intros k s' [[<- <-]|[_ Hk]]%lookup_insert_Some; [|by apply H].
  destruct (H _ _ Es) as (? & ? & _). split_and!; [done..|]. simpl. rewrite Exists_app. right.
  by apply Exists_cons_hd.
Qed.

(** A packet that opens a connection records it. *)
Lemma accounted_open events event m key r now :
  carries key now event → opens key event → r ≠ 0 → accounted (events ++ [event]) m →
  accounted (events ++ [event])
    (<[key := {| cs_last_seen_ns := now; cs_policy_revision := r |}]> m).
Proof.
  intros Hc Ho Hr H k s [[<- <-]|[_ Hk]]%lookup_insert_Some; [|by apply H].
  rewrite !Exists_app. split_and!; [done|right; by apply Exists_cons_hd..].
Qed.

Lemma accounted_seed events event m key reverse r now flags :
  carries key now event → carries reverse now event →
  (r ≠ 0 → packet_starts_connection (ck_protocol key) flags = true → opens key event) →
  accounted (events ++ [event]) m →
  accounted (events ++ [event]) (seed_forwarded_connection m key reverse r now flags).
Proof.
  intros Hk Hv Ho H. unfold seed_forwarded_connection. destruct (Z.eqb_spec r 0); [done|].
  pose proof (accounted_refresh _ _ _ _ r _ Hk H) as H1.
  destruct (refresh_connection m key r now) as [[] m1]; simpl in H1; [done|].
  pose proof (accounted_refresh _ _ _ _ r _ Hv H1) as H2.
  destruct (refresh_connection m1 reverse r now) as [[] m2]; simpl in *; [done|].
  destruct (packet_starts_connection _ _) eqn:Es; simpl; [|done]. by apply accounted_open; auto.
Qed.

Lemma accounted_step events event m :
  accounted events m → accounted (events ++ [event]) (tc_step m event).
Proof.
  intros H%(accounted_more _ event). destruct event as [kernel o now|kernel value now flags|key]; simpl.
  - unfold emit_flow. destruct (ob_enforce o) eqn:He; simpl.
    2:{ apply accounted_seed; simpl; auto. intros. split_and!; [done..|]. by rewrite He. }
    case_bool_decide as Hd.
    + pose proof (accounted_refresh events (Packet kernel o now) m (reverse_key o)
        (active_policy_revision e kernel) now (conj eq_refl (or_intror eq_refl)) H) as H1.
      by destruct (refresh_connection m _ _ _).
    + pose proof (accounted_refresh events (Packet kernel o now) m (connection_key o)
        (active_policy_revision e kernel) now (conj eq_refl (or_introl eq_refl)) H) as H1.
      destruct (refresh_connection m _ _ _) as [l m1]; simpl in *.
      destruct (negb l && _ && _) eqn:E; [|done]. rewrite !andb_true_iff, !negb_true_iff, Z.eqb_neq in E.
      destruct E as [[_ Es] Hr]. by apply accounted_open; simpl; auto.
  - unfold seed_service_frontend_policy_connection. apply accounted_seed; simpl; auto.
  - by apply accounted_delete.
Qed.

Lemma connections_accounted events : accounted events (connections_after events).
Proof.
  induction events as [|event events IH] using rev_ind.
  - intros k s. unfold connections_after. simpl. by rewrite lookup_empty.
  - unfold connections_after. rewrite fold_left_app. simpl. by apply accounted_step.
Qed.
End Executions.

(** C22. Reply admission is sound over every execution: when an enforcing hook lets through a
    packet that policy denies, an earlier event opened the connection with the reversed
    tuple without being denied under an active policy, and the connection carried a
    packet within its protocol's idle timeout. *)
Theorem denied_packets_pass_only_as_replies e events kernel observation now :
  ob_enforce observation = true →
  dp_verdict (lookup_observation_policy e kernel observation) = VDeny →
  (emit_flow e kernel (connections_after e events) observation now).1.1 = TC_ACT_PIPE →
  let key := reverse_key observation in
  Exists (opens e key) events ∧
  ∃ t timeout, connection_timeout_ns (ob_protocol observation) = Some timeout ∧
    now - t ≤ timeout ∧ Exists (carries key t) events.
Proof.
  intros He Hd Hp key. pose proof (connections_accounted e events) as Hacc.
  unfold emit_flow in Hp. rewrite He in Hp. cbn [negb] in Hp. cbv zeta in Hp.
  rewrite bool_decide_true in Hp by done. fold key in Hp.
  pose proof (refresh_connection_live (connections_after e events) key
    (active_policy_revision e kernel) now) as Hl.
  destruct (refresh_connection _ key _ now) as [l m]; simpl in *. subst l.
  destruct (live _ _ _ _) eqn:El; simpl in Hp; [|by rewrite bool_decide_true in Hp].
  unfold live in El. destruct (_ !! key) as [s|] eqn:Es; [|done].
  destruct (Hacc _ _ Es) as (_ & Ho & Hc). split; [done|].
  unfold connection_is_active in El. change (ck_protocol key) with (ob_protocol observation) in El.
  destruct (connection_timeout_ns _) as [timeout|]; [|done].
  rewrite !andb_true_iff, Z.leb_le in El. destruct El as [_ El]. unfold saturating_sub in El.
  exists (cs_last_seen_ns s), timeout. split_and!; [done|lia|done].
Qed.

(** ** Witnesses: identity 7 may not reach identity 8, but may answer it. *)

Definition demo_deny : PolicyDecisionRecord := {|
  rec_verdict := VDeny; rec_reason := DefaultAction; rec_policy_id := Some 3; rec_rule_id := None |}.

Definition demo_deny_kernel : PolicyKernel := {|
  kn_rules := {[policy_key_layout LittleEndian {|
      ak_source_identity := 7; ak_destination_identity := 8; ak_destination_port := [0; 0];
      ak_protocol := 0; ak_bank := 0 |}
    := encode_policy_decisions LittleEndian demo_deny None 1]};
  kn_ipv4 := ∅; kn_ipv6 := ∅; kn_egress_ipv4 := ∅; kn_egress_ipv6 := ∅;
  kn_config := policy_config_layout LittleEndian {|
    cfg_source_epoch := 1; cfg_revision := 1; cfg_entry_count := 1;
    cfg_schema_version := POLICY_MAP_ABI_VERSION; cfg_active_bank := 0; cfg_flags := 0 |} |}.

Definition demo_packet (source destination : Z) (source_port port flags : Z) : FlowObservation := {|
  ob_source_address := [10; 1; 2; source] ++ zeroes 12;
  ob_destination_address := [10; 1; 2; destination] ++ zeroes 12;
  ob_source_port := be_bytes 2 source_port; ob_destination_port := be_bytes 2 port;
  ob_source_identity := source; ob_destination_identity := destination;
  ob_direction := Ingress; ob_address_family := Ipv4Family; ob_protocol := 6;
  ob_tcp_flags := flags; ob_enforce := true |}.


Lemma denied_packets_pass_only_as_replies_witness :
  Exists (opens LittleEndian (reverse_key (demo_packet 7 8 80 40000 TCP_FLAG_ACK)))
    [Packet demo_deny_kernel (demo_packet 8 7 40000 80 TCP_FLAG_SYN) 100] ∧
  ∃ t timeout, connection_timeout_ns 6 = Some timeout ∧ 200 - t ≤ timeout ∧
    Exists (carries (reverse_key (demo_packet 7 8 80 40000 TCP_FLAG_ACK)) t)
      [Packet demo_deny_kernel (demo_packet 8 7 40000 80 TCP_FLAG_SYN) 100].
Proof.
  apply (denied_packets_pass_only_as_replies LittleEndian
    [Packet demo_deny_kernel (demo_packet 8 7 40000 80 TCP_FLAG_SYN) 100] demo_deny_kernel
    (demo_packet 7 8 80 40000 TCP_FLAG_ACK) 200); vm_compute; reflexivity.
Defined.
