(* ===== verification/PolicyInstalled.v ===== *)
(** * An installed policy bank answers like the controller's entries

    What it means for a bank of the kernel maps to hold a snapshot, and that the
    classifier's lookups in it are the lookups in the snapshot's entry lists. *)

From S2P Require Import Prelude Common PolicyIr PolicyCompile NetworkPolicy PolicyLower.
From S2P Require Import PolicyLowerSpec PolicyLowerFacts LowerIpv6 Bytes PolicyAbi TcPolicy.

(** ** Widths *)

Definition wf_key (k : PolicyMapKey) : Prop :=
  in_width 32 (pk_source_identity k) ∧ in_width 32 (pk_destination_identity k) ∧
  in_width 16 (pk_destination_port k) ∧ in_width 8 (pk_protocol k).

Definition wf_key4 (k : Ipv4PolicyMapKey) : Prop :=
  in_width 32 (pk4_source_address k) ∧ in_width 32 (pk4_destination_identity k) ∧
  in_width 16 (pk4_destination_port k) ∧ in_width 8 (pk4_protocol k).

Definition wf_key6 (k : Ipv6PolicyMapKey) : Prop :=
  wf_cidr6 {| c6_network := pk6_source_network k; c6_prefix_len := pk6_source_prefix_len k |} ∧
  in_width 32 (pk6_destination_identity k) ∧
  in_width 16 (pk6_destination_port k) ∧ in_width 8 (pk6_protocol k).

Definition wf_egress_key4 (k : EgressIpv4PolicyMapKey) : Prop :=
  in_width 32 (ek4_destination_address k) ∧ in_width 32 (ek4_source_identity k) ∧
  in_width 16 (ek4_destination_port k) ∧ in_width 8 (ek4_protocol k).

Definition wf_egress_key6 (k : EgressIpv6PolicyMapKey) : Prop :=
  wf_cidr6 {| c6_network := ek6_destination_network k; c6_prefix_len := ek6_destination_prefix_len k |} ∧
  in_width 32 (ek6_source_identity k) ∧
  in_width 16 (ek6_destination_port k) ∧ in_width 8 (ek6_protocol k).

Definition wf_entry {K} (wf : K → Prop) (x : MapEntry K) : Prop :=
  wf (entry_key x) ∧ wf_records (entry_decision x) (entry_shadow x).

(** ** Hash maps *)

(** A stored entry is current at its own revision. *)
Lemma current_entry {K} e (x : MapEntry K) revision :
  wf_records (entry_decision x) (entry_shadow x) → in_width 64 revision →
  current_value e (Some (entry_bytes e revision x)) revision
  = Some (decision_value (entry_decision x) (entry_shadow x) revision).
Proof.
  intros Hx Hr. unfold current_value, entry_bytes.
  rewrite encode_policy_decisions_layout, policy_value_roundtrip by by apply decision_value_wf.
  simpl. by rewrite Z.eqb_refl.
Qed.

(** The value the classifier reads for the records of an entry. *)
Definition value_of (revision : Z) (v : PolicyDecisionRecord * option PolicyDecisionRecord) :
    PolicyMapValue := decision_value v.1 v.2 revision.

Section Hash.
Context (e : Endian) {K : Type} `{EqDecision K}.
Context (enc : K → bytes) (wf : K → Prop).
Context (enc_inj : ∀ k k', wf k → wf k' → enc k = enc k' → k = k').
Context (entries : list (MapEntry K)) (Hwf : ∀ x, x ∈ entries → wf_entry wf x).
Context (revision : Z) (Hrev : in_width 64 revision).
Context (m : gmap bytes bytes).
Context (Hm : ∀ k v, m !! k = Some v ↔
  ∃ x, x ∈ entries ∧ enc (entry_key x) = k ∧ entry_bytes e revision x = v).

Lemma hash_get k :
  wf k →
  current_value e (m !! enc k) revision = option_map (value_of revision) (entry_at entries k).
Proof.
  intros Hk. unfold entry_at. destruct (List.find _ _) as [x|] eqn:Ex; simpl.
  - apply find_some in Ex as [Hx Heq%bool_decide_eq_true]. apply list_elem_of_In in Hx.
    assert (m !! enc k = Some (entry_bytes e revision x)) as ->.
    { apply Hm. exists x. by rewrite Heq. }
    by apply current_entry; [apply Hwf|].
  - destruct (m !! enc k) as [v|] eqn:Em; [|done]. apply Hm in Em as (x & Hx & Heq & _).
    apply enc_inj in Heq; [|by apply Hwf|done]. apply list_elem_of_In in Hx.
    apply (find_none _ _ Ex) in Hx. apply bool_decide_eq_false in Hx. done.
Qed.
End Hash.

(** ** Tries *)

Lemma trie_get_spec (trie : gmap (Z * bytes) bytes) n data :
  match trie_get trie n data with
  | Some v => ∃ key, trie !! key = Some v ∧ trie_matches n data key = true ∧
      ∀ key' v', trie !! key' = Some v' → trie_matches n data key' = true → key'.1 ≤ key.1
  | None => ∀ key v, trie !! key = Some v → trie_matches n data key = false
  end.
Proof.
  unfold trie_get. pose proof (longest_spec (λ kv, kv.1.1) (λ kv, trie_matches n data kv.1)
    (map_to_list trie)) as Hl.
  destruct (longest _ _ _) as [[k v]|]; simpl.
  - destruct Hl as (Hin & Hk & Hmax). apply elem_of_map_to_list in Hin. exists k.
    split_and!; [done..|]. intros k' v' Hk' Ht. apply elem_of_map_to_list in Hk'.
    by apply (Hmax (k', v')).
  - intros k v Hk. apply elem_of_map_to_list in Hk. by apply (Hl (k, v)).
Qed.

Section Trie.
Context (e : Endian) {K : Type}.
Context (enc : K → Z * bytes) (len : K → Z) (wf : K → Prop) (data : bytes) (matches : K → bool).
Context (Hlen : ∀ k, (enc k).1 = 64 + len k).
Context (Hmatch : ∀ k, wf k → trie_matches 192 data (enc k) = matches k).
Context (Huniq : ∀ k k', wf k → wf k' → matches k = true → matches k' = true →
  len k = len k' → k = k').
Context (entries : list (MapEntry K)) (Hwf : ∀ x, x ∈ entries → wf_entry wf x).
Context (Hnd : NoDup (map entry_key entries)).
Context (revision : Z) (Hrev : in_width 64 revision).
Context (m : gmap (Z * bytes) bytes).
Context (Hm : ∀ k v, trie_matches 192 data k = true → m !! k = Some v ↔
  ∃ x, x ∈ entries ∧ enc (entry_key x) = k ∧ entry_bytes e revision x = v).

Lemma trie_get_entries :
  current_value e (trie_get m 192 data) revision
  = option_map (value_of revision) (option_map entry_value (lpm_get len matches entries)).
Proof.
  pose proof (trie_get_spec m 192 data) as Ht. unfold lpm_get.
  pose proof (longest_spec (λ x, len (entry_key x)) (λ x, matches (entry_key x)) entries) as Hl.
  assert (Hstored : ∀ x, x ∈ entries → matches (entry_key x) = true →
    trie_matches 192 data (enc (entry_key x)) = true ∧
    m !! enc (entry_key x) = Some (entry_bytes e revision x)).
  { intros x Hx Hmx. destruct (Hwf x Hx) as [Hk _]. rewrite Hmatch by done.
    split; [done|]. apply Hm; [by rewrite Hmatch|]. by exists x. }
  destruct (longest _ _ _) as [x|]; simpl.
  - destruct Hl as (Hx & Hmx & Hmax). destruct (Hstored x Hx Hmx) as [Htx Hmxx].
    destruct (trie_get _ _ _) as [v|]; [|by rewrite (Ht _ _ Hmxx) in Htx].
    destruct Ht as (k & Hk & Htk & Htmax). apply Hm in Hk as (y & Hy & <- & <-); [|done].
    destruct (Hwf x Hx) as [Hwx Hrx], (Hwf y Hy) as [Hwy Hry].
    rewrite Hmatch in Htk by done. specialize (Htmax _ _ Hmxx Htx). rewrite !Hlen in Htmax.
    specialize (Hmax y Hy Htk).
    assert (y = x) as ->.
    { apply (NoDup_map_elem entry_key entries); try done. apply Huniq; try done. lia. }
    by apply current_entry.
  - destruct (trie_get _ _ _) as [v|]; [|done]. destruct Ht as (k & Hk & Htk & _).
    apply Hm in Hk as (y & Hy & <- & _); [|done]. destruct (Hwf y Hy) as [Hwy _].
    rewrite Hmatch in Htk by done. by rewrite (Hl y Hy) in Htk.
Qed.
End Trie.

(** ** Bits of an IPv6 key *)

Lemma pow256 n : 256 ^ Z.of_nat n = 2 ^ (8 * Z.of_nat n).
Proof. rewrite Z.pow_mul_r by lia. done. Qed.

(** A prefix reaches past the exact dimensions into the address. *)
Lemma prefix_bits_app hd p a :
  0 ≤ p ≤ 128 → in_width 128 a →
  prefix_bits (64 + p) (hd ++ be_bytes 16 a) = of_be hd * 2 ^ p + a / 2 ^ (128 - p).
Proof.
  intros Hp Ha. unfold prefix_bits. rewrite Z.shiftr_div_pow2 by lia.
  rewrite of_be_app, be_bytes_length, pow256, of_be_bytes by done.
  replace (192 - (64 + p)) with (128 - p) by lia. change (8 * Z.of_nat 16) with 128.
  replace (2 ^ 128) with (2 ^ p * 2 ^ (128 - p)) by (rewrite <-Z.pow_add_r by lia; f_equal; lia).
  rewrite Z.mul_assoc, Z.div_add_l by (apply Z.pow_nonzero; lia). done.
Qed.

Lemma prefix_bits_eq hd hd' p a n :
  byte_string hd → byte_string hd' → length hd = length hd' →
  0 ≤ p ≤ 128 → in_width 128 a → in_width 128 n →
  prefix_bits (64 + p) (hd' ++ be_bytes 16 n) = prefix_bits (64 + p) (hd ++ be_bytes 16 a) ↔
  hd' = hd ∧ n / 2 ^ (128 - p) = a / 2 ^ (128 - p).
Proof.
  intros Hb Hb' Hl Hp Ha Hn. rewrite !prefix_bits_app by done.
  assert (Hq : ∀ x, in_width 128 x → 0 ≤ x / 2 ^ (128 - p) < 2 ^ p).
  { intros x [H0 H1]. split; [apply Z.div_pos; [lia|apply Z.pow_pos_nonneg; lia]|].
    apply Z.div_lt_upper_bound; [apply Z.pow_pos_nonneg; lia|].
    rewrite <-Z.pow_add_r by lia. by replace (128 - p + p) with 128 by lia. }
  pose proof (Hq a Ha). pose proof (Hq n Hn). split; [|by intros [-> ->]].
  intros Heq. assert (of_be hd' = of_be hd ∧ n / 2 ^ (128 - p) = a / 2 ^ (128 - p)) as [Hh ?]
    by (apply (Z.div_mod_unique (2 ^ p)); [by left..|lia]).
  split; [|done]. by apply of_be_inj.
Qed.

Lemma contains_div c a :
  wf_cidr6 c → in_width 128 a →
  Ipv6Cidr_contains c a = true ↔
  c6_network c / 2 ^ (128 - c6_prefix_len c) = a / 2 ^ (128 - c6_prefix_len c).
Proof.
  intros (Hp & Hw & Hm) Ha. unfold Ipv6Cidr_contains.
  destruct (Z.ltb_spec 128 (c6_prefix_len c)); [lia|]. rewrite Z.eqb_eq, land_prefix_eq_iff by done.
  set (s := 2 ^ (128 - c6_prefix_len c)) in *.
  assert (0 < s) by (apply Z.pow_pos_nonneg; lia).
  pose proof (Z.div_mod (c6_network c) s). pose proof (Z.div_mod a s).
  pose proof (Z.mod_pos_bound a s). split; [intros [_ ?]; nia|intros; split; [done|nia]].
Qed.

(** The first eight bytes of a matching key are those of the looked-up key. *)
Lemma prefix_bits_64 d :
  length d = 24%nat → byte_string d → prefix_bits 64 d = of_be (take 8 d).
Proof.
  intros Hl Hb. rewrite <-(take_drop 8 d) at 1. unfold prefix_bits.
  rewrite Z.shiftr_div_pow2 by lia. rewrite of_be_app, pow256, length_drop, Hl.
  change (2 ^ (8 * Z.of_nat (24 - 8))) with (2 ^ 128). change (192 - 64) with 128.
  rewrite Z.div_add_l by done. rewrite Z.div_small; [lia|].
  pose proof (of_be_bound (drop 8 d) ltac:(by apply Forall_drop)) as Hd.
  rewrite pow256, length_drop, Hl in Hd. exact Hd.
Qed.

Lemma trie_matches_head n data k :
  length data = 24%nat → byte_string data → length k.2 = 24%nat → byte_string k.2 →
  64 ≤ k.1 ≤ 192 → trie_matches n data k = true → take 8 k.2 = take 8 data.
Proof.
  intros Hl Hb Hlk Hbk Hk [_ Heq%Z.eqb_eq]%andb_true_iff.
  apply (f_equal (λ z, Z.shiftr z (k.1 - 64))) in Heq. unfold prefix_bits in Heq.
  rewrite !Z.shiftr_shiftr in Heq by lia. replace (192 - k.1 + (k.1 - 64)) with (192 - 64) in Heq by lia.
  fold (prefix_bits 64 k.2) (prefix_bits 64 data) in Heq. rewrite !prefix_bits_64 in Heq by done.
  apply of_be_inj in Heq; [done|by apply Forall_take..|]. by rewrite !length_take, Hl, Hlk.
Qed.

(** ** Injective layouts *)

#[local] Arguments be_bytes : simpl never.
#[local] Arguments ne_bytes : simpl never.

Lemma app_inj_len {A} (a b c d : list A) : length a = length c → a ++ b = c ++ d → a = c ∧ b = d.
Proof. intros Hl H. by apply app_inj_1 in H. Qed.

Definition key_abi (bank : Z) (k : PolicyMapKey) : AbiPolicyMapKey := {|
  ak_source_identity := pk_source_identity k; ak_destination_identity := pk_destination_identity k;
  ak_destination_port := be_bytes 2 (pk_destination_port k); ak_protocol := pk_protocol k;
  ak_bank := bank |}.

Definition key4_abi (bank : Z) (k : Ipv4PolicyMapKey) : AbiIpv4PolicyMapKey := {|
  ak4_source_address := be_bytes 4 (pk4_source_address k);
  ak4_destination_identity := pk4_destination_identity k;
  ak4_destination_port := be_bytes 2 (pk4_destination_port k); ak4_protocol := pk4_protocol k;
  ak4_bank := bank |}.

Definition egress_key4_abi (bank : Z) (k : EgressIpv4PolicyMapKey) : AbiEgressIpv4PolicyMapKey := {|
  aek4_destination_address := be_bytes 4 (ek4_destination_address k);
  aek4_source_identity := ek4_source_identity k;
  aek4_destination_port := be_bytes 2 (ek4_destination_port k); aek4_protocol := ek4_protocol k;
  aek4_bank := bank |}.

(** An IPv6 key's data: its exact dimensions, then an address. *)
Definition data6_abi (bank : Z) (identity port protocol address : Z) : AbiIpv6PolicyMapData := {|
  ad6_destination_identity := identity; ad6_destination_port := be_bytes 2 port;
  ad6_protocol := protocol; ad6_bank := bank; ad6_source_address := be_bytes 16 address |}.

Definition key6_abi (bank : Z) (k : Ipv6PolicyMapKey) : AbiIpv6PolicyMapData :=
  data6_abi bank (pk6_destination_identity k) (pk6_destination_port k) (pk6_protocol k)
    (pk6_source_network k).

(** Splits an equation between layouts into one per field. *)
Ltac layout_inj H :=
  repeat (apply app_inj_len in H as [?Hf H]; [|by rewrite ?ne_bytes_length, ?be_bytes_length]).

Section Injective.
Context (e : Endian) (bank : Z).

Lemma key_layout_inj k k' :
  wf_key k → wf_key k' →
  policy_key_layout e (key_abi bank k) = policy_key_layout e (key_abi bank k') → k = k'.
Proof.
  intros (H1 & H2 & H3 & _) (H1' & H2' & H3' & _) H. cbv [policy_key_layout key_abi ak_source_identity
    ak_destination_identity ak_destination_port ak_protocol ak_bank] in H.
  layout_inj H. apply ne_bytes_inj in Hf, Hf0; try done. apply be_bytes_inj in Hf1; try done.
  injection Hf2 as ?. destruct k, k'. simpl in *. by subst.
Qed.

Lemma key4_layout_inj k k' :
  wf_key4 k → wf_key4 k' →
  ipv4_policy_key_layout e (key4_abi bank k) = ipv4_policy_key_layout e (key4_abi bank k') → k = k'.
Proof.
  intros (H1 & H2 & H3 & _) (H1' & H2' & H3' & _) H. cbv [ipv4_policy_key_layout key4_abi
    ak4_source_address ak4_destination_identity ak4_destination_port ak4_protocol ak4_bank] in H.
  layout_inj H. apply be_bytes_inj in Hf, Hf1; try done. apply ne_bytes_inj in Hf0; try done.
  injection Hf2 as ?. destruct k, k'. simpl in *. by subst.
Qed.

Lemma egress_key4_layout_inj k k' :
  wf_egress_key4 k → wf_egress_key4 k' →
  egress_ipv4_policy_key_layout e (egress_key4_abi bank k)
  = egress_ipv4_policy_key_layout e (egress_key4_abi bank k') → k = k'.
Proof.
  intros (H1 & H2 & H3 & _) (H1' & H2' & H3' & _) H. cbv [egress_ipv4_policy_key_layout
    egress_key4_abi aek4_destination_address aek4_source_identity aek4_destination_port aek4_protocol
    aek4_bank] in H. layout_inj H. apply be_bytes_inj in Hf, Hf1; try done.
  apply ne_bytes_inj in Hf0; try done. injection Hf2 as ?. destruct k, k'. simpl in *. by subst.
Qed.

Definition head6 (identity port protocol : Z) : bytes :=
  ne_bytes e 4 identity ++ be_bytes 2 port ++ [protocol] ++ [bank].

Lemma data6_head identity port protocol a :
  ipv6_policy_data_layout e (data6_abi bank identity port protocol a)
  = head6 identity port protocol ++ be_bytes 16 a.
Proof. unfold head6. by rewrite <-!app_assoc. Qed.

Lemma head6_inj i po pr i' po' pr' :
  in_width 32 i → in_width 32 i' → in_width 16 po → in_width 16 po' →
  head6 i po pr = head6 i' po' pr' → i = i' ∧ po = po' ∧ pr = pr'.
Proof.
  intros H1 H1' H2 H2' H. unfold head6 in H. layout_inj H. apply ne_bytes_inj in Hf; try done.
  apply be_bytes_inj in Hf0; try done. by injection Hf1 as ?.
Qed.

Lemma head6_bytes i po pr :
  in_width 8 pr → in_width 8 bank → byte_string (head6 i po pr) ∧ length (head6 i po pr) = 8%nat.
Proof.
  intros Hpr Hb. unfold head6. split.
  - apply Forall_app_2; [apply ne_bytes_byte|]. apply Forall_app_2; [apply be_bytes_byte|].
    constructor; [exact Hpr|]. constructor; [exact Hb|constructor].
  - by rewrite !length_app, ne_bytes_length, be_bytes_length.
Qed.
End Injective.

(** ** Installed snapshots *)

Definition POLICY_SNAPSHOT_SCHEMA_VERSION : Z := 4.

Record PolicyStateSnapshot := {
  ps_schema_version : Z;
  ps_source_epoch : Z;
  ps_revision : Z;
  ps_entries : list PolicyMapEntry;
  ps_ipv4_entries : list Ipv4PolicyMapEntry;
  ps_ipv6_entries : list Ipv6PolicyMapEntry;
  ps_egress_ipv4_entries : list EgressIpv4PolicyMapEntry;
  ps_egress_ipv6_entries : list EgressIpv6PolicyMapEntry;
}.

(** The bank byte of a stored key. *)
Definition key_bank (k : bytes) : Z := nth 11 k 0.
Definition trie_key_bank (k : Z * bytes) : Z := nth 7 k.2 0.

(** A map holds exactly [desired] in a bank. *)
Definition bank_holds {K} `{Countable K} (key_bank : K → Z) (m desired : gmap K bytes) (bank : Z) :
    Prop := ∀ k, key_bank k = bank → m !! k = desired !! k.

Definition wf_trie (m : gmap (Z * bytes) bytes) : Prop :=
  ∀ k v, m !! k = Some v → 64 ≤ k.1 ≤ 192 ∧ length k.2 = 24%nat ∧ byte_string k.2.

(** The desired contents of the five maps. *)
Record DesiredBanks := {
  db_rules : gmap bytes bytes;
  db_ipv4 : gmap bytes bytes;
  db_ipv6 : gmap (Z * bytes) bytes;
  db_egress_ipv4 : gmap bytes bytes;
  db_egress_ipv6 : gmap (Z * bytes) bytes;
}.

(** The [desired_*] calls of a synchronization, in order. *)
Definition desired_banks (e : Endian) (snapshot : PolicyStateSnapshot) (bank : Z) :
    agent_result DesiredBanks :=
  let revision := ps_revision snapshot in
  let? rules := desired_policy_entries e (ps_entries snapshot) revision bank in
  let? ipv4 := desired_ipv4_policy_entries e (ps_ipv4_entries snapshot) revision bank in
  let? ipv6 := desired_ipv6_policy_entries e (ps_ipv6_entries snapshot) revision bank in
  let? egress_ipv4 :=
    desired_egress_ipv4_policy_entries e (ps_egress_ipv4_entries snapshot) revision bank in
  let? egress_ipv6 :=
    desired_egress_ipv6_policy_entries e (ps_egress_ipv6_entries snapshot) revision bank in
  Ok {| db_rules := rules; db_ipv4 := ipv4; db_ipv6 := ipv6; db_egress_ipv4 := egress_ipv4;
        db_egress_ipv6 := egress_ipv6 |}.

Lemma desired_banks_Ok e snapshot bank desired :
  desired_banks e snapshot bank = Ok desired →
  desired_policy_entries e (ps_entries snapshot) (ps_revision snapshot) bank
    = Ok (db_rules desired) ∧
  desired_ipv4_policy_entries e (ps_ipv4_entries snapshot) (ps_revision snapshot) bank
    = Ok (db_ipv4 desired) ∧
  desired_ipv6_policy_entries e (ps_ipv6_entries snapshot) (ps_revision snapshot) bank
    = Ok (db_ipv6 desired) ∧
  desired_egress_ipv4_policy_entries e (ps_egress_ipv4_entries snapshot) (ps_revision snapshot) bank
    = Ok (db_egress_ipv4 desired) ∧
  desired_egress_ipv6_policy_entries e (ps_egress_ipv6_entries snapshot) (ps_revision snapshot) bank
    = Ok (db_egress_ipv6 desired).
Proof.
  unfold desired_banks.
  destruct (desired_policy_entries _ _ _ _); [|discriminate].
  destruct (desired_ipv4_policy_entries _ _ _ _); [|discriminate].
  destruct (desired_ipv6_policy_entries _ _ _ _); [|discriminate].
  destruct (desired_egress_ipv4_policy_entries _ _ _ _); [|discriminate].
  destruct (desired_egress_ipv6_policy_entries _ _ _ _); [|discriminate].
  intros [= <-]. repeat split; reflexivity.
Qed.

(** Every desired key carries the bank it is meant for. *)
Lemma desired_banks_key_bank e snapshot bank desired :
  desired_banks e snapshot bank = Ok desired →
  (∀ k v, db_rules desired !! k = Some v → key_bank k = bank) ∧
  (∀ k v, db_ipv4 desired !! k = Some v → key_bank k = bank) ∧
  (∀ k v, db_ipv6 desired !! k = Some v → trie_key_bank k = bank) ∧
  (∀ k v, db_egress_ipv4 desired !! k = Some v → key_bank k = bank) ∧
  (∀ k v, db_egress_ipv6 desired !! k = Some v → trie_key_bank k = bank).
Proof.
  intros (H1 & H2 & H3 & H4 & H5)%desired_banks_Ok.
  apply desired_entries_Ok in H1 as (_ & _ & _ & _ & H1), H2 as (_ & _ & _ & _ & H2),
    H3 as (_ & _ & _ & _ & H3), H4 as (_ & _ & _ & _ & H4), H5 as (_ & _ & _ & _ & H5).
  split_and!; intros k v Hk;
    [apply H1 in Hk|apply H2 in Hk|apply H3 in Hk|apply H4 in Hk|apply H5 in Hk];
    destruct Hk as (x & _ & <- & _).
  - by rewrite encode_policy_key_layout; destruct e.
  - by rewrite encode_ipv4_policy_key_layout; destruct e.
  - by rewrite encode_ipv6_policy_key_layout; destruct e.
  - by rewrite encode_egress_ipv4_policy_key_layout; destruct e.
  - by rewrite encode_egress_ipv6_policy_key_layout; destruct e.
Qed.

Definition holds_banks (kernel : PolicyKernel) (desired : DesiredBanks) (bank : Z) : Prop :=
  bank_holds key_bank (kn_rules kernel) (db_rules desired) bank ∧
  bank_holds key_bank (kn_ipv4 kernel) (db_ipv4 desired) bank ∧
  bank_holds trie_key_bank (kn_ipv6 kernel) (db_ipv6 desired) bank ∧
  bank_holds key_bank (kn_egress_ipv4 kernel) (db_egress_ipv4 desired) bank ∧
  bank_holds trie_key_bank (kn_egress_ipv6 kernel) (db_egress_ipv6 desired) bank.

(** The configuration that selects a bank at a revision. *)
Definition active_config (e : Endian) (snapshot : PolicyStateSnapshot) (bank count : Z) : bytes :=
  policy_config_layout e {|
    cfg_source_epoch := ps_source_epoch snapshot; cfg_revision := ps_revision snapshot;
    cfg_entry_count := count; cfg_schema_version := POLICY_MAP_ABI_VERSION;
    cfg_active_bank := bank; cfg_flags := 0 |}.

Definition installed (e : Endian) (kernel : PolicyKernel) (snapshot : PolicyStateSnapshot)
    (bank : Z) : Prop :=
  ∃ desired count,
    desired_banks e snapshot bank = Ok desired ∧ holds_banks kernel desired bank ∧
    in_width 32 count ∧ kn_config kernel = active_config e snapshot bank count.

Definition wf_snapshot (snapshot : PolicyStateSnapshot) : Prop :=
  in_width 64 (ps_source_epoch snapshot) ∧ 1 ≤ ps_revision snapshot < 2 ^ 64 ∧
  Forall (wf_entry wf_key) (ps_entries snapshot) ∧
  Forall (wf_entry wf_key4) (ps_ipv4_entries snapshot) ∧
  Forall (wf_entry wf_key6) (ps_ipv6_entries snapshot) ∧
  Forall (wf_entry wf_egress_key4) (ps_egress_ipv4_entries snapshot).

Lemma desired_banks_wf_trie e snapshot bank desired :
  desired_banks e snapshot bank = Ok desired → wf_snapshot snapshot → 0 ≤ bank →
  wf_trie (db_ipv6 desired).
Proof.
  intros (_ & _ & Hd & _)%desired_banks_Ok (_ & _ & _ & _ & Hall & _) Hb k v Hk.
  apply desired_entries_Ok in Hd as (Hlt & _ & _ & _ & Hm). apply Hm in Hk as (x & Hx & <- & _).
  rewrite Forall_forall in Hall. destruct (Hall x Hx) as [((Hw & _) & Hi & Hpo & Hpr) _].
  rewrite encode_ipv6_policy_key_layout. unfold POLICY_BANK_COUNT in Hlt.
  simpl in Hw. cbn [fst snd]. split; [lia|].
  unfold ipv6_policy_data_layout, byte_string. cbn [ad6_destination_identity ad6_destination_port
    ad6_protocol ad6_bank ad6_source_address]. split.
  - by rewrite !length_app, ne_bytes_length, !be_bytes_length.
  - rewrite !Forall_app. split; [apply ne_bytes_byte|]. split; [apply be_bytes_byte|].
    split; [by apply Forall_singleton|]. split; [|apply be_bytes_byte].
    apply Forall_singleton. unfold in_width. lia.
Qed.

Section Installed.
Context (e : Endian) (kernel : PolicyKernel) (snapshot : PolicyStateSnapshot) (bank : Z).
Context (Hinst : installed e kernel snapshot bank) (Hwf : wf_snapshot snapshot).
Context (Hbank : 0 ≤ bank).

Lemma revision_width : in_width 64 (ps_revision snapshot).
Proof. destruct Hwf as (_ & Hr & _). unfold in_width. lia. Qed.

Lemma installed_bank : 0 ≤ bank < 2.
Proof.
  destruct Hinst as (desired & count & (Hd & _)%desired_banks_Ok & _).
  apply desired_entries_Ok in Hd as [Hb _]. unfold POLICY_BANK_COUNT in Hb. lia.
Qed.

Lemma installed_config :
  ∃ config, active_policy_config e kernel = Some config ∧
    cfg_active_bank config = bank ∧ cfg_revision config = ps_revision snapshot.
Proof.
  destruct Hinst as (desired & count & _ & _ & Hc & Hk). pose proof installed_bank as Hb.
  destruct Hwf as (Hep & Hr & _).
  unfold active_policy_config. rewrite Hk. unfold active_config. rewrite policy_config_roundtrip.
  2:{ split; [exact Hep|split; [apply revision_width|split; [exact Hc|by split]]]. }
  cbn [cfg_schema_version cfg_active_bank cfg_revision].
  destruct (Z.ltb_spec bank POLICY_BANK_COUNT); [|unfold POLICY_BANK_COUNT in *; lia].
  rewrite (proj2 (Z.eqb_neq _ 0)) by lia. eexists. split; [reflexivity|]. by split.
Qed.

Lemma installed_identity k :
  wf_key k →
  lookup_policy_value e kernel (key_abi bank k) (ps_revision snapshot)
  = option_map (value_of (ps_revision snapshot)) (entry_at (ps_entries snapshot) k).
Proof.
  intros Hk. destruct Hinst as (desired & count & (Hd & _)%desired_banks_Ok & (Hb & _) & _).
  unfold lookup_policy_value. rewrite Hb by (by destruct e).
  apply desired_entries_Ok in Hd as (_ & _ & _ & _ & Hm).
  apply (hash_get e (λ k, policy_key_layout e (key_abi bank k)) wf_key); [..|exact Hk].
  - intros k1 k2. apply key_layout_inj.
  - destruct Hwf as (_ & _ & Hall & _). by apply Forall_forall.
  - apply revision_width.
  - intros k' v. rewrite Hm. by setoid_rewrite encode_policy_key_layout.
Qed.

Lemma installed_ipv4 k :
  wf_key4 k →
  lookup_ipv4_policy_value e kernel (key4_abi bank k) (ps_revision snapshot)
  = option_map (value_of (ps_revision snapshot)) (entry_at (ps_ipv4_entries snapshot) k).
Proof.
  intros Hk. destruct Hinst as (desired & count & (_ & Hd & _)%desired_banks_Ok & (_ & Hb & _) & _).
  unfold lookup_ipv4_policy_value. rewrite Hb by (by destruct e).
  apply desired_entries_Ok in Hd as (_ & _ & _ & _ & Hm).
  apply (hash_get e (λ k, ipv4_policy_key_layout e (key4_abi bank k)) wf_key4); [..|exact Hk].
  - intros k1 k2. apply key4_layout_inj.
  - destruct Hwf as (_ & _ & _ & Hall & _). by apply Forall_forall.
  - apply revision_width.
  - intros k' v. rewrite Hm. by setoid_rewrite encode_ipv4_policy_key_layout.
Qed.

Lemma installed_egress_ipv4 k :
  wf_egress_key4 k →
  lookup_egress_ipv4_policy_value e kernel (egress_key4_abi bank k) (ps_revision snapshot)
  = option_map (value_of (ps_revision snapshot)) (entry_at (ps_egress_ipv4_entries snapshot) k).
Proof.
  intros Hk. destruct Hinst as (desired & count & (_ & _ & _ & Hd & _)%desired_banks_Ok
    & (_ & _ & _ & Hb & _) & _).
  unfold lookup_egress_ipv4_policy_value. rewrite Hb by (by destruct e).
  apply desired_entries_Ok in Hd as (_ & _ & _ & _ & Hm).
  apply (hash_get e (λ k, egress_ipv4_policy_key_layout e (egress_key4_abi bank k)) wf_egress_key4);
    [..|exact Hk].
  - intros k1 k2. apply egress_key4_layout_inj.
  - destruct Hwf as (_ & _ & _ & _ & _ & Hall). by apply Forall_forall.
  - apply revision_width.
  - intros k' v. rewrite Hm. by setoid_rewrite encode_egress_ipv4_policy_key_layout.
Qed.

Context (Htrie : wf_trie (kn_ipv6 kernel)).

Lemma key6_matches k identity pr po a :
  wf_key6 k → in_width 32 identity → in_width 16 po → in_width 8 pr → in_width 128 a →
  trie_matches 192 (ipv6_policy_data_layout e (data6_abi bank identity po pr a))
    (64 + pk6_source_prefix_len k, ipv6_policy_data_layout e (key6_abi bank k))
  = trie_match identity pr po a k.
Proof.
  intros (Hc & Hi & Hpo & Hpr) Hi' Hpo' Hpr' Ha. apply bool_eq_iff.
  pose proof installed_bank as Hb2. assert (Hb : in_width 8 bank) by (unfold in_width; lia).
  unfold trie_matches, trie_match, key6_abi. cbn [fst snd].
  rewrite !andb_true_iff, !Z.eqb_eq, Z.leb_le, !data6_head.
  destruct (head6_bytes e bank identity po pr Hpr' Hb) as [Hs Hl].
  destruct (head6_bytes e bank (pk6_destination_identity k) (pk6_destination_port k)
    (pk6_protocol k) Hpr Hb) as [Hs' Hl'].
  pose proof Hc as (Hp & Hw & _). simpl in Hp, Hw.
  rewrite prefix_bits_eq by (done || congruence).
  rewrite (contains_div (key6_cidr k)) by done. cbn [key6_cidr c6_network c6_prefix_len]. split.
  - intros (_ & Hh & Hq). apply head6_inj in Hh as (-> & -> & ->); done.
  - intros [[[-> ->] ->] Hq]. split; [lia|]. by split.
Qed.

Lemma key6_unique k k' identity pr po a :
  wf_key6 k → wf_key6 k' → in_width 128 a →
  trie_match identity pr po a k = true → trie_match identity pr po a k' = true →
  pk6_source_prefix_len k = pk6_source_prefix_len k' → k = k'.
Proof.
  intros (Hc & _) (Hc' & _) Ha. unfold trie_match. rewrite !andb_true_iff, !Z.eqb_eq.
  intros [[[Hi Hpr] Hpo] Hk] [[[Hi' Hpr'] Hpo'] Hk'] Hlen.
  rewrite Ipv6Cidr_contains_iff in Hk, Hk' by done.
  pose proof (prefixes_nested _ _ a Hc Hc' ltac:(simpl; lia) Hk Hk') as H1.
  pose proof (prefixes_nested _ _ a Hc' Hc ltac:(simpl; lia) Hk' Hk) as H2.
  destruct k, k'. simpl in *. subst. f_equal. lia.
Qed.

Lemma data6_bytes identity pr po a :
  in_width 8 pr →
  length (ipv6_policy_data_layout e (data6_abi bank identity po pr a)) = 24%nat ∧
  byte_string (ipv6_policy_data_layout e (data6_abi bank identity po pr a)).
Proof.
  intros Hpr. pose proof installed_bank as Hb2.
  destruct (head6_bytes e bank identity po pr Hpr) as [Hs Hl]; [unfold in_width; lia|].
  rewrite data6_head. rewrite length_app, Hl, be_bytes_length. split; [done|].
  apply Forall_app_2; [done|apply be_bytes_byte].
Qed.

Lemma data6_bank identity pr po a :
  nth 7 (take 8 (ipv6_policy_data_layout e (data6_abi bank identity po pr a))) 0 = bank.
Proof. by destruct e. Qed.

Lemma installed_ipv6 identity pr po a :
  in_width 32 identity → in_width 16 po → in_width 8 pr → in_width 128 a →
  lookup_ipv6_policy_value e kernel (data6_abi bank identity po pr a) (ps_revision snapshot)
  = option_map (value_of (ps_revision snapshot)) (option_map entry_value
      (lpm_get pk6_source_prefix_len (trie_match identity pr po a) (ps_ipv6_entries snapshot))).
Proof.
  intros Hi Hpo Hpr Ha.
  destruct Hinst as (desired & count & (_ & _ & Hd & _)%desired_banks_Ok & (_ & _ & Hb & _) & _).
  apply desired_entries_Ok in Hd as (_ & _ & _ & Hnd & Hm).
  destruct Hwf as (_ & _ & _ & _ & Hall & _). rewrite Forall_forall in Hall.
  set (data := ipv6_policy_data_layout e (data6_abi bank identity po pr a)).
  apply (trie_get_entries e (λ k, (64 + pk6_source_prefix_len k,
    ipv6_policy_data_layout e (key6_abi bank k))) pk6_source_prefix_len wf_key6 data); try done.
  - intros k Hk. by apply key6_matches.
  - intros k k' Hk Hk'. by apply key6_unique.
  - apply (NoDup_fmap_1 (λ k, (64 + pk6_source_prefix_len k,
      ipv6_policy_data_layout e (key6_abi bank k)))).
    revert Hnd. rewrite <-list_fmap_compose. intros Hnd. erewrite list_fmap_ext; [exact Hnd|].
    intros i x _. symmetry. apply encode_ipv6_policy_key_layout.
  - apply revision_width.
  - intros k v Hk. transitivity (db_ipv6 desired !! k = Some v).
    + destruct (decide (trie_key_bank k = bank)) as [Heq|Hne]; [by rewrite Hb|]. split.
      * intros Hkv. destruct (Htrie k v Hkv) as (Hl & Hl24 & Hbk). destruct Hne.
        destruct (data6_bytes identity pr po a Hpr) as [Hd24 Hdb].
        apply trie_matches_head in Hk; [|done..]. unfold trie_key_bank.
        rewrite <-(data6_bank identity pr po a). fold data. rewrite <-Hk.
        symmetry. by rewrite nth_lookup, nth_lookup, lookup_take_lt by lia.
      * intros (x & Hx & <- & _)%Hm. destruct Hne. rewrite encode_ipv6_policy_key_layout.
        by destruct e.
    + rewrite Hm. by setoid_rewrite encode_ipv6_policy_key_layout.
Qed.
End Installed.
