(* ===== verification/PolicyBanks.v ===== *)
(** * Switching policy banks in the agent ([bins/unf-agent/src/main.rs])

    The agent stages a snapshot in the bank the classifier does not read, reads it back,
    selects it with one configuration write and clears the other bank; it rolls the staged
    bank back when anything fails, and after a restart rebuilds its tables from the maps.
    Every system call may fail; the kernel states a packet can observe are recorded. *)

From S2P Require Import Prelude Common PolicyLower Bytes PolicyAbi TcPolicy PolicyInstalled.

(** ** System calls *)

Inductive SyncError :=
| UnsupportedSchema (schema_version : Z)
| StaleRevision (desired applied : Z)
| Rejected (error : AgentPolicyError)
| MapSyscall
| MapKeyNotFound
| StagedMismatch
| RolledBack (cause : SyncError)
| RollbackIncomplete (cause : SyncError).

(** Which calls fail, by their number, and the order in which the kernel enumerates keys. *)
Record Environment := {
  env_fault : nat → bool;
  env_order : ∀ K : Type, list K → list K;
  env_order_perm : ∀ (K : Type) (l : list K), env_order K l ≡ₚ l;
}.

(** The maps, the number of the next call and every map state so far. *)
Record World := {
  w_kernel : PolicyKernel;
  w_clock : nat;
  w_history : list PolicyKernel;
}.

(** Code that makes system calls: a failed call keeps the effects before it. *)
Definition Op (A : Type) : Type := Routine World SyncError A.

(** One of the five maps of the classifier, seen through its key type. *)
Record BpfMap (K : Type) `{Countable K} := {
  bm_get : PolicyKernel → gmap K bytes;
  bm_set : gmap K bytes → PolicyKernel → PolicyKernel;
  bm_bank : K → Z;
}.
Arguments bm_get {K _ _} b k.
Arguments bm_set {K _ _} b m k.
Arguments bm_bank {K _ _} b key.

Definition identity_map : BpfMap bytes := {|
  bm_get := kn_rules;
  bm_set m k := {| kn_rules := m; kn_ipv4 := kn_ipv4 k; kn_ipv6 := kn_ipv6 k;
    kn_egress_ipv4 := kn_egress_ipv4 k; kn_egress_ipv6 := kn_egress_ipv6 k;
    kn_config := kn_config k |};
  bm_bank := key_bank |}.

Definition ipv4_map : BpfMap bytes := {|
  bm_get := kn_ipv4;
  bm_set m k := {| kn_rules := kn_rules k; kn_ipv4 := m; kn_ipv6 := kn_ipv6 k;
    kn_egress_ipv4 := kn_egress_ipv4 k; kn_egress_ipv6 := kn_egress_ipv6 k;
    kn_config := kn_config k |};
  bm_bank := key_bank |}.

Definition ipv6_map : BpfMap (Z * bytes) := {|
  bm_get := kn_ipv6;
  bm_set m k := {| kn_rules := kn_rules k; kn_ipv4 := kn_ipv4 k; kn_ipv6 := m;
    kn_egress_ipv4 := kn_egress_ipv4 k; kn_egress_ipv6 := kn_egress_ipv6 k;
    kn_config := kn_config k |};
  bm_bank := trie_key_bank |}.

Definition egress_ipv4_map : BpfMap bytes := {|
  bm_get := kn_egress_ipv4;
  bm_set m k := {| kn_rules := kn_rules k; kn_ipv4 := kn_ipv4 k; kn_ipv6 := kn_ipv6 k;
    kn_egress_ipv4 := m; kn_egress_ipv6 := kn_egress_ipv6 k; kn_config := kn_config k |};
  bm_bank := key_bank |}.

Definition egress_ipv6_map : BpfMap (Z * bytes) := {|
  bm_get := kn_egress_ipv6;
  bm_set m k := {| kn_rules := kn_rules k; kn_ipv4 := kn_ipv4 k; kn_ipv6 := kn_ipv6 k;
    kn_egress_ipv4 := kn_egress_ipv4 k; kn_egress_ipv6 := m; kn_config := kn_config k |};
  bm_bank := trie_key_bank |}.

Section Calls.
Context (env : Environment).

Definition read_call {A} (f : PolicyKernel → result SyncError A) : Op A := λ w,
  let w' := {| w_kernel := w_kernel w; w_clock := S (w_clock w); w_history := w_history w |} in
  if env_fault env (w_clock w) then (Err MapSyscall, w') else (f (w_kernel w), w').

Definition write_call (f : PolicyKernel → result SyncError PolicyKernel) : Op () := λ w,
  let w' := {| w_kernel := w_kernel w; w_clock := S (w_clock w); w_history := w_history w |} in
  if env_fault env (w_clock w) then (Err MapSyscall, w')
  else match f (w_kernel w) with
       | Ok kernel => (Ok (), {| w_kernel := kernel; w_clock := S (w_clock w);
                                 w_history := w_history w ++ [kernel] |})
       | Err error => (Err error, w')
       end.

Section Map.
Context {K : Type} `{Ord K, Countable K} (r : BpfMap K).

(** The kernel refuses to delete a key that is not there. *)
Definition map_remove (key : K) : Op () := write_call (λ kernel,
  match bm_get r kernel !! key with
  | Some _ => Ok (bm_set r (delete key (bm_get r kernel)) kernel)
  | None => Err MapKeyNotFound
  end).

Definition map_insert (entry : K * bytes) : Op () := write_call (λ kernel,
  Ok (bm_set r (<[entry.1 := entry.2]> (bm_get r kernel)) kernel)).

Definition map_get (key : K) : Op bytes := read_call (λ kernel,
  ok_or (bm_get r kernel !! key) MapKeyNotFound).

Definition map_keys : Op (list K) := read_call (λ kernel,
  Ok (env_order env K (map fst (map_to_list (bm_get r kernel))))).

(** [replace_policy_entries] and [replace_ipv6_policy_entries]. *)
Definition replace_policy_entries (current desired : gmap K bytes) : Op () :=
  let* _ := for_each map_remove
    (List.filter (λ key, bool_decide (desired !! key = None)) (map fst (btree_iter current))) in
  for_each map_insert (btree_iter desired).

(** [restore_policy_entries] and [restore_ipv6_policy_entries]. *)
Definition restore_policy_entries (previous : gmap K bytes) (bank : Z) : Op () :=
  let* keys := map_keys in
  let* _ := for_each map_remove (List.filter (λ key, bm_bank r key =? bank) keys) in
  for_each map_insert (btree_iter previous).

(** [clear_policy_bank] and [clear_ipv6_policy_bank]. *)
Definition clear_policy_bank (entries : gmap K bytes) : Op () :=
  for_each map_remove (map fst (btree_iter entries)).

(** The read-back of a staged bank, through the map's own lookup. *)
Definition validate_staged (get : K → Op bytes) (desired : gmap K bytes) : Op () :=
  for_each (λ entry,
    let* actual := get entry.1 in
    if bool_decide (actual = entry.2) then op_ret () else op_fail StagedMismatch)
    (btree_iter desired).
End Map.

Definition validate_staged_policy_entries (r : BpfMap bytes) (desired : gmap bytes bytes) : Op () :=
  validate_staged (map_get r) desired.

(** A trie lookup answers with the longest stored prefix of the key. *)
Definition validate_staged_ipv6_policy_entries (r : BpfMap (Z * bytes))
    (desired : gmap (Z * bytes) bytes) : Op () :=
  validate_staged (λ key, read_call (λ kernel,
    ok_or (trie_get (bm_get r kernel) key.1 key.2) MapKeyNotFound)) desired.

Definition config_set (config : bytes) : Op () := write_call (λ kernel,
  Ok {| kn_rules := kn_rules kernel; kn_ipv4 := kn_ipv4 kernel; kn_ipv6 := kn_ipv6 kernel;
        kn_egress_ipv4 := kn_egress_ipv4 kernel; kn_egress_ipv6 := kn_egress_ipv6 kernel;
        kn_config := config |}).
End Calls.

(** ** The synchronizer *)

(** What the agent believes the two banks of each map hold. *)
Record PolicySynchronizer := {
  sy_identity_banks : list (gmap bytes bytes);
  sy_ipv4_banks : list (gmap bytes bytes);
  sy_ipv6_banks : list (gmap (Z * bytes) bytes);
  sy_egress_ipv4_banks : list (gmap bytes bytes);
  sy_egress_ipv6_banks : list (gmap (Z * bytes) bytes);
  sy_active_bank : Z;
  sy_applied_epoch : Z;
}.

(** Indexing a two-element array; the bank is always below two. *)
Definition bank_at {K} `{Countable K} (banks : list (gmap K bytes)) (bank : Z) : gmap K bytes :=
  default ∅ (banks !! Z.to_nat bank).

Definition set_bank {K} `{Countable K} (banks : list (gmap K bytes)) (bank : Z) (m : gmap K bytes) :
    list (gmap K bytes) := <[Z.to_nat bank := m]> banks.

Definition synchronizer_bank (sy : PolicySynchronizer) (bank : Z) : DesiredBanks := {|
  db_rules := bank_at (sy_identity_banks sy) bank; db_ipv4 := bank_at (sy_ipv4_banks sy) bank;
  db_ipv6 := bank_at (sy_ipv6_banks sy) bank;
  db_egress_ipv4 := bank_at (sy_egress_ipv4_banks sy) bank;
  db_egress_ipv6 := bank_at (sy_egress_ipv6_banks sy) bank |}.

Definition bank_len (d : DesiredBanks) : Z :=
  Z.of_nat (size (db_rules d)) + Z.of_nat (size (db_ipv4 d)) + Z.of_nat (size (db_ipv6 d))
  + Z.of_nat (size (db_egress_ipv4 d)) + Z.of_nat (size (db_egress_ipv6 d)).

Section Apply.
Context (env : Environment) (e : Endian).

(** Every map is restored, whatever happened to the others. *)
Definition rollback_policy_stages (previous : DesiredBanks) (bank : Z) (cause : SyncError) (w : World) :
    SyncError * World :=
  let '(identity, w) := restore_policy_entries env identity_map (db_rules previous) bank w in
  let '(ipv4, w) := restore_policy_entries env ipv4_map (db_ipv4 previous) bank w in
  let '(ipv6, w) := restore_policy_entries env ipv6_map (db_ipv6 previous) bank w in
  let '(egress_ipv4, w) :=
    restore_policy_entries env egress_ipv4_map (db_egress_ipv4 previous) bank w in
  let '(egress_ipv6, w) :=
    restore_policy_entries env egress_ipv6_map (db_egress_ipv6 previous) bank w in
  (if is_ok identity && is_ok ipv4 && is_ok ipv6 && is_ok egress_ipv4 && is_ok egress_ipv6
   then RolledBack cause else RollbackIncomplete cause, w).

Definition stage_maps (previous desired : DesiredBanks) : Op () :=
  let* _ := replace_policy_entries env identity_map (db_rules previous) (db_rules desired) in
  let* _ := replace_policy_entries env ipv4_map (db_ipv4 previous) (db_ipv4 desired) in
  let* _ := replace_policy_entries env ipv6_map (db_ipv6 previous) (db_ipv6 desired) in
  let* _ := replace_policy_entries env egress_ipv4_map (db_egress_ipv4 previous)
    (db_egress_ipv4 desired) in
  replace_policy_entries env egress_ipv6_map (db_egress_ipv6 previous) (db_egress_ipv6 desired).

Definition validate_maps (desired : DesiredBanks) : Op () :=
  let* _ := validate_staged_policy_entries env identity_map (db_rules desired) in
  let* _ := validate_staged_policy_entries env ipv4_map (db_ipv4 desired) in
  let* _ := validate_staged_ipv6_policy_entries env ipv6_map (db_ipv6 desired) in
  let* _ := validate_staged_policy_entries env egress_ipv4_map (db_egress_ipv4 desired) in
  validate_staged_ipv6_policy_entries env egress_ipv6_map (db_egress_ipv6 desired).

(** Everything up to and including the configuration write that selects the bank. *)
Definition stage_and_activate (previous desired : DesiredBanks)
    (source_epoch revision staging_bank : Z) : Op () :=
  let* _ := stage_maps previous desired in
  let* _ := validate_maps desired in
  match encode_policy_config e source_epoch revision (bank_len desired) staging_bank with
  | Ok config => config_set env config
  | Err error => op_fail (Rejected error)
  end.

(** Clearing the old bank of one map; a failure is only logged. *)
Definition collect_bank {K} `{Ord K, Countable K} (r : BpfMap K) (banks : list (gmap K bytes))
    (bank : Z) (w : World) : list (gmap K bytes) * World :=
  match clear_policy_bank env r (bank_at banks bank) w with
  | (Ok _, w) => (set_bank banks bank ∅, w)
  | (Err _, w) => (banks, w)
  end.

Definition collect_banks (sy : PolicySynchronizer) (bank : Z) (w : World) :
    PolicySynchronizer * World :=
  let '(identity_banks, w) := collect_bank identity_map (sy_identity_banks sy) bank w in
  let '(ipv4_banks, w) := collect_bank ipv4_map (sy_ipv4_banks sy) bank w in
  let '(ipv6_banks, w) := collect_bank ipv6_map (sy_ipv6_banks sy) bank w in
  let '(egress_ipv4_banks, w) := collect_bank egress_ipv4_map (sy_egress_ipv4_banks sy) bank w in
  let '(egress_ipv6_banks, w) := collect_bank egress_ipv6_map (sy_egress_ipv6_banks sy) bank w in
  ({| sy_identity_banks := identity_banks; sy_ipv4_banks := ipv4_banks;
      sy_ipv6_banks := ipv6_banks; sy_egress_ipv4_banks := egress_ipv4_banks;
      sy_egress_ipv6_banks := egress_ipv6_banks; sy_active_bank := sy_active_bank sy;
      sy_applied_epoch := sy_applied_epoch sy |}, w).

Definition activate_bank (sy : PolicySynchronizer) (desired : DesiredBanks) (bank : Z) :
    PolicySynchronizer := {|
  sy_identity_banks := set_bank (sy_identity_banks sy) bank (db_rules desired);
  sy_ipv4_banks := set_bank (sy_ipv4_banks sy) bank (db_ipv4 desired);
  sy_ipv6_banks := set_bank (sy_ipv6_banks sy) bank (db_ipv6 desired);
  sy_egress_ipv4_banks := set_bank (sy_egress_ipv4_banks sy) bank (db_egress_ipv4 desired);
  sy_egress_ipv6_banks := set_bank (sy_egress_ipv6_banks sy) bank (db_egress_ipv6 desired);
  sy_active_bank := bank; sy_applied_epoch := sy_applied_epoch sy |}.

Definition apply_policy_entries (sy : PolicySynchronizer) (desired : DesiredBanks)
    (source_epoch revision staging_bank : Z) (w : World) :
    result SyncError () * PolicySynchronizer * World :=
  let previous := synchronizer_bank sy staging_bank in
  match stage_and_activate previous desired source_epoch revision staging_bank w with
  | (Err cause, w) =>
      let '(error, w) := rollback_policy_stages previous staging_bank cause w in
      (Err error, sy, w)
  | (Ok _, w) =>
      let previous_active := sy_active_bank sy in
      let sy := activate_bank sy desired staging_bank in
      if previous_active =? staging_bank then (Ok (), sy, w)
      else let '(sy, w) := collect_banks sy previous_active w in (Ok (), sy, w)
  end.

(** The policy fields of the agent's status. *)
Record AgentPolicyState := {
  ag_desired_policy_epoch : Z;
  ag_desired_policy_revision : Z;
  ag_applied_policy_epoch : Z;
  ag_applied_policy_revision : Z;
  ag_policy_map_entries : Z;
  ag_active_policy_bank : Z;
}.

Definition active_policy_entry_count (sy : PolicySynchronizer) : Z :=
  bank_len (synchronizer_bank sy (sy_active_bank sy)).

(** A synchronization with the snapshot the controller answered. *)
Definition synchronize_policies (sy : PolicySynchronizer) (state : AgentPolicyState)
    (snapshot : PolicyStateSnapshot) (w : World) :
    result SyncError () * PolicySynchronizer * AgentPolicyState * World :=
  if negb (ps_schema_version snapshot =? POLICY_SNAPSHOT_SCHEMA_VERSION)
  then (Err (UnsupportedSchema (ps_schema_version snapshot)), sy, state, w)
  else
    let desired_revision := ps_revision snapshot in
    let applied_revision := ag_applied_policy_revision state in
    let state := {|
      ag_desired_policy_epoch := ps_source_epoch snapshot;
      ag_desired_policy_revision := desired_revision;
      ag_applied_policy_epoch := ag_applied_policy_epoch state;
      ag_applied_policy_revision := applied_revision;
      ag_policy_map_entries := ag_policy_map_entries state;
      ag_active_policy_bank := ag_active_policy_bank state |} in
    let same_epoch := ps_source_epoch snapshot =? sy_applied_epoch sy in
    if same_epoch && (desired_revision =? applied_revision) then (Ok (), sy, state, w)
    else if same_epoch && (desired_revision <? applied_revision)
    then (Err (StaleRevision desired_revision applied_revision), sy, state, w)
    else
      let staging_bank := (sy_active_bank sy + 1) mod POLICY_BANK_COUNT in
      match desired_banks e snapshot staging_bank with
      | Err error => (Err (Rejected error), sy, state, w)
      | Ok desired =>
          match apply_policy_entries sy desired (ps_source_epoch snapshot) desired_revision
                  staging_bank w with
          | (Err error, sy, w) => (Err error, sy, state, w)
          | (Ok _, sy, w) =>
              let sy := {|
                sy_identity_banks := sy_identity_banks sy; sy_ipv4_banks := sy_ipv4_banks sy;
                sy_ipv6_banks := sy_ipv6_banks sy;
                sy_egress_ipv4_banks := sy_egress_ipv4_banks sy;
                sy_egress_ipv6_banks := sy_egress_ipv6_banks sy;
                sy_active_bank := sy_active_bank sy;
                sy_applied_epoch := ps_source_epoch snapshot |} in
              (Ok (), sy, {|
                ag_desired_policy_epoch := ag_desired_policy_epoch state;
                ag_desired_policy_revision := ag_desired_policy_revision state;
                ag_applied_policy_epoch := ps_source_epoch snapshot;
                ag_applied_policy_revision := desired_revision;
                ag_policy_map_entries := active_policy_entry_count sy;
                ag_active_policy_bank := sy_active_bank sy |}, w)
          end
      end.
End Apply.

(** ** Recovery after a restart *)

Inductive RecoveryError :=
| InvalidRecoveredBank (bank : Z)
| IncompatibleRecoveredValue
| IncompatibleRecoveredConfig
| RecoveredCountMismatch (declared actual : Z)
| MixedRecoveredRevision.

Section Recovery.
Context (env : Environment) (e : Endian).

Definition policy_bank (bank : Z) : result RecoveryError Z :=
  if POLICY_BANK_COUNT <=? bank then Err (InvalidRecoveredBank bank) else Ok bank.

Definition recovered_verdict_reason_is_valid (verdict reason : Z) : bool :=
  ((verdict =? 1) && ((reason =? 0) || (reason =? 1) || (reason =? 2)))
  || ((verdict =? 2) && ((reason =? 1) || (reason =? 2))).

Definition recovered_provenance_is_valid (flags reason : Z) (shadow : bool) : bool :=
  let '(policy_flag, rule_flag) :=
    if shadow then (POLICY_FLAG_SHADOW_HAS_POLICY, POLICY_FLAG_SHADOW_HAS_RULE)
    else (POLICY_FLAG_HAS_POLICY, POLICY_FLAG_HAS_RULE) in
  let has_policy := has_flag flags policy_flag in
  let has_rule := has_flag flags rule_flag in
  if reason =? reason_u8 NoApplicablePolicy then negb has_policy && negb has_rule
  else if reason =? reason_u8 ExplicitRule then has_policy && has_rule
  else if reason =? reason_u8 DefaultAction then has_policy && negb has_rule
  else false.

Definition validate_recovered_policy_value (value : bytes) : result RecoveryError () :=
  let revision := of_ne e (slice value 16 24) in
  let schema := of_ne e (slice value 24 26) in
  let flags := of_ne e (slice value 26 28) in
  let known_flags :=
    Z.lor (Z.lor (Z.lor (Z.lor POLICY_FLAG_HAS_POLICY POLICY_FLAG_HAS_RULE) POLICY_FLAG_HAS_SHADOW)
      POLICY_FLAG_SHADOW_HAS_POLICY) POLICY_FLAG_SHADOW_HAS_RULE in
  let actual_valid :=
    recovered_verdict_reason_is_valid (nth 28 value 0) (nth 29 value 0)
    && recovered_provenance_is_valid flags (nth 29 value 0) false in
  let shadow_valid :=
    if has_flag flags POLICY_FLAG_HAS_SHADOW then
      recovered_verdict_reason_is_valid (nth 30 value 0) (nth 31 value 0)
      && recovered_provenance_is_valid flags (nth 31 value 0) true
    else
      (Z.land flags (Z.lor POLICY_FLAG_SHADOW_HAS_POLICY POLICY_FLAG_SHADOW_HAS_RULE) =? 0)
      && bool_decide (slice value 8 16 = zeroes 8) && bool_decide (slice value 30 32 = zeroes 2) in
  if (revision =? 0) || negb (schema =? POLICY_MAP_ABI_VERSION)
     || negb (Z.land flags (Z.lxor known_flags (u_max 16)) =? 0)
     || negb actual_valid || negb shadow_valid
  then Err IncompatibleRecoveredValue else Ok ().

Definition decode_recovered_config (config : bytes) (expected_schema bank_count : Z) :
    result RecoveryError (option (Z * Z * Z * Z)) :=
  if bool_decide (config = zeroes 24) then Ok None
  else
    let epoch := of_ne e (slice config 0 8) in
    let revision := of_ne e (slice config 8 16) in
    let count := of_ne e (slice config 16 20) in
    let schema := of_ne e (slice config 20 22) in
    let bank := nth 22 config 0 in
    if (epoch =? 0) || (revision =? 0) || negb (schema =? expected_schema)
       || (bank_count <=? bank) || negb (nth 23 config 0 =? 0)
    then Err IncompatibleRecoveredConfig else Ok (Some (epoch, revision, count, bank)).

Definition decode_recovered_policy_config (config : bytes) :
    result RecoveryError (option (Z * Z * Z * Z)) :=
  decode_recovered_config config POLICY_MAP_ABI_VERSION POLICY_BANK_COUNT.

(** One of the loops of [recover_policy_entries]. *)
Definition recover_map {K} `{Countable K} (r : BpfMap K) (kernel : PolicyKernel)
    (banks : list (gmap K bytes)) : result RecoveryError (list (gmap K bytes)) :=
  try_fold (λ banks entry,
    let? bank := policy_bank (bm_bank r entry.1) in
    let? _ := validate_recovered_policy_value entry.2 in
    Ok (set_bank banks bank (<[entry.1 := entry.2]> (bank_at banks bank))))
    banks (env_order env (K * bytes) (map_to_list (bm_get r kernel))).

Definition recover_policy_entries (kernel : PolicyKernel) (sy : PolicySynchronizer) :
    result RecoveryError PolicySynchronizer :=
  let? identity_banks := recover_map identity_map kernel (sy_identity_banks sy) in
  let? ipv4_banks := recover_map ipv4_map kernel (sy_ipv4_banks sy) in
  let? ipv6_banks := recover_map ipv6_map kernel (sy_ipv6_banks sy) in
  let? egress_ipv4_banks := recover_map egress_ipv4_map kernel (sy_egress_ipv4_banks sy) in
  let? egress_ipv6_banks := recover_map egress_ipv6_map kernel (sy_egress_ipv6_banks sy) in
  Ok {| sy_identity_banks := identity_banks; sy_ipv4_banks := ipv4_banks;
        sy_ipv6_banks := ipv6_banks; sy_egress_ipv4_banks := egress_ipv4_banks;
        sy_egress_ipv6_banks := egress_ipv6_banks; sy_active_bank := sy_active_bank sy;
        sy_applied_epoch := sy_applied_epoch sy |}.

Definition policy_entry_count_for_bank (sy : PolicySynchronizer) (bank : Z) : Z :=
  bank_len (synchronizer_bank sy bank).

Definition bank_values (d : DesiredBanks) : list bytes :=
  btree_values (db_rules d) ++ btree_values (db_ipv4 d) ++ btree_values (db_ipv6 d)
  ++ btree_values (db_egress_ipv4 d) ++ btree_values (db_egress_ipv6 d).

Definition validate_active_policy_revision (sy : PolicySynchronizer) (bank revision : Z) :
    result RecoveryError () :=
  try_fold (λ _ value,
    if of_ne e (slice value 16 24) =? revision then Ok () else Err MixedRecoveredRevision)
    () (bank_values (synchronizer_bank sy bank)).

(** The synchronizer a fresh agent starts from. *)
Definition empty_synchronizer : PolicySynchronizer := {|
  sy_identity_banks := [∅; ∅]; sy_ipv4_banks := [∅; ∅]; sy_ipv6_banks := [∅; ∅];
  sy_egress_ipv4_banks := [∅; ∅]; sy_egress_ipv6_banks := [∅; ∅];
  sy_active_bank := 0; sy_applied_epoch := 0 |}.

(** The policy part of reopening the pinned maps, with the recovered epoch and revision. *)
Definition recover_policy_state (kernel : PolicyKernel) (policies : PolicySynchronizer) :
    result RecoveryError (PolicySynchronizer * option (Z * Z)) :=
  let? policies := recover_policy_entries kernel policies in
  let? decoded := decode_recovered_policy_config (kn_config kernel) in
  match decoded with
  | None => Ok (policies, None)
  | Some (epoch, revision, count, bank) =>
      let active_count := policy_entry_count_for_bank policies bank in
      if negb (active_count =? count) then Err (RecoveredCountMismatch count active_count)
      else
        let? _ := validate_active_policy_revision policies bank revision in
        Ok ({| sy_identity_banks := sy_identity_banks policies;
               sy_ipv4_banks := sy_ipv4_banks policies; sy_ipv6_banks := sy_ipv6_banks policies;
               sy_egress_ipv4_banks := sy_egress_ipv4_banks policies;
               sy_egress_ipv6_banks := sy_egress_ipv6_banks policies;
               sy_active_bank := bank; sy_applied_epoch := epoch |}, Some (epoch, revision))
  end.
End Recovery.

(** The policy fields of a starting agent, before and after recovery. *)
Definition initial_policy_state : AgentPolicyState := {|
  ag_desired_policy_epoch := 0; ag_desired_policy_revision := 0; ag_applied_policy_epoch := 0;
  ag_applied_policy_revision := 0; ag_policy_map_entries := 0; ag_active_policy_bank := 0 |}.

Definition apply_recovered_state (state : AgentPolicyState) (policies : PolicySynchronizer)
    (recovered : option (Z * Z)) : AgentPolicyState :=
  match recovered with
  | Some (epoch, revision) => {|
      ag_desired_policy_epoch := ag_desired_policy_epoch state;
      ag_desired_policy_revision := ag_desired_policy_revision state;
      ag_applied_policy_epoch := epoch; ag_applied_policy_revision := revision;
      ag_policy_map_entries := active_policy_entry_count policies;
      ag_active_policy_bank := sy_active_bank policies |}
  | None => state
  end.
