(* ===== verification/PolicyBanksFacts.v ===== *)
(** * What the agent's map operations may change

    Each operation works on one map and one bank; the states it goes through differ from
    the first one only there, and hold entries of the first state or of the new contents. *)

From S2P Require Import Prelude Common PolicyLower Bytes PolicyAbi TcPolicy PolicyInstalled PolicyBanks.

(** ** Kernel states *)

(** Entries the agent stores. *)
Definition stored_entry (e : Endian) (bank : Z) (value : bytes) : Prop :=
  0 ≤ bank < POLICY_BANK_COUNT ∧ validate_recovered_policy_value e value = Ok ().

Definition hash_entry (e : Endian) (key : bytes) (value : bytes) : Prop :=
  stored_entry e (key_bank key) value.

(** Trie keys cover the exact dimensions and have no bits beyond their prefix. *)
Definition trie_key (key : Z * bytes) : Prop :=
  64 ≤ key.1 ≤ 192 ∧ length key.2 = 24%nat ∧ byte_string key.2 ∧
  of_be key.2 mod 2 ^ (192 - key.1) = 0.
Definition trie_entry (e : Endian) (key : Z * bytes) (value : bytes) : Prop :=
  stored_entry e (trie_key_bank key) value ∧ trie_key key.

Definition entries_ok {K} `{Countable K} (ok : K → bytes → Prop) (m : gmap K bytes) : Prop :=
  ∀ key value, m !! key = Some value → ok key value.

Record wf_kernel (e : Endian) (k : PolicyKernel) : Prop := {
  wk_rules : entries_ok (hash_entry e) (kn_rules k);
  wk_ipv4 : entries_ok (hash_entry e) (kn_ipv4 k);
  wk_ipv6 : entries_ok (trie_entry e) (kn_ipv6 k);
  wk_egress_ipv4 : entries_ok (hash_entry e) (kn_egress_ipv4 k);
  wk_egress_ipv6 : entries_ok (trie_entry e) (kn_egress_ipv6 k);
}.

(** Two states agree outside a bank, configuration included. *)
Record bank_frame (b : Z) (k k' : PolicyKernel) : Prop := {
  bf_config : kn_config k' = kn_config k;
  bf_rules : ∀ key, key_bank key ≠ b → kn_rules k' !! key = kn_rules k !! key;
  bf_ipv4 : ∀ key, key_bank key ≠ b → kn_ipv4 k' !! key = kn_ipv4 k !! key;
  bf_ipv6 : ∀ key, trie_key_bank key ≠ b → kn_ipv6 k' !! key = kn_ipv6 k !! key;
  bf_egress_ipv4 : ∀ key, key_bank key ≠ b → kn_egress_ipv4 k' !! key = kn_egress_ipv4 k !! key;
  bf_egress_ipv6 : ∀ key, trie_key_bank key ≠ b →
    kn_egress_ipv6 k' !! key = kn_egress_ipv6 k !! key;
}.

#[export] Instance bank_frame_refl b : Reflexive (bank_frame b).
Proof. by split. Qed.

#[export] Instance bank_frame_trans b : Transitive (bank_frame b).
Proof.
  intros x y z [c1 r1 s1 t1 u1 v1] [c2 r2 s2 t2 u2 v2].
  split; [congruence|intros key Hk..].
  - by rewrite r2, r1.
  - by rewrite s2, s1.
  - by rewrite t2, t1.
  - by rewrite u2, u1.
  - by rewrite v2, v1.
Qed.

(** Reading and writing one map of the kernel state, under an entry predicate. *)
Class BpfMapLaws (e : Endian) {K} `{Countable K} (r : BpfMap K) (ok : K → bytes → Prop) : Prop := {
  bm_get_set m k : bm_get r (bm_set r m k) = m;
  bm_set_get k : bm_set r (bm_get r k) k = k;
  bm_set_set m m' k : bm_set r m (bm_set r m' k) = bm_set r m k;
  bm_frame b m k : (∀ key, bm_bank r key ≠ b → m !! key = bm_get r k !! key) →
    bank_frame b k (bm_set r m k);
  bm_wf_get k : wf_kernel e k → entries_ok ok (bm_get r k);
  bm_wf_set m k : wf_kernel e k → entries_ok ok m → wf_kernel e (bm_set r m k);
}.

Ltac map_laws := split; [by intros ? []|by intros []|by intros ?? []|by intros ? ? []; split
  |by intros ? []|by intros ? ? [] ?; split].

#[export] Instance identity_map_laws e : BpfMapLaws e identity_map (hash_entry e).
Proof. map_laws. Qed.
#[export] Instance ipv4_map_laws e : BpfMapLaws e ipv4_map (hash_entry e).
Proof. map_laws. Qed.
#[export] Instance ipv6_map_laws e : BpfMapLaws e ipv6_map (trie_entry e).
Proof. map_laws. Qed.
#[export] Instance egress_ipv4_map_laws e : BpfMapLaws e egress_ipv4_map (hash_entry e).
Proof. map_laws. Qed.
#[export] Instance egress_ipv6_map_laws e : BpfMapLaws e egress_ipv6_map (trie_entry e).
Proof. map_laws. Qed.

(** ** Sequences of writes to one map *)

Section Edits.
Context {K : Type} `{Countable K}.
Context (S : K → Prop) (new : gmap K bytes).

(** Keys in [S] may have been removed or given their new value. *)
Definition edits (m m' : gmap K bytes) : Prop :=
  ∀ key, m' !! key = m !! key ∨ (S key ∧ (m' !! key = None ∨ m' !! key = new !! key)).

#[export] Instance edits_refl : Reflexive edits.
Proof. intros m key. by left. Qed.

#[export] Instance edits_trans : Transitive edits.
Proof.
  intros x y z H1 H2 key. destruct (H2 key) as [-> |?]; [|by right]. apply H1.
Qed.

Lemma edits_delete m key : S key → edits m (delete key m).
Proof.
  intros Hs k. destruct (decide (k = key)) as [->|Hne].
  - right. split; [done|]. left. apply lookup_delete_eq.
  - left. by apply lookup_delete_ne.
Qed.

Lemma edits_insert m key value : S key → new !! key = Some value → edits m (<[key := value]> m).
Proof.
  intros Hs Hn k. destruct (decide (k = key)) as [->|Hne].
  - right. split; [done|]. right. by rewrite lookup_insert_eq.
  - left. by apply lookup_insert_ne.
Qed.

Lemma edits_ok ok m m' : entries_ok ok m → entries_ok ok new → edits m m' → entries_ok ok m'.
Proof.
  intros Hm Hn He key value Hk. destruct (He key) as [Heq|[_ [Heq|Heq]]]; rewrite Heq in Hk; eauto.
  done.
Qed.
End Edits.

(** The states between two worlds: the trace grows by [ks], all of them and the last one
    within [P] of the first. *)
Definition passes (P : PolicyKernel → PolicyKernel → Prop) (w w' : World) : Prop :=
  P (w_kernel w) (w_kernel w') ∧
  ∃ ks, w_history w' = w_history w ++ ks ∧ Forall (P (w_kernel w)) ks.

Section Passes.
Context (P : PolicyKernel → PolicyKernel → Prop).

Lemma passes_refl `{!Reflexive P} : Reflexive (passes P).
Proof. intros w. split; [done|]. exists []. by rewrite app_nil_r. Qed.

Lemma passes_trans `{!Transitive P} : Transitive (passes P).
Proof.
  intros x y z [H1 (ks1 & E1 & F1)] [H2 (ks2 & E2 & F2)]. split; [by etrans|].
  exists (ks1 ++ ks2). split; [by rewrite E2, E1, (assoc_L (++))|]. apply Forall_app. split; [done|].
  eapply Forall_impl; [exact F2|]. intros k Hk. by etrans.
Qed.

Lemma passes_weaken (Q : PolicyKernel → PolicyKernel → Prop) w w' :
  (∀ k k', P k k' → Q k k') → passes P w w' → passes Q w w'.
Proof.
  intros HPQ [HP (ks & E & F)]. split; [auto|]. exists ks. split; [done|].
  eapply Forall_impl; [exact F|]. auto.
Qed.
End Passes.

(** ** What code may pass through *)

Definition op_passes {A} (P : PolicyKernel → PolicyKernel → Prop) (c : Op A) : Prop :=
  ∀ w, passes P w (c w).2.

Section OpPasses.
Context (P : PolicyKernel → PolicyKernel → Prop) `{!Reflexive P, !Transitive P}.

Lemma op_passes_ret {A} (a : A) : op_passes P (op_ret a).
Proof. intros w. by apply passes_refl. Qed.

Lemma op_passes_fail {A} error : op_passes P (op_fail (A:=A) error).
Proof. intros w. by apply passes_refl. Qed.

Lemma op_passes_bind {A B} (c : Op A) (k : A → Op B) :
  op_passes P c → (∀ a, op_passes P (k a)) → op_passes P (op_bind c k).
Proof.
  intros Hc Hk w. unfold op_bind. specialize (Hc w). destruct (c w) as [[a|] w1]; [|done].
  by eapply passes_trans, Hk.
Qed.

Lemma op_passes_for_each {A} (f : A → Op ()) l :
  (∀ x, x ∈ l → op_passes P (f x)) → op_passes P (for_each f l).
Proof.
  induction l as [|x l IH]; intros Hf; cbn [for_each]; [apply op_passes_ret|].
  apply op_passes_bind; [apply Hf; by left|]. intros _. apply IH. intros y Hy. apply Hf. by right.
Qed.

Lemma op_passes_read env {A} (f : PolicyKernel → result SyncError A) : op_passes P (read_call env f).
Proof.
  intros w. unfold read_call. destruct (env_fault env _);
    (split; [done|]; exists []; by rewrite app_nil_r).
Qed.

Lemma op_passes_write env (f : PolicyKernel → result SyncError PolicyKernel) :
  (∀ k k', f k = Ok k' → P k k') → op_passes P (write_call env f).
Proof.
  intros Hf w. unfold write_call. destruct (env_fault env _);
    [split; [done|]; exists []; by rewrite app_nil_r|].
  destruct (f (w_kernel w)) as [k'|] eqn:E; simpl.
  - split; [by apply Hf|]. exists [k']. split; [done|]. apply Forall_singleton. by apply Hf.
  - split; [done|]. exists []. by rewrite app_nil_r.
Qed.
End OpPasses.

Lemma op_passes_weaken {A} (P Q : PolicyKernel → PolicyKernel → Prop) (c : Op A) :
  (∀ k k', P k k' → Q k k') → op_passes P c → op_passes Q c.
Proof. intros HPQ Hc w. by eapply passes_weaken. Qed.

(** ** Operations on one map *)

Section MapOps.
Context (env : Environment) (e : Endian) {K : Type} `{Ord K, Countable K} (r : BpfMap K).
Context (ok : K → bytes → Prop) `{!BpfMapLaws e r ok}.

(** The states that differ from the first only in [r], by edits. *)
Definition map_edits (S : K → Prop) (new : gmap K bytes) (k k' : PolicyKernel) : Prop :=
  ∃ m, k' = bm_set r m k ∧ edits S new (bm_get r k) m.

#[export] Instance map_edits_refl S new : Reflexive (map_edits S new).
Proof. intros k. exists (bm_get r k). by rewrite (bm_set_get (ok:=ok)). Qed.

#[export] Instance map_edits_trans S new : Transitive (map_edits S new).
Proof.
  intros x y z (m1 & -> & E1) (m2 & -> & E2). exists m2. rewrite (bm_set_set (ok:=ok)). split; [done|].
  rewrite (bm_get_set (ok:=ok)) in E2. by etrans.
Qed.

Lemma map_remove_passes S new key : S key → op_passes (map_edits S new) (map_remove env r key).
Proof.
  intros Hs. apply op_passes_write; [apply _|]. intros k k'.
  destruct (bm_get r k !! key); [|done]. intros [= <-]. eexists. split; [done|]. by apply edits_delete.
Qed.

Lemma map_insert_passes S new entry :
  S entry.1 → new !! entry.1 = Some entry.2 → op_passes (map_edits S new) (map_insert env r entry).
Proof.
  intros Hs Hn. apply op_passes_write; [apply _|]. intros k k' [= <-]. eexists. split; [done|].
  by apply edits_insert.
Qed.

Lemma insert_all_passes (S : K → Prop) new :
  (∀ key value, new !! key = Some value → S key) →
  op_passes (map_edits S new) (for_each (map_insert env r) (btree_iter new)).
Proof.
  intros Hs. apply op_passes_for_each; [apply _..|]. intros [key value] Hin%elem_of_btree_iter.
  apply map_insert_passes; eauto.
Qed.

Lemma remove_all_passes (S : K → Prop) new l :
  (∀ key, key ∈ l → S key) → op_passes (map_edits S new) (for_each (map_remove env r) l).
Proof.
  intros Hs. apply op_passes_for_each; [apply _..|]. intros key Hin. by apply map_remove_passes, Hs.
Qed.

Lemma replace_passes (S : K → Prop) current desired :
  (∀ key, is_Some (current !! key) → S key) → (∀ key value, desired !! key = Some value → S key) →
  op_passes (map_edits S desired) (replace_policy_entries env r current desired).
Proof.
  intros Hc Hd. apply op_passes_bind; [apply _| |].
  - apply remove_all_passes. intros key [Hin _]%elem_of_list_filter. by apply Hc, elem_of_btree_keys.
  - intros _. by apply insert_all_passes.
Qed.

Lemma restore_passes previous bank :
  (∀ key value, previous !! key = Some value → bm_bank r key = bank) →
  op_passes (map_edits (λ key, bm_bank r key = bank) previous)
    (restore_policy_entries env r previous bank).
Proof.
  intros Hp. apply op_passes_bind; [apply _|apply op_passes_read; apply _|]. intros keys.
  apply op_passes_bind; [apply _| |].
  - apply remove_all_passes. intros key [_ Hk%Z.eqb_eq]%elem_of_list_filter. done.
  - intros _. by apply insert_all_passes.
Qed.

Lemma clear_passes (S : K → Prop) entries :
  (∀ key, is_Some (entries !! key) → S key) →
  op_passes (map_edits S ∅) (clear_policy_bank env r entries).
Proof. intros Hs. apply remove_all_passes. intros key Hk. by apply Hs, elem_of_btree_keys. Qed.

Lemma validate_staged_passes P `{!Reflexive P, !Transitive P} (get : K → Op bytes) desired :
  (∀ key, op_passes P (get key)) → op_passes P (validate_staged get desired).
Proof.
  intros Hg. apply op_passes_for_each; [apply _..|]. intros entry _.
  apply op_passes_bind; [apply _|apply Hg|]. intros actual.
  case_bool_decide; [by apply op_passes_ret|by apply op_passes_fail].
Qed.

(** Edits of one bank are invisible outside it and keep the state well formed. *)
Lemma map_edits_frame (S : K → Prop) new b k k' :
  (∀ key, S key → bm_bank r key = b) → map_edits S new k k' → bank_frame b k k'.
Proof.
  intros Hs (m & -> & He). apply (bm_frame (ok:=ok)). intros key Hne.
  destruct (He key) as [?|[Hk _]]; [done|]. by apply Hs in Hk.
Qed.

Lemma map_edits_wf S new k k' :
  entries_ok ok new → map_edits S new k k' → wf_kernel e k → wf_kernel e k'.
Proof.
  intros Hn (m & -> & He) Hw. apply (bm_wf_set (ok:=ok)); [done|].
  eapply edits_ok; [|exact Hn|exact He]. by apply (bm_wf_get (ok:=ok)).
Qed.
End MapOps.

(** ** What successful operations leave behind *)

Section Success.
Context (env : Environment) (e : Endian) {K : Type} `{Ord K, Countable K} (r : BpfMap K).
Context (ok : K → bytes → Prop) `{!BpfMapLaws e r ok}.

Lemma write_call_Ok f w w' :
  write_call env f w = (Ok (), w') → f (w_kernel w) = Ok (w_kernel w').
Proof.
  unfold write_call. destruct (env_fault env _); [done|]. destruct (f (w_kernel w)) as [k|]; [|done].
  by intros [= <-].
Qed.

Lemma read_call_Ok {A} (f : PolicyKernel → result SyncError A) w a w' :
  read_call env f w = (Ok a, w') → f (w_kernel w) = Ok a ∧ w_kernel w' = w_kernel w.
Proof. unfold read_call. destruct (env_fault env _); [done|]. by intros [= -> <-]. Qed.

Lemma remove_all_Ok l : ∀ w w', for_each (map_remove env r) l w = (Ok (), w') → ∀ key,
  bm_get r (w_kernel w') !! key = if bool_decide (key ∈ l) then None else bm_get r (w_kernel w) !! key.
Proof.
  induction l as [|x l IH]; intros w w'; cbn [for_each].
  { intros [= <-] key. rewrite bool_decide_false; [done|apply not_elem_of_nil]. }
  intros ([] & w1 & Hx%write_call_Ok & Hl)%op_bind_Ok key. rewrite (IH _ _ Hl key).
  destruct (bm_get r (w_kernel w) !! x); [|done]. injection Hx as Hx. rewrite <-Hx, (bm_get_set (ok:=ok)).
  destruct (decide (key = x)) as [->|Hne].
  - rewrite lookup_delete_eq. rewrite (bool_decide_true (x ∈ x :: l)) by by left.
    by case_bool_decide.
  - rewrite lookup_delete_ne by done. rewrite (bool_decide_ext (key ∈ x :: l) (key ∈ l)); [done|set_solver].
Qed.

Lemma insert_list_Ok l : ∀ w w', NoDup l.*1 → for_each (map_insert env r) l w = (Ok (), w') →
  bm_get r (w_kernel w') = list_to_map l ∪ bm_get r (w_kernel w).
Proof.
  induction l as [|[x v] l IH]; intros w w'; cbn [for_each].
  { intros _ [= <-]. simpl. by rewrite (left_id_L ∅ (∪)). }
  intros [Hx Hnd]%NoDup_cons ([] & w1 & Hw%write_call_Ok & Hl)%op_bind_Ok.
  rewrite (IH _ _ Hnd Hl). injection Hw as Hw. rewrite <-Hw, (bm_get_set (ok:=ok)). simpl.
  rewrite <-insert_union_r by by apply not_elem_of_list_to_map_1. by rewrite insert_union_l.
Qed.

Lemma insert_all_Ok (m : gmap K bytes) w w' :
  for_each (map_insert env r) (btree_iter m) w = (Ok (), w') →
  bm_get r (w_kernel w') = m ∪ bm_get r (w_kernel w).
Proof.
  intros Hi. rewrite (insert_list_Ok _ _ _ (btree_iter_NoDup_keys m) Hi). f_equal.
  rewrite <-(list_to_map_to_list m) at 2.
  apply list_to_map_proper; [apply btree_iter_NoDup_keys|apply btree_iter_perm].
Qed.

Lemma lookup_union_l (m m' : gmap K bytes) key :
  (m ∪ m') !! key = match m !! key with Some v => Some v | None => m' !! key end.
Proof. rewrite lookup_union. by destruct (m !! key), (m' !! key). Qed.

(** A replaced bank holds exactly the desired entries, when the current ones covered it. *)
Lemma replace_Ok b current desired w w' :
  replace_policy_entries env r current desired w = (Ok (), w') →
  (∀ key, bm_bank r key = b → is_Some (bm_get r (w_kernel w) !! key) → is_Some (current !! key)) →
  ∀ key, bm_bank r key = b → bm_get r (w_kernel w') !! key = desired !! key.
Proof.
  intros ([] & w1 & Hr & Hi)%op_bind_Ok Hc key Hb.
  rewrite (insert_all_Ok _ _ _ Hi), lookup_union_l. destruct (desired !! key) eqn:Ed; [done|].
  rewrite (remove_all_Ok _ _ _ Hr). case_bool_decide as Hin; [done|].
  apply eq_None_not_Some. intros Hs%(Hc key Hb). apply Hin, elem_of_list_filter.
  rewrite elem_of_btree_keys by exact ok. split; [done|by apply bool_decide_eq_true].
Qed.

(** A restored bank holds exactly the previous entries. *)
Lemma restore_Ok b previous w w' :
  restore_policy_entries env r previous b w = (Ok (), w') →
  ∀ key, bm_bank r key = b → bm_get r (w_kernel w') !! key = previous !! key.
Proof.
  intros (keys & w1 & [[= Hk] Hw]%read_call_Ok & ([] & w2 & Hr & Hi)%op_bind_Ok)%op_bind_Ok key Hb.
  rewrite (insert_all_Ok _ _ _ Hi), lookup_union_l. destruct (previous !! key) eqn:Ep; [done|].
  rewrite (remove_all_Ok _ _ _ Hr), Hw. case_bool_decide as Hin; [done|].
  apply eq_None_not_Some. intros [v Hv]. apply Hin, elem_of_list_filter. split; [|by apply Z.eqb_eq].
  rewrite <-Hk, (env_order_perm env). apply elem_of_list_map. exists (key, v).
  by rewrite elem_of_map_to_list.
Qed.

(** A cleared bank is empty, when the cleared entries covered it. *)
Lemma clear_Ok b entries w w' :
  clear_policy_bank env r entries w = (Ok (), w') →
  (∀ key, bm_bank r key = b → is_Some (bm_get r (w_kernel w) !! key) → is_Some (entries !! key)) →
  ∀ key, bm_bank r key = b → bm_get r (w_kernel w') !! key = None.
Proof.
  intros Hr Hc key Hb. rewrite (remove_all_Ok _ _ _ Hr). case_bool_decide as Hin; [done|].
  apply eq_None_not_Some. intros Hs%(Hc key Hb). by apply Hin, elem_of_btree_keys.
Qed.

(** Where an operation on [r] ends, as one write to the first state. *)
Lemma map_edits_set S new k k' : map_edits r S new k k' → k' = bm_set r (bm_get r k') k.
Proof. intros (m & -> & _). by rewrite (bm_get_set (ok:=ok)). Qed.
End Success.
