(* ===== verification/PolicySync.v ===== *)
(** * Bank switching is atomic and recoverable

    The guarantees of a policy synchronization, for every pattern of failing system calls:
    packets see the old policy or the complete new one, a failure leaves the old one in
    force, and a restart at any moment recovers the one that was selected. *)

From S2P Require Import Prelude Common PolicyIr PolicyCompile PolicyLower Bytes PolicyAbi TcPolicy PolicyInstalled.
From S2P Require Import PolicyBanks PolicyBanksFacts.

(** ** Invariants *)

(** The agent's copy of bank [b] of one map: it lists every key the kernel has there, and
    only storable entries of that bank. *)
Definition known {K} `{Countable K} (bank_of : K → Z) (ok : K → bytes → Prop)
    (m d : gmap K bytes) (b : Z) : Prop :=
  (∀ key, bank_of key = b → is_Some (m !! key) → is_Some (d !! key)) ∧
  (∀ key value, d !! key = Some value → bank_of key = b ∧ ok key value).

Record bank_known (e : Endian) (k : PolicyKernel) (d : DesiredBanks) (b : Z) : Prop := {
  bk_rules : known key_bank (hash_entry e) (kn_rules k) (db_rules d) b;
  bk_ipv4 : known key_bank (hash_entry e) (kn_ipv4 k) (db_ipv4 d) b;
  bk_ipv6 : known trie_key_bank (trie_entry e) (kn_ipv6 k) (db_ipv6 d) b;
  bk_egress_ipv4 : known key_bank (hash_entry e) (kn_egress_ipv4 k) (db_egress_ipv4 d) b;
  bk_egress_ipv6 : known trie_key_bank (trie_entry e) (kn_egress_ipv6 k) (db_egress_ipv6 d) b;
}.

(** Contents an agent may store in bank [b]. *)
Record bank_storable (e : Endian) (d : DesiredBanks) (b : Z) : Prop := {
  st_rules : ∀ key v, db_rules d !! key = Some v → key_bank key = b ∧ hash_entry e key v;
  st_ipv4 : ∀ key v, db_ipv4 d !! key = Some v → key_bank key = b ∧ hash_entry e key v;
  st_ipv6 : ∀ key v, db_ipv6 d !! key = Some v → trie_key_bank key = b ∧ trie_entry e key v;
  st_egress_ipv4 : ∀ key v,
    db_egress_ipv4 d !! key = Some v → key_bank key = b ∧ hash_entry e key v;
  st_egress_ipv6 : ∀ key v,
    db_egress_ipv6 d !! key = Some v → trie_key_bank key = b ∧ trie_entry e key v;
}.

Definition lengths_ok (sy : PolicySynchronizer) : Prop :=
  length (sy_identity_banks sy) = 2%nat ∧ length (sy_ipv4_banks sy) = 2%nat ∧
  length (sy_ipv6_banks sy) = 2%nat ∧ length (sy_egress_ipv4_banks sy) = 2%nat ∧
  length (sy_egress_ipv6_banks sy) = 2%nat.

Record consistent (e : Endian) (sy : PolicySynchronizer) (k : PolicyKernel) : Prop := {
  cn_active : 0 ≤ sy_active_bank sy < POLICY_BANK_COUNT;
  cn_lengths : lengths_ok sy;
  cn_kernel : wf_kernel e k;
  cn_banks : ∀ b, 0 ≤ b < POLICY_BANK_COUNT → bank_known e k (synchronizer_bank sy b) b;
}.

Lemma bank_known_storable e k d b : bank_known e k d b → bank_storable e d b.
Proof. intros [[] [] [] [] []]. by split. Qed.

(** What staging, rolling back and collecting bank [b] may do. *)
Definition stage_rel (e : Endian) (b : Z) (k k' : PolicyKernel) : Prop :=
  bank_frame b k k' ∧ (wf_kernel e k → wf_kernel e k').

#[export] Instance stage_rel_refl e b : Reflexive (stage_rel e b).
Proof. by split. Qed.
#[export] Instance stage_rel_trans e b : Transitive (stage_rel e b).
Proof. intros x y z [? ?] [? ?]. split; [by etrans|auto]. Qed.

Section OneMap.
Context (env : Environment) (e : Endian) {K : Type} `{Ord K, Countable K} (r : BpfMap K).
Context (ok : K → bytes → Prop) `{!BpfMapLaws e r ok} (b : Z).

Lemma map_edits_stage (S : K → Prop) new k k' :
  (∀ key, S key → bm_bank r key = b) → entries_ok ok new → map_edits r S new k k' →
  stage_rel e b k k'.
Proof.
  intros Hs Hn He. split; [by eapply map_edits_frame|intros Hw; by eapply map_edits_wf].
Qed.

Lemma replace_stage current desired :
  (∀ key, is_Some (current !! key) → bm_bank r key = b) →
  (∀ key v, desired !! key = Some v → bm_bank r key = b ∧ ok key v) →
  op_passes (stage_rel e b) (replace_policy_entries env r current desired).
Proof.
  intros Hc Hd. eapply op_passes_weaken; [|apply (replace_passes env e r ok (λ key, bm_bank r key = b))].
  - intros k k' Hk. eapply map_edits_stage; [| |exact Hk]; [done|]. by intros key v [_ ?]%Hd.
  - done.
  - by intros key v [? _]%Hd.
Qed.

Lemma restore_stage previous :
  (∀ key v, previous !! key = Some v → bm_bank r key = b ∧ ok key v) →
  op_passes (stage_rel e b) (restore_policy_entries env r previous b).
Proof.
  intros Hp. eapply op_passes_weaken; [|apply (restore_passes env e r ok)].
  - intros k k' Hk. eapply map_edits_stage; [| |exact Hk]; [done|]. by intros key v [_ ?]%Hp.
  - by intros key v [? _]%Hp.
Qed.

Lemma clear_stage entries :
  (∀ key, is_Some (entries !! key) → bm_bank r key = b) →
  op_passes (stage_rel e b) (clear_policy_bank env r entries).
Proof.
  intros Hp. eapply op_passes_weaken; [|apply (clear_passes env e r ok (λ key, bm_bank r key = b))].
  - intros k k' Hk. eapply map_edits_stage; [| |exact Hk]; [done|]. by intros key v ?%lookup_empty_Some.
  - done.
Qed.

(** A successful operation is one write to its map. *)
Lemma replace_set current desired w w' res :
  replace_policy_entries env r current desired w = (res, w') →
  w_kernel w' = bm_set r (bm_get r (w_kernel w')) (w_kernel w).
Proof.
  intros Hr. eapply map_edits_set; [done|].
  destruct (replace_passes env e r ok (λ _, True) current desired) with (w := w) as [Hp _]; [done..|].
  rewrite Hr in Hp. exact Hp.
Qed.

Lemma restore_set previous w w' res :
  (∀ key v, previous !! key = Some v → bm_bank r key = b) →
  restore_policy_entries env r previous b w = (res, w') →
  w_kernel w' = bm_set r (bm_get r (w_kernel w')) (w_kernel w).
Proof.
  intros Hb Hr. eapply map_edits_set; [done|].
  destruct (restore_passes env e r ok previous b Hb w) as [Hp _]. rewrite Hr in Hp. exact Hp.
Qed.

Lemma clear_set entries w w' res :
  clear_policy_bank env r entries w = (res, w') →
  w_kernel w' = bm_set r (bm_get r (w_kernel w')) (w_kernel w).
Proof.
  intros Hr. eapply map_edits_set; [done|].
  destruct (clear_passes env e r ok (λ _, True) entries) with (w := w) as [Hp _]; [done|].
  rewrite Hr in Hp. exact Hp.
Qed.
End OneMap.

(** ** The phases of a synchronization *)

Section Phases.
Context (env : Environment) (e : Endian) (b : Z).

Lemma stage_maps_passes previous desired :
  bank_storable e previous b → bank_storable e desired b →
  op_passes (stage_rel e b) (stage_maps env previous desired).
Proof.
  intros [p1 p2 p3 p4 p5] [d1 d2 d3 d4 d5]. unfold stage_maps.
  apply op_passes_bind; [apply _|eapply replace_stage; [apply _|by intros key [v [? _]%p1]|done]|intros _].
  apply op_passes_bind; [apply _|eapply replace_stage; [apply _|by intros key [v [? _]%p2]|done]|intros _].
  apply op_passes_bind; [apply _|eapply replace_stage; [apply _|by intros key [v [? _]%p3]|done]|intros _].
  apply op_passes_bind; [apply _|eapply replace_stage; [apply _|by intros key [v [? _]%p4]|done]|intros _].
  eapply replace_stage; [apply _|by intros key [v [? _]%p5]|done].
Qed.

(** Staging over a known bank leaves exactly the desired contents in it. *)
Lemma stage_maps_Ok previous desired w w' :
  stage_maps env previous desired w = (Ok (), w') → bank_known e (w_kernel w) previous b →
  holds_banks (w_kernel w') desired b.
Proof.
  unfold stage_maps.
  intros ([] & w1 & H1 & ([] & w2 & H2 & ([] & w3 & H3 & ([] & w4 & H4 & H5)%op_bind_Ok)%op_bind_Ok)
    %op_bind_Ok)%op_bind_Ok [[k1 _] [k2 _] [k3 _] [k4 _] [k5 _]].
  pose proof (replace_set env e identity_map (hash_entry e) _ _ _ _ _ H1) as S1.
  pose proof (replace_set env e ipv4_map (hash_entry e) _ _ _ _ _ H2) as S2.
  pose proof (replace_set env e ipv6_map (trie_entry e) _ _ _ _ _ H3) as S3.
  pose proof (replace_set env e egress_ipv4_map (hash_entry e) _ _ _ _ _ H4) as S4.
  pose proof (replace_set env e egress_ipv6_map (trie_entry e) _ _ _ _ _ H5) as S5.
  pose proof (replace_Ok env e identity_map (hash_entry e) b _ _ _ _ H1 k1) as R1.
  pose proof (replace_Ok env e ipv4_map (hash_entry e) b _ _ _ _ H2) as R2.
  pose proof (replace_Ok env e ipv6_map (trie_entry e) b _ _ _ _ H3) as R3.
  pose proof (replace_Ok env e egress_ipv4_map (hash_entry e) b _ _ _ _ H4) as R4.
  pose proof (replace_Ok env e egress_ipv6_map (trie_entry e) b _ _ _ _ H5) as R5.
  rewrite S5, S4, S3, S2, S1. rewrite S1 in R2. rewrite S2, S1 in R3. rewrite S3, S2, S1 in R4.
  rewrite S4, S3, S2, S1 in R5. cbn in R1, R2, R3, R4, R5. unfold holds_banks, bank_holds. simpl.
  split_and!; auto.
Qed.

(** The read-back changes nothing. *)
Lemma validate_maps_passes desired : op_passes (=) (validate_maps env desired).
Proof.
  unfold validate_maps. repeat (apply op_passes_bind; [apply _| |intros _]).
  all: apply validate_staged_passes; [apply _..|]; intros key; apply op_passes_read; apply _.
Qed.

Lemma rollback_spec previous cause w error w' :
  bank_storable e previous b →
  rollback_policy_stages env previous b cause w = (error, w') →
  passes (stage_rel e b) w w' ∧
  (error = RolledBack cause ∧ holds_banks (w_kernel w') previous b ∨ error = RollbackIncomplete cause).
Proof.
  intros [p1 p2 p3 p4 p5]. unfold rollback_policy_stages.
  pose proof (restore_stage env e identity_map _ b _ p1 w) as P1.
  destruct (restore_policy_entries env identity_map _ b w) as [r1 w1] eqn:E1.
  pose proof (restore_stage env e ipv4_map _ b _ p2 w1) as P2.
  destruct (restore_policy_entries env ipv4_map _ b w1) as [r2 w2] eqn:E2.
  pose proof (restore_stage env e ipv6_map _ b _ p3 w2) as P3.
  destruct (restore_policy_entries env ipv6_map _ b w2) as [r3 w3] eqn:E3.
  pose proof (restore_stage env e egress_ipv4_map _ b _ p4 w3) as P4.
  destruct (restore_policy_entries env egress_ipv4_map _ b w3) as [r4 w4] eqn:E4.
  pose proof (restore_stage env e egress_ipv6_map _ b _ p5 w4) as P5.
  destruct (restore_policy_entries env egress_ipv6_map _ b w4) as [r5 w5] eqn:E5.
  cbn [snd] in *. intros [= <- <-].
  split; [do 4 (eapply passes_trans; [apply _|eassumption|]); done|].
  destruct r1 as [[]|], r2 as [[]|], r3 as [[]|], r4 as [[]|], r5 as [[]|]; simpl; try by right.
  left. split; [done|].
  apply (restore_set env e identity_map (hash_entry e) b) in E1 as S1; [|by intros ?? [? _]%p1].
  apply (restore_set env e ipv4_map (hash_entry e) b) in E2 as S2; [|by intros ?? [? _]%p2].
  apply (restore_set env e ipv6_map (trie_entry e) b) in E3 as S3; [|by intros ?? [? _]%p3].
  apply (restore_set env e egress_ipv4_map (hash_entry e) b) in E4 as S4; [|by intros ?? [? _]%p4].
  apply (restore_set env e egress_ipv6_map (trie_entry e) b) in E5 as S5; [|by intros ?? [? _]%p5].
  pose proof (restore_Ok env e identity_map (hash_entry e) b _ _ _ E1) as R1.
  pose proof (restore_Ok env e ipv4_map (hash_entry e) b _ _ _ E2) as R2.
  pose proof (restore_Ok env e ipv6_map (trie_entry e) b _ _ _ E3) as R3.
  pose proof (restore_Ok env e egress_ipv4_map (hash_entry e) b _ _ _ E4) as R4.
  pose proof (restore_Ok env e egress_ipv6_map (trie_entry e) b _ _ _ E5) as R5.
  rewrite S5, S4, S3, S2, S1. unfold holds_banks, bank_holds. simpl. split_and!; auto.
Qed.
End Phases.

(** *** Collecting the old bank *)

Section BankArray.
Context {K : Type} `{Countable K} (banks : list (gmap K bytes)).
Context (Hlen : length banks = 2%nat).

Lemma set_bank_length b m : length (set_bank banks b m) = 2%nat.
Proof. unfold set_bank. by rewrite length_insert. Qed.

Lemma bank_at_set b m : 0 ≤ b < POLICY_BANK_COUNT → bank_at (set_bank banks b m) b = m.
Proof.
  intros Hb. unfold bank_at, set_bank. rewrite list_lookup_insert_eq; [done|].
  unfold POLICY_BANK_COUNT in Hb. lia.
Qed.

Lemma bank_at_set_ne b b' m :
  0 ≤ b < POLICY_BANK_COUNT → 0 ≤ b' < POLICY_BANK_COUNT → b ≠ b' →
  bank_at (set_bank banks b m) b' = bank_at banks b'.
Proof.
  clear Hlen. intros Hb Hb' Hne. unfold bank_at, set_bank. rewrite list_lookup_insert_ne; [done|]. lia.
Qed.
End BankArray.

Section Collect.
Context (env : Environment) (e : Endian) {K : Type} `{Ord K, Countable K} (r : BpfMap K).
Context (ok : K → bytes → Prop) `{!BpfMapLaws e r ok} (b : Z).

Lemma collect_bank_spec banks w banks' w' :
  collect_bank env r banks b w = (banks', w') → length banks = 2%nat → 0 ≤ b < POLICY_BANK_COUNT →
  known (bm_bank r) ok (bm_get r (w_kernel w)) (bank_at banks b) b →
  passes (stage_rel e b) w w' ∧ w_kernel w' = bm_set r (bm_get r (w_kernel w')) (w_kernel w) ∧
  length banks' = 2%nat ∧
  known (bm_bank r) ok (bm_get r (w_kernel w')) (bank_at banks' b) b ∧
  ∀ b', 0 ≤ b' < POLICY_BANK_COUNT → b ≠ b' → bank_at banks' b' = bank_at banks b'.
Proof.
  intros Hc Hlen Hb [Hcover Hok]. unfold collect_bank in Hc.
  assert (Hin : ∀ key, is_Some (bank_at banks b !! key) → bm_bank r key = b)
    by (by intros key [v [? _]%Hok]).
  pose proof (clear_stage env e r ok b _ Hin w) as Hp.
  pose proof (clear_passes env e r ok (λ key, bm_bank r key = b) _ Hin w) as [(m & Hm & Hed) _].
  destruct (clear_policy_bank env r (bank_at banks b) w) as [res w1] eqn:E.
  cbn [snd] in *. pose proof (clear_set env e r ok _ _ _ _ E) as Hs.
  destruct res as [[]|err]; injection Hc as <- <-; (split; [done|split; [done|]]).
  - split; [by apply set_bank_length|]. rewrite bank_at_set by done. split.
    + split; [|by intros key v ?%lookup_empty_Some]. intros key Hk [v Hv].
      by rewrite (clear_Ok env e r ok b _ _ _ E Hcover key Hk) in Hv.
    + intros b' Hb' Hne. by apply bank_at_set_ne.
  - split; [done|]. split; [|done]. split; [|done]. intros key Hk Hsome. apply Hcover; [done|].
    rewrite Hm, (bm_get_set (ok:=ok)) in Hsome. destruct (Hed key) as [<-|[_ [Hn|Hn]]]; [done|..];
      rewrite Hn in Hsome; by destruct Hsome.
Qed.
End Collect.

Lemma known_frame {K} `{Countable K} (bank_of : K → Z) ok m m' d b b' :
  known bank_of ok m d b' → (∀ key, bank_of key ≠ b → m' !! key = m !! key) → b ≠ b' →
  known bank_of ok m' d b'.
Proof.
  intros [Hc Ho] Hm Hne. split; [|done]. intros key Hk. rewrite Hm by congruence. by apply Hc.
Qed.

Lemma bank_known_frame e k k' d b b' :
  bank_known e k d b' → bank_frame b k k' → b ≠ b' → bank_known e k' d b'.
Proof. intros [] [] Hne. split; by eapply known_frame. Qed.

Lemma holds_banks_frame k k' d b b' :
  holds_banks k d b' → bank_frame b k k' → b ≠ b' → holds_banks k' d b'.
Proof.
  intros (h1 & h2 & h3 & h4 & h5) [_ f1 f2 f3 f4 f5] Hne. unfold holds_banks, bank_holds in *.
  split_and!; intros key Hk; [rewrite f1|rewrite f2|rewrite f3|rewrite f4|rewrite f5]; auto; congruence.
Qed.

Lemma collect_banks_spec env e sy b w sy' w' :
  collect_banks env sy b w = (sy', w') → lengths_ok sy → 0 ≤ b < POLICY_BANK_COUNT →
  bank_known e (w_kernel w) (synchronizer_bank sy b) b →
  passes (stage_rel e b) w w' ∧ lengths_ok sy' ∧ sy_active_bank sy' = sy_active_bank sy ∧
  bank_known e (w_kernel w') (synchronizer_bank sy' b) b ∧
  ∀ b', 0 ≤ b' < POLICY_BANK_COUNT → b ≠ b' → synchronizer_bank sy' b' = synchronizer_bank sy b'.
Proof.
  intros Hc (l1 & l2 & l3 & l4 & l5) Hb [k1 k2 k3 k4 k5]. unfold collect_banks in Hc. simpl in *.
  destruct (collect_bank env identity_map _ b w) as [i1 w1] eqn:E1.
  destruct (collect_bank_spec env e identity_map _ b _ _ _ _ E1 l1 Hb k1) as (p1 & s1 & m1 & n1 & o1).
  rewrite s1 in n1. simpl in n1.
  destruct (collect_bank env ipv4_map _ b w1) as [i2 w2] eqn:E2.
  destruct (collect_bank_spec env e ipv4_map (hash_entry e) b _ _ _ _ E2 l2 Hb) as (p2 & s2 & m2 & n2 & o2);
    [by rewrite s1|].
  destruct (collect_bank env ipv6_map _ b w2) as [i3 w3] eqn:E3.
  destruct (collect_bank_spec env e ipv6_map (trie_entry e) b _ _ _ _ E3 l3 Hb) as (p3 & s3 & m3 & n3 & o3);
    [by rewrite s2, s1|].
  destruct (collect_bank env egress_ipv4_map _ b w3) as [i4 w4] eqn:E4.
  destruct (collect_bank_spec env e egress_ipv4_map (hash_entry e) b _ _ _ _ E4 l4 Hb)
    as (p4 & s4 & m4 & n4 & o4); [by rewrite s3, s2, s1|].
  destruct (collect_bank env egress_ipv6_map _ b w4) as [i5 w5] eqn:E5.
  destruct (collect_bank_spec env e egress_ipv6_map (trie_entry e) b _ _ _ _ E5 l5 Hb)
    as (p5 & s5 & m5 & n5 & o5); [by rewrite s4, s3, s2, s1|].
  injection Hc as <- <-.
  split; [do 4 (eapply passes_trans; [apply _|eassumption|]); done|].
  split; [done|]. split; [done|]. split.
  - rewrite s5, s4, s3, s2, s1. split; simpl; done.
  - intros b' Hb' Hne. unfold synchronizer_bank. simpl. by rewrite o1, o2, o3, o4, o5.
Qed.

(** ** Encoded snapshots are storable *)

Definition storable (snapshot : PolicyStateSnapshot) : Prop :=
  wf_snapshot snapshot ∧ Forall (wf_entry wf_egress_key6) (ps_egress_ipv6_entries snapshot).

(** The layout both tries share: exact dimensions, then a canonical network. *)
Lemma trie_key_layout e identity port protocol bank network prefix_len :
  wf_cidr6 {| c6_network := network; c6_prefix_len := prefix_len |} → in_width 8 protocol →
  0 ≤ bank < POLICY_BANK_COUNT →
  trie_key (64 + prefix_len,
    ne_bytes e 4 identity ++ be_bytes 2 port ++ [protocol] ++ [bank] ++ be_bytes 16 network).
Proof.
  intros (Hp & Hw & Hm) Hpr Hb.
  replace (_ ++ _) with (head6 e bank identity port protocol ++ be_bytes 16 network)
    by (unfold head6; by rewrite <-!app_assoc).
  simpl in *. unfold POLICY_BANK_COUNT in Hb.
  destruct (head6_bytes e bank identity port protocol Hpr) as [Hs Hl]; [unfold in_width; lia|].
  unfold trie_key. simpl. split; [lia|]. split; [by rewrite length_app, Hl, be_bytes_length|].
  split; [apply Forall_app_2; [done|apply be_bytes_byte]|].
  rewrite of_be_app, be_bytes_length, pow256, of_be_bytes by done.
  replace (192 - (64 + prefix_len)) with (128 - prefix_len) by lia. change (8 * Z.of_nat 16) with 128.
  replace (2 ^ 128) with (2 ^ prefix_len * 2 ^ (128 - prefix_len))
    by (rewrite <-Z.pow_add_r by lia; f_equal; lia).
  rewrite Z.mul_assoc, Z.add_comm, Z.mod_add by (apply Z.pow_nonzero; lia). done.
Qed.

(** What the agent encodes, it accepts after a restart. *)
Lemma encoded_value_valid e d s revision :
  wf_records d s → 1 ≤ revision < 2 ^ 64 →
  validate_recovered_policy_value e (encode_policy_decisions e d s revision) = Ok ().
Proof.
  intros Hw Hr. rewrite encode_policy_decisions_layout.
  assert (Hv : wf_value (decision_value d s revision))
    by (apply decision_value_wf; [done|unfold in_width; lia]).
  pose proof (policy_value_roundtrip e _ Hv) as Hrt.
  set (v := decision_value d s revision) in *. set (bs := policy_value_layout e v) in *.
  assert (E1 : of_ne e (slice bs 16 24) = pv_revision v) by exact (f_equal pv_revision Hrt).
  assert (E2 : of_ne e (slice bs 24 26) = pv_schema_version v) by exact (f_equal pv_schema_version Hrt).
  assert (E3 : of_ne e (slice bs 26 28) = pv_flags v) by exact (f_equal pv_flags Hrt).
  assert (E4 : nth 28 bs 0 = pv_verdict v) by exact (f_equal pv_verdict Hrt).
  assert (E5 : nth 29 bs 0 = pv_reason v) by exact (f_equal pv_reason Hrt).
  assert (E6 : nth 30 bs 0 = pv_shadow_verdict v) by exact (f_equal pv_shadow_verdict Hrt).
  assert (E7 : nth 31 bs 0 = pv_shadow_reason v) by exact (f_equal pv_shadow_reason Hrt).
  assert (E8 : s = None → slice bs 8 16 = zeroes 8 ∧ slice bs 30 32 = zeroes 2)
    by (intros ->; unfold bs, v; by destruct e).
  unfold validate_recovered_policy_value. rewrite E1, E2, E3, E4, E5, E6, E7.
  clear E1 E2 E3 E4 E5 E6 E7 Hrt Hv. clearbody bs. unfold v. clear v. cbn [pv_revision decision_value]. rewrite (proj2 (Z.eqb_neq revision 0)) by lia.
  destruct Hw as [Hd Hs]. destruct d as [dv dr dp dq]. split_record Hd; simpl in *; subst.
  all: destruct s as [[sv sr sp sq]|]; [split_record Hs; simpl in *; subst; reflexivity|].
  all: destruct (E8 eq_refl) as [-> ->]; reflexivity.
Qed.

Lemma desired_storable e snapshot b desired :
  desired_banks e snapshot b = Ok desired → storable snapshot → 0 ≤ b →
  0 ≤ b < POLICY_BANK_COUNT ∧ bank_storable e desired b.
Proof.
  intros Hd [Hw H6] Hb.
  destruct (desired_banks_key_bank _ _ _ _ Hd) as (b1 & b2 & b3 & b4 & b5).
  destruct Hw as (_ & Hr & w1 & w2 & w3 & w4).
  apply desired_banks_Ok in Hd as (d1 & d2 & d3 & d4 & d5).
  apply desired_entries_Ok in d1 as (Hlt & _ & _ & _ & d1), d2 as (_ & _ & _ & _ & d2),
    d3 as (_ & _ & _ & _ & d3), d4 as (_ & _ & _ & _ & d4), d5 as (_ & _ & _ & _ & d5).
  rewrite Forall_forall in w1. rewrite Forall_forall in w2. rewrite Forall_forall in w3.
  rewrite Forall_forall in w4. rewrite Forall_forall in H6.
  assert (Hrange : 0 ≤ b < POLICY_BANK_COUNT) by lia. split; [done|].
  split; intros key v Hk.
  - pose proof (b1 _ _ Hk) as Hkb. apply d1 in Hk as (x & Hx & _ & <-). split; [done|].
    split; [by rewrite Hkb|]. apply encoded_value_valid; [by apply w1|done].
  - pose proof (b2 _ _ Hk) as Hkb. apply d2 in Hk as (x & Hx & _ & <-). split; [done|].
    split; [by rewrite Hkb|]. apply encoded_value_valid; [by apply w2|done].
  - pose proof (b3 _ _ Hk) as Hkb. apply d3 in Hk as (x & Hx & Hkx & <-). split; [done|].
    destruct (w3 x Hx) as [(Hc & _ & _ & Hpr) Hrec]. split; [split; [by rewrite Hkb|]|].
    + by apply encoded_value_valid.
    + rewrite <-Hkx, encode_ipv6_policy_key_layout. by apply trie_key_layout.
  - pose proof (b4 _ _ Hk) as Hkb. apply d4 in Hk as (x & Hx & _ & <-). split; [done|].
    split; [by rewrite Hkb|]. apply encoded_value_valid; [by apply w4|done].
  - pose proof (b5 _ _ Hk) as Hkb. apply d5 in Hk as (x & Hx & Hkx & <-). split; [done|].
    destruct (H6 x Hx) as [(Hc & _ & _ & Hpr) Hrec]. split; [split; [by rewrite Hkb|]|].
    + by apply encoded_value_valid.
    + rewrite <-Hkx, encode_egress_ipv6_policy_key_layout. by apply trie_key_layout.
Qed.

(** ** One synchronization *)

(** The snapshot is what the classifier reads, and the configuration counts its entries. *)
Definition selected (e : Endian) (k : PolicyKernel) (snapshot : PolicyStateSnapshot) (b : Z) : Prop :=
  ∃ desired, desired_banks e snapshot b = Ok desired ∧ holds_banks k desired b ∧
    in_width 32 (bank_len desired) ∧ kn_config k = active_config e snapshot b (bank_len desired).

Lemma selected_installed e k snapshot b : selected e k snapshot b → installed e k snapshot b.
Proof. intros (d & ? & ? & ? & ?). exists d, (bank_len d). by split_and!. Qed.

Lemma selected_frame e k k' snapshot b b' :
  selected e k snapshot b' → bank_frame b k k' → b ≠ b' → selected e k' snapshot b'.
Proof.
  intros (d & Hd & Hh & Hc & Hk) Hf Hne. exists d. split_and!; [done| |done|].
  - by eapply holds_banks_frame.
  - by rewrite (bf_config _ _ _ Hf).
Qed.

Lemma stage_and_activate_spec env e previous desired snapshot b w res w' :
  stage_and_activate env e previous desired (ps_source_epoch snapshot) (ps_revision snapshot) b w
    = (res, w') →
  desired_banks e snapshot b = Ok desired → bank_storable e desired b →
  bank_known e (w_kernel w) previous b →
  match res with
  | Err _ => passes (stage_rel e b) w w'
  | Ok _ => ∃ w1, passes (stage_rel e b) w w1 ∧ selected e (w_kernel w') snapshot b ∧
      w_history w' = w_history w1 ++ [w_kernel w'] ∧
      (∀ d b', holds_banks (w_kernel w1) d b' → holds_banks (w_kernel w') d b') ∧
      (∀ d b', bank_known e (w_kernel w1) d b' → bank_known e (w_kernel w') d b') ∧
      (wf_kernel e (w_kernel w1) → wf_kernel e (w_kernel w'))
  end.
Proof.
  intros Hst Hd Hsd Hk. pose proof (bank_known_storable _ _ _ _ Hk) as Hsp.
  pose proof (stage_maps_passes env e b previous desired Hsp Hsd w) as P1.
  unfold stage_and_activate, op_bind in Hst.
  destruct (stage_maps env previous desired w) as [[[]|x] w1] eqn:E1; cbn [snd] in P1;
    [|by injection Hst as <- <-].
  pose proof (validate_maps_passes env desired w1) as P2.
  destruct (validate_maps env desired w1) as [[[]|x] w2] eqn:E2; cbn [snd] in P2;
    assert (P3 : passes (stage_rel e b) w w2) by
      (eapply passes_trans; [apply _|exact P1|]; eapply passes_weaken; [|exact P2]; by intros ?? <-);
    [|by injection Hst as <- <-].
  destruct (encode_policy_config _ _ _ _ _) as [config|x] eqn:E3; [|by injection Hst as <- <-].
  unfold config_set, write_call in Hst. destruct (env_fault env _); injection Hst as <- <-; [done|].
  apply encode_policy_config_Ok in E3 as (Hc & _ & ->).
  pose proof (stage_maps_Ok env e b _ _ _ _ E1 Hk) as Hh. destruct P2 as [Heq _].
  exists w2. split; [done|]. split; [|split; [done|]].
  - exists desired. split; [done|]. split; [|by split].
    rewrite Heq in Hh. exact Hh.
  - split_and!; [by intros d b' H'|by intros d b' []|by intros []].
Qed.

Lemma holds_known e k d b : bank_storable e d b → holds_banks k d b → bank_known e k d b.
Proof.
  intros [] (h1 & h2 & h3 & h4 & h5).
  split; (split; [|done]); intros key Hk; [rewrite h1|rewrite h2|rewrite h3|rewrite h4|rewrite h5]; done.
Qed.

(** The agent's tables after a rollback that succeeded. *)
Lemma rolled_back_consistent e sy b k k' :
  consistent e sy k → 0 ≤ b < POLICY_BANK_COUNT → stage_rel e b k k' →
  holds_banks k' (synchronizer_bank sy b) b → consistent e sy k'.
Proof.
  intros [Ha Hl Hw Hb] Hrange [Hf Hwf] Hh. split; [done|done|by apply Hwf|]. intros b' Hb'.
  destruct (decide (b = b')) as [<-|Hne].
  - apply holds_known; [|done]. by eapply bank_known_storable, Hb.
  - by eapply bank_known_frame; [apply Hb|..].
Qed.

Lemma activate_bank_lengths sy desired b : lengths_ok sy → lengths_ok (activate_bank sy desired b).
Proof.
  intros (l1 & l2 & l3 & l4 & l5). unfold lengths_ok. simpl.
  split_and!; by apply set_bank_length.
Qed.

Lemma activate_bank_at sy desired b :
  lengths_ok sy → 0 ≤ b < POLICY_BANK_COUNT →
  synchronizer_bank (activate_bank sy desired b) b = desired.
Proof.
  intros (l1 & l2 & l3 & l4 & l5) Hb. unfold synchronizer_bank. simpl.
  rewrite !bank_at_set by done. by destruct desired.
Qed.

Lemma activate_bank_ne sy desired b b' :
  0 ≤ b < POLICY_BANK_COUNT → 0 ≤ b' < POLICY_BANK_COUNT → b ≠ b' →
  synchronizer_bank (activate_bank sy desired b) b' = synchronizer_bank sy b'.
Proof.
  intros Hb Hb' Hne. unfold synchronizer_bank. simpl. by rewrite !bank_at_set_ne.
Qed.

Section OneSync.
Context (env : Environment) (e : Endian) (sy : PolicySynchronizer) (snapshot : PolicyStateSnapshot).
Context (desired : DesiredBanks) (b : Z) (w w' : World) (res : result SyncError ()).
Context (sy' : PolicySynchronizer).
Context (Hrun : apply_policy_entries env e sy desired (ps_source_epoch snapshot)
  (ps_revision snapshot) b w = (res, sy', w')).
Context (Hcons : consistent e sy (w_kernel w)) (Hst : storable snapshot).
Context (Hdes : desired_banks e snapshot b = Ok desired).
Context (Hb : 0 ≤ b < POLICY_BANK_COUNT) (Hne : b ≠ sy_active_bank sy).

Lemma apply_spec :
  match res with
  | Err error => sy' = sy ∧ passes (stage_rel e b) w w' ∧
      ((∃ cause, error = RolledBack cause) → consistent e sy (w_kernel w') ∧
        holds_banks (w_kernel w') (synchronizer_bank sy b) b)
  | Ok _ => consistent e sy' (w_kernel w') ∧ sy_active_bank sy' = b ∧
      synchronizer_bank sy' b = desired ∧ selected e (w_kernel w') snapshot b ∧
      ∃ ks ks', w_history w' = w_history w ++ ks ++ ks' ∧
        Forall (stage_rel e b (w_kernel w)) ks ∧
        Forall (λ k, wf_kernel e k ∧ selected e k snapshot b) ks'
  end.
Proof.
  destruct (desired_storable _ _ _ _ Hdes Hst ltac:(lia)) as [_ Hsd].
  pose proof (cn_banks _ _ _ Hcons b Hb) as Hkn. pose proof (cn_lengths _ _ _ Hcons) as Hlen.
  pose proof (cn_active _ _ _ Hcons) as Hact. unfold apply_policy_entries in Hrun.
  destruct (stage_and_activate _ _ _ _ _ _ _ w) as [r1 w1] eqn:E1.
  apply stage_and_activate_spec in E1; [|done..]. destruct r1 as [u|cause].
  2:{ destruct (rollback_policy_stages _ _ _ _ w1) as [err w2] eqn:E2.
      apply (rollback_spec env e b) in E2 as [P2 Herr]; [|by eapply bank_known_storable].
      injection Hrun as <- <- <-.
      assert (Hp : passes (stage_rel e b) w w2) by (by eapply passes_trans; [apply _|..]).
      split; [done|]. split; [done|]. intros [c ->]. destruct Herr as [[_ Hh]|?]; [|done].
      split; [|done]. destruct Hp as [Hp _]. exact (rolled_back_consistent e sy b _ _ Hcons Hb Hp Hh). }
  destruct E1 as (wp & [[Hf Hwf] (ks & Hks & Fks)] & Hsel & Hhist & Hholds & Hknown & Hwf').
  rewrite (proj2 (Z.eqb_neq (sy_active_bank sy) b)) in Hrun by congruence.
  destruct (collect_banks _ _ _ w1) as [sy2 w2] eqn:E2. injection Hrun as <- <- <-.
  set (old := sy_active_bank sy) in *.
  apply (collect_banks_spec env e) in E2 as ([[Hf2 Hwf2] (ks2 & Hks2 & Fks2)] & Hlen2 & Hact2 & Hold & Hother).
  2: by apply activate_bank_lengths. 2: done.
  2:{ rewrite activate_bank_ne by done. apply Hknown. eapply bank_known_frame; [|exact Hf|done].
      by apply (cn_banks _ _ _ Hcons). }
  assert (Hw1 : wf_kernel e (w_kernel w1)) by (apply Hwf', Hwf, Hcons).
  assert (Hb2 : synchronizer_bank sy2 b = desired) by (rewrite Hother by done; by apply activate_bank_at).
  assert (Hs2 : selected e (w_kernel w2) snapshot b) by by eapply selected_frame.
  split_and!; try done.
  - split; [by rewrite Hact2|done|by apply Hwf2|]. intros b' Hb'.
    destruct (decide (b' = b)) as [->|Hbb].
    + rewrite Hb2. apply holds_known; [done|]. destruct Hs2 as (d & Hd & Hh & _).
      rewrite Hdes in Hd. by injection Hd as <-.
    + assert (b' = old) as -> by (unfold POLICY_BANK_COUNT in *; lia). done.
  - exists ks, (w_kernel w1 :: ks2). split; [|split; [done|]].
    + rewrite Hks2, Hhist, Hks. by rewrite <-!(assoc_L (++)).
    + constructor; [done|]. eapply Forall_impl; [exact Fks2|]. intros k [Hfk Hwk].
      split; [by apply Hwk|exact (selected_frame e _ _ _ old b Hsel Hfk (not_eq_sym Hne))].
Qed.
End OneSync.
