(* ===== verification/PolicyUpdates.v ===== *)
(** * Sequences of policy updates and restarts

    An agent receives snapshots one after the other and may be killed at any moment. What the
    classifier reads is always one complete snapshot (or nothing, before the first one), the
    agent's status names it, and a restart finds it again. *)

From S2P Require Import Prelude Common PolicyLower Bytes PolicyAbi TcPolicy PolicyInstalled.
From S2P Require Import PolicyBanks PolicyBanksFacts PolicySync.

(** ** What is in force *)

(** The snapshot the configuration selects in bank [b]; none before the first update. *)
Definition in_force (e : Endian) (k : PolicyKernel) (b : Z) (o : option PolicyStateSnapshot) : Prop :=
  match o with
  | None => kn_config k = zeroes 24
  | Some snapshot => selected e k snapshot b
  end.

Definition sound (e : Endian) (k : PolicyKernel) (b : Z) (o : option PolicyStateSnapshot) : Prop :=
  wf_kernel e k ∧ in_force e k b o.

Lemma in_force_frame e k k' b b' o :
  in_force e k b' o → bank_frame b k k' → b ≠ b' → in_force e k' b' o.
Proof.
  destruct o as [s|]; simpl; intros Hs Hf Hne.
  - by eapply selected_frame.
  - by rewrite (bf_config _ _ _ Hf).
Qed.

Lemma sound_stage e k k' b b' o : sound e k b' o → stage_rel e b k k' → b ≠ b' → sound e k' b' o.
Proof. intros [Hw Hs] [Hf Hk] Hne. split; [by apply Hk|by eapply in_force_frame]. Qed.

Definition complete_rollback (error : SyncError) : Prop :=
  match error with RollbackIncomplete _ => False | _ => True end.

Lemma staging_bank active :
  0 ≤ active < POLICY_BANK_COUNT →
  0 ≤ (active + 1) mod POLICY_BANK_COUNT < POLICY_BANK_COUNT ∧
  (active + 1) mod POLICY_BANK_COUNT ≠ active.
Proof.
  unfold POLICY_BANK_COUNT. intros Ha. assert (active = 0 ∨ active = 1) as [-> | ->] by lia; by split.
Qed.

(** Every error of [apply_policy_entries] comes from the rollback. *)
Lemma apply_error env e sy desired epoch revision b w error sy' w' :
  apply_policy_entries env e sy desired epoch revision b w = (Err error, sy', w') →
  (∃ cause, error = RolledBack cause) ∨ ¬ complete_rollback error.
Proof.
  unfold apply_policy_entries. destruct (stage_and_activate _ _ _ _ _ _ _ _) as [[[]|cause] w1].
  - destruct (_ =? _); [done|]. by destruct (collect_banks _ _ _ _).
  - unfold rollback_policy_stages. repeat destruct (restore_policy_entries _ _ _ _ _) as [[] ?].
    all: simpl; intros [= <- _ _]; first [by left; eexists|by right; intros []].
Qed.

(** The part of the status that reports what is in force. *)
Definition applied (state : AgentPolicyState) : Z * Z * Z * Z :=
  (ag_applied_policy_epoch state, ag_applied_policy_revision state, ag_policy_map_entries state,
   ag_active_policy_bank state).

(** One synchronization: the states before the switch keep what was in force, those after it
    have the new snapshot, and an error never switches. *)
Lemma synchronize_spec env e sy state snapshot o w res sy' state' w' :
  synchronize_policies env e sy state snapshot w = (res, sy', state', w') →
  consistent e sy (w_kernel w) → storable snapshot →
  in_force e (w_kernel w) (sy_active_bank sy) o →
  ∃ ks ks', w_history w' = w_history w ++ ks ++ ks' ∧
    Forall (λ k, sound e k (sy_active_bank sy) o) ks ∧
    Forall (λ k, sound e k (sy_active_bank sy') (Some snapshot)) ks' ∧
    match res with
    | Ok _ =>
        (w' = w ∧ sy' = sy ∧ applied state' = applied state ∧ ks' = [] ∧
         ps_source_epoch snapshot = sy_applied_epoch sy ∧
         ps_revision snapshot = ag_applied_policy_revision state) ∨
        (consistent e sy' (w_kernel w') ∧
         in_force e (w_kernel w') (sy_active_bank sy') (Some snapshot) ∧
         sy_applied_epoch sy' = ps_source_epoch snapshot ∧
         applied state' = (ps_source_epoch snapshot, ps_revision snapshot,
           active_policy_entry_count sy', sy_active_bank sy'))
    | Err error => sy' = sy ∧ ks' = [] ∧ sound e (w_kernel w') (sy_active_bank sy) o ∧
        applied state' = applied state ∧ (complete_rollback error → consistent e sy (w_kernel w'))
    end.
Proof.
  intros Hrun Hcons Hst Ho. unfold synchronize_policies in Hrun.
  assert (Hs : sound e (w_kernel w) (sy_active_bank sy) o) by (split; [apply Hcons|done]).
  assert (Hnil : w_history w = w_history w ++ [] ++ []) by by rewrite !app_nil_r.
  destruct (negb _); [simplify_eq; by exists [], []|].
  destruct (andb _ _) eqn:Esame.
  { simplify_eq. exists [], []. apply andb_true_iff in Esame as [?%Z.eqb_eq ?%Z.eqb_eq].
    split_and!; try done. by left. }
  destruct (andb _ (_ <? _)); [simplify_eq; by exists [], []|].
  destruct (staging_bank _ (cn_active _ _ _ Hcons)) as [Hb Hne].
  set (b := (_ + 1) mod _) in *. clearbody b.
  destruct (desired_banks _ _ _) as [desired|error] eqn:Hd; [|simplify_eq; by exists [], []].
  destruct (apply_policy_entries _ _ _ _ _ _ _ _) as [[r sy1] w1] eqn:E.
  pose proof (apply_spec _ _ _ _ _ _ _ _ _ _ E Hcons Hst Hd Hb Hne) as Hspec.
  destruct r as [[]|error]; simplify_eq.
  - destruct Hspec as (Hc & Ha & Hdb & Hsel & ks & ks' & Hh & Hks & Hks').
    exists ks, ks'. simpl. rewrite Ha. split; [done|]. split; [|split; [done|]].
    + eapply Forall_impl; [exact Hks|]. intros k Hk. by eapply sound_stage.
    + right. split_and!; try done. destruct Hc. by split.
  - destruct Hspec as (-> & [Hw (ks & Hh & Hks)] & Hroll). exists ks, [].
    rewrite app_nil_r. split_and!; try done.
    + eapply Forall_impl; [exact Hks|]. intros k Hk. by eapply sound_stage.
    + by eapply sound_stage.
    + intros Hcr. destruct (apply_error _ _ _ _ _ _ _ _ _ _ _ E) as [Hrb|?]; [|done]. by apply Hroll.
Qed.

(** ** Recovery *)

Section RecoverMap.
Context (env : Environment) (e : Endian) {K : Type} `{Ord K, Countable K} (r : BpfMap K).
Context (ok : K → bytes → Prop).
Context (Hok : ∀ key value, ok key value → stored_entry e (bm_bank r key) value).

Definition recover_entry (banks : list (gmap K bytes)) (entry : K * bytes) :
    result RecoveryError (list (gmap K bytes)) :=
  let? bank := policy_bank (bm_bank r entry.1) in
  let? _ := validate_recovered_policy_value e entry.2 in
  Ok (set_bank banks bank (<[entry.1 := entry.2]> (bank_at banks bank))).

Lemma recover_entries_spec l : ∀ banks,
  NoDup l.*1 → Forall (λ x, ok x.1 x.2) l → length banks = 2%nat →
  (∀ b key, 0 ≤ b < POLICY_BANK_COUNT → key ∈ l.*1 → bank_at banks b !! key = None) →
  ∃ banks', try_fold recover_entry banks l = Ok banks' ∧ length banks' = 2%nat ∧
    ∀ b key value, 0 ≤ b < POLICY_BANK_COUNT →
      bank_at banks' b !! key = Some value ↔
      bank_at banks b !! key = Some value ∨ (bm_bank r key = b ∧ (key, value) ∈ l).
Proof.
  induction l as [|[key v] l IH]; intros banks Hnd Hall Hlen Hfresh.
  { exists banks. split_and!; try done. intros b key value Hb. split; [by left|].
    intros [?|[_ ?%not_elem_of_nil]]; done. }
  apply Forall_cons in Hall as [Hkv Hall]. apply NoDup_cons in Hnd as [Hni Hnd].
  apply Hok in Hkv as [Hr Hv]. simpl in Hr, Hv.
  set (banks1 := set_bank banks (bm_bank r key) (<[key := v]> (bank_at banks (bm_bank r key)))).
  assert (Hat : ∀ b k, 0 ≤ b < POLICY_BANK_COUNT → bank_at banks1 b !! k =
    if decide (b = bm_bank r key ∧ k = key) then Some v else bank_at banks b !! k).
  { intros b k Hb. unfold banks1. destruct (decide (b = bm_bank r key)) as [->|Hne].
    - rewrite bank_at_set by done. destruct (decide (k = key)) as [->|Hk].
      + by rewrite lookup_insert_eq, decide_True.
      + rewrite lookup_insert_ne, decide_False; [done|by intros [_ ?]|done].
    - rewrite bank_at_set_ne by done. rewrite decide_False; [done|]. by intros [? _]. }
  destruct (IH banks1) as (banks' & Hf & Hl & Hb'); [done|done|by apply set_bank_length|..].
  { intros b k Hb Hk. rewrite Hat by done. rewrite decide_False by (by intros [_ ->]).
    apply Hfresh; [done|]. by right. }
  exists banks'. split; [|split; [done|]].
  - rewrite <-Hf. simpl. unfold recover_entry at 1. simpl. unfold policy_bank.
    destruct (Z.leb_spec POLICY_BANK_COUNT (bm_bank r key)); [lia|]. simpl. by rewrite Hv.
  - intros b k value Hb. rewrite Hb', Hat, elem_of_cons by done.
    destruct (decide _) as [[-> ->]|Hne].
    + rewrite (Hfresh (bm_bank r key) key) by (done || by left). naive_solver.
    + split; [naive_solver|]. intros [?|[Hk [[= -> ->]|?]]]; [by left| |by right].
      exfalso. by apply Hne.
Qed.

(** The part of a map in one bank. *)
Definition bank_part (m d : gmap K bytes) (b : Z) : Prop :=
  ∀ key value, d !! key = Some value ↔ bm_bank r key = b ∧ m !! key = Some value.

Lemma recover_map_spec k :
  entries_ok ok (bm_get r k) →
  ∃ banks, recover_map env e r k [∅; ∅] = Ok banks ∧ length banks = 2%nat ∧
    ∀ b, 0 ≤ b < POLICY_BANK_COUNT → bank_part (bm_get r k) (bank_at banks b) b.
Proof.
  intros Hk. set (l := env_order env (K * bytes) (map_to_list (bm_get r k))).
  assert (Hp : l ≡ₚ map_to_list (bm_get r k)) by apply env_order_perm.
  assert (He : ∀ b key, 0 ≤ b < POLICY_BANK_COUNT →
    bank_at ([∅; ∅] : list (gmap K bytes)) b !! key = None).
  { intros b key Hb. unfold POLICY_BANK_COUNT in Hb. assert (b = 0 ∨ b = 1) as [-> | ->] by lia; done. }
  destruct (recover_entries_spec l [∅; ∅]) as (banks & Hf & Hl & Hb); [..|done| |].
  - rewrite Hp. apply NoDup_fst_map_to_list.
  - rewrite Hp. apply Forall_forall. intros [key v] Hx%elem_of_map_to_list. by apply Hk.
  - intros b key Hb _. by apply He.
  - exists banks. split; [exact Hf|]. split; [done|]. intros b Hr key value.
    rewrite Hb, He, Hp, elem_of_map_to_list by done. naive_solver.
Qed.

Lemma bank_part_holds m d d' b :
  bank_part m d b → (∀ key, bm_bank r key = b → m !! key = d' !! key) →
  (∀ key value, d' !! key = Some value → bm_bank r key = b) → d = d'.
Proof.
  intros Hd Hm Hb. apply map_eq. intros key. apply option_eq. intros value. rewrite (Hd key value). split.
  - intros [Hk Hv]. by rewrite <-Hm.
  - intros Hv. split; [by eapply Hb|]. rewrite Hm; [done|by eapply Hb].
Qed.

Lemma bank_part_known m d b : entries_ok ok m → bank_part m d b → known (bm_bank r) ok m d b.
Proof.
  intros Hm Hd. split.
  - intros key Hk [v Hv]. exists v. by apply Hd.
  - intros key v [Hk Hv]%Hd. split; [done|by apply Hm].
Qed.
End RecoverMap.

Lemma stored_hash e key value : hash_entry e key value → stored_entry e (key_bank key) value.
Proof. done. Qed.
Lemma stored_trie e key value : trie_entry e key value → stored_entry e (trie_key_bank key) value.
Proof. by intros [? _]. Qed.

Lemma recover_entries env e k :
  wf_kernel e k →
  ∃ sy, recover_policy_entries env e k empty_synchronizer = Ok sy ∧ lengths_ok sy ∧
    sy_active_bank sy = 0 ∧ sy_applied_epoch sy = 0 ∧
    ∀ b, 0 ≤ b < POLICY_BANK_COUNT →
      bank_part identity_map (kn_rules k) (db_rules (synchronizer_bank sy b)) b ∧
      bank_part ipv4_map (kn_ipv4 k) (db_ipv4 (synchronizer_bank sy b)) b ∧
      bank_part ipv6_map (kn_ipv6 k) (db_ipv6 (synchronizer_bank sy b)) b ∧
      bank_part egress_ipv4_map (kn_egress_ipv4 k) (db_egress_ipv4 (synchronizer_bank sy b)) b ∧
      bank_part egress_ipv6_map (kn_egress_ipv6 k) (db_egress_ipv6 (synchronizer_bank sy b)) b.
Proof.
  intros [w1 w2 w3 w4 w5]. unfold recover_policy_entries. simpl.
  destruct (recover_map_spec env e identity_map _ (stored_hash e) k w1) as (b1 & -> & l1 & p1).
  destruct (recover_map_spec env e ipv4_map _ (stored_hash e) k w2) as (b2 & -> & l2 & p2).
  destruct (recover_map_spec env e ipv6_map _ (stored_trie e) k w3) as (b3 & -> & l3 & p3).
  destruct (recover_map_spec env e egress_ipv4_map _ (stored_hash e) k w4) as (b4 & -> & l4 & p4).
  destruct (recover_map_spec env e egress_ipv6_map _ (stored_trie e) k w5) as (b5 & -> & l5 & p5).
  simpl. eexists. split; [done|]. split; [done|]. split; [done|]. split; [done|].
  intros b Hb. split_and!; [by apply p1|by apply p2|by apply p3|by apply p4|by apply p5].
Qed.

(** The recovered copy of a bank whose contents are known is those contents. *)
Lemma recovered_bank k d d' b :
  bank_part identity_map (kn_rules k) (db_rules d) b ∧
  bank_part ipv4_map (kn_ipv4 k) (db_ipv4 d) b ∧
  bank_part ipv6_map (kn_ipv6 k) (db_ipv6 d) b ∧
  bank_part egress_ipv4_map (kn_egress_ipv4 k) (db_egress_ipv4 d) b ∧
  bank_part egress_ipv6_map (kn_egress_ipv6 k) (db_egress_ipv6 d) b →
  holds_banks k d' b → ∀ e snapshot, desired_banks e snapshot b = Ok d' → d = d'.
Proof.
  intros (p1 & p2 & p3 & p4 & p5) (h1 & h2 & h3 & h4 & h5) e snapshot Hd.
  destruct (desired_banks_key_bank _ _ _ _ Hd) as (k1 & k2 & k3 & k4 & k5). destruct d, d'. simpl in *.
  f_equal.
  - exact (bank_part_holds _ _ _ _ _ p1 h1 k1).
  - exact (bank_part_holds _ _ _ _ _ p2 h2 k2).
  - exact (bank_part_holds _ _ _ _ _ p3 h3 k3).
  - exact (bank_part_holds _ _ _ _ _ p4 h4 k4).
  - exact (bank_part_holds _ _ _ _ _ p5 h5 k5).
Qed.

Lemma encoded_revision e d s revision :
  wf_records d s → in_width 64 revision →
  of_ne e (slice (encode_policy_decisions e d s revision) 16 24) = revision.
Proof.
  intros Hw Hr. rewrite encode_policy_decisions_layout.
  exact (f_equal pv_revision (policy_value_roundtrip e _ (decision_value_wf _ _ _ Hw Hr))).
Qed.

Lemma desired_revision e snapshot b d v :
  desired_banks e snapshot b = Ok d → storable snapshot → v ∈ bank_values d →
  of_ne e (slice v 16 24) = ps_revision snapshot.
Proof.
  intros Hd [(_ & Hr & w1 & w2 & w3 & w4) H6] Hv.
  assert (Hr' : in_width 64 (ps_revision snapshot)) by (unfold in_width; lia).
  apply desired_banks_Ok in Hd as (d1 & d2 & d3 & d4 & d5).
  apply desired_entries_Ok in d1 as (_ & _ & _ & _ & d1), d2 as (_ & _ & _ & _ & d2),
    d3 as (_ & _ & _ & _ & d3), d4 as (_ & _ & _ & _ & d4), d5 as (_ & _ & _ & _ & d5).
  rewrite Forall_forall in w1. rewrite Forall_forall in w2. rewrite Forall_forall in w3.
  rewrite Forall_forall in w4. rewrite Forall_forall in H6.
  unfold bank_values in Hv. rewrite !elem_of_app, !elem_of_btree_values in Hv.
  destruct Hv as [[key Hk]|[[key Hk]|[[key Hk]|[[key Hk]|[key Hk]]]]].
  - apply d1 in Hk as (x & Hx & _ & <-). apply encoded_revision; [by apply w1|done].
  - apply d2 in Hk as (x & Hx & _ & <-). apply encoded_revision; [by apply w2|done].
  - apply d3 in Hk as (x & Hx & _ & <-). apply encoded_revision; [by apply w3|done].
  - apply d4 in Hk as (x & Hx & _ & <-). apply encoded_revision; [by apply w4|done].
  - apply d5 in Hk as (x & Hx & _ & <-). apply encoded_revision; [by apply H6|done].
Qed.

Lemma decode_active_config e snapshot b count :
  storable snapshot → ps_source_epoch snapshot ≠ 0 → 0 ≤ b < POLICY_BANK_COUNT →
  in_width 32 count →
  decode_recovered_policy_config e (active_config e snapshot b count)
  = Ok (Some (ps_source_epoch snapshot, ps_revision snapshot, count, b)).
Proof.
  intros [(He & Hr & _) _] Hne Hb Hc. unfold decode_recovered_policy_config, decode_recovered_config.
  assert (Hrt : policy_config_of_bytes e (active_config e snapshot b count) = {|
    cfg_source_epoch := ps_source_epoch snapshot; cfg_revision := ps_revision snapshot;
    cfg_entry_count := count; cfg_schema_version := POLICY_MAP_ABI_VERSION;
    cfg_active_bank := b; cfg_flags := 0 |}).
  { apply policy_config_roundtrip. split_and!; simpl; unfold in_width; try apply He; try apply Hc; lia || done. }
  set (bs := active_config e snapshot b count) in *. clearbody bs.
  assert (E1 : of_ne e (slice bs 0 8) = ps_source_epoch snapshot) by exact (f_equal cfg_source_epoch Hrt).
  assert (E2 : of_ne e (slice bs 8 16) = ps_revision snapshot) by exact (f_equal cfg_revision Hrt).
  assert (E3 : of_ne e (slice bs 16 20) = count) by exact (f_equal cfg_entry_count Hrt).
  assert (E4 : of_ne e (slice bs 20 22) = POLICY_MAP_ABI_VERSION) by exact (f_equal cfg_schema_version Hrt).
  assert (E5 : nth 22 bs 0 = b) by exact (f_equal cfg_active_bank Hrt).
  assert (E6 : nth 23 bs 0 = 0) by exact (f_equal cfg_flags Hrt).
  rewrite bool_decide_eq_false_2.
  - rewrite E1, E2, E3, E4, E5, E6.
    rewrite (proj2 (Z.eqb_neq _ 0) Hne), (proj2 (Z.eqb_neq (ps_revision snapshot) 0)) by lia.
    destruct (Z.leb_spec POLICY_BANK_COUNT b); [lia|]. done.
  - intros ->. assert (E0 : of_ne e (slice (zeroes 24) 8 16) = 0) by by destruct e. lia.
Qed.

(** What a controller sends: well-formed entries under a nonzero epoch. *)
Definition published (o : option PolicyStateSnapshot) : Prop :=
  match o with
  | Some snapshot => storable snapshot ∧ ps_source_epoch snapshot ≠ 0
  | None => True
  end.

(** The agent's status names what is in force. *)
Definition reports (sy : PolicySynchronizer) (state : AgentPolicyState)
    (o : option PolicyStateSnapshot) : Prop :=
  match o with
  | Some snapshot => sy_applied_epoch sy = ps_source_epoch snapshot ∧
      applied state = (ps_source_epoch snapshot, ps_revision snapshot,
        active_policy_entry_count sy, sy_active_bank sy)
  | None => sy_applied_epoch sy = 0 ∧ applied state = (0, 0, 0, 0)
  end.

Lemma recovered_consistent e k sy a epoch :
  wf_kernel e k → lengths_ok sy → 0 ≤ a < POLICY_BANK_COUNT →
  (∀ b, 0 ≤ b < POLICY_BANK_COUNT →
      bank_part identity_map (kn_rules k) (db_rules (synchronizer_bank sy b)) b ∧
      bank_part ipv4_map (kn_ipv4 k) (db_ipv4 (synchronizer_bank sy b)) b ∧
      bank_part ipv6_map (kn_ipv6 k) (db_ipv6 (synchronizer_bank sy b)) b ∧
      bank_part egress_ipv4_map (kn_egress_ipv4 k) (db_egress_ipv4 (synchronizer_bank sy b)) b ∧
      bank_part egress_ipv6_map (kn_egress_ipv6 k) (db_egress_ipv6 (synchronizer_bank sy b)) b) →
  consistent e {| sy_identity_banks := sy_identity_banks sy; sy_ipv4_banks := sy_ipv4_banks sy;
    sy_ipv6_banks := sy_ipv6_banks sy; sy_egress_ipv4_banks := sy_egress_ipv4_banks sy;
    sy_egress_ipv6_banks := sy_egress_ipv6_banks sy; sy_active_bank := a;
    sy_applied_epoch := epoch |} k.
Proof.
  intros Hw Hl Ha Hparts. split; try done. intros b Hb.
  destruct (Hparts b Hb) as (p1 & p2 & p3 & p4 & p5), Hw as [w1 w2 w3 w4 w5]. split.
  - exact (bank_part_known identity_map _ _ _ _ w1 p1).
  - exact (bank_part_known ipv4_map _ _ _ _ w2 p2).
  - exact (bank_part_known ipv6_map _ _ _ _ w3 p3).
  - exact (bank_part_known egress_ipv4_map _ _ _ _ w4 p4).
  - exact (bank_part_known egress_ipv6_map _ _ _ _ w5 p5).
Qed.

Lemma try_fold_unit_Ok {E A} (f : () → A → result E ()) l :
  (∀ x, x ∈ l → f () x = Ok ()) → try_fold f () l = Ok ().
Proof.
  induction l as [|x l IH]; intros Hf; simpl; [done|]. rewrite Hf by by left. simpl.
  apply IH. intros y Hy. apply Hf. by right.
Qed.

Lemma recover_state_spec env e k b o :
  sound e k b o → 0 ≤ b < POLICY_BANK_COUNT → published o →
  ∃ sy recovered, recover_policy_state env e k empty_synchronizer = Ok (sy, recovered) ∧
    consistent e sy k ∧ in_force e k (sy_active_bank sy) o ∧
    reports sy (apply_recovered_state initial_policy_state sy recovered) o.
Proof.
  intros [Hw Hf] Hb Hp. destruct (recover_entries env e k Hw) as (sy & Hr & Hl & Ha & He & Hparts).
  unfold recover_policy_state. rewrite Hr. simpl. destruct o as [s|]; simpl in Hf.
  - destruct Hp as [Hst Hep], Hf as (d & Hd & Hh & Hc & Hk). rewrite Hk, decode_active_config by done.
    simpl. pose proof (recovered_bank _ _ _ _ (Hparts b Hb) Hh _ _ Hd) as Hsd.
    unfold policy_entry_count_for_bank, validate_active_policy_revision. rewrite Hsd, Z.eqb_refl. simpl.
    rewrite try_fold_unit_Ok by (intros v Hv; by rewrite (desired_revision _ _ _ _ _ Hd Hst Hv), Z.eqb_refl).
    simpl. eexists _, _. split; [done|]. split; [by apply recovered_consistent|]. by split; [exists d|].
  - rewrite Hf. change (decode_recovered_policy_config e (zeroes 24)) with
      (Ok (E:=RecoveryError) (@None (Z * Z * Z * Z))). simpl. eexists _, _. split; [done|].
    split; [|done]. apply (recovered_consistent e k sy (sy_active_bank sy) (sy_applied_epoch sy)) in Hw;
      [by destruct sy|done|by rewrite Ha|done].
Qed.

(** ** Runs of an agent *)

Record Agent := {
  a_policies : PolicySynchronizer;
  a_state : AgentPolicyState;
  a_world : World;
}.

(** Empty pinned maps, as the loader creates them. *)
Definition fresh_kernel : PolicyKernel := {|
  kn_rules := ∅; kn_ipv4 := ∅; kn_ipv6 := ∅; kn_egress_ipv4 := ∅; kn_egress_ipv6 := ∅;
  kn_config := zeroes 24 |}.

Definition fresh_agent : Agent := {|
  a_policies := empty_synchronizer; a_state := initial_policy_state;
  a_world := {| w_kernel := fresh_kernel; w_clock := 0; w_history := [] |} |}.

(** An update that ran to its end, or one during which the agent was killed after some of its
    map writes and started again. *)
Inductive agent_step (env : Environment) (e : Endian) : Agent → Agent → Prop :=
| step_update sy state w snapshot res sy' state' w' :
    published (Some snapshot) →
    synchronize_policies env e sy state snapshot w = (res, sy', state', w') →
    (∀ cause, res ≠ Err (RollbackIncomplete cause)) →
    agent_step env e {| a_policies := sy; a_state := state; a_world := w |}
      {| a_policies := sy'; a_state := state'; a_world := w' |}
| step_restart sy state w snapshot res sy' state' w' written pending k sy'' recovered :
    published (Some snapshot) →
    synchronize_policies env e sy state snapshot w = (res, sy', state', w') →
    w_history w' = w_history w ++ written ++ pending →
    k = default (w_kernel w) (last written) →
    recover_policy_state env e k empty_synchronizer = Ok (sy'', recovered) →
    agent_step env e {| a_policies := sy; a_state := state; a_world := w |}
      {| a_policies := sy''; a_state := apply_recovered_state initial_policy_state sy'' recovered;
         a_world := {| w_kernel := k; w_clock := w_clock w'; w_history := w_history w ++ written |} |}.

Definition sound_state (e : Endian) (k : PolicyKernel) : Prop :=
  ∃ b o, 0 ≤ b < POLICY_BANK_COUNT ∧ published o ∧ sound e k b o.

Record agent_inv (e : Endian) (A : Agent) : Prop := {
  ai_consistent : consistent e (a_policies A) (w_kernel (a_world A));
  ai_reports : ∃ o, published o ∧ in_force e (w_kernel (a_world A)) (sy_active_bank (a_policies A)) o ∧
    reports (a_policies A) (a_state A) o;
  ai_history : Forall (sound_state e) (w_history (a_world A));
}.

Lemma agent_inv_fresh e : agent_inv e fresh_agent.
Proof.
  split; [|by exists None|done]. split; [done|by split_and!| |].
  { split; intros key value Hk; simpl in Hk; by apply lookup_empty_Some in Hk. }
  intros b Hb. unfold POLICY_BANK_COUNT in Hb.
  split; split; simpl; intros key; try (by intros _ [? ?%lookup_empty_Some]);
    intros value; assert (b = 0 ∨ b = 1) as [-> | ->] by lia; intros Hk;
    exact (False_ind _ (lookup_empty_Some _ _ Hk)).
Qed.

Lemma sound_state_recovers env e k :
  sound_state e k →
  ∃ o sy recovered, published o ∧
    recover_policy_state env e k empty_synchronizer = Ok (sy, recovered) ∧
    consistent e sy k ∧ in_force e k (sy_active_bank sy) o ∧
    reports sy (apply_recovered_state initial_policy_state sy recovered) o.
Proof.
  intros (b & o & Hb & Hp & Hs). destruct (recover_state_spec env e k b o Hs Hb Hp) as (sy & r & ?).
  by exists o, sy, r.
Qed.

Lemma inv_sound_state e A : agent_inv e A → sound_state e (w_kernel (a_world A)).
Proof.
  intros [Hc (o & Hp & Hf & _) _]. exists (sy_active_bank (a_policies A)), o.
  split; [apply Hc|]. split; [done|]. split; [apply Hc|done].
Qed.

Section Run.
Context (env : Environment) (e : Endian) (sy : PolicySynchronizer) (state : AgentPolicyState) (w : World).
Context (Hinv : agent_inv e {| a_policies := sy; a_state := state; a_world := w |}).
Context (snapshot : PolicyStateSnapshot) (Hpub : published (Some snapshot)).
Context (res : result SyncError ()) (sy' : PolicySynchronizer) (state' : AgentPolicyState) (w' : World).
Context (Hrun : synchronize_policies env e sy state snapshot w = (res, sy', state', w')).

Lemma run_history : Forall (sound_state e) (w_history w').
Proof.
  destruct Hinv as [Hc (o & Hp & Hf & Hr) Hh]. simpl in *.
  destruct (synchronize_spec _ _ _ _ _ o _ _ _ _ _ Hrun Hc (proj1 Hpub) Hf)
    as (ks & ks' & -> & Hks & Hks' & Hout).
  apply Forall_app. split; [done|]. apply Forall_app. split.
  - eapply Forall_impl; [exact Hks|]. intros k Hk. exists (sy_active_bank sy), o. by split; [apply Hc|].
  - destruct res as [[]|error]; [|destruct Hout as (_ & -> & _); constructor].
    destruct Hout as [(_ & _ & _ & -> & _)|(Hc' & _)]; [constructor|].
    eapply Forall_impl; [exact Hks'|]. intros k Hk. exists (sy_active_bank sy'), (Some snapshot).
    by split; [apply Hc'|].
Qed.

Lemma run_inv :
  (∀ cause, res ≠ Err (RollbackIncomplete cause)) →
  agent_inv e {| a_policies := sy'; a_state := state'; a_world := w' |}.
Proof.
  intros Hres. pose proof run_history as Hhist. destruct Hinv as [Hc (o & Hp & Hf & Hr) Hh]. simpl in *.
  destruct (synchronize_spec _ _ _ _ _ o _ _ _ _ _ Hrun Hc (proj1 Hpub) Hf)
    as (ks & ks' & _ & _ & _ & Hout).
  destruct res as [[]|error].
  - destruct Hout as [(-> & -> & Ha & _)|(Hc' & Hf' & He & Ha)]; (split; simpl; [done| |done]).
    + exists o. split_and!; try done. unfold reports in *. by rewrite Ha.
    + by exists (Some snapshot).
  - destruct Hout as (-> & _ & [_ Hf'] & Ha & Hroll). split; simpl; [| |done].
    + apply Hroll. destruct error; try done. by eapply Hres.
    + exists o. split_and!; try done. unfold reports in *. by rewrite Ha.
Qed.

Lemma restart_inv written pending sy'' recovered k :
  w_history w' = w_history w ++ written ++ pending → k = default (w_kernel w) (last written) →
  recover_policy_state env e k empty_synchronizer = Ok (sy'', recovered) →
  agent_inv e {| a_policies := sy'';
    a_state := apply_recovered_state initial_policy_state sy'' recovered;
    a_world := {| w_kernel := k; w_clock := w_clock w'; w_history := w_history w ++ written |} |}.
Proof.
  intros Hh Hk Hrec. pose proof run_history as Hhist. rewrite Hh, (assoc_L (++)) in Hhist.
  apply Forall_app in Hhist as [Hhist _].
  assert (Hs : sound_state e k).
  { destruct (last written) as [k'|] eqn:El; simpl in Hk; subst k.
    - apply Forall_app in Hhist as [_ Hw]. rewrite Forall_forall in Hw. apply Hw.
      by apply last_Some_elem_of.
    - exact (inv_sound_state _ _ Hinv). }
  destruct (sound_state_recovers env e k Hs) as (o & sy1 & r1 & Hp & Hrec' & Hc & Hf & Hr).
  rewrite Hrec in Hrec'. injection Hrec' as <- <-. split; simpl; [done| |done]. by exists o.
Qed.
End Run.

Lemma agent_step_inv env e A A' : agent_inv e A → agent_step env e A A' → agent_inv e A'.
Proof.
  intros Hinv Hs. revert Hinv. destruct Hs; intros Hinv; [by eapply run_inv|].
  eapply restart_inv; [exact Hinv| |eassumption..]. done.
Qed.

Lemma agent_reachable_inv env e A : rtc (agent_step env e) fresh_agent A → agent_inv e A.
Proof.
  intros Hr. eapply (rtc_ind_r (agent_inv e)); [apply agent_inv_fresh| |exact Hr].
  intros A1 A2 _ Hs Hi. by eapply agent_step_inv.
Qed.
