(* ===== verification/PolicyProgress.v ===== *)
(** * Policy updates succeed

    When no system call fails, an accepted snapshot is in force after at most two attempts:
    an attempt can only stop at a key an interrupted collection already removed, and then its
    rollback repairs the staging bank. *)

From S2P Require Import Prelude Common PolicyIr PolicyCompile PolicyLower Bytes PolicyAbi TcPolicy.
From S2P Require Import PolicyInstalled PolicyBanks PolicyBanksFacts PolicySync PolicyUpdates.

Definition no_faults (env : Environment) : Prop := ∀ n, env_fault env n = false.

(** The longest stored prefix of a stored canonical key is the key itself. *)
Lemma trie_key_inj k k' :
  trie_key k → trie_key k' → k.1 = k'.1 → prefix_bits k.1 k.2 = prefix_bits k.1 k'.2 → k = k'.
Proof.
  intros (Hr & Hl & Hb & Hm) (_ & Hl' & Hb' & Hm') Hlen Hp. destruct k as [n d], k' as [n' d'].
  simpl in *. subst n'. f_equal. apply of_be_inj; [done..|congruence|].
  unfold prefix_bits in Hp. rewrite !Z.shiftr_div_pow2 in Hp by lia.
  pose proof (Z.pow_pos_nonneg 2 (192 - n) ltac:(lia) ltac:(lia)).
  rewrite (Z.div_mod (of_be d) (2 ^ (192 - n))), (Z.div_mod (of_be d') (2 ^ (192 - n))) by lia.
  by rewrite Hp, Hm, Hm'.
Qed.

Lemma trie_get_exact (m : gmap (Z * bytes) bytes) key value :
  (∀ k v, m !! k = Some v → trie_key k) → m !! key = Some value →
  trie_get m key.1 key.2 = Some value.
Proof.
  intros Hm Hk.
  assert (Hself : trie_matches key.1 key.2 key = true)
    by (unfold trie_matches; by rewrite Z.leb_refl, Z.eqb_refl).
  pose proof (trie_get_spec m key.1 key.2) as Hg.
  destruct (trie_get m key.1 key.2) as [v|]; [|by rewrite (Hg _ _ Hk) in Hself].
  destruct Hg as (k & Hkv & Hmatch & Hmax). specialize (Hmax _ _ Hk Hself).
  unfold trie_matches in Hmatch. apply andb_true_iff in Hmatch as [Hle%Z.leb_le Heq%Z.eqb_eq].
  rewrite (trie_key_inj k key (Hm _ _ Hkv) (Hm _ _ Hk)) in Hkv; [congruence|lia|done].
Qed.

(** The entry count always fits the configuration. *)
Lemma desired_entries_size {E K} `{Countable K} validate (key : E → K) value entries bank m :
  desired_entries validate key value entries bank = Ok m →
  (Z.of_nat (size m) ≤ POLICY_MAP_BANK_ENTRY_LIMIT).
Proof.
  intros (_ & Hl & _ & _ & Hm)%desired_entries_Ok. etrans; [|exact Hl].
  rewrite <-length_map_to_list, <-(length_map fst (map_to_list m)), <-(length_map key entries).
  apply Nat2Z.inj_le, submseteq_length, NoDup_submseteq; [apply NoDup_fst_map_to_list|].
  intros k ([k' v] & Hkv%elem_of_map_to_list & ->)%elem_of_list_map.
  apply Hm in Hkv as (x & Hx & <- & _). apply elem_of_list_map. by exists x.
Qed.

Lemma desired_config_encodes e snapshot b desired :
  desired_banks e snapshot b = Ok desired → 0 ≤ b < POLICY_BANK_COUNT →
  ∃ config, encode_policy_config e (ps_source_epoch snapshot) (ps_revision snapshot)
    (bank_len desired) b = Ok config.
Proof.
  intros (d1 & d2 & d3 & d4 & d5)%desired_banks_Ok Hb.
  apply desired_entries_size in d1, d2, d3, d4, d5. unfold POLICY_MAP_BANK_ENTRY_LIMIT in *.
  unfold encode_policy_config, encode_map_config. destruct (Z.leb_spec POLICY_BANK_COUNT b); [lia|].
  assert (Hw : in_width 32 (bank_len desired)) by (unfold in_width, bank_len; lia).
  rewrite (proj2 (try_width_Some 32 _ _) (conj eq_refl Hw)). by eexists.
Qed.

Section Progress.
Context (env : Environment) (Hnf : no_faults env).

Lemma write_call_runs f w k :
  f (w_kernel w) = Ok k → ∃ w', write_call env f w = (Ok (), w') ∧ w_kernel w' = k.
Proof. intros Hf. unfold write_call. rewrite Hnf, Hf. by eexists. Qed.

Lemma read_call_runs {A} (f : PolicyKernel → result SyncError A) w a :
  f (w_kernel w) = Ok a → ∃ w', read_call env f w = (Ok a, w') ∧ w_kernel w' = w_kernel w.
Proof. intros Hf. unfold read_call. rewrite Hnf, Hf. by eexists. Qed.

Section Map.
Context (e : Endian) {K : Type} `{Ord K, Countable K} (r : BpfMap K).
Context (ok : K → bytes → Prop) `{!BpfMapLaws e r ok}.

Lemma remove_all_runs l : ∀ w,
  NoDup l → (∀ key, key ∈ l → is_Some (bm_get r (w_kernel w) !! key)) →
  ∃ w', for_each (map_remove env r) l w = (Ok (), w').
Proof.
  induction l as [|x l IH]; intros w Hnd Hin; cbn [for_each]; [by eexists|].
  apply NoDup_cons in Hnd as [Hx Hnd]. destruct (Hin x) as [v Hv]; [by left|].
  assert (∃ w1, map_remove env r x w = (Ok (), w1) ∧
    w_kernel w1 = bm_set r (delete x (bm_get r (w_kernel w))) (w_kernel w)) as (w1 & Hw1 & Hk1)
    by (apply write_call_runs; by rewrite Hv).
  rewrite (op_bind_runs _ _ _ _ _ Hw1). apply IH; [done|]. intros key Hkey.
  rewrite Hk1, (bm_get_set (ok:=ok)), lookup_delete_ne by (by intros ->). apply Hin. by right.
Qed.

Lemma insert_all_runs l : ∀ w, ∃ w', for_each (map_insert env r) l w = (Ok (), w').
Proof.
  induction l as [|x l IH]; intros w; cbn [for_each]; [by eexists|].
  destruct (write_call_runs (λ kernel, Ok (bm_set r (<[x.1 := x.2]> (bm_get r kernel)) kernel)) w _ eq_refl)
    as (w1 & Hw1 & _). rewrite (op_bind_runs _ _ _ _ _ Hw1). apply IH.
Qed.

Lemma btree_keys_NoDup (m : gmap K bytes) : NoDup (map fst (btree_iter m)).
Proof. apply btree_iter_NoDup_keys. Qed.

Lemma replace_runs current desired w :
  (∀ key, is_Some (current !! key) → is_Some (bm_get r (w_kernel w) !! key)) →
  ∃ w', replace_policy_entries env r current desired w = (Ok (), w').
Proof.
  intros Hc. unfold replace_policy_entries.
  destruct (remove_all_runs (List.filter (λ key, bool_decide (desired !! key = None))
    (map fst (btree_iter current))) w) as (w1 & Hw1).
  - apply NoDup_ListNoDup, List.NoDup_filter, NoDup_ListNoDup, btree_keys_NoDup.
  - intros key [Hk _]%elem_of_list_filter. apply Hc. by apply elem_of_btree_keys in Hk.
  - rewrite (op_bind_runs _ _ _ _ _ Hw1). apply insert_all_runs.
Qed.

Lemma restore_runs previous b w : ∃ w', restore_policy_entries env r previous b w = (Ok (), w').
Proof.
  unfold restore_policy_entries.
  destruct (read_call_runs (λ kernel, Ok (env_order env K (map fst (map_to_list (bm_get r kernel))))) w _ eq_refl)
    as (w1 & Hw1 & Hk1). rewrite (op_bind_runs _ _ _ _ _ Hw1).
  set (keys := env_order env K (map fst (map_to_list (bm_get r (w_kernel w))))) in *.
  assert (Hp : keys ≡ₚ map fst (map_to_list (bm_get r (w_kernel w)))) by apply env_order_perm.
  destruct (remove_all_runs (List.filter (λ key, bm_bank r key =? b) keys) w1) as (w2 & Hw2).
  - apply NoDup_ListNoDup, List.NoDup_filter, NoDup_ListNoDup. rewrite Hp. apply NoDup_fst_map_to_list.
  - intros key [Hk _]%elem_of_list_filter. rewrite Hp in Hk. rewrite Hk1.
    apply elem_of_list_map in Hk as ([k v] & Hkv%elem_of_map_to_list & ->). by exists v.
  - rewrite (op_bind_runs _ _ _ _ _ Hw2). apply insert_all_runs.
Qed.

Lemma validate_runs (get : K → Op bytes) desired w :
  (∀ key v w1, desired !! key = Some v → w_kernel w1 = w_kernel w →
    ∃ w2, get key w1 = (Ok v, w2) ∧ w_kernel w2 = w_kernel w1) →
  ∃ w', validate_staged get desired w = (Ok (), w') ∧ w_kernel w' = w_kernel w.
Proof.
  intros Hg. unfold validate_staged.
  assert (Hl : ∀ key v, (key, v) ∈ btree_iter desired → desired !! key = Some v)
    by (intros key v; apply elem_of_btree_iter).
  generalize dependent (btree_iter desired). intros l Hl.
  assert (∀ w0, w_kernel w0 = w_kernel w → ∃ w', for_each (λ entry,
    let* actual := get entry.1 in
    if bool_decide (actual = entry.2) then op_ret () else op_fail StagedMismatch) l w0 = (Ok (), w') ∧
    w_kernel w' = w_kernel w) as Hall; [|by apply Hall].
  induction l as [|[key v] l IH]; intros w0 Hw0; cbn [for_each]; [by exists w0|].
  destruct (Hg key v w0) as (w2 & Hw2 & Hk2); [apply Hl; by left|done|].
  unfold op_bind at 1. unfold op_bind at 1. cbn [fst]. rewrite Hw2. cbn [snd].
  rewrite bool_decide_eq_true_2 by done. apply IH; [|congruence]. intros key' v' Hin. apply Hl. by right.
Qed.
End Map.

(** ** One attempt *)

Context (e : Endian) (b : Z).

Lemma bank_present {K} `{Countable K} (bank_of : K → Z) (ok : K → bytes → Prop) (m d : gmap K bytes) :
  bank_holds bank_of m d b → (∀ key v, d !! key = Some v → bank_of key = b ∧ ok key v) →
  ∀ key v, d !! key = Some v → m !! key = Some v.
Proof. intros Hh Hs key v Hk. rewrite Hh; [done|]. by eapply Hs. Qed.

Lemma stage_maps_runs previous desired w :
  holds_banks (w_kernel w) previous b → bank_storable e previous b →
  ∃ w', stage_maps env previous desired w = (Ok (), w').
Proof.
  intros (h1 & h2 & h3 & h4 & h5) [s1 s2 s3 s4 s5]. unfold stage_maps.
  destruct (replace_runs e identity_map (hash_entry e) (db_rules previous) (db_rules desired) w)
    as (w1 & H1). { intros key [v Hv]. exists v. by eapply bank_present. }
  pose proof (replace_set env e identity_map (hash_entry e) _ _ _ _ _ H1) as S1.
  rewrite (op_bind_runs _ _ _ _ _ H1).
  destruct (replace_runs e ipv4_map (hash_entry e) (db_ipv4 previous) (db_ipv4 desired) w1)
    as (w2 & H2). { rewrite S1. intros key [v Hv]. exists v. by eapply bank_present. }
  pose proof (replace_set env e ipv4_map (hash_entry e) _ _ _ _ _ H2) as S2.
  rewrite (op_bind_runs _ _ _ _ _ H2).
  destruct (replace_runs e ipv6_map (trie_entry e) (db_ipv6 previous) (db_ipv6 desired) w2)
    as (w3 & H3). { rewrite S2, S1. intros key [v Hv]. exists v. by eapply bank_present. }
  pose proof (replace_set env e ipv6_map (trie_entry e) _ _ _ _ _ H3) as S3.
  rewrite (op_bind_runs _ _ _ _ _ H3).
  destruct (replace_runs e egress_ipv4_map (hash_entry e) (db_egress_ipv4 previous)
    (db_egress_ipv4 desired) w3) as (w4 & H4).
  { rewrite S3, S2, S1. intros key [v Hv]. exists v. by eapply bank_present. }
  pose proof (replace_set env e egress_ipv4_map (hash_entry e) _ _ _ _ _ H4) as S4.
  rewrite (op_bind_runs _ _ _ _ _ H4).
  apply (replace_runs e egress_ipv6_map (trie_entry e)).
  rewrite S4, S3, S2, S1. intros key [v Hv]. exists v. by eapply bank_present.
Qed.

Lemma rollback_runs previous cause w :
  ∃ w', rollback_policy_stages env previous b cause w = (RolledBack cause, w').
Proof.
  unfold rollback_policy_stages.
  destruct (restore_runs e identity_map (hash_entry e) (db_rules previous) b w) as (w1 & ->).
  destruct (restore_runs e ipv4_map (hash_entry e) (db_ipv4 previous) b w1) as (w2 & ->).
  destruct (restore_runs e ipv6_map (trie_entry e) (db_ipv6 previous) b w2) as (w3 & ->).
  destruct (restore_runs e egress_ipv4_map (hash_entry e) (db_egress_ipv4 previous) b w3) as (w4 & ->).
  destruct (restore_runs e egress_ipv6_map (trie_entry e) (db_egress_ipv6 previous) b w4) as (w5 & ->).
  by exists w5.
Qed.

Lemma validate_hash_runs (r : BpfMap bytes) desired w :
  (∀ key v, desired !! key = Some v → bm_get r (w_kernel w) !! key = Some v) →
  ∃ w', validate_staged_policy_entries env r desired w = (Ok (), w') ∧ w_kernel w' = w_kernel w.
Proof.
  intros Hd. apply validate_runs. intros key v w1 Hk Hw. apply read_call_runs.
  by rewrite Hw, (Hd _ _ Hk).
Qed.

Lemma validate_trie_runs (r : BpfMap (Z * bytes)) desired w :
  (∀ key v, desired !! key = Some v → bm_get r (w_kernel w) !! key = Some v) →
  entries_ok (trie_entry e) (bm_get r (w_kernel w)) →
  ∃ w', validate_staged_ipv6_policy_entries env r desired w = (Ok (), w') ∧ w_kernel w' = w_kernel w.
Proof.
  intros Hd Hok. apply validate_runs. intros key v w1 Hk Hw. apply read_call_runs.
  rewrite Hw, (trie_get_exact _ _ v); [done| |by apply Hd]. by intros k v' [_ ?]%Hok.
Qed.

Lemma validate_maps_runs desired w :
  holds_banks (w_kernel w) desired b → bank_storable e desired b → wf_kernel e (w_kernel w) →
  ∃ w', validate_maps env desired w = (Ok (), w').
Proof.
  intros (h1 & h2 & h3 & h4 & h5) [s1 s2 s3 s4 s5] [w1 w2 w3 w4 w5]. unfold validate_maps.
  destruct (validate_hash_runs identity_map (db_rules desired) w) as (x1 & H1 & K1);
    [by eapply bank_present|]. rewrite (op_bind_runs _ _ _ _ _ H1).
  destruct (validate_hash_runs ipv4_map (db_ipv4 desired) x1) as (x2 & H2 & K2);
    [rewrite K1; by eapply bank_present|]. rewrite (op_bind_runs _ _ _ _ _ H2).
  destruct (validate_trie_runs ipv6_map (db_ipv6 desired) x2) as (x3 & H3 & K3);
    [rewrite K2, K1; by eapply bank_present|by rewrite K2, K1|]. rewrite (op_bind_runs _ _ _ _ _ H3).
  destruct (validate_hash_runs egress_ipv4_map (db_egress_ipv4 desired) x3) as (x4 & H4 & K4);
    [rewrite K3, K2, K1; by eapply bank_present|]. rewrite (op_bind_runs _ _ _ _ _ H4).
  destruct (validate_trie_runs egress_ipv6_map (db_egress_ipv6 desired) x4) as (x5 & H5 & _);
    [rewrite K4, K3, K2, K1; by eapply bank_present|by rewrite K4, K3, K2, K1|]. by exists x5.
Qed.

Lemma stage_and_activate_runs previous desired snapshot w :
  desired_banks e snapshot b = Ok desired → bank_storable e desired b → 0 ≤ b < POLICY_BANK_COUNT →
  holds_banks (w_kernel w) previous b → bank_storable e previous b → wf_kernel e (w_kernel w) →
  ∃ w', stage_and_activate env e previous desired (ps_source_epoch snapshot) (ps_revision snapshot) b w
    = (Ok (), w').
Proof.
  intros Hd Hsd Hb Hh Hsp Hwf. unfold stage_and_activate.
  destruct (stage_maps_runs previous desired w Hh Hsp) as (w1 & H1). rewrite (op_bind_runs _ _ _ _ _ H1).
  pose proof (stage_maps_passes env e b previous desired Hsp Hsd w) as [[_ Hwf1] _].
  rewrite H1 in Hwf1. cbn [snd] in Hwf1.
  pose proof (stage_maps_Ok env e b _ _ _ _ H1 (holds_known _ _ _ _ Hsp Hh)) as Hh1.
  destruct (validate_maps_runs desired w1 Hh1 Hsd (Hwf1 Hwf)) as (w2 & H2).
  rewrite (op_bind_runs _ _ _ _ _ H2).
  destruct (desired_config_encodes e snapshot b desired Hd Hb) as (config & ->).
  unfold config_set, write_call. rewrite Hnf. by eexists.
Qed.

Section Attempts.
Context (sy : PolicySynchronizer) (snapshot : PolicyStateSnapshot) (desired : DesiredBanks).
Context (Hst : storable snapshot) (Hd : desired_banks e snapshot b = Ok desired).
Context (Hb : 0 ≤ b < POLICY_BANK_COUNT) (Hne : b ≠ sy_active_bank sy).

Lemma apply_runs w :
  consistent e sy (w_kernel w) → holds_banks (w_kernel w) (synchronizer_bank sy b) b →
  ∃ sy' w', apply_policy_entries env e sy desired (ps_source_epoch snapshot) (ps_revision snapshot) b w
    = (Ok (), sy', w').
Proof.
  intros Hc Hh. destruct (desired_storable _ _ _ _ Hd Hst ltac:(lia)) as [_ Hsd].
  pose proof (bank_known_storable _ _ _ _ (cn_banks _ _ _ Hc b Hb)) as Hsp.
  destruct (stage_and_activate_runs _ _ _ w Hd Hsd Hb Hh Hsp (cn_kernel _ _ _ Hc)) as (w1 & H1).
  unfold apply_policy_entries. rewrite H1. destruct (_ =? _); [by eexists _, _|].
  destruct (collect_banks _ _ _ _). by eexists _, _.
Qed.

(** A failed attempt has put the staging bank in order. *)
Lemma apply_fails_once w :
  consistent e sy (w_kernel w) →
  (∃ sy' w', apply_policy_entries env e sy desired (ps_source_epoch snapshot) (ps_revision snapshot) b w
    = (Ok (), sy', w')) ∨
  (∃ cause w', apply_policy_entries env e sy desired (ps_source_epoch snapshot) (ps_revision snapshot) b w
    = (Err (RolledBack cause), sy, w') ∧
    consistent e sy (w_kernel w') ∧ holds_banks (w_kernel w') (synchronizer_bank sy b) b).
Proof.
  intros Hc. destruct (apply_policy_entries env e sy desired _ _ b w) as [[res sy'] w'] eqn:E.
  pose proof (apply_spec _ _ _ _ _ _ _ _ _ _ E Hc Hst Hd Hb Hne) as Hs.
  destruct res as [[]|error]; [left; by eexists _, _|right].
  unfold apply_policy_entries in E. destruct (stage_and_activate _ _ _ _ _ _ _ _) as [[[]|cause] w1].
  { destruct (_ =? _); [done|]. by destruct (collect_banks _ _ _ _). }
  destruct (rollback_runs (synchronizer_bank sy b) cause w1) as (w2 & Hr). rewrite Hr in E. simplify_eq.
  destruct Hs as (_ & _ & Hs). exists cause, w'. split; [done|]. by apply Hs; eexists.
Qed.
End Attempts.
End Progress.

(** ** Properties of policy updates *)

(** The snapshot is one the agent has not applied yet. *)
Definition due (sy : PolicySynchronizer) (state : AgentPolicyState) (snapshot : PolicyStateSnapshot) :
    Prop :=
  ps_schema_version snapshot = POLICY_SNAPSHOT_SCHEMA_VERSION ∧
  (ps_source_epoch snapshot = sy_applied_epoch sy →
   ag_applied_policy_revision state < ps_revision snapshot).

Lemma synchronize_due env e sy state snapshot desired w res sy' w' :
  due sy state snapshot →
  desired_banks e snapshot ((sy_active_bank sy + 1) mod POLICY_BANK_COUNT) = Ok desired →
  apply_policy_entries env e sy desired (ps_source_epoch snapshot) (ps_revision snapshot)
    ((sy_active_bank sy + 1) mod POLICY_BANK_COUNT) w = (res, sy', w') →
  ∃ sy1 state', synchronize_policies env e sy state snapshot w = (res, sy1, state', w') ∧
    (is_ok res = false → sy1 = sy' ∧ applied state' = applied state).
Proof.
  intros [Hs Hdue] Hd Ha. unfold synchronize_policies. rewrite Hs, Z.eqb_refl. simpl. rewrite Hd, Ha.
  assert (Hn : ∀ f : Z → Z → bool, (∀ x y, x < y → f y x = false) →
    (ps_source_epoch snapshot =? sy_applied_epoch sy)
      && f (ps_revision snapshot) (ag_applied_policy_revision state) = false).
  { intros f Hf. destruct (Z.eqb_spec (ps_source_epoch snapshot) (sy_applied_epoch sy)); [|done].
    apply Hf. by apply Hdue. }
  rewrite (Hn Z.eqb), (Hn Z.ltb) by (intros x y ?; apply Z.eqb_neq || apply Z.ltb_ge; lia).
  destruct res as [[]|error]; by eexists _, _.
Qed.

Lemma due_applied sy state state' snapshot :
  due sy state snapshot → applied state' = applied state → due sy state' snapshot.
Proof. intros [Hs Hd] [= _ Hr _ _]. split; [done|]. by rewrite Hr. Qed.

Lemma update_succeeds env e sy state snapshot w :
  no_faults env → consistent e sy (w_kernel w) → storable snapshot → due sy state snapshot →
  is_ok (desired_banks e snapshot ((sy_active_bank sy + 1) mod POLICY_BANK_COUNT)) = true →
  ∃ sy' state' w',
    synchronize_policies env e sy state snapshot w = (Ok (), sy', state', w') ∨
    ∃ cause state1 w1,
      synchronize_policies env e sy state snapshot w = (Err (RolledBack cause), sy, state1, w1) ∧
      synchronize_policies env e sy state1 snapshot w1 = (Ok (), sy', state', w').
Proof.
  intros Hnf Hc Hst Hdue Hok. destruct (staging_bank _ (cn_active _ _ _ Hc)) as [Hb Hne].
  destruct (desired_banks _ _ _) as [desired|] eqn:Hd; [|done].
  destruct (apply_fails_once env Hnf e _ sy snapshot desired Hst Hd Hb Hne w Hc)
    as [(sy1 & w1 & Ha)|(cause & w1 & Ha & Hc1 & Hh1)].
  - destruct (synchronize_due _ _ _ _ _ _ _ _ _ _ Hdue Hd Ha) as (sy' & state' & Hs & _).
    exists sy', state', w1. by left.
  - destruct (synchronize_due _ _ _ _ _ _ _ _ _ _ Hdue Hd Ha) as (sy1 & state1 & Hs1 & Heq).
    destruct (Heq eq_refl) as [-> Happ]. pose proof (due_applied _ _ _ _ Hdue Happ) as Hdue1.
    destruct (apply_runs env Hnf e _ sy snapshot desired Hst Hd Hb w1 Hc1 Hh1) as (sy2 & w2 & Ha2).
    destruct (synchronize_due _ _ _ _ _ _ _ _ _ _ Hdue1 Hd Ha2) as (sy' & state' & Hs2 & _).
    exists sy', state', w2. right. by exists cause, state1, w1.
Qed.

Lemma due_Ok env e sy state old snapshot w sy' state' w' :
  synchronize_policies env e sy state snapshot w = (Ok (), sy', state', w') →
  consistent e sy (w_kernel w) → storable snapshot →
  in_force e (w_kernel w) (sy_active_bank sy) old → due sy state snapshot →
  in_force e (w_kernel w') (sy_active_bank sy') (Some snapshot) ∧ reports sy' state' (Some snapshot).
Proof.
  intros Hrun Hc Hst Ho [_ Hdue].
  destruct (synchronize_spec _ _ _ _ _ _ _ _ _ _ _ Hrun Hc Hst Ho)
    as (_ & _ & _ & _ & _ & [(_ & _ & _ & _ & He & Hr)|(_ & Hf & He & Ha)]); [|done].
  specialize (Hdue He). lia.
Qed.

(** C4. A policy update is atomic for packets, whichever system calls fail: every map state a
    packet can observe during it selects the complete old snapshot up to one moment and the
    complete new one from then on. An update that returns an error leaves the old snapshot in
    force, the agent's tables and its reported revision as they were; one that returns success
    either had nothing to do or has put the new snapshot in force and reports it. *)
Theorem policy_update_atomic env e sy state old snapshot w res sy' state' w' :
  synchronize_policies env e sy state snapshot w = (res, sy', state', w') →
  consistent e sy (w_kernel w) → storable snapshot →
  in_force e (w_kernel w) (sy_active_bank sy) old →
  ∃ before after, w_history w' = w_history w ++ before ++ after ∧
    Forall (λ k, in_force e k (sy_active_bank sy) old) before ∧
    Forall (λ k, in_force e k (sy_active_bank sy') (Some snapshot)) after ∧
    match res with
    | Ok _ =>
        (w' = w ∧ sy' = sy ∧ ps_source_epoch snapshot = sy_applied_epoch sy ∧
         ps_revision snapshot = ag_applied_policy_revision state) ∨
        (consistent e sy' (w_kernel w') ∧
         in_force e (w_kernel w') (sy_active_bank sy') (Some snapshot) ∧
         ag_applied_policy_epoch state' = ps_source_epoch snapshot ∧
         ag_applied_policy_revision state' = ps_revision snapshot)
    | Err error => sy' = sy ∧ after = [] ∧ in_force e (w_kernel w') (sy_active_bank sy) old ∧
        applied state' = applied state ∧ (complete_rollback error → consistent e sy (w_kernel w'))
    end.
Proof.
  intros Hrun Hc Hst Ho.
  destruct (synchronize_spec _ _ _ _ _ _ _ _ _ _ _ Hrun Hc Hst Ho) as (ks & ks' & Hh & H1 & H2 & Hres).
  exists ks, ks'. split; [done|]. split; [|split].
  - eapply Forall_impl; [exact H1|]. by intros k [_ ?].
  - eapply Forall_impl; [exact H2|]. by intros k [_ ?].
  - destruct res as [[]|error].
    + destruct Hres as [(? & ? & _ & _ & ? & ?)|(? & ? & _ & Ha)]; [by left|right].
      injection Ha as ? ? ? ?. done.
    + by destruct Hres as (? & ? & [_ ?] & ? & ?).
Qed.

(** An environment given by the calls that fail; keys are listed in map order. *)
Definition environment (faults : nat → bool) : Environment := {|
  env_fault := faults; env_order := λ _ l, l; env_order_perm := λ K l, Permutation_refl l |}.

Definition deny_record : PolicyDecisionRecord := {|
  rec_verdict := VDeny; rec_reason := ExplicitRule; rec_policy_id := Some 1; rec_rule_id := Some 0 |}.

(** TCP to [port] of workload 8 is denied from an IPv4 address and from an IPv6 prefix. *)
Definition deny_update (revision port prefix_len : Z) : PolicyStateSnapshot := {|
  ps_schema_version := 4; ps_source_epoch := 5; ps_revision := revision; ps_entries := [];
  ps_ipv4_entries := [{|
    entry_key := {| pk4_source_address := 167772167; pk4_destination_identity := 8;
      pk4_destination_port := port; pk4_protocol := 6 |};
    entry_decision := deny_record; entry_shadow := None |}];
  ps_ipv6_entries := [{|
    entry_key := {| pk6_source_network := 2 ^ 124; pk6_source_prefix_len := prefix_len;
      pk6_destination_identity := 8; pk6_destination_port := port; pk6_protocol := 6 |};
    entry_decision := deny_record; entry_shadow := None |}];
  ps_egress_ipv4_entries := []; ps_egress_ipv6_entries := [] |}.

Lemma deny_update_storable revision port prefix_len :
  1 ≤ revision < 2 ^ 64 → in_width 16 port → 4 ≤ prefix_len ≤ 128 →
  storable (deny_update revision port prefix_len).
Proof.
  intros Hr Hp Hl.
  assert (Hrec : wf_records deny_record None) by (split; [|done]; split; [by right|by split]).
  assert (Hm : 2 ^ 124 mod 2 ^ (128 - prefix_len) = 0).
  { replace (2 ^ 124) with (2 ^ (prefix_len - 4) * 2 ^ (128 - prefix_len))
      by (rewrite <-Z.pow_add_r by lia; f_equal; lia). apply Z.mod_mul, Z.pow_nonzero; lia. }
  split; [|constructor]. split; [by split|]. split; [done|]. split; [constructor|].
  split; [|split; [|constructor]]; (constructor; [|constructor]); (split; [|done]).
  - split; [by split|]. by split_and!.
  - split; [split; [simpl; lia|split; [by split|exact Hm]]|]. by split_and!.
Qed.

Definition fresh_world : World := a_world fresh_agent.

Lemma policy_update_atomic_witness :
  ∃ sy' state' w',
    synchronize_policies (environment (λ _, false)) LittleEndian empty_synchronizer
      initial_policy_state (deny_update 1 80 64) fresh_world = (Ok (), sy', state', w') ∧
    in_force LittleEndian (w_kernel w') (sy_active_bank sy') (Some (deny_update 1 80 64)).
Proof.
  assert (Hres : (synchronize_policies (environment (λ _, false)) LittleEndian empty_synchronizer
    initial_policy_state (deny_update 1 80 64) fresh_world).1.1.1 = Ok ())
    by (vm_compute; reflexivity).
  destruct (synchronize_policies _ _ _ _ _ _) as [[[res sy'] state'] w'] eqn:E. simpl in Hres.
  subst res. exists sy', state', w'. split; [reflexivity|].
  destruct (policy_update_atomic _ _ _ _ None _ _ _ _ _ _ E) as (before & after & _ & _ & _ & Hr).
  - exact (ai_consistent _ _ (agent_inv_fresh LittleEndian)).
  - apply deny_update_storable; unfold in_width; lia.
  - reflexivity.
  - destruct Hr as [(_ & _ & He & _)|(_ & ? & _)]; [discriminate|done].
Defined.


(** C24. When no system call fails, an agent whose tables cover the maps puts an accepted
    snapshot it has not applied yet in force in at most two attempts, the first one being
    rolled back at worst. *)
Theorem policy_update_succeeds env e sy state old snapshot w :
  no_faults env → consistent e sy (w_kernel w) → storable snapshot →
  in_force e (w_kernel w) (sy_active_bank sy) old → due sy state snapshot →
  is_ok (desired_banks e snapshot ((sy_active_bank sy + 1) mod POLICY_BANK_COUNT)) = true →
  ∃ sy' state' w',
    (synchronize_policies env e sy state snapshot w = (Ok (), sy', state', w') ∨
     ∃ cause state1 w1,
       synchronize_policies env e sy state snapshot w = (Err (RolledBack cause), sy, state1, w1) ∧
       synchronize_policies env e sy state1 snapshot w1 = (Ok (), sy', state', w')) ∧
    in_force e (w_kernel w') (sy_active_bank sy') (Some snapshot) ∧
    reports sy' state' (Some snapshot).
Proof.
  intros Hnf Hc Hst Ho Hdue Hok.
  destruct (update_succeeds env e sy state snapshot w Hnf Hc Hst Hdue Hok)
    as (sy' & state' & w' & Hrun). exists sy', state', w'. split; [done|].
  destruct Hrun as [Hrun|(cause & state1 & w1 & Hrun1 & Hrun)].
  - exact (due_Ok _ _ _ _ _ _ _ _ _ _ Hrun Hc Hst Ho Hdue).
  - destruct (synchronize_spec _ _ _ _ _ _ _ _ _ _ _ Hrun1 Hc Hst Ho)
      as (_ & _ & _ & _ & _ & _ & _ & [_ Ho1] & Happ & Hc1).
    exact (due_Ok _ _ _ _ _ _ _ _ _ _ Hrun (Hc1 I) Hst Ho1 (due_applied _ _ _ _ Hdue Happ)).
Qed.

Lemma policy_update_succeeds_witness :
  ∃ sy' state' w',
    (synchronize_policies (environment (λ _, false)) BigEndian empty_synchronizer
       initial_policy_state (deny_update 1 80 64) fresh_world = (Ok (), sy', state', w') ∨
     ∃ cause state1 w1,
       synchronize_policies (environment (λ _, false)) BigEndian empty_synchronizer
         initial_policy_state (deny_update 1 80 64) fresh_world
       = (Err (RolledBack cause), empty_synchronizer, state1, w1) ∧
       synchronize_policies (environment (λ _, false)) BigEndian empty_synchronizer
         state1 (deny_update 1 80 64) w1 = (Ok (), sy', state', w')) ∧
    in_force BigEndian (w_kernel w') (sy_active_bank sy') (Some (deny_update 1 80 64)) ∧
    reports sy' state' (Some (deny_update 1 80 64)).
Proof.
  apply (policy_update_succeeds _ _ _ _ None).
  - by intros n.
  - exact (ai_consistent _ _ (agent_inv_fresh BigEndian)).
  - apply deny_update_storable; unfold in_width; lia.
  - reflexivity.
  - split; [reflexivity|discriminate].
  - vm_compute. reflexivity.
Defined.

(** ** Two weaknesses *)

Definition update (faults : nat → bool) (A : Agent) (snapshot : PolicyStateSnapshot) :
    result SyncError () * Agent :=
  let '(res, sy, state, w) := synchronize_policies (environment faults) LittleEndian (a_policies A)
    (a_state A) snapshot (a_world A) in
  (res, {| a_policies := sy; a_state := state; a_world := w |}).

Lemma first_update faults snapshot :
  (update faults fresh_agent snapshot).1 = Ok () → storable snapshot → ps_source_epoch snapshot ≠ 0 →
  consistent LittleEndian (a_policies (update faults fresh_agent snapshot).2)
    (w_kernel (a_world (update faults fresh_agent snapshot).2)) ∧
  in_force LittleEndian (w_kernel (a_world (update faults fresh_agent snapshot).2))
    (sy_active_bank (a_policies (update faults fresh_agent snapshot).2)) (Some snapshot).
Proof.
  unfold update. destruct (synchronize_policies _ _ _ _ _ _) as [[[res sy] state] w] eqn:E.
  cbn [fst snd a_policies a_world]. intros -> Hst Hne.
  destruct (synchronize_spec _ _ _ _ _ None _ _ _ _ _ E) as (ks & ks' & _ & _ & _ & Hr).
  - exact (ai_consistent _ _ (agent_inv_fresh LittleEndian)).
  - done.
  - reflexivity.
  - destruct Hr as [(_ & _ & _ & _ & He & _)|(? & ? & _)]; [|done]. by destruct Hne.
Qed.


(** A TCP packet from the first address of the denied prefix to workload 8. *)
Definition denied_ipv6_packet : FlowObservation := {|
  ob_source_address := be_bytes 16 (2 ^ 124); ob_destination_address := be_bytes 16 1;
  ob_source_port := be_bytes 2 40000; ob_destination_port := be_bytes 2 80;
  ob_source_identity := 7; ob_destination_identity := 8; ob_direction := Egress;
  ob_address_family := Ipv6Family; ob_protocol := 6; ob_tcp_flags := 2; ob_enforce := true |}.

(** The calls that fail between the first and the second update. *)
Definition burst (n : nat) : bool := (7 <=? Z.of_nat n) && (Z.of_nat n <=? 12).

Definition after_burst : Agent :=
  (update burst (update burst fresh_agent (deny_update 1 80 64)).2 (deny_update 2 80 128)).2.


