(* ===== verification/EndToEnd.v ===== *)
(** * From policies to packets

    The controller lowers a policy set, the agent installs the snapshot, and the
    classifier's answer for a packet is the evaluator's decision for its flow. *)

From S2P Require Import Prelude Common PolicyIr PolicyCompile NetworkPolicy PolicyLower.
From S2P Require Import PolicyLowerSpec PolicyLowerFacts LowerAddresses LowerIngress LowerIpv6 LowerEgress.
From S2P Require Import Bytes PolicyAbi TcPolicy PolicyInstalled.

(** ** Records the evaluator produces are well formed *)

(** Identifiers fit their width, and NetworkPolicy rules decide. *)
Definition wf_numbers (policies : list PolicyIr) : Prop :=
  Forall (λ policy, 1 ≤ pol_id policy < 2 ^ 32 ∧
    Forall (λ rule, in_width 32 (rule_id rule) ∧
      1 ≤ prov_policy_id (rule_provenance rule) < 2 ^ 32 ∧
      (pol_origin policy = KubernetesNetworkPolicy → rule_action rule ≠ ActAudit))
      (pol_rules policy)) policies.

Lemma wf_numbers_strip policies : wf_numbers policies → wf_numbers (global_fallback_policies policies).
Proof.
  unfold wf_numbers. rewrite global_fallback_strip, !Forall_forall.
  intros H q (p & Hp & ->)%elem_of_list_map. destruct (H p Hp) as [Hid Hr]. split; [done|].
  simpl. rewrite Forall_forall in *. intros r [Hin _]%elem_of_list_filter. by apply Hr.
Qed.

Definition render_record (d : Verdict * PolicyReason * option PolicyId * option RuleId) :
    PolicyDecisionRecord :=
  let '(v, r, i, k) := d in
  {| rec_verdict := v; rec_reason := r; rec_policy_id := i; rec_rule_id := k |}.

Lemma decide_record_wf policies direction flow addresses mode d :
  wf_numbers policies →
  decide_for_mode (applicable policies direction flow) flow addresses mode = Some d →
  wf_record (render_record d).
Proof.
  unfold wf_numbers. rewrite Forall_forall.
  intros Hw (c & [Hc _] & ->)%decide_for_mode_Some.
  assert (Hact : ∀ a, a ≠ ActAudit → action_verdict a = VAllow ∨ action_verdict a = VDeny).
  { intros []; simpl; auto. done. }
  destruct Hc as [p r Hp _ _ Hr _ Ha|p Hp _ _ Ha _|p r Hp _ Ho Hr _|p Hp _ _ Ha _];
    apply elem_of_applicable in Hp as [Hp _]; destruct (Hw p Hp) as [Hid Hrules];
    rewrite Forall_forall in Hrules; unfold wf_record; simpl.
  - destruct (Hrules r Hr) as (? & _ & _). auto.
  - auto.
  - destruct (Hrules r Hr) as (? & ? & ?). auto.
  - auto.
Qed.

Lemma records_wf policies direction flow addresses :
  wf_numbers policies →
  let v := records (evaluate_for_direction_with_addresses policies direction flow addresses) in
  wf_records v.1 v.2.
Proof.
  intros Hw. cbv zeta. rewrite records_evaluate. unfold mode_records. split; simpl.
  - destruct (decide_for_mode _ _ _ Enforce) as [d|] eqn:E; [|done].
    by apply (decide_record_wf _ _ _ _ _ _ Hw E).
  - destruct (decide_for_mode _ _ _ Shadow) as [d|] eqn:E; [|done].
    by apply (decide_record_wf _ _ _ _ _ _ Hw E).
Qed.

(** ** Lowered entries fit the ABI *)

Lemma exact_rule_ports_width rule destination p port :
  wf_rule rule → wf_endpoint destination → (p, port) ∈ exact_rule_ports rule destination →
  in_width 16 port.
Proof.
  intros [_ Hp] He [_ Hm]%elem_of_exact_rule_ports. unfold wf_port in Hp. unfold in_width.
  change (2 ^ 16) with 65536.
  destruct (rule_destination_port rule) as [|n|name|s e]; [done|lia| |lia].
  rewrite resolve_named_port_lookup in Hm. apply He in Hm. lia.
Qed.

Section Pairs.
Context (policies : list PolicyIr) (direction : PolicyDirection) (source destination : Endpoint).
Context (v4 v6 : option Z) (addresses : DestinationAddresses) (keep : PolicyRule → bool).
Context (Hwf : wf_policies policies) (Hn : wf_numbers policies) (Hd : wf_endpoint destination).
Context {K : Type} (key : Z → Z → K) (wf : K → Prop).
Context (Hkey : ∀ pr po, in_width 8 pr → in_width 16 po → wf (key pr po)).

Lemma exact_set_width p port :
  (p, port) ∈ exact_set policies direction source destination keep → in_width 16 port.
Proof.
  intros (rule & (_ & policy & Hp & _ & Hr)%elem_of_targeted_rules & Hx)%elem_of_tuple_set.
  eapply exact_rule_ports_width; [|exact Hd|exact Hx]. unfold wf_policies in Hwf.
  rewrite Forall_forall in Hwf. specialize (Hwf _ Hp). rewrite Forall_forall in Hwf. auto.
Qed.

Lemma mk_entry_wf ps pr po flow :
  wf_numbers ps → in_width 8 pr → in_width 16 po →
  wf_entry wf (mk_entry key pr po (evaluate_for_direction_with_addresses ps direction flow addresses)).
Proof. intros Hps H1 H2. split; [by apply Hkey|]. by apply records_wf. Qed.

Lemma protocol_u8_width p : in_width 8 (protocol_u8 p).
Proof. by destruct p. Qed.

Lemma evaluated_pair_wf x :
  x ∈ evaluated_pair policies direction source destination v4 v6 addresses keep key →
  wf_entry wf x.
Proof.
  unfold evaluated_pair. rewrite elem_of_pair_inherit.
  intros [[_ ->]|[(p & _ & _ & _ & ->)|(p & port & Hx & _ & _ & ->)]]; apply mk_entry_wf.
  - by apply wf_numbers_strip.
  - by split.
  - by split.
  - done.
  - apply protocol_u8_width.
  - by split.
  - done.
  - apply protocol_u8_width.
  - by apply exact_set_width in Hx.
Qed.

Lemma evaluated_plain_wf x :
  x ∈ evaluated_plain policies direction source destination v4 v6 addresses keep key →
  wf_entry wf x.
Proof.
  unfold evaluated_plain. rewrite elem_of_pair_plain.
  intros [[_ ->]|[(p & _ & _ & ->)|(p & port & Hx & _ & ->)]]; apply mk_entry_wf.
  - by apply wf_numbers_strip.
  - by split.
  - by split.
  - done.
  - apply protocol_u8_width.
  - by split.
  - done.
  - apply protocol_u8_width.
  - by apply exact_set_width in Hx.
Qed.
End Pairs.

Lemma compile_dataplane_Ok policies endpoints entries :
  compile_dataplane_entries policies endpoints = Ok entries →
  ∃ m, unique_endpoints endpoints = Ok m ∧ entries ≡ₚ identity_entries policies m.
Proof.
  intros H. destruct (ensure_ingress_dataplane_policies policies) as [[]|] eqn:Ed;
    [|unfold compile_dataplane_entries in H; by rewrite Ed in H].
  destruct (unique_endpoints endpoints) as [m|] eqn:Em;
    [|unfold compile_dataplane_entries in H; by rewrite Ed, Em in H].
  rewrite (compile_dataplane_entries_eq _ _ m) in H by done.
  destruct (_ <=? _); [|done]. injection H as <-. exists m. split; [done|apply sort_by_perm].
Qed.

(** Workloads have a nonzero 32-bit identity and usable named ports. *)
Definition wf_workload (x : Endpoint) : Prop := 1 ≤ ep_identity x < 2 ^ 32 ∧ wf_endpoint x.

Lemma wf_workload_identity x : wf_workload x → in_width 32 (ep_identity x).
Proof. intros [? _]. unfold in_width. lia. Qed.

Section Lowered.
Context (policies : list PolicyIr) (endpoints : list Endpoint).
Context (Hwf : wf_policies policies) (Hn : wf_numbers policies).
Context (Hends : ∀ x, x ∈ endpoints → wf_workload x).

Lemma identity_lowered_wf entries x :
  compile_dataplane_entries policies endpoints = Ok entries → x ∈ entries →
  wf_entry wf_key x ∧ pk_destination_identity (entry_key x) ≠ 0.
Proof.
  intros (m & Hm & He)%compile_dataplane_Ok. rewrite He. unfold identity_entries.
  intros ([s d] & [Hs Hd]%elem_of_list_prod & Hx)%elem_of_list_flat_map. simpl in *.
  destruct (endpoint_values _ _ Hm) as (_ & Hin & _). apply Hin, Hends in Hs, Hd. split.
  - eapply evaluated_pair_wf; [done|done|apply Hd| |exact Hx].
    intros pr po ? ?. split; [by apply wf_workload_identity|]. split; [by apply wf_workload_identity|].
    by split.
  - apply pair_inherit_key in Hx as (p & q & ->). simpl. destruct Hd as [? _]. lia.
Qed.

Lemma ipv4_lowered_wf ipv4_endpoints entries x :
  compile_ipv4_dataplane_entries policies endpoints ipv4_endpoints = Ok entries →
  ipv4_inputs policies ipv4_endpoints → Forall (λ y, in_width 32 (ep4_address y)) ipv4_endpoints →
  x ∈ entries → wf_entry wf_key4 x ∧ pk4_destination_identity (entry_key x) ≠ 0.
Proof.
  intros (m & known & s & _ & Hm & Hk & _ & Hs & He)%compile_ipv4_Ok (Hblk & _ & Hzero) Hw.
  pose proof (insert_ipv4_addresses_spec _ _ _ Hs) as Hin.
  rewrite Forall_forall in Hzero, Hw.
  assert (Hkn : ∀ a, a ∈ dom known → in_width 32 a ∧ a ≠ 0).
  { intros a Ha. apply (known_ipv4_source _ _ _ a Hk) in Ha as (y & Hy & <-). auto. }
  assert (H0 : 0 ∉ s) by (rewrite Hin; intros [Hz%Hkn|[_ ?]]; naive_solver).
  rewrite (He H0). intros ([a d] & [Hd Ha]%(elem_of_ipv4_items _ _ _ _ Hm) & Hx)%elem_of_list_flat_map.
  assert (Haw : in_width 32 a).
  { destruct Ha as [Ha|[-> _]]; [|by split]. apply Hin in Ha as [Ha|[Ha _]].
    - by apply Hkn.
    - by eapply listed_ipv4_width. }
  apply Hends in Hd. unfold ipv4_item_pair in Hx. simpl in Hx. split.
  - destruct (Z.eqb_spec a 0) as [->|_]; (eapply evaluated_pair_wf; [done|done|apply Hd| |exact Hx];
      intros pr po ? ?; split; [by simpl|]; split; [by apply wf_workload_identity|by split]).
  - destruct (a =? 0); apply pair_inherit_key in Hx as (p & q & ->); simpl; destruct Hd as [? _]; lia.
Qed.

Lemma ipv6_lowered_wf ipv6_endpoints entries x :
  compile_ipv6_dataplane_entries policies endpoints ipv6_endpoints = Ok entries →
  ipv6_inputs policies ipv6_endpoints → x ∈ entries →
  wf_entry wf_key6 x ∧ pk6_destination_identity (entry_key x) ≠ 0.
Proof.
  intros (m & known & _ & Hm & Hk & He)%compile_ipv6_Ok (Hblk & _ & Haddr).
  rewrite Forall_forall in Haddr.
  assert (Hknown : ∀ k, k ∈ dom known → in_width 128 k).
  { intros k Hin. apply (known_ipv6_source _ _ _ k Hk) in Hin as (y & Hin & <-). auto. }
  pose proof (boundaries_wf policies known Hblk Hknown) as Hbw. rewrite Forall_forall in Hbw.
  rewrite He. intros ([d b] & [Hd Hb]%elem_of_list_prod & Hx)%elem_of_list_flat_map. simpl in Hd, Hb.
  destruct (endpoint_values _ _ Hm) as (_ & Hin & _). apply Hin, Hends in Hd.
  pose proof (ipv6_item_pair_key _ _ _ _ _ _ Hx) as (p & q & Hkey).
  apply elem_of_ipv6_item_pair in Hx as (src & r & Hx). split.
  - eapply evaluated_plain_wf; [done|done|apply Hd| |exact Hx].
    intros pr po ? ?. split; [destruct b; by apply Hbw|].
    split; [by apply wf_workload_identity|by split].
  - rewrite Hkey. simpl. destruct Hd as [? _]. lia.
Qed.

Lemma egress_ipv4_lowered_wf ipv4_endpoints entries x :
  compile_egress_ipv4_dataplane_entries policies endpoints ipv4_endpoints = Ok entries →
  egress_ipv4_inputs policies ipv4_endpoints →
  Forall (λ y, in_width 32 (ep4_address y)) ipv4_endpoints →
  x ∈ entries → wf_entry wf_egress_key4 x ∧ ek4_source_identity (entry_key x) ≠ 0.
Proof.
  intros (m & known & s & _ & Hm & Hk & _ & Hs & He)%compile_egress_ipv4_Ok (Hblk & _ & Hep) Hw.
  pose proof (insert_ipv4_addresses_spec _ _ _ Hs) as Hin. rewrite Forall_forall in Hep, Hw.
  assert (Hkn : ∀ a, a ∈ dom known → in_width 32 a ∧ a ≠ 0).
  { intros a Ha. apply (known_ipv4_source _ _ _ a Hk) in Ha as (y & Hy & <-). split; [auto|by apply Hep]. }
  assert (Hkw : ∀ a, wf_endpoint (default external_endpoint (known !! a))).
  { intros a. destruct (known !! a) as [y|] eqn:Ea; [|apply external_endpoint_wf].
    apply (known_addresses_spec _ _ _ Hk), elem_of_list_map in Ea as (z & Hz & [= -> ->]).
    by apply Hep. }
  assert (H0 : 0 ∉ s) by (rewrite Hin; intros [Hz%Hkn|[_ ?]]; naive_solver).
  rewrite (He H0). intros ([y a] & [Hd Ha]%(elem_of_egress_items _ _ _ _ Hm) & Hx)%elem_of_list_flat_map.
  assert (Haw : in_width 32 a).
  { destruct Ha as [Ha|[-> _]]; [|by split]. apply Hin in Ha as [Ha|[Ha _]].
    - by apply Hkn.
    - by eapply listed_ipv4_width. }
  apply Hends in Hd. pose proof (egress_item_key _ _ _ _ _ Hx) as (p & q & Hkey).
  unfold egress_item_pair in Hx. simpl in Hx. split.
  - destruct (Z.eqb_spec a 0) as [->|_]; (eapply evaluated_pair_wf; [done|done| | |exact Hx];
      [|intros pr po ? ?; split; [by simpl|]; split; [by apply wf_workload_identity|by split]]).
    + apply external_endpoint_wf.
    + apply Hkw.
  - rewrite Hkey. simpl. destruct Hd as [? _]. lia.
Qed.

Lemma egress_ipv6_lowered_wf ipv6_endpoints entries x :
  compile_egress_ipv6_dataplane_entries policies endpoints ipv6_endpoints = Ok entries →
  Forall (λ b, wf_cidr6 (blk6_cidr b) ∧ Forall wf_cidr6 (blk6_except b))
    (destination_ipv6_blocks policies) →
  Forall (λ y, in_width 128 (ep6_address y) ∧ wf_endpoint (ep6_endpoint y)) ipv6_endpoints →
  x ∈ entries → wf_entry wf_egress_key6 x.
Proof.
  intros He Hblk Hep Hx.
  destruct (compile_egress_ipv6_entries _ _ _ _ _ He Hx) as (m & known & src & b & a & Hm & Hk & Hs & Hb & Hin).
  rewrite Forall_forall in Hblk. rewrite Forall_forall in Hep.
  assert (Hkw : wf_endpoint (default external_endpoint (known !! a))).
  { destruct (known !! a) as [y|] eqn:Ea; [|apply external_endpoint_wf].
    apply (known_addresses_spec _ _ _ Hk), elem_of_list_map in Ea as (z & Hz & [= -> ->]).
    by apply Hep. }
  assert (Hbw : wf_cidr6 b).
  { apply elem_of_ipv6_boundaries in Hb as [->|[(blk & Hbl & Hc)|(k & Hkd & ->)]].
    - split; [simpl; lia|split; [unfold in_width; simpl; lia|done]].
    - destruct (Hblk blk Hbl) as [? Hex]. rewrite Forall_forall in Hex. destruct Hc as [->|?]; auto.
    - apply (known_ipv6_source _ _ _ k Hk) in Hkd as (y & Hy & <-).
      split; [simpl; lia|split; [by apply Hep|apply Z.mod_1_r]]. }
  destruct (endpoint_values _ _ Hm) as (_ & Hval & _). apply Hval, Hends in Hs.
  eapply evaluated_plain_wf; [done|done|exact Hkw| |exact Hin].
  intros pr po ? ?. split; [by destruct b|]. split; [by apply wf_workload_identity|by split].
Qed.
End Lowered.

(** ** The controller's snapshot *)

(** The lowering calls of [dataplane_policy_state], for a cluster without host-network
    peers to merge in. *)
Definition lower_policies (source_epoch revision : Z) (policies : list PolicyIr)
    (endpoints : list Endpoint) (ipv4_endpoints : list Ipv4Endpoint)
    (ipv6_endpoints : list Ipv6Endpoint) : dp_result PolicyStateSnapshot :=
  let ingress_policies := List.filter (λ p, bool_decide (pol_direction p = Ingress)) policies in
  let egress_policies := List.filter (λ p, negb (bool_decide (pol_direction p = Ingress))) policies in
  let? entries := compile_dataplane_entries ingress_policies endpoints in
  let? ipv4_entries := compile_ipv4_dataplane_entries ingress_policies endpoints ipv4_endpoints in
  let? ipv6_entries := compile_ipv6_dataplane_entries ingress_policies endpoints ipv6_endpoints in
  let? egress_ipv4_entries :=
    compile_egress_ipv4_dataplane_entries egress_policies endpoints ipv4_endpoints in
  let? egress_ipv6_entries :=
    compile_egress_ipv6_dataplane_entries egress_policies endpoints ipv6_endpoints in
  Ok {| ps_schema_version := POLICY_SNAPSHOT_SCHEMA_VERSION; ps_source_epoch := source_epoch;
        ps_revision := revision; ps_entries := entries; ps_ipv4_entries := ipv4_entries;
        ps_ipv6_entries := ipv6_entries;
        ps_egress_ipv4_entries := egress_ipv4_entries;
        ps_egress_ipv6_entries := egress_ipv6_entries |}.

Definition of_direction (direction : PolicyDirection) (policies : list PolicyIr) : list PolicyIr :=
  match direction with
  | Ingress => List.filter (λ p, bool_decide (pol_direction p = Ingress)) policies
  | Egress => List.filter (λ p, negb (bool_decide (pol_direction p = Ingress))) policies
  end.

Lemma of_direction_applicable direction policies flow :
  applicable (of_direction direction policies) direction flow = applicable policies direction flow.
Proof.
  unfold applicable, of_direction. destruct direction; apply filter_filter_implied; intros p;
    rewrite andb_true_iff, bool_decide_eq_true; intros [-> _]; done.
Qed.

Lemma of_direction_decided direction policies flow addresses :
  decided (evaluate_for_direction_with_addresses (of_direction direction policies) direction flow
    addresses)
  = decided (evaluate_for_direction_with_addresses policies direction flow addresses).
Proof. apply decided_ext. by rewrite !records_evaluate, of_direction_applicable. Qed.

Lemma elem_of_of_direction direction policies p : p ∈ of_direction direction policies → p ∈ policies.
Proof. destruct direction; by intros [? _]%elem_of_list_filter. Qed.

Lemma Forall_of_direction (P : PolicyIr → Prop) direction policies :
  Forall P policies → Forall P (of_direction direction policies).
Proof. rewrite !Forall_forall. intros H p Hp. by eapply H, elem_of_of_direction. Qed.

Lemma lower_policies_Ok epoch revision policies endpoints ipv4 ipv6 snapshot :
  lower_policies epoch revision policies endpoints ipv4 ipv6 = Ok snapshot →
  ps_source_epoch snapshot = epoch ∧ ps_revision snapshot = revision ∧
  compile_dataplane_entries (of_direction Ingress policies) endpoints = Ok (ps_entries snapshot) ∧
  compile_ipv4_dataplane_entries (of_direction Ingress policies) endpoints ipv4
    = Ok (ps_ipv4_entries snapshot) ∧
  compile_ipv6_dataplane_entries (of_direction Ingress policies) endpoints ipv6
    = Ok (ps_ipv6_entries snapshot) ∧
  compile_egress_ipv4_dataplane_entries (of_direction Egress policies) endpoints ipv4
    = Ok (ps_egress_ipv4_entries snapshot) ∧
  compile_egress_ipv6_dataplane_entries (of_direction Egress policies) endpoints ipv6
    = Ok (ps_egress_ipv6_entries snapshot).
Proof.
  unfold lower_policies, of_direction.
  destruct (compile_dataplane_entries _ _); [|discriminate].
  destruct (compile_ipv4_dataplane_entries _ _ _); [|discriminate].
  destruct (compile_ipv6_dataplane_entries _ _ _); [|discriminate].
  destruct (compile_egress_ipv4_dataplane_entries _ _ _); [|discriminate].
  destruct (compile_egress_ipv6_dataplane_entries _ _ _); [|discriminate].
  intros [= <-]. repeat split; reflexivity.
Qed.

(** What the whole path relies on. *)
Record wf_cluster (policies : list PolicyIr) (endpoints : list Endpoint)
    (ipv4_endpoints : list Ipv4Endpoint) (ipv6_endpoints : list Ipv6Endpoint) : Prop := {
  cluster_policies : wf_policies policies;
  cluster_numbers : wf_numbers policies;
  cluster_workloads : ∀ x, x ∈ endpoints → wf_workload x;
  cluster_ingress4 : ipv4_inputs (of_direction Ingress policies) ipv4_endpoints;
  cluster_ingress6 : ipv6_inputs (of_direction Ingress policies) ipv6_endpoints;
  cluster_egress4 : egress_ipv4_inputs (of_direction Egress policies) ipv4_endpoints;
  cluster_addresses4 : Forall (λ y, in_width 32 (ep4_address y)) ipv4_endpoints;
  cluster_known4 : ∀ y, y ∈ ipv4_endpoints → ep4_endpoint y ∈ endpoints;
  cluster_known6 : ∀ y, y ∈ ipv6_endpoints → ep6_endpoint y ∈ endpoints;
  cluster_egress6 : Forall (λ b, wf_cidr6 (blk6_cidr b) ∧ Forall wf_cidr6 (blk6_except b))
    (destination_ipv6_blocks (of_direction Egress policies));
}.

(** ** The classifier on an installed snapshot *)

Lemma or_else_map {A B} (f : A → B) a b :
  or_else (option_map f a) (option_map f b) = option_map f (or_else a b).
Proof. by destruct a. Qed.

Lemma or_else_assoc {A} (a b c : option A) : or_else (or_else a b) c = or_else a (or_else b c).
Proof. by destruct a. Qed.

Lemma entry_at_None {K} `{EqDecision K} (entries : list (MapEntry K)) k :
  (∀ x, x ∈ entries → entry_key x ≠ k) → entry_at entries k = None.
Proof.
  intros H. unfold entry_at. destruct (List.find _ _) as [x|] eqn:E; [|done].
  apply find_some in E as [Hx Hk%bool_decide_eq_true]. apply list_elem_of_In in Hx. by destruct (H x Hx).
Qed.

(** A rule that matches without addresses matches with them. *)
Lemma address_provenance policies source destination p port v4 v6 :
  ¬ (is_Some v4 ∧ is_Some v6) →
  has_policy_provenance (evaluate policies (flow_of source destination p port None None)) = true →
  has_policy_provenance (evaluate policies (flow_of source destination p port v4 v6)) = true.
Proof.
  intros Hno. rewrite <-(map_id policies) at 1. apply (provenance_mono id); [done..|].
  intros pol r _ Hr. unfold rule_matches. rewrite !andb_true_iff. simpl.
  intros [[[Hs ?] ?] ?]. split_and!; try done. revert Hs. unfold IdentitySelector_matches_addressed.
  rewrite !andb_true_iff. intros [[He Hm] [H4 H6]]. split_and!; [done..|].
  destruct v4, v6; rewrite ?H4, ?H6; try done. by destruct Hno.
Qed.

(** What the classifier reports for an evaluated decision. *)
Definition classified (revision : Z) (direction : PolicyDirection) (unknown : bool)
    (v : option (PolicyDecisionRecord * option PolicyDecisionRecord)) : DataplaneDecision :=
  match v with
  | Some (d, s) => dataplane_decision d s revision direction
  | None => DataplaneDecision_observed direction (if unknown then IdentityUnknown else Observed)
  end.

Section LoweredSnapshot.
Context (snapshot : PolicyStateSnapshot) (policies : list PolicyIr) (endpoints : list Endpoint).
Context (ipv4_endpoints : list Ipv4Endpoint) (ipv6_endpoints : list Ipv6Endpoint).
Context (epoch revision : Z) (Hepoch : in_width 64 epoch) (Hrev : 1 ≤ revision < 2 ^ 64).
Context (Hlow : lower_policies epoch revision policies endpoints ipv4_endpoints ipv6_endpoints
  = Ok snapshot).
Context (Hwf : wf_cluster policies endpoints ipv4_endpoints ipv6_endpoints).

Lemma lowered_policies_wf direction :
  wf_policies (of_direction direction policies) ∧ wf_numbers (of_direction direction policies).
Proof. destruct Hwf. split; by apply Forall_of_direction. Qed.

Lemma lowered_snapshot_wf : wf_snapshot snapshot.
Proof.
  destruct (lower_policies_Ok _ _ _ _ _ _ _ Hlow) as (He & Hr & H1 & H2 & H3 & H4 & _).
  destruct (lowered_policies_wf Ingress) as [Hwi Hni], (lowered_policies_wf Egress) as [Hwe Hne].
  destruct Hwf as [_ _ Hends Hi4 Hi6 He4 Ha4 _ _].
  split; [by rewrite He|split; [by rewrite Hr|]]. split_and!; apply Forall_forall; intros x Hx.
  - by apply (identity_lowered_wf _ _ Hwi Hni Hends _ _ H1).
  - by apply (ipv4_lowered_wf _ _ Hwi Hni Hends _ _ _ H2).
  - by apply (ipv6_lowered_wf _ _ Hwi Hni Hends _ _ _ H3).
  - by apply (egress_ipv4_lowered_wf _ _ Hwe Hne Hends _ _ _ H4).
Qed.

Lemma lowered_egress_ipv6_wf : Forall (wf_entry wf_egress_key6) (ps_egress_ipv6_entries snapshot).
Proof.
  destruct (lower_policies_Ok _ _ _ _ _ _ _ Hlow) as (_ & _ & _ & _ & _ & _ & H5).
  destruct (lowered_policies_wf Egress) as [Hwe Hne].
  destruct Hwf as [_ _ Hends _ (_ & _ & H6) _ _ _ Hk6 Hb6]. apply Forall_forall. intros x Hx.
  rewrite Forall_forall in H6.
  eapply (egress_ipv6_lowered_wf _ _ Hwe Hne Hends); [exact H5|exact Hb6| |exact Hx].
  apply Forall_forall. intros y Hy. split; [by apply H6|]. by apply Hends, Hk6.
Qed.

Lemma snapshot_revision : ps_revision snapshot = revision.
Proof. by destruct (lower_policies_Ok _ _ _ _ _ _ _ Hlow) as (_ & -> & _). Qed.

Lemma ipv4_node_absent a :
  entry_at (ps_ipv4_entries snapshot) {| pk4_source_address := a; pk4_destination_identity := 0;
    pk4_protocol := 0; pk4_destination_port := 0 |} = None.
Proof.
  apply entry_at_None. intros x Hx.
  destruct (lower_policies_Ok _ _ _ _ _ _ _ Hlow) as (_ & _ & _ & H2 & _).
  destruct (lowered_policies_wf Ingress) as [Hwi Hni]. destruct Hwf as [_ _ Hends Hi4 _ _ Ha4 _ _].
  destruct (ipv4_lowered_wf _ _ Hwi Hni Hends _ _ x H2 Hi4 Ha4 Hx) as [_ Hne].
  intros Hk. by rewrite Hk in Hne.
Qed.

Lemma egress_ipv4_node_absent a :
  entry_at (ps_egress_ipv4_entries snapshot) {| ek4_source_identity := 0;
    ek4_destination_address := a; ek4_protocol := 0; ek4_destination_port := 0 |} = None.
Proof.
  apply entry_at_None. intros x Hx.
  destruct (lower_policies_Ok _ _ _ _ _ _ _ Hlow) as (_ & _ & _ & _ & _ & H4 & _).
  destruct (lowered_policies_wf Egress) as [Hwe Hne]. destruct Hwf as [_ _ Hends _ _ He4 Ha4 _ _].
  destruct (egress_ipv4_lowered_wf _ _ Hwe Hne Hends _ _ x H4 He4 Ha4 Hx) as [_ Hnz].
  intros Hk. by rewrite Hk in Hnz.
Qed.

Lemma ipv6_node_absent a :
  lpm_get pk6_source_prefix_len (trie_match 0 0 0 a) (ps_ipv6_entries snapshot) = None.
Proof.
  unfold lpm_get. pose proof (longest_spec (λ x, pk6_source_prefix_len (entry_key x))
    (λ x, trie_match 0 0 0 a (entry_key x)) (ps_ipv6_entries snapshot)) as Hl.
  destruct (longest _ _ _) as [x|]; [|done]. destruct Hl as (Hx & Hm & _). exfalso.
  destruct (lower_policies_Ok _ _ _ _ _ _ _ Hlow) as (_ & _ & _ & _ & H3 & _).
  destruct (lowered_policies_wf Ingress) as [Hwi Hni]. destruct Hwf as [_ _ Hends _ Hi6 _ _ _ _].
  destruct (ipv6_lowered_wf _ _ Hwi Hni Hends _ _ x H3 Hi6 Hx) as [_ Hne].
  unfold trie_match in Hm. rewrite !andb_true_iff, Z.eqb_eq in Hm. tauto.
Qed.

Lemma ipv4_source_known a :
  ep_identity (ipv4_source ipv4_endpoints a) ≠ 0 → ipv4_source ipv4_endpoints a ∈ endpoints.
Proof.
  unfold ipv4_source. destruct (List.find _ _) as [y|] eqn:E; [|done]. intros _.
  apply find_some in E as [Hy _]. apply list_elem_of_In in Hy. by apply Hwf.
Qed.

Lemma ipv6_source_known a :
  ep_identity (ipv6_source ipv6_endpoints a) ≠ 0 → ipv6_source ipv6_endpoints a ∈ endpoints.
Proof.
  unfold ipv6_source. destruct (List.find _ _) as [y|] eqn:E; [|done]. intros _.
  apply find_some in E as [Hy _]. apply list_elem_of_In in Hy. by apply Hwf.
Qed.

Lemma cluster_endpoints : Forall wf_endpoint endpoints.
Proof. apply Forall_forall. intros x Hx. by destruct (cluster_workloads _ _ _ _ Hwf x Hx). Qed.

End LoweredSnapshot.

(** A snapshot that answers like a lowered one, for the addresses of interest: the controller
    adds entries for other addresses to what it lowers. *)
Record answers_like (known4 known6 : Z → Prop) (snapshot plain : PolicyStateSnapshot) : Prop := {
  al_wf : wf_snapshot snapshot;
  al_revision : ps_revision snapshot = ps_revision plain;
  al_identity : ps_entries snapshot = ps_entries plain;
  al_ipv4 : ∀ k, pk4_source_address k = 0 ∨ known4 (pk4_source_address k) →
    entry_at (ps_ipv4_entries snapshot) k = entry_at (ps_ipv4_entries plain) k;
  al_ipv6 : ∀ identity pr po a, known6 a →
    lpm_get pk6_source_prefix_len (trie_match identity pr po a) (ps_ipv6_entries snapshot)
    = lpm_get pk6_source_prefix_len (trie_match identity pr po a) (ps_ipv6_entries plain);
  al_egress_ipv4 : ∀ k, ek4_destination_address k = 0 ∨ known4 (ek4_destination_address k) →
    entry_at (ps_egress_ipv4_entries snapshot) k = entry_at (ps_egress_ipv4_entries plain) k;
}.

Lemma answers_like_refl known4 known6 snapshot :
  wf_snapshot snapshot → answers_like known4 known6 snapshot snapshot.
Proof. by split. Qed.

Section Classifier.
Context (e : Endian) (kernel : PolicyKernel) (snapshot plain : PolicyStateSnapshot) (bank : Z).
Context (known4 known6 : Z → Prop) (Hlike : answers_like known4 known6 snapshot plain).
Context (policies : list PolicyIr) (endpoints : list Endpoint).
Context (ipv4_endpoints : list Ipv4Endpoint) (ipv6_endpoints : list Ipv6Endpoint).
Context (epoch revision : Z) (Hepoch : in_width 64 epoch) (Hrev : 1 ≤ revision < 2 ^ 64).
Context (Hlow : lower_policies epoch revision policies endpoints ipv4_endpoints ipv6_endpoints
  = Ok plain).
Context (Hwf : wf_cluster policies endpoints ipv4_endpoints ipv6_endpoints).
Context (Hbank : 0 ≤ bank) (Hinst : installed e kernel snapshot bank).
Context (Htrie : wf_trie (kn_ipv6 kernel)).

Lemma answer_revision : ps_revision snapshot = revision.
Proof.
  rewrite (al_revision _ _ _ _ Hlike).
  by destruct (lower_policies_Ok _ _ _ _ _ _ _ Hlow) as (_ & -> & _).
Qed.

Context (config : PolicyMapConfig).
Context (Hcb : cfg_active_bank config = bank) (Hcr : cfg_revision config = revision).
Context (p : Protocol) (port : Z) (Hport : in_width 16 port).

Lemma zero_width w : 0 ≤ w → in_width w 0.
Proof. intros Hw. split; [done|]. apply Z.pow_pos_nonneg; lia. Qed.

(** Reading one IPv4 key. *)
Lemma get_ipv4 a id po pr :
  in_width 32 a → in_width 32 id → in_width 16 po → in_width 8 pr →
  lookup_ipv4_policy_value e kernel {|
    ak4_source_address := be_bytes 4 a; ak4_destination_identity := id;
    ak4_destination_port := be_bytes 2 po; ak4_protocol := pr;
    ak4_bank := cfg_active_bank config |} (cfg_revision config)
  = option_map (value_of revision) (entry_at (ps_ipv4_entries snapshot)
      {| pk4_source_address := a; pk4_destination_identity := id; pk4_protocol := pr;
         pk4_destination_port := po |}).
Proof.
  intros. rewrite Hcb, Hcr. pose proof (installed_ipv4 e kernel snapshot bank Hinst
    (al_wf _ _ _ _ Hlike)) as H'. rewrite answer_revision in H'.
  apply (H' {| pk4_source_address := a; pk4_destination_identity := id; pk4_protocol := pr;
         pk4_destination_port := po |}). by split.
Qed.

Lemma ipv4_ingress_lookup a destination :
  in_width 32 a → known4 a → destination ∈ endpoints →
  ipv4_ingress_value e kernel (be_bytes 4 a) (ep_identity destination) (be_bytes 2 port)
    (protocol_u8 p) config
  = option_map (value_of revision)
      (ipv4_lookup (ps_ipv4_entries plain) a destination (protocol_u8 p) port).
Proof.
  intros Ha Hkn Hd. assert (Hi : in_width 32 (ep_identity destination)).
  { destruct Hwf as [_ _ Hends _ _ _ _ _ _]. by apply wf_workload_identity, Hends. }
  unfold ipv4_ingress_value. cbv zeta.
  change no_port with (be_bytes 2 0). change no_ipv4 with (be_bytes 4 0).
  rewrite !get_ipv4 by (done || by apply zero_width || apply protocol_u8_width).
  rewrite !(al_ipv4 _ _ _ _ Hlike) by (simpl; auto).
  rewrite (ipv4_node_absent plain policies endpoints ipv4_endpoints ipv6_endpoints epoch revision)
    by done. unfold ipv4_lookup, lookup_tuple, ipv4_key. simpl or_else at 1.
  by rewrite !or_else_map, !or_else_assoc.
Qed.

(** Reading one egress IPv4 key. *)
Lemma get_egress_ipv4 a id po pr :
  in_width 32 a → in_width 32 id → in_width 16 po → in_width 8 pr →
  lookup_egress_ipv4_policy_value e kernel {|
    aek4_destination_address := be_bytes 4 a; aek4_source_identity := id;
    aek4_destination_port := be_bytes 2 po; aek4_protocol := pr;
    aek4_bank := cfg_active_bank config |} (cfg_revision config)
  = option_map (value_of revision) (entry_at (ps_egress_ipv4_entries snapshot)
      {| ek4_source_identity := id; ek4_destination_address := a; ek4_protocol := pr;
         ek4_destination_port := po |}).
Proof.
  intros. rewrite Hcb, Hcr. pose proof (installed_egress_ipv4 e kernel snapshot bank Hinst
    (al_wf _ _ _ _ Hlike)) as H'. rewrite answer_revision in H'.
  apply (H' {| ek4_source_identity := id; ek4_destination_address := a; ek4_protocol := pr;
         ek4_destination_port := po |}). by split.
Qed.

Lemma egress_ipv4_value_lookup a source :
  in_width 32 a → known4 a → source ∈ endpoints →
  egress_ipv4_value e kernel (be_bytes 4 a) (ep_identity source) (be_bytes 2 port)
    (protocol_u8 p) config
  = option_map (value_of revision)
      (egress_ipv4_lookup (ps_egress_ipv4_entries plain) source a (protocol_u8 p) port).
Proof.
  intros Ha Hkn Hs. assert (Hi : in_width 32 (ep_identity source)).
  { destruct Hwf as [_ _ Hends _ _ _ _ _ _]. by apply wf_workload_identity, Hends. }
  unfold egress_ipv4_value. cbv zeta.
  change no_port with (be_bytes 2 0). change no_ipv4 with (be_bytes 4 0).
  rewrite !get_egress_ipv4 by (done || by apply zero_width || apply protocol_u8_width).
  rewrite !(al_egress_ipv4 _ _ _ _ Hlike) by (simpl; auto).
  rewrite (egress_ipv4_node_absent plain policies endpoints ipv4_endpoints ipv6_endpoints epoch
    revision) by done. unfold egress_ipv4_lookup, lookup_tuple, egress_key.
  simpl or_else at 1. by rewrite !or_else_map, !or_else_assoc.
Qed.

(** Reading identity pairs. *)
Lemma identity_value_lookup source destination :
  source ∈ endpoints → destination ∈ endpoints →
  identity_value e kernel (ep_identity source) (ep_identity destination) (be_bytes 2 port)
    (protocol_u8 p) config
  = option_map (value_of revision) (lookup_tuple
      (λ pr po, entry_at (ps_entries plain) (identity_key source destination pr po))
      (protocol_u8 p) port).
Proof.
  intros Hs Hd. destruct Hwf as [_ _ Hends _ _ _ _ _ _].
  assert (Hget : ∀ po pr, in_width 16 po → in_width 8 pr →
    lookup_policy_value e kernel {| ak_source_identity := ep_identity source;
      ak_destination_identity := ep_identity destination; ak_destination_port := be_bytes 2 po;
      ak_protocol := pr; ak_bank := cfg_active_bank config |} (cfg_revision config)
    = option_map (value_of revision)
        (entry_at (ps_entries plain) (identity_key source destination pr po))).
  { intros po pr Hpo Hpr. rewrite Hcb, Hcr. pose proof (installed_identity e kernel snapshot bank
      Hinst (al_wf _ _ _ _ Hlike)) as H'. rewrite answer_revision, (al_identity _ _ _ _ Hlike) in H'.
    apply (H' (identity_key source destination pr po)).
    split_and!; [by apply wf_workload_identity, Hends..|done|done]. }
  unfold identity_value. cbv zeta. change no_port with (be_bytes 2 0).
  rewrite !Hget by (done || by apply zero_width || apply protocol_u8_width).
  unfold lookup_tuple. by rewrite !or_else_map.
Qed.

(** Reading IPv6 tries. *)
Lemma get_ipv6 a id po pr :
  in_width 128 a → in_width 32 id → in_width 16 po → in_width 8 pr →
  lookup_ipv6_policy_value e kernel {|
    ad6_destination_identity := id; ad6_destination_port := be_bytes 2 po; ad6_protocol := pr;
    ad6_bank := cfg_active_bank config; ad6_source_address := be_bytes 16 a |} (cfg_revision config)
  = option_map (value_of revision) (option_map entry_value
      (lpm_get pk6_source_prefix_len (trie_match id pr po a) (ps_ipv6_entries snapshot))).
Proof.
  intros. rewrite Hcb, Hcr. pose proof (installed_ipv6 e kernel snapshot bank Hinst
    (al_wf _ _ _ _ Hlike) Hbank Htrie id pr po a) as H'. rewrite answer_revision in H'. by apply H'.
Qed.

Lemma ipv6_ingress_lookup a destination :
  in_width 128 a → known6 a → destination ∈ endpoints →
  ipv6_ingress_value e kernel (be_bytes 16 a) (ep_identity destination) (be_bytes 2 port)
    (protocol_u8 p) config
  = option_map (value_of revision)
      (ipv6_lookup (ps_ipv6_entries plain) a destination (protocol_u8 p) port).
Proof.
  intros Ha Hkn Hd. assert (Hi : in_width 32 (ep_identity destination)).
  { destruct Hwf as [_ _ Hends _ _ _ _ _ _]. by apply wf_workload_identity, Hends. }
  unfold ipv6_ingress_value. cbv zeta. change no_port with (be_bytes 2 0).
  rewrite !get_ipv6 by (done || by apply zero_width || apply protocol_u8_width).
  rewrite !(al_ipv6 _ _ _ _ Hlike) by done.
  rewrite (ipv6_node_absent plain policies endpoints ipv4_endpoints ipv6_endpoints epoch revision)
    by done. unfold ipv6_lookup, lookup_tuple, lpm_at. simpl or_else at 1.
  by rewrite !or_else_map.
Qed.

Lemma decode_decided ps direction flow addresses v :
  wf_numbers ps →
  decided (evaluate_for_direction_with_addresses ps direction flow addresses) = Some v →
  decode_policy_value (value_of revision v) (cfg_revision config) direction
  = dataplane_decision v.1 v.2 revision direction.
Proof.
  intros Hn. unfold decided. destruct (has_policy_provenance _); [|done]. intros [= <-].
  rewrite Hcr. apply decode_decision_value. by apply records_wf.
Qed.

(** Nothing decided by address is decided by identity. *)
Lemma identity_undecided source destination v4 v6 :
  ¬ (is_Some v4 ∧ is_Some v6) → source ∈ endpoints → destination ∈ endpoints →
  decided (evaluate policies (flow_of source destination p port v4 v6)) = None →
  identity_value e kernel (ep_identity source) (ep_identity destination) (be_bytes 2 port)
    (protocol_u8 p) config = None.
Proof.
  intros Hno Hs Hd Hu. rewrite identity_value_lookup by done.
  destruct (lower_policies_Ok _ _ _ _ _ _ _ Hlow) as (_ & _ & H1 & _).
  destruct (lowered_policies_wf policies endpoints ipv4_endpoints ipv6_endpoints Hwf Ingress) as [Hwi _]. destruct Hwf as [_ _ Hends _ _ _ _ _ _].
  rewrite (identity_lowering (of_direction Ingress policies) endpoints _ source destination p port H1)
    by (done || (apply Forall_forall; intros x Hx; by apply Hends)).
  unfold evaluate, evaluate_for_direction. rewrite of_direction_decided.
  unfold decided in *. destruct (has_policy_provenance (evaluate _ _)) eqn:E; [done|].
  destruct (has_policy_provenance (evaluate_for_direction_with_addresses _ _
    (flow_of _ _ _ _ None None) _)) eqn:E'; [|reflexivity].
  by rewrite (address_provenance _ _ _ _ _ v4 v6 Hno E') in E.
Qed.

(** The ingress answer, however the source address was looked up. *)
Lemma ingress_answer source destination v4 v6 a4 a6 :
  ¬ (is_Some v4 ∧ is_Some v6) → destination ∈ endpoints →
  (ep_identity source ≠ 0 → source ∈ endpoints) →
  or_else (a4 ≫= λ a, ipv4_ingress_value e kernel a (ep_identity destination) (be_bytes 2 port)
             (protocol_u8 p) config)
          (a6 ≫= λ a, ipv6_ingress_value e kernel a (ep_identity destination) (be_bytes 2 port)
             (protocol_u8 p) config)
  = option_map (value_of revision)
      (decided (evaluate policies (flow_of source destination p port v4 v6))) →
  lookup_ingress_policy e kernel a4 a6 (ep_identity source) (ep_identity destination)
    (be_bytes 2 port) (protocol_u8 p) config
  = classified revision Ingress (ep_identity source =? 0)
      (decided (evaluate policies (flow_of source destination p port v4 v6))).
Proof.
  intros Hno Hd Hs Hv. unfold lookup_ingress_policy. cbv zeta.
  assert (ep_identity destination ≠ 0) as Hne
    by (destruct Hwf as [_ _ Hends _ _ _ _ _ _]; destruct (Hends _ Hd) as [? _]; lia).
  rewrite (proj2 (Z.eqb_neq _ 0) Hne).
  destruct (decided _) as [v|] eqn:Ev; simpl in Hv.
  - assert (Hdec : decode_policy_value (value_of revision v) (cfg_revision config) Ingress
      = classified revision Ingress (ep_identity source =? 0) (Some v)).
    { destruct v as [d s]. rewrite (decode_decided policies Ingress _ _ _ (cluster_numbers _ _ _ _ Hwf) Ev).
      done. }
    destruct (a4 ≫= _) as [w|]; simpl in Hv.
    + by injection Hv as ->.
    + by rewrite Hv.
  - destruct (a4 ≫= _) as [w|]; simpl in Hv; [done|]. rewrite Hv.
    destruct (Z.eqb_spec (ep_identity source) 0) as [Hz|Hnz]; [done|].
    by rewrite (identity_undecided source destination v4 v6) by auto.
Qed.

Lemma classify_ingress_ipv4 a destination :
  1 ≤ a < 2 ^ 32 → known4 a → destination ∈ endpoints →
  (∃ y, y ∈ ipv4_endpoints ∧ ep4_address y = a) ∨
    compat_targeted (of_direction Ingress policies) destination = true →
  lookup_ingress_policy e kernel (Some (be_bytes 4 a)) None
    (ep_identity (ipv4_source ipv4_endpoints a)) (ep_identity destination)
    (be_bytes 2 port) (protocol_u8 p) config
  = classified revision Ingress (ep_identity (ipv4_source ipv4_endpoints a) =? 0)
      (decided (evaluate policies
        (flow_of (ipv4_source ipv4_endpoints a) destination p port (Some a) None))).
Proof.
  intros Ha Hkn Hd Hor. apply ingress_answer; [by intros [_ []]|done|by eapply ipv4_source_known|].
  assert (Hw : in_width 32 a) by (unfold in_width; lia).
  cbn [mbind option_bind]. rewrite ipv4_ingress_lookup by done.
  destruct (lower_policies_Ok _ _ _ _ _ _ _ Hlow) as (_ & _ & _ & H2 & _).
  destruct (lowered_policies_wf policies endpoints ipv4_endpoints ipv6_endpoints Hwf Ingress) as [Hwi _].
  rewrite (ipv4_lowering _ _ _ _ a destination p port H2 Hwi (cluster_endpoints _ _ _ _ Hwf)
    (cluster_ingress4 _ _ _ _ Hwf) Hd Ha Hor).
  unfold evaluate, evaluate_for_direction. rewrite of_direction_decided.
  by destruct (decided _).
Qed.

Lemma classify_ingress_ipv6 a destination :
  in_width 128 a → known6 a → destination ∈ endpoints →
  lookup_ingress_policy e kernel None (Some (be_bytes 16 a))
    (ep_identity (ipv6_source ipv6_endpoints a)) (ep_identity destination)
    (be_bytes 2 port) (protocol_u8 p) config
  = classified revision Ingress (ep_identity (ipv6_source ipv6_endpoints a) =? 0)
      (decided (evaluate policies
        (flow_of (ipv6_source ipv6_endpoints a) destination p port None (Some a)))).
Proof.
  intros Ha Hkn Hd. apply ingress_answer; [by intros [[] _]|done|by eapply ipv6_source_known|].
  cbn [mbind option_bind or_else]. rewrite ipv6_ingress_lookup by done.
  destruct (lower_policies_Ok _ _ _ _ _ _ _ Hlow) as (_ & _ & _ & _ & H3 & _).
  destruct (lowered_policies_wf policies endpoints ipv4_endpoints ipv6_endpoints Hwf Ingress) as [Hwi _].
  rewrite (ipv6_lowering _ _ _ _ a destination p port H3 Hwi (cluster_endpoints _ _ _ _ Hwf)
    (cluster_ingress6 _ _ _ _ Hwf) Hd Ha).
  unfold evaluate, evaluate_for_direction. by rewrite of_direction_decided.
Qed.

Lemma classify_egress_ipv4 a source :
  1 ≤ a < 2 ^ 32 → known4 a → source ∈ endpoints →
  lookup_egress_policy e kernel (Some (be_bytes 4 a)) None (ep_identity source)
    (be_bytes 2 port) (protocol_u8 p) config
  = classified revision Egress false
      (decided (evaluate_for_direction_with_addresses policies Egress
        (flow_of source (ipv4_source ipv4_endpoints a) p port None None)
        (ipv4_destination (Some a)))).
Proof.
  intros Ha Hkn Hs. assert (Hw : in_width 32 a) by (unfold in_width; lia).
  unfold lookup_egress_policy. cbv zeta.
  assert (ep_identity source ≠ 0) as Hne
    by (destruct Hwf as [_ _ Hends _ _ _ _ _ _]; destruct (Hends _ Hs) as [? _]; lia).
  rewrite (proj2 (Z.eqb_neq _ 0) Hne). cbn [mbind option_bind].
  rewrite egress_ipv4_value_lookup by done.
  destruct (lower_policies_Ok _ _ _ _ _ _ _ Hlow) as (_ & _ & _ & _ & _ & H4 & _).
  destruct (lowered_policies_wf policies endpoints ipv4_endpoints ipv6_endpoints Hwf Egress) as [Hwe _].
  rewrite (egress_ipv4_lowering _ _ _ _ source a p port H4 Hwe (cluster_egress4 _ _ _ _ Hwf) Hs Ha).
  rewrite of_direction_decided. destruct (decided _) as [[d s]|] eqn:Ev; simpl; [|done].
  by rewrite (decode_decided policies Egress _ _ _ (cluster_numbers _ _ _ _ Hwf) Ev).
Qed.
End Classifier.

(** ** The packet's verdict *)

(** Without provenance nothing is denied. *)
Lemma undecided_allows policies direction flow addresses :
  let d := evaluate_for_direction_with_addresses policies direction flow addresses in
  has_policy_provenance d = false → dec_verdict d = VAllow.
Proof.
  cbv zeta. set (d := evaluate_for_direction_with_addresses _ _ _ _). intros Hp.
  assert (Hr : records d = mode_records _ _) by apply records_evaluate.
  assert (Hv : has_policy_provenance d = value_provenance (records d)) by apply evaluate_provenance.
  change (dec_verdict d) with (rec_verdict (records d).1). rewrite Hp, Hr in *.
  destruct (decide_for_mode _ _ _ Enforce) as [x|] eqn:E; [|done].
  apply decide_for_mode_policy in E. destruct x as [[[v r] i] k]. simpl in *.
  unfold value_provenance in Hv. simpl in Hv. rewrite bool_decide_true in Hv by done. done.
Qed.

(** A classified decision that has a revision and denies. *)
Definition denies (d : DataplaneDecision) : Prop := dp_policy_revision d ≠ 0 ∧ dp_verdict d = VDeny.

Lemma classified_denies revision direction unknown policies dir flow addresses :
  revision ≠ 0 →
  denies (classified revision direction unknown
    (decided (evaluate_for_direction_with_addresses policies dir flow addresses))) ↔
  dec_verdict (evaluate_for_direction_with_addresses policies dir flow addresses) = VDeny.
Proof.
  intros Hr. unfold decided. destruct (has_policy_provenance _) eqn:E; simpl.
  - unfold denies. simpl. naive_solver.
  - apply undecided_allows in E. rewrite E. unfold denies. simpl. naive_solver.
Qed.

Lemma observed_denies direction reason : ¬ denies (DataplaneDecision_observed direction reason).
Proof. by intros [? _]. Qed.

Lemma decisive_denies ingress egress direction reason :
  dp_verdict (decisive_directional_policy ingress egress (DataplaneDecision_observed direction reason))
    = VDeny ↔ denies ingress ∨ denies egress.
Proof.
  unfold decisive_directional_policy, denies. cbv zeta.
  destruct (Z.eqb_spec (dp_policy_revision ingress) 0), (Z.eqb_spec (dp_policy_revision egress) 0);
    simpl; repeat case_bool_decide; simpl; naive_solver.
Qed.

(** The observation the parser makes of an IPv4 packet between two addresses. *)
Definition ipv4_observation (ipv4_endpoints : list Ipv4Endpoint) (a b : Z) (p : Protocol)
    (source_port port : Z) (direction : PolicyDirection) (tcp_flags : Z) : FlowObservation := {|
  ob_source_address := be_bytes 4 a ++ zeroes 12;
  ob_destination_address := be_bytes 4 b ++ zeroes 12;
  ob_source_port := be_bytes 2 source_port; ob_destination_port := be_bytes 2 port;
  ob_source_identity := ep_identity (ipv4_source ipv4_endpoints a);
  ob_destination_identity := ep_identity (ipv4_source ipv4_endpoints b);
  ob_direction := direction; ob_address_family := Ipv4Family; ob_protocol := protocol_u8 p;
  ob_tcp_flags := tcp_flags; ob_enforce := true |}.

Lemma classifier_ipv4 e kernel snapshot plain bank known4 known6 policies endpoints ipv4_endpoints
    ipv6_endpoints epoch revision a b p source_port port direction tcp_flags :
  answers_like known4 known6 snapshot plain → known4 a → known4 b →
  lower_policies epoch revision policies endpoints ipv4_endpoints ipv6_endpoints = Ok plain →
  wf_cluster policies endpoints ipv4_endpoints ipv6_endpoints →
  in_width 64 epoch → 1 ≤ revision < 2 ^ 64 → 0 ≤ bank → installed e kernel snapshot bank →
  1 ≤ a < 2 ^ 32 → 1 ≤ b < 2 ^ 32 → in_width 16 port →
  let source := ipv4_source ipv4_endpoints a in
  let destination := ipv4_source ipv4_endpoints b in
  (∃ y, y ∈ ipv4_endpoints ∧ ep4_address y = a) ∨
    compat_targeted (of_direction Ingress policies) destination = true →
  dp_verdict (lookup_observation_policy e kernel
    (ipv4_observation ipv4_endpoints a b p source_port port direction tcp_flags)) = VDeny ↔
  (ep_identity destination ≠ 0 ∧
   dec_verdict (evaluate policies (flow_of source destination p port (Some a) None)) = VDeny) ∨
  (ep_identity source ≠ 0 ∧
   dec_verdict (evaluate_for_direction_with_addresses policies Egress
     (flow_of source destination p port None None) (ipv4_destination (Some b))) = VDeny).
Proof.
  intros Hlike Hka Hkb Hlow Hwf Hep Hrev Hbank Hinst Ha Hb Hport source destination Hor.
  pose proof (al_wf _ _ _ _ Hlike) as Hsw.
  destruct (installed_config e kernel snapshot bank Hinst Hsw Hbank) as (config & Hc & Hcb & Hcr).
  rewrite (answer_revision snapshot plain known4 known6 Hlike policies endpoints ipv4_endpoints
    ipv6_endpoints epoch revision Hlow) in Hcr.
  unfold lookup_observation_policy, lookup_ipv4_observation_policy, lookup_ipv4_ingress_policy,
    lookup_ipv4_egress_policy. simpl ob_address_family. cbv iota.
  rewrite Hc. cbv zeta. unfold observation_policy_decision. rewrite decisive_denies.
  cbn [ipv4_observation ob_source_address ob_destination_address ob_source_identity
    ob_destination_identity ob_destination_port ob_protocol].
  rewrite !take_app_length' by by rewrite be_bytes_length.
  fold source destination. apply or_iff_both.
  - destruct (decide (ep_identity destination = 0)) as [Hz|Hnz].
    { unfold lookup_ingress_policy. rewrite Hz. simpl. split; [by intros ?%observed_denies|tauto]. }
    unfold source. rewrite (classify_ingress_ipv4 e kernel snapshot plain bank known4 known6 Hlike policies endpoints
      ipv4_endpoints ipv6_endpoints epoch revision) by (done || by eapply ipv4_source_known).
    unfold evaluate, evaluate_for_direction. rewrite classified_denies by lia. tauto.
  - destruct (decide (ep_identity source = 0)) as [Hz|Hnz].
    { unfold lookup_egress_policy. rewrite Hz. simpl. split; [by intros ?%observed_denies|tauto]. }
    rewrite (classify_egress_ipv4 e kernel snapshot plain bank known4 known6 Hlike policies endpoints ipv4_endpoints
      ipv6_endpoints epoch revision) by (done || by eapply ipv4_source_known).
    rewrite classified_denies by lia. unfold destination. tauto.
Qed.

(** ** From NetworkPolicy objects to packets *)

(** Pods as the controller tracks them: identified, labelled with their namespace, at
    distinct usable addresses. *)
Record wf_pods (endpoints : list Endpoint) (ipv4_endpoints : list Ipv4Endpoint)
    (ipv6_endpoints : list Ipv6Endpoint) : Prop := {
  pods_workloads : ∀ x, x ∈ endpoints → wf_workload x ∧ workload x;
  pods_ipv4 : ∀ y, y ∈ ipv4_endpoints → 1 ≤ ep4_address y < 2 ^ 32 ∧ ep4_endpoint y ∈ endpoints;
  pods_ipv6 : ∀ y, y ∈ ipv6_endpoints → in_width 128 (ep6_address y) ∧ ep6_endpoint y ∈ endpoints;
}.

Definition compile_objects (objects : list (PolicyId * NetworkPolicy)) :
    np_result (list (list PolicyIr)) :=
  try_map (λ '(policy_id, np), compile_directions policy_id np) objects.

Definition wf_objects (objects : list (PolicyId * NetworkPolicy)) : Prop :=
  ∀ policy_id np, (policy_id, np) ∈ objects → 1 ≤ policy_id < 2 ^ 32.

Section Objects.
Context (objects : list (PolicyId * NetworkPolicy)) (compiled : list (list PolicyIr)).
Context (Hcomp : compile_objects objects = Ok compiled) (Hobj : wf_objects objects).

Lemma compiled_policy pol :
  pol ∈ concat compiled →
  compat_policy pol ∧ 1 ≤ pol_id pol < 2 ^ 32 ∧ Forall (compat_rule (pol_id pol)) (pol_rules pol).
Proof.
  intros Hp. apply list_elem_of_In, in_concat in Hp as (ps & Hps & Hp).
  rewrite <-list_elem_of_In in Hps. rewrite <-list_elem_of_In in Hp. apply try_map_elem_of in Hcomp as [H1 _].
  destruct (H1 ps Hps) as ([i np] & Hin & Hnp).
  destruct (compile_directions_compat _ _ _ _ Hnp Hp) as (Hc & _ & Hr).
  apply compile_directions_Ok in Hnp as (n & ns & spec & t & _ & _ & _ & _ & _ & Hpin).
  destruct (proj1 (Hpin pol) Hp) as (d & rules & _ & _ & Heq).
  assert (pol_id pol = i) as -> by by rewrite Heq. split; [done|]. split; [by eapply Hobj|done].
Qed.

Lemma compiled_rule pol r :
  pol ∈ concat compiled → r ∈ pol_rules pol → compat_rule (pol_id pol) r.
Proof. intros (_ & _ & Hr)%compiled_policy. rewrite Forall_forall in Hr. apply Hr. Qed.

Context (endpoints : list Endpoint) (ipv4_endpoints : list Ipv4Endpoint).
Context (ipv6_endpoints : list Ipv6Endpoint).
Context (Hpods : wf_pods endpoints ipv4_endpoints ipv6_endpoints).

(** The blocks of the compiled selectors are canonical. *)
Lemma compiled_blocks {B} (blocks : IdentitySelector → list B) (P : B → Prop)
    (side : PolicyRule → IdentitySelector) direction :
  (∀ s b, wf_selector s → b ∈ blocks s → P b) →
  (∀ i r, compat_rule i r → wf_selector (side r)) →
  Forall P (List.flat_map (λ rule, blocks (side rule))
    (List.flat_map pol_rules (of_direction direction (concat compiled)))).
Proof.
  intros HP Hside. apply Forall_forall.
  intros b (r & (pol & Hpol%elem_of_of_direction & Hr)%elem_of_list_flat_map & Hb)%elem_of_list_flat_map.
  eapply HP; [|exact Hb]. eapply Hside, compiled_rule; eauto.
Qed.

Lemma compiled_default direction pol :
  pol ∈ of_direction direction (concat compiled) →
  pol_origin pol = KubernetesNetworkPolicy ∧ pol_default_action pol ≠ ActAudit.
Proof. intros [(? & _ & Hd & _) _]%elem_of_of_direction%compiled_policy. by rewrite Hd. Qed.

Lemma compiled_cluster :
  wf_cluster (concat compiled) endpoints ipv4_endpoints ipv6_endpoints.
Proof.
  destruct Hpods as [Hw H4 H6].
  assert (Hb4 : ∀ s b, wf_selector s → b ∈ sel_ipv4_blocks s → wf_block4 b).
  { intros s b [Hs _]. rewrite Forall_forall in Hs. apply Hs. }
  assert (Hb6 : ∀ s b, wf_selector s → b ∈ sel_ipv6_blocks s →
    wf_cidr6 (blk6_cidr b) ∧ Forall wf_cidr6 (blk6_except b)).
  { intros s b [_ Hs]. rewrite Forall_forall in Hs. apply Hs. }
  split.
  - apply Forall_forall. intros pol Hp. apply Forall_forall. intros r Hr.
    by destruct (compiled_rule pol r Hp Hr) as (_ & ? & _).
  - apply Forall_forall. intros pol Hp. destruct (compiled_policy pol Hp) as (_ & Hid & _).
    split; [done|]. apply Forall_forall. intros r Hr.
    destruct (compiled_rule pol r Hp Hr) as (Ha & _ & _ & _ & Hpr & Hri). rewrite Ha, Hpr. done.
  - intros x Hx. by apply Hw.
  - split_and!.
    + apply compiled_blocks; [done|]. by intros i r (_ & _ & ? & _).
    + apply Forall_forall. by intros pol [_ ?]%compiled_default.
    + apply Forall_forall. intros y Hy. destruct (H4 y Hy). lia.
  - split_and!.
    + apply compiled_blocks; [done|]. by intros i r (_ & _ & ? & _).
    + apply Forall_forall. by intros pol [-> ?]%compiled_default.
    + apply Forall_forall. intros y Hy. by destruct (H6 y Hy).
  - split_and!.
    + apply compiled_blocks; [done|]. by intros i r (_ & _ & _ & ? & _).
    + apply Forall_forall. by intros pol [-> ?]%compiled_default.
    + apply Forall_forall. intros y Hy. destruct (H4 y Hy) as [? Hin]. split; [lia|].
      by destruct (Hw _ Hin) as [[_ ?] _].
  - apply Forall_forall. intros y Hy. destruct (H4 y Hy) as [? _]. unfold in_width. lia.
  - intros y Hy. by apply H4.
  - intros y Hy. by apply H6.
  - apply compiled_blocks; [done|]. by intros i r (_ & _ & _ & ? & _).
Qed.
End Objects.

(** Kubernetes semantics of a set of objects for one direction: no object isolates the
    selected pod, or one that does admits the flow. *)
Definition np_allowed (objects : list (PolicyId * NetworkPolicy)) (direction : PolicyDirection)
    (flow : Flow) (addresses : DestinationAddresses) : Prop :=
  (∀ policy_id np, (policy_id, np) ∈ objects →
     ¬ np_applies np direction (selected_endpoint direction flow)) ∨
  (∃ policy_id np, (policy_id, np) ∈ objects ∧
     np_applies np direction (selected_endpoint direction flow) ∧
     np_admits np direction flow addresses).

Lemma network_policy_denied objects compiled direction flow addresses :
  compile_objects objects = Ok compiled →
  workload (flow_source flow) → workload (flow_destination flow) → port_in_range flow →
  ¬ (is_Some (flow_source_ipv4 flow) ∧ is_Some (flow_source_ipv6 flow)) →
  ¬ (is_Some (dst_ipv4 addresses) ∧ is_Some (dst_ipv6 addresses)) →
  dec_verdict (evaluate_for_direction_with_addresses (concat compiled) direction flow addresses)
    = VDeny ↔ ¬ np_allowed objects direction flow addresses.
Proof.
  intros H Hs Hd Hp H1 H2.
  destruct (network_policy_verdict objects compiled direction flow addresses H Hs Hd Hp H1 H2)
    as [Hiff Hor]. unfold np_allowed. rewrite <-Hiff. destruct Hor as [-> | ->]; split; congruence.
Qed.

(** A packet's source is a known pod. *)
Lemma known_pod endpoints ipv4_endpoints ipv6_endpoints a :
  wf_pods endpoints ipv4_endpoints ipv6_endpoints →
  (∃ y, y ∈ ipv4_endpoints ∧ ep4_address y = a) →
  workload (ipv4_source ipv4_endpoints a) ∧ ep_identity (ipv4_source ipv4_endpoints a) ≠ 0.
Proof.
  intros [Hw H4 _] (y & Hy & Ha). unfold ipv4_source. destruct (List.find _ _) as [z|] eqn:E.
  - apply find_some in E as [Hz _]. apply list_elem_of_In in Hz. destruct (H4 z Hz) as [_ Hin].
    destruct (Hw _ Hin) as [_ Hwl]. split; [done|]. by destruct Hwl.
  - apply list_elem_of_In in Hy. apply (find_none _ _ E) in Hy. by apply Z.eqb_neq in Hy.
Qed.

Lemma pods_classified_ipv4 e kernel snapshot plain bank known4 known6 objects compiled endpoints
    ipv4_endpoints ipv6_endpoints epoch revision a b p source_port port direction tcp_flags :
  answers_like known4 known6 snapshot plain → known4 a → known4 b →
  compile_objects objects = Ok compiled → wf_objects objects →
  wf_pods endpoints ipv4_endpoints ipv6_endpoints →
  lower_policies epoch revision (concat compiled) endpoints ipv4_endpoints ipv6_endpoints
    = Ok plain →
  in_width 64 epoch → 1 ≤ revision < 2 ^ 64 → 0 ≤ bank → installed e kernel snapshot bank →
  (∃ y, y ∈ ipv4_endpoints ∧ ep4_address y = a) → (∃ y, y ∈ ipv4_endpoints ∧ ep4_address y = b) →
  1 ≤ port < 65536 →
  let source := ipv4_source ipv4_endpoints a in
  let destination := ipv4_source ipv4_endpoints b in
  dp_verdict (lookup_observation_policy e kernel
    (ipv4_observation ipv4_endpoints a b p source_port port direction tcp_flags)) = VDeny ↔
  ¬ np_allowed objects Ingress (flow_of source destination p port (Some a) None)
      DestinationAddresses_default ∨
  ¬ np_allowed objects Egress (flow_of source destination p port None None)
      (ipv4_destination (Some b)).
Proof.
  intros Hlike Hka Hkb Hc Ho Hp Hl Hep Hrev Hb Hi Ha Hbb Hport source destination.
  destruct (known_pod _ _ _ a Hp Ha) as [Hs Hsn], (known_pod _ _ _ b Hp Hbb) as [Hd Hdn].
  pose proof (pods_ipv4 _ _ _ Hp) as H4.
  assert (Hw : ∀ x, (∃ y, y ∈ ipv4_endpoints ∧ ep4_address y = x) → 1 ≤ x < 2 ^ 32).
  { intros x (y & Hy & <-). by destruct (H4 y Hy). }
  pose proof (compiled_cluster objects compiled Hc Ho endpoints ipv4_endpoints ipv6_endpoints Hp) as Hwf.
  unfold source, destination.
  rewrite (classifier_ipv4 e kernel snapshot plain bank known4 known6 (concat compiled) endpoints
    ipv4_endpoints ipv6_endpoints epoch revision a b p source_port port direction tcp_flags
    Hlike Hka Hkb Hl Hwf Hep Hrev Hb Hi (Hw a Ha) (Hw b Hbb));
    [|unfold in_width; lia|by left].
  unfold evaluate, evaluate_for_direction.
  rewrite !(network_policy_denied objects compiled) by
    (exact Hs || exact Hd || exact Hport || exact Hc || (intros [[? E1] [? E2]]; vm_compute in E1, E2; discriminate)).
  tauto.
Qed.
