(* ===== verification/Enforcement.v ===== *)
(** * Enforcement end to end

    From policy objects to the action on a packet: compiling and lowering in the controller,
    encoding, staging and switching in the agent, lookup and connection tracking in the
    classifier. *)

From S2P Require Import Prelude Common PolicyIr PolicyCompile NetworkPolicy PolicyLower.
From S2P Require Import PolicyLowerSpec PolicyLowerFacts LowerAddresses LowerIngress LowerIpv6 LowerEgress.
From S2P Require Import Bytes PolicyAbi TcPolicy TcFlow PolicyInstalled EndToEnd.
From S2P Require Import PolicyBanks PolicyBanksFacts PolicySync PolicyUpdates PolicyProgress.


(** The objects are enforced on packets between known pods. *)
Definition enforces (e : Endian) (objects : list (PolicyId * NetworkPolicy))
    (ipv4_endpoints : list Ipv4Endpoint) (kernel : PolicyKernel) : Prop :=
  ∀ a b p source_port port direction tcp_flags connections now,
  (∃ y, y ∈ ipv4_endpoints ∧ ep4_address y = a) → (∃ y, y ∈ ipv4_endpoints ∧ ep4_address y = b) →
  1 ≤ port < 65536 →
  let source := ipv4_source ipv4_endpoints a in
  let destination := ipv4_source ipv4_endpoints b in
  let packet := ipv4_observation ipv4_endpoints a b p source_port port direction tcp_flags in
  (emit_flow e kernel connections packet now).1.1 = TC_ACT_SHOT ↔
  (¬ np_allowed objects Ingress (flow_of source destination p port (Some a) None)
       DestinationAddresses_default ∨
   ¬ np_allowed objects Egress (flow_of source destination p port None None)
       (ipv4_destination (Some b))) ∧
  live connections (reverse_key packet) (active_policy_revision e kernel) now = false.

(** The published form of a set of objects for the pods of a cluster: what lowering gives,
    and possibly entries for addresses other than the pods'. *)
Record lowered (objects : list (PolicyId * NetworkPolicy)) (endpoints : list Endpoint)
    (ipv4_endpoints : list Ipv4Endpoint) (ipv6_endpoints : list Ipv6Endpoint)
    (snapshot : PolicyStateSnapshot) : Prop := {
  lo_objects : wf_objects objects;
  lo_pods : wf_pods endpoints ipv4_endpoints ipv6_endpoints;
  lo_storable : storable snapshot;
  lo_snapshot : ∃ compiled plain, compile_objects objects = Ok compiled ∧
    lower_policies (ps_source_epoch snapshot) (ps_revision snapshot) (concat compiled) endpoints
      ipv4_endpoints ipv6_endpoints = Ok plain ∧
    answers_like (λ a, ∃ y, y ∈ ipv4_endpoints ∧ ep4_address y = a) (λ _, False) snapshot plain;
}.

Lemma lowered_enforces e kernel bank objects endpoints ipv4_endpoints ipv6_endpoints snapshot :
  lowered objects endpoints ipv4_endpoints ipv6_endpoints snapshot → 0 ≤ bank →
  installed e kernel snapshot bank → enforces e objects ipv4_endpoints kernel.
Proof.
  intros [Ho Hp [(He & Hr & _) _] (compiled & plain & Hc & Hl & Hlike)] Hb Hi a b p source_port port
    direction tcp_flags m now Ha Hbb Hport source destination packet.
  rewrite emit_flow_drops by done. unfold packet.
  rewrite (pods_classified_ipv4 e kernel snapshot plain bank _ _ objects compiled endpoints
    ipv4_endpoints ipv6_endpoints (ps_source_epoch snapshot) (ps_revision snapshot) a b p source_port
    port direction tcp_flags Hlike Ha Hbb) by done. done.
Qed.

(** What lowering gives is published as it is. *)
Lemma lowered_plain objects compiled endpoints ipv4_endpoints ipv6_endpoints epoch revision snapshot :
  wf_objects objects → wf_pods endpoints ipv4_endpoints ipv6_endpoints → in_width 64 epoch →
  1 ≤ revision < 2 ^ 64 → compile_objects objects = Ok compiled →
  lower_policies epoch revision (concat compiled) endpoints ipv4_endpoints ipv6_endpoints
    = Ok snapshot →
  lowered objects endpoints ipv4_endpoints ipv6_endpoints snapshot.
Proof.
  intros Ho Hp He Hr Hc Hl. pose proof (compiled_cluster objects compiled Hc Ho _ _ _ Hp) as Hwf.
  assert (Hw : wf_snapshot snapshot) by by eapply lowered_snapshot_wf.
  destruct (lower_policies_Ok _ _ _ _ _ _ _ Hl) as (E1 & E2 & _).
  split; [done|done|split; [done|by eapply lowered_egress_ipv6_wf]|].
  exists compiled, snapshot. rewrite E1, E2. split; [done|]. split; [done|by apply answers_like_refl].
Qed.

(** C3. NetworkPolicy objects are enforced on pod-to-pod IPv4 packets: when the objects
    compile, the compiled policies lower, and the snapshot (with whatever entries are added for
    other addresses) is the active bank, an enforcing hook drops a packet between two pods exactly when the objects, read as the Kubernetes API
    defines them, do not allow it on ingress or on egress and it is not the reply of a live
    connection. *)
Theorem network_policies_enforced_ipv4 e kernel bank objects endpoints ipv4_endpoints
    ipv6_endpoints snapshot :
  lowered objects endpoints ipv4_endpoints ipv6_endpoints snapshot → 0 ≤ bank →
  installed e kernel snapshot bank → enforces e objects ipv4_endpoints kernel.
Proof. apply lowered_enforces. Qed.

(** An update between two published sets of objects. *)
Lemma lowered_update_atomic env e sy state w res sy' state' w' old_objects new_objects
    old_endpoints old_ipv4 old_ipv6 new_endpoints new_ipv4 new_ipv6 old new :
  lowered old_objects old_endpoints old_ipv4 old_ipv6 old →
  lowered new_objects new_endpoints new_ipv4 new_ipv6 new →
  consistent e sy (w_kernel w) → in_force e (w_kernel w) (sy_active_bank sy) (Some old) →
  synchronize_policies env e sy state new w = (res, sy', state', w') →
  ∃ before after, w_history w' = w_history w ++ before ++ after ∧
    Forall (enforces e old_objects old_ipv4) before ∧
    Forall (enforces e new_objects new_ipv4) after ∧
    match res with
    | Err _ => after = [] ∧ enforces e old_objects old_ipv4 (w_kernel w')
    | Ok _ => due sy state new → enforces e new_objects new_ipv4 (w_kernel w')
    end.
Proof.
  intros Hold Hnew Hc Ho Hrun.
  assert (Henf : ∀ objects eps i4 i6 s k b, lowered objects eps i4 i6 s → 0 ≤ b →
    in_force e k b (Some s) → enforces e objects i4 k).
  { intros objects eps i4 i6 s k b Hl Hb Hk%selected_installed. by eapply lowered_enforces. }
  pose proof (lo_storable _ _ _ _ _ Hnew) as Hst.
  pose proof (cn_active _ _ _ Hc) as [Hb _].
  destruct (synchronize_spec _ _ _ _ _ _ _ _ _ _ _ Hrun Hc Hst Ho)
    as (ks & ks' & Hh & H1 & H2 & Hres). exists ks, ks'. split; [done|]. split; [|split].
  - eapply Forall_impl; [exact H1|]. intros k [_ Hk]. by eapply Henf.
  - destruct res as [[]|error]; [|destruct Hres as (_ & -> & _); constructor].
    destruct Hres as [(_ & _ & _ & -> & _)|(Hc' & _)]; [constructor|].
    eapply Forall_impl; [exact H2|]. intros k [_ Hk]. eapply Henf; [exact Hnew| |exact Hk].
    by destruct (cn_active _ _ _ Hc').
  - destruct res as [[]|error].
    + intros Hdue. destruct (due_Ok _ _ _ _ _ _ _ _ _ _ Hrun Hc Hst Ho Hdue) as [Hf _].
      destruct Hres as [(_ & -> & _)|(Hc' & _)]; (eapply Henf; [exact Hnew| |exact Hf]);
        [done|apply Hc'].
    + destruct Hres as (_ & -> & [_ Hk] & _). split; [done|]. by eapply Henf.
Qed.

(** Changing NetworkPolicy objects is atomic on the wire: while an agent that enforces one
    set of objects updates to another, whichever system calls fail, every map state a packet
    can meet enforces the old set up to one moment and the new set from then on; an update
    that fails never gets to the new set, and one that had something to apply and succeeds
    ends with it. *)
Lemma network_policy_update_atomic env e sy state w res sy' state' w' old_objects new_objects
    old_endpoints old_ipv4 old_ipv6 new_endpoints new_ipv4 new_ipv6 old new :
  lowered old_objects old_endpoints old_ipv4 old_ipv6 old →
  lowered new_objects new_endpoints new_ipv4 new_ipv6 new →
  consistent e sy (w_kernel w) → in_force e (w_kernel w) (sy_active_bank sy) (Some old) →
  synchronize_policies env e sy state new w = (res, sy', state', w') →
  ∃ before after, w_history w' = w_history w ++ before ++ after ∧
    Forall (enforces e old_objects old_ipv4) before ∧
    Forall (enforces e new_objects new_ipv4) after ∧
    match res with
    | Err _ => after = [] ∧ enforces e old_objects old_ipv4 (w_kernel w')
    | Ok _ => due sy state new → enforces e new_objects new_ipv4 (w_kernel w')
    end.
Proof. apply lowered_update_atomic. Qed.

(** C23. Ingress enforcement end to end on IPv6: for every 128-bit source address, known or
    external, and every known destination, the classifier's ingress answer on the active
    bank is the evaluator's decision, provenance and shadow decision included. *)
Theorem classifier_ingress_ipv6 e kernel snapshot bank policies endpoints ipv4_endpoints
    ipv6_endpoints epoch revision config a destination p port :
  lower_policies epoch revision policies endpoints ipv4_endpoints ipv6_endpoints = Ok snapshot →
  wf_cluster policies endpoints ipv4_endpoints ipv6_endpoints →
  in_width 64 epoch → 1 ≤ revision < 2 ^ 64 → 0 ≤ bank → installed e kernel snapshot bank →
  wf_trie (kn_ipv6 kernel) → active_policy_config e kernel = Some config →
  in_width 128 a → destination ∈ endpoints → in_width 16 port →
  let source := ipv6_source ipv6_endpoints a in
  lookup_ingress_policy e kernel None (Some (be_bytes 16 a)) (ep_identity source)
    (ep_identity destination) (be_bytes 2 port) (protocol_u8 p) config
  = classified revision Ingress (ep_identity source =? 0)
      (decided (evaluate policies (flow_of source destination p port None (Some a)))).
Proof.
  intros Hlow Hwf Hep Hrev Hbank Hinst Htrie Hc Ha Hd Hport source.
  pose proof (lowered_snapshot_wf snapshot policies endpoints ipv4_endpoints ipv6_endpoints epoch
    revision Hep Hrev Hlow Hwf) as Hsw.
  destruct (installed_config e kernel snapshot bank Hinst Hsw Hbank) as (c & Hc' & Hcb & Hcr).
  rewrite Hc in Hc'. injection Hc' as <-.
  rewrite (snapshot_revision snapshot policies endpoints ipv4_endpoints ipv6_endpoints epoch
    revision Hlow) in Hcr.
  by eapply (classify_ingress_ipv6 e kernel snapshot snapshot bank (λ _, True) (λ _, True)
    (answers_like_refl _ _ _ Hsw)).
Qed.

(** ** Witnesses *)

Definition demo_objects : list (PolicyId * NetworkPolicy) :=
  [(5, demo_egress_policy {| ipb_cidr := "10.1.2.4/31"; ipb_except := Some ["10.1.2.5/32"] |})].

Definition demo_pods4 : list Ipv4Endpoint :=
  [{| ep4_address := demo_ipv4 7; ep4_endpoint := demo_workload 7 "web" |};
   {| ep4_address := demo_ipv4 8; ep4_endpoint := demo_workload 8 "db" |}].

Definition demo_snapshot_at (revision : Z) (policies : list PolicyIr) : PolicyStateSnapshot :=
  match lower_policies 1 revision policies demo_endpoints demo_pods4 demo_ipv6_endpoints with
  | Ok snapshot => snapshot
  | Err _ => {| ps_schema_version := 0; ps_source_epoch := 1; ps_revision := 9; ps_entries := [];
                ps_ipv4_entries := []; ps_ipv6_entries := []; ps_egress_ipv4_entries := [];
                ps_egress_ipv6_entries := [] |}
  end.
Definition demo_snapshot : list PolicyIr → PolicyStateSnapshot := demo_snapshot_at 9.

(** Maps that hold a snapshot in bank zero and nothing else. *)
Definition kernel_of (e : Endian) (snapshot : PolicyStateSnapshot) : PolicyKernel :=
  match desired_banks e snapshot 0 with
  | Ok d => {| kn_rules := db_rules d; kn_ipv4 := db_ipv4 d; kn_ipv6 := db_ipv6 d;
               kn_egress_ipv4 := db_egress_ipv4 d; kn_egress_ipv6 := db_egress_ipv6 d;
               kn_config := active_config e snapshot 0 0 |}
  | Err _ => {| kn_rules := ∅; kn_ipv4 := ∅; kn_ipv6 := ∅; kn_egress_ipv4 := ∅;
                kn_egress_ipv6 := ∅; kn_config := [] |}
  end.

Lemma kernel_of_installed e snapshot :
  is_ok (desired_banks e snapshot 0) = true → installed e (kernel_of e snapshot) snapshot 0.
Proof.
  unfold kernel_of. destruct (desired_banks e snapshot 0) as [d|] eqn:E; [|done]. intros _.
  exists d, 0. split_and!; try done.
Qed.

Lemma kernel_of_wf_trie e snapshot : wf_snapshot snapshot → wf_trie (kn_ipv6 (kernel_of e snapshot)).
Proof.
  intros Hw. unfold kernel_of. destruct (desired_banks e snapshot 0) as [d|] eqn:E.
  - by eapply desired_banks_wf_trie.
  - intros k v. simpl. by rewrite lookup_empty.
Qed.

Lemma demo_pods : wf_pods demo_endpoints demo_pods4 demo_ipv6_endpoints.
Proof.
  split.
  - intros x [->|[->|[]%not_elem_of_nil]%elem_of_cons]%elem_of_cons; (split; [split; [simpl; lia|]|by split]).
    all: intros n q Hq; simpl in Hq; by rewrite lookup_empty in Hq.
  - intros y [->|[->|[]%not_elem_of_nil]%elem_of_cons]%elem_of_cons; (split; [unfold demo_ipv4; simpl; lia|]).
    + by left.
    + by right; left.
  - intros y [->|[]%not_elem_of_nil]%elem_of_cons. split; [by split|by left].
Qed.

Definition demo_compiled : list (list PolicyIr) :=
  match compile_objects demo_objects with Ok compiled => compiled | Err _ => [] end.

Lemma demo_objects_wf : wf_objects demo_objects.
Proof. intros i np [[= -> ->]|[]%not_elem_of_nil]%elem_of_cons. lia. Qed.

Lemma demo_lowered :
  lowered demo_objects demo_endpoints demo_pods4 demo_ipv6_endpoints
    (demo_snapshot (concat demo_compiled)).
Proof.
  eapply (lowered_plain demo_objects demo_compiled _ _ _ 1 9);
    [exact demo_objects_wf|exact demo_pods|by split|lia|vm_compute; reflexivity..].
Qed.

Lemma network_policies_enforced_ipv4_witness :
  enforces LittleEndian demo_objects demo_pods4
    (kernel_of LittleEndian (demo_snapshot (concat demo_compiled))).
Proof.
  apply (network_policies_enforced_ipv4 LittleEndian _ 0 demo_objects demo_endpoints demo_pods4
    demo_ipv6_endpoints (demo_snapshot (concat demo_compiled))).
  - exact demo_lowered.
  - lia.
  - apply kernel_of_installed. vm_compute. reflexivity.
Defined.

Lemma demo_compiled_cluster : wf_cluster (concat demo_compiled) demo_endpoints demo_pods4 demo_ipv6_endpoints.
Proof.
  apply (compiled_cluster demo_objects); [vm_compute; reflexivity|exact demo_objects_wf|exact demo_pods].
Qed.

Definition demo_pod_packet : FlowObservation :=
  ipv4_observation demo_pods4 (demo_ipv4 7) (demo_ipv4 8) Tcp 40000 80 Egress 2.


(** Admits 2001:db8::/32 without 2001:db8:1::/48 to [db]. *)
Definition demo_objects6 : list (PolicyId * NetworkPolicy) := [(3, {|
  np_metadata := named_object "prod" "db";
  np_spec := Some {|
    nps_egress := None;
    nps_ingress := Some
      [{| ing_from := Some
            [{| peer_ip_block := Some {| ipb_cidr := "2001:db8::/32";
                                         ipb_except := Some ["2001:db8:1::/48"] |};
                peer_namespace_selector := None; peer_pod_selector := None |}];
          ing_ports := None |}];
    nps_pod_selector := Some (demo_app_selector "db");
    nps_policy_types := None |} |})].

Definition demo_compiled6 : list (list PolicyIr) :=
  match compile_objects demo_objects6 with Ok compiled => compiled | Err _ => [] end.

Lemma demo_cluster6 : wf_cluster (concat demo_compiled6) demo_endpoints demo_pods4 demo_ipv6_endpoints.
Proof.
  apply (compiled_cluster demo_objects6); [vm_compute; reflexivity| |exact demo_pods].
  intros i np [[= -> ->]|[]%not_elem_of_nil]%elem_of_cons. lia.
Qed.

Definition demo_config6 : PolicyMapConfig := {|
  cfg_source_epoch := 1; cfg_revision := 9; cfg_entry_count := 0;
  cfg_schema_version := POLICY_MAP_ABI_VERSION; cfg_active_bank := 0; cfg_flags := 0 |}.

Lemma classifier_ingress_ipv6_witness :
  lookup_ingress_policy BigEndian (kernel_of BigEndian (demo_snapshot (concat demo_compiled6))) None
    (Some (be_bytes 16 (demo_ipv6 1 9))) 0 8 (be_bytes 2 80) 6 demo_config6
  = classified 9 Ingress true (decided (evaluate (concat demo_compiled6)
      (flow_of external_endpoint (demo_workload 8 "db") Tcp 80 None (Some (demo_ipv6 1 9))))).
Proof.
  apply (classifier_ingress_ipv6 BigEndian _ (demo_snapshot (concat demo_compiled6)) 0
    (concat demo_compiled6) demo_endpoints demo_pods4 demo_ipv6_endpoints 1 9 demo_config6
    (demo_ipv6 1 9) (demo_workload 8 "db") Tcp 80).
  - vm_compute. reflexivity.
  - exact demo_cluster6.
  - by split.
  - lia.
  - lia.
  - apply kernel_of_installed. vm_compute. reflexivity.
  - apply kernel_of_wf_trie. eapply lowered_snapshot_wf with (epoch := 1) (revision := 9);
      [by split|lia| |exact demo_cluster6]. vm_compute. reflexivity.
  - vm_compute. reflexivity.
  - by split.
  - by right; left.
  - by split.
Defined.

Lemma demo_lowered6 :
  lowered demo_objects6 demo_endpoints demo_pods4 demo_ipv6_endpoints
    (demo_snapshot_at 10 (concat demo_compiled6)).
Proof.
  eapply (lowered_plain demo_objects6 demo_compiled6 _ _ _ 1 10);
    [|exact demo_pods|by split|lia|vm_compute; reflexivity..].
  intros i np [[= -> ->]|[]%not_elem_of_nil]%elem_of_cons. lia.
Qed.

(** An agent that has applied the first objects. *)
Definition demo_agent : Agent :=
  (update (λ _, false) fresh_agent (demo_snapshot (concat demo_compiled))).2.

Lemma demo_agent_state :
  consistent LittleEndian (a_policies demo_agent) (w_kernel (a_world demo_agent)) ∧
  in_force LittleEndian (w_kernel (a_world demo_agent)) (sy_active_bank (a_policies demo_agent))
    (Some (demo_snapshot (concat demo_compiled))).
Proof.
  apply first_update.
  - vm_compute. reflexivity.
  - exact (lo_storable _ _ _ _ _ demo_lowered).
  - vm_compute. discriminate.
Qed.

