(* ===== verification/NodeBlocks.v ===== *)
(** * Node blocks ([bins/unf-controller])

    The controller reads the Pod CIDRs and the transport addresses of each node object, and
    assigns a block to a node when its input is complete and overlaps no other candidate.
    The messages of rejected nodes keep what they name; their wording is not modelled. *)

From Stdlib Require Import Ascii.
From S2P Require Import Prelude Common NetAddr Ipam PolicyCompile.

Definition PRIMARY_CNI_NODE_LABEL : string := "network.unf.io/primary-cni".
Definition PRIMARY_CNI_NODE_LABEL_VALUE : string := "enabled".
Definition NODE_SUBNETS_ANNOTATION : string := "k8s.ovn.org/node-subnets".

(** What the controller takes from the Kubernetes client and from the JSON library: the name
    of an object ([ResourceExt::name_any]) and the decoded value of the node-subnets
    annotation ([serde_json::from_str::<BTreeMap<String, Vec<String>>>]). *)
Class KubeLibrary := {
  name_any : ObjectMeta → string;
  decode_node_subnets : string → option (gmap string (list string));
}.

(** ** Node objects *)

Record NodeSpec := { nspec_pod_cidrs : option (list string); nspec_pod_cidr : option string }.
Record NodeAddress := { naddr_type : string; naddr_address : string }.
Record NodeCondition := { ncond_type : string; ncond_status : string }.
Record NodeStatus := {
  nstatus_addresses : option (list NodeAddress);
  nstatus_conditions : option (list NodeCondition);
}.
Record Node := {
  node_metadata : ObjectMeta;
  node_spec : option NodeSpec;
  node_status : option NodeStatus;
}.

(** ** Controller data *)

Record HostNetworkGateways := { hng_ipv4 : gset Z; hng_ipv6 : gset Z }.

Definition HostNetworkGateways_default : HostNetworkGateways := {| hng_ipv4 := ∅; hng_ipv6 := ∅ |}.

Record NodeTransport := { nt_ipv4 : Z; nt_ipv6 : Z }.

Inductive BlockRejection :=
| NoPodCidrs
| BadPodCidr (error : IpamError)
| PodCidrCount (ipv4 ipv6 : nat)
| NodeUidMissing
| OverlapsNode (node_name : string).

Inductive TransportRejection :=
| BadInternalIp (address : string)
| InternalIpCount (ipv4 ipv6 : nat).

Record NodeBlockInput := {
  nbi_node_uid : string;
  nbi_provider : result BlockRejection NodeBlockProvider;
  nbi_transport : result TransportRejection NodeTransport;
}.

Record AssignedNodeBlock := {
  anb_node_uid : string;
  anb_provider : NodeBlockProvider;
  anb_revision : Z;
  anb_transport : result TransportRejection NodeTransport;
}.

Record TopologyNode := { tn_name : string; tn_ready : bool; tn_labels : gmap string string }.

#[export] Instance HostNetworkGateways_eq_dec : EqDecision HostNetworkGateways.
Proof. solve_decision. Defined.
#[export] Instance NodeTransport_eq_dec : EqDecision NodeTransport.
Proof. solve_decision. Defined.
#[export] Instance BlockRejection_eq_dec : EqDecision BlockRejection.
Proof. solve_decision. Defined.
#[export] Instance TransportRejection_eq_dec : EqDecision TransportRejection.
Proof. solve_decision. Defined.
#[export] Instance NodeBlockInput_eq_dec : EqDecision NodeBlockInput.
Proof. solve_decision. Defined.
#[export] Instance AssignedNodeBlock_eq_dec : EqDecision AssignedNodeBlock.
Proof. solve_decision. Defined.
#[export] Instance TopologyNode_eq_dec : EqDecision TopologyNode.
Proof. solve_decision. Defined.

Definition transport_code (t : NodeTransport) : Z * Z := (nt_ipv4 t, nt_ipv6 t).

#[export] Instance transport_code_inj : Inj (=) (=) transport_code.
Proof. by intros [] [] [= -> ->]. Qed.
#[export] Instance NodeTransport_countable : Countable NodeTransport.
Proof.
  by apply (inj_countable' transport_code (λ '(a, b), {| nt_ipv4 := a; nt_ipv6 := b |})); intros [].
Defined.
#[export] Instance NodeTransport_ord : Ord NodeTransport := cmp_via transport_code.
#[export] Instance NodeTransport_ord_laws : OrdLaws NodeTransport.
Proof. apply cmp_via_laws, _. Qed.

(** ** Reading a node object *)

(** The predicates of [Ipv4Addr] and [Ipv6Addr] on the integer value. *)
Definition usable_ipv4_transport (address : Z) : bool :=
  negb (address =? 0) && negb (address / 2 ^ 24 =? 127)
  && negb ((224 <=? address / 2 ^ 24) && (address / 2 ^ 24 <=? 239))
  && negb (address =? u_max 32) && negb (address / 2 ^ 16 =? 169 * 256 + 254).

Definition usable_ipv6_transport (address : Z) : bool :=
  negb (address =? 0) && negb (address =? 1) && negb (address / 2 ^ 120 =? 255)
  && negb (Z.land (address / 2 ^ 112) 0xffc0 =? 0xfe80).

Definition node_addresses (node : Node) : list NodeAddress :=
  default [] (node_status node ≫= nstatus_addresses).

Definition node_transport (node : Node) : result TransportRejection NodeTransport :=
  let? (ipv4, ipv6) :=
    try_fold (λ '(ipv4, ipv6) entry,
      match parse_ip_addr (naddr_address entry) with
      | Some (V4 address) =>
          Ok (if usable_ipv4_transport address then {[ address ]} ∪ ipv4 else ipv4, ipv6)
      | Some (V6 address) =>
          Ok (ipv4, if usable_ipv6_transport address then {[ address ]} ∪ ipv6 else ipv6)
      | None => Err (BadInternalIp (naddr_address entry))
      end) (∅ : gset Z, ∅ : gset Z)
      (List.filter (λ entry, bool_decide (naddr_type entry = "InternalIP"%string)) (node_addresses node)) in
  match bset_iter ipv4, bset_iter ipv6 with
  | [address4], [address6] => Ok {| nt_ipv4 := address4; nt_ipv6 := address6 |}
  | _, _ => Err (InternalIpCount (size ipv4) (size ipv6))
  end.

(** [pod_cidrs] unless it is empty, else the single [pod_cidr]. *)
Definition node_pod_cidrs (spec : NodeSpec) : option (list string) :=
  match nspec_pod_cidrs spec with
  | Some ((_ :: _) as cidrs) => Some cidrs
  | _ => option_map (λ cidr, [cidr]) (nspec_pod_cidr spec)
  end.

Definition map_err {E F A} (f : E → F) (r : result E A) : result F A :=
  match r with Ok a => Ok a | Err e => Err (f e) end.

Definition node_block_provider (node : Node) : result BlockRejection NodeBlockProvider :=
  let? cidrs := ok_or (node_spec node ≫= node_pod_cidrs) NoPodCidrs in
  let? (ipv4, ipv6) :=
    try_fold (λ '(ipv4, ipv6) cidr,
      if bool_decide (is_Some (split_once cidr ":"%char)) then
        let? block := map_err BadPodCidr (Ipv6NodeBlock_from_str cidr) in Ok (ipv4, ipv6 ++ [block])
      else
        let? block := map_err BadPodCidr (Ipv4NodeBlock_from_str cidr) in Ok (ipv4 ++ [block], ipv6))
      ([], []) cidrs in
  match ipv4, ipv6 with
  | [block4], [block6] => Ok {| ipv4_block := block4; ipv6_block := block6 |}
  | _, _ => Err (PodCidrCount (length ipv4) (length ipv6))
  end.

Definition node_block_input (node : Node) : option NodeBlockInput :=
  let enabled :=
    is_some_and (meta_labels (node_metadata node) ≫= lookup PRIMARY_CNI_NODE_LABEL)
      (λ value, bool_decide (value = PRIMARY_CNI_NODE_LABEL_VALUE)) in
  if negb enabled then None
  else Some {| nbi_node_uid := default EmptyString (meta_uid (node_metadata node));
               nbi_provider := node_block_provider node;
               nbi_transport := node_transport node |}.

(** [<<] of a [w]-bit integer as compiled without overflow checks: the distance is taken
    modulo the width, so that [/0] keeps every bit of the address. *)
Definition shl (w x distance : Z) : Z := wrapping w (Z.shiftl x (distance mod w)).

Definition ovn_gateway_address (network : string) : option IpAddr :=
  '(address, prefix_len) ← split_once network "/"%char;
  prefix_len ← parse_u 8 prefix_len;
  address ← parse_ip_addr address;
  match address with
  | V4 address =>
      if prefix_len <=? 30 then
        let mask := shl 32 (u_max 32) (32 - prefix_len) in
        option_map V4 (checked_add 32 (Z.land address mask) 2)
      else None
  | V6 address =>
      if prefix_len <=? 126 then
        let mask := shl 128 (u_max 128) (128 - prefix_len) in
        option_map V6 (checked_add 128 (Z.land address mask) 2)
      else None
  end.

Definition ovn_host_network_gateways `{KubeLibrary} (node : Node) : HostNetworkGateways :=
  match meta_annotations (node_metadata node) ≫= lookup NODE_SUBNETS_ANNOTATION with
  | None => HostNetworkGateways_default
  | Some encoded =>
      match decode_node_subnets encoded with
      | None => HostNetworkGateways_default
      | Some networks =>
          fold_left (λ gateways network,
            match ovn_gateway_address network with
            | Some (V4 address) =>
                {| hng_ipv4 := {[ address ]} ∪ hng_ipv4 gateways; hng_ipv6 := hng_ipv6 gateways |}
            | Some (V6 address) =>
                {| hng_ipv4 := hng_ipv4 gateways; hng_ipv6 := {[ address ]} ∪ hng_ipv6 gateways |}
            | None => gateways
            end) (concat (btree_values networks)) HostNetworkGateways_default
      end
  end.

(** [u8::to_ascii_lowercase], and [str::eq_ignore_ascii_case]. *)
Definition to_ascii_lowercase (c : ascii) : ascii :=
  let code := N_of_ascii c in
  if (65 <=? code)%N && (code <=? 90)%N then ascii_of_N (code + 32) else c.

Definition eq_ignore_ascii_case (a b : string) : bool :=
  bool_decide (map to_ascii_lowercase (String.list_ascii_of_string a)
               = map to_ascii_lowercase (String.list_ascii_of_string b)).

Definition node_ready (node : Node) : bool :=
  is_some_and (node_status node) (λ status,
    existsb (λ condition, bool_decide (ncond_type condition = "Ready"%string)
                          && eq_ignore_ascii_case (ncond_status condition) "true")
      (default [] (nstatus_conditions status))).

Definition topology_node `{KubeLibrary} (node : Node) : TopologyNode := {|
  tn_name := name_any (node_metadata node);
  tn_ready := node_ready node;
  tn_labels := default ∅ (meta_labels (node_metadata node)) |}.

(** ** Assignment of blocks *)

Definition Candidate : Type :=
  string * NodeBlockProvider * result TransportRejection NodeTransport.

Definition classify_input (acc : gmap string Candidate * gmap string BlockRejection)
    (entry : string * NodeBlockInput) : gmap string Candidate * gmap string BlockRejection :=
  let '(candidates, rejected) := acc in
  let '(node_name, input) := entry in
  match nbi_provider input with
  | Ok provider =>
      if negb (bool_decide (nbi_node_uid input = EmptyString)) then
        (<[node_name := (nbi_node_uid input, provider, nbi_transport input)]> candidates, rejected)
      else (candidates, <[node_name := NodeUidMissing]> rejected)
  | Err error => (candidates, <[node_name := error]> rejected)
  end.

Definition blocks_overlap (left_block right_block : NodeBlockProvider) : bool :=
  Ipv4NodeBlock_overlaps (ipv4_block left_block) (ipv4_block right_block)
  || Ipv6NodeBlock_overlaps (ipv6_block left_block) (ipv6_block right_block).

(** One row of the double loop: a candidate against those after it. *)
Definition reject_row (left_name : string) (left_block : NodeBlockProvider)
    (rest : list (string * NodeBlockProvider)) (rejected : gmap string BlockRejection) :
    gmap string BlockRejection :=
  fold_left (λ rejected '(right_name, right_block),
    if blocks_overlap left_block right_block
    then <[right_name := OverlapsNode left_name]> (<[left_name := OverlapsNode right_name]> rejected)
    else rejected) rest rejected.

Fixpoint reject_overlaps (candidates : list (string * NodeBlockProvider))
    (rejected : gmap string BlockRejection) : gmap string BlockRejection :=
  match candidates with
  | [] => rejected
  | (left_name, left_block) :: rest => reject_overlaps rest (reject_row left_name left_block rest rejected)
  end.

Definition node_candidates (inputs : gmap string NodeBlockInput) :
    gmap string Candidate * gmap string BlockRejection :=
  let '(candidates, rejected) := fold_left classify_input (btree_iter inputs) (∅, ∅) in
  let overlap_candidates :=
    map (λ '(name, (_, provider, _)), (name, provider)) (btree_iter candidates) in
  let rejected := reject_overlaps overlap_candidates rejected in
  (fold_left (λ candidates node_name, delete node_name candidates)
     (map fst (btree_iter rejected)) candidates, rejected).

Definition assignments_changed (previous : gmap string AssignedNodeBlock)
    (candidates : gmap string Candidate) : bool :=
  negb (size previous =? size candidates)%nat
  || existsb (λ '(node_name, (node_uid, provider, transport)),
       is_none_or (previous !! node_name) (λ previous,
         negb (bool_decide (anb_node_uid previous = node_uid))
         || negb (bool_decide (anb_provider previous = provider))
         || negb (bool_decide (anb_transport previous = transport))))
       (btree_iter candidates).

Definition assign_block (previous : gmap string AssignedNodeBlock) (routing_revision : Z)
    (node_name : string) (candidate : Candidate) : AssignedNodeBlock :=
  let '(node_uid, provider, transport) := candidate in
  let revision :=
    match previous !! node_name with
    | Some p =>
        if bool_decide (anb_node_uid p = node_uid) && bool_decide (anb_provider p = provider)
        then anb_revision p else routing_revision
    | None => routing_revision
    end in
  {| anb_node_uid := node_uid; anb_provider := provider; anb_revision := revision;
     anb_transport := transport |}.

Definition next_assignments (previous : gmap string AssignedNodeBlock) (routing_revision : Z)
    (candidates : gmap string Candidate) : gmap string AssignedNodeBlock :=
  map_imap (λ node_name candidate, Some (assign_block previous routing_revision node_name candidate))
    candidates.

(** ** Which nodes get a block *)

(** A node whose input is complete. *)
Definition admitted (inputs : gmap string NodeBlockInput) (n : string) (c : Candidate) : Prop :=
  ∃ input, inputs !! n = Some input ∧ nbi_provider input = Ok c.1.2 ∧
    nbi_node_uid input = c.1.1 ∧ c.1.1 ≠ EmptyString ∧ nbi_transport input = c.2.

Definition input_candidate (input : NodeBlockInput) : option Candidate :=
  match nbi_provider input with
  | Ok provider =>
      if bool_decide (nbi_node_uid input = EmptyString) then None
      else Some (nbi_node_uid input, provider, nbi_transport input)
  | Err _ => None
  end.

Definition input_rejection (input : NodeBlockInput) : BlockRejection :=
  match nbi_provider input with Ok _ => NodeUidMissing | Err error => error end.

Lemma admitted_candidate inputs n c :
  admitted inputs n c ↔ ∃ input, inputs !! n = Some input ∧ input_candidate input = Some c.
Proof.
  unfold admitted, input_candidate. destruct c as [[uid p] t]. simpl.
  apply exist_proper. intros input. destruct (nbi_provider input); [|naive_solver].
  case_bool_decide; naive_solver.
Qed.

Lemma classify_input_eq acc n i : classify_input acc (n, i) =
  match input_candidate i with
  | Some c => (<[n := c]> acc.1, acc.2)
  | None => (acc.1, <[n := input_rejection i]> acc.2)
  end.
Proof.
  destruct acc as [c r]. unfold input_candidate, input_rejection. simpl.
  destruct (nbi_provider i); [|done]. by case_bool_decide.
Qed.

Lemma classify_spec (l : list (string * NodeBlockInput)) : NoDup l.*1 → ∀ acc n,
  let found := (list_to_map l : gmap string NodeBlockInput) !! n in
  (fold_left classify_input l acc).1 !! n =
    match found ≫= input_candidate with Some c => Some c | None => acc.1 !! n end ∧
  (fold_left classify_input l acc).2 !! n =
    match found with
    | Some i => match input_candidate i with
                | Some _ => acc.2 !! n
                | None => Some (input_rejection i)
                end
    | None => acc.2 !! n
    end.
Proof.
  induction l as [|[k i] l IH]; intros Hnd acc n; [done|].
  apply NoDup_cons in Hnd as [Hk Hnd]. specialize (IH Hnd (classify_input acc (k, i)) n).
  cbn [fold_left list_to_map foldr]. rewrite classify_input_eq in *. simpl in IH |- *.
  destruct IH as [-> ->]. destruct (decide (n = k)) as [->|Hne].
  - rewrite lookup_insert_eq. apply not_elem_of_list_to_map_1 in Hk. simpl in Hk. rewrite Hk. simpl.
    destruct (input_candidate i); simpl; by rewrite ?lookup_insert_eq.
  - rewrite lookup_insert_ne by done.
    destruct (input_candidate i); simpl; by rewrite ?lookup_insert_ne.
Qed.

Lemma blocks_overlap_sym a b : blocks_overlap a b = blocks_overlap b a.
Proof.
  unfold blocks_overlap, Ipv4NodeBlock_overlaps, Ipv6NodeBlock_overlaps.
  rewrite (Z.min_comm (b4_prefix_len _)), (Z.min_comm (b6_prefix_len _)).
  by rewrite (Z.eqb_sym (Z.land (b4_network (ipv4_block a)) _)),
    (Z.eqb_sym (Z.land (b6_network (ipv6_block a)) _)).
Qed.

Lemma reject_row_spec k p rest rejected n :
  is_Some (reject_row k p rest rejected !! n) ↔
  is_Some (rejected !! n) ∨
  ∃ x, x ∈ rest ∧ blocks_overlap p x.2 = true ∧ (n = k ∨ n = x.1).
Proof.
  unfold reject_row. revert rejected. induction rest as [|[m q] rest IH]; intros rejected; simpl.
  { split; [by left|]. intros [?|(x & Hx & _)]; [done|]. by apply not_elem_of_nil in Hx. }
  rewrite IH. clear IH. destruct (blocks_overlap p q) eqn:E.
  - rewrite !lookup_insert_is_Some'. split.
    + intros [[?|[?|?]]|(x & Hx & Ho)]; [right|right|by left|right].
      * exists (m, q). split; [left|]. auto.
      * exists (m, q). split; [left|]. auto.
      * exists x. split; [by right|done].
    + intros [?|(x & [->|Hx]%elem_of_cons & Ho & Hn)]; [tauto|simpl in Hn|eauto].
      destruct Hn as [->| ->]; tauto.
  - split.
    + intros [?|(x & Hx & Ho)]; [by left|]. right. exists x. split; [by right|done].
    + intros [?|(x & [->|Hx]%elem_of_cons & Ho & Hn)]; [tauto|simpl in Ho; congruence|eauto].
Qed.

Lemma reject_overlaps_spec (l : list (string * NodeBlockProvider)) rejected n :
  NoDup l.*1 →
  is_Some (reject_overlaps l rejected !! n) ↔
  is_Some (rejected !! n) ∨
  ∃ p x, (n, p) ∈ l ∧ x ∈ l ∧ x.1 ≠ n ∧ blocks_overlap p x.2 = true.
Proof.
  revert rejected. induction l as [|[k q] l IH]; intros rejected Hnd; simpl.
  { split; [by left|]. intros [?|(p & x & Hx & _)]; [done|]. by apply not_elem_of_nil in Hx. }
  apply NoDup_cons in Hnd as [Hk Hnd]. rewrite IH, reject_row_spec by done.
  assert (Hne : ∀ x, x ∈ l → x.1 ≠ k) by (intros x Hx <-; apply Hk; apply list_elem_of_fmap; by exists x).
  split.
  - intros [[?|(x & Hx & Ho & [->| ->])]|(p & x & Hp & Hx & ?)]; [by left|right..].
    + exists q, x. rewrite !elem_of_cons. auto.
    + exists x.2, (k, q). rewrite !elem_of_cons, blocks_overlap_sym. destruct x. simpl in *.
      split_and!; auto. intros ->. by apply (Hne _ Hx).
    + exists p, x. rewrite !elem_of_cons. tauto.
  - intros [?|(p & x & Hp & Hx & Hx1 & Ho)]; [by left; left|].
    rewrite !elem_of_cons in Hp, Hx. destruct Hp as [[= -> ->]|Hp], Hx as [->|Hx].
    + done.
    + left; right. exists x. auto.
    + left; right. exists (n, p). rewrite blocks_overlap_sym. auto.
    + right. exists p, x. auto.
Qed.

Lemma fold_delete_lookup {V} (keys : list string) (m : gmap string V) n :
  fold_left (λ m k, delete k m) keys m !! n = if bool_decide (n ∈ keys) then None else m !! n.
Proof.
  revert m. induction keys as [|k keys IH]; intros m; simpl; [done|].
  rewrite IH. destruct (decide (n ∈ keys)).
  - rewrite !bool_decide_true; [done|by right|done].
  - rewrite (bool_decide_false (n ∈ keys)) by done. destruct (decide (n = k)) as [->|Hne].
    + rewrite bool_decide_true by left. apply lookup_delete_eq.
    + rewrite bool_decide_false by (rewrite elem_of_cons; tauto). by apply lookup_delete_ne.
Qed.

Lemma classified inputs m :
  let acc := fold_left classify_input (btree_iter inputs) (∅, ∅) in
  (∀ c, acc.1 !! m = Some c ↔ admitted inputs m c) ∧
  (is_Some (acc.2 !! m) ↔ is_Some (inputs !! m) ∧ acc.1 !! m = None).
Proof.
  pose proof (classify_spec (btree_iter inputs) (btree_iter_NoDup_keys inputs) (∅, ∅) m) as Hcl.
  rewrite btree_iter_to_map in Hcl. simpl in *. destruct Hcl as [-> ->].
  setoid_rewrite admitted_candidate. rewrite lookup_empty.
  unfold is_Some. destruct (inputs !! m) as [i|]; simpl; [|naive_solver].
  destruct (input_candidate i) eqn:E; naive_solver.
Qed.

Definition overlap_list (candidates : gmap string Candidate) : list (string * NodeBlockProvider) :=
  map (λ '(name, (_, provider, _)), (name, provider)) (btree_iter candidates).

Lemma overlap_list_NoDup cs : NoDup (overlap_list cs).*1.
Proof.
  replace (overlap_list cs).*1 with (btree_iter cs).*1; [apply btree_iter_NoDup_keys|].
  unfold overlap_list. induction (btree_iter cs) as [|[m [[uid q] t]] k IH]; simpl; by f_equal.
Qed.

Lemma elem_of_overlap_list cs m p :
  (m, p) ∈ overlap_list cs ↔ ∃ c : Candidate, cs !! m = Some c ∧ c.1.2 = p.
Proof.
  unfold overlap_list. rewrite elem_of_list_map. split.
  - intros ([m' [[uid q] t]] & Hin & [= -> ->]). apply elem_of_btree_iter in Hin. eauto.
  - intros ([[uid q] t] & Hc & <-). exists (m, (uid, q, t)). by rewrite elem_of_btree_iter.
Qed.

(** A node is assigned its block exactly when its input is complete and no other complete
    input overlaps it; every other node that asked is rejected. *)
Lemma node_candidates_spec inputs n :
  (∀ c, (node_candidates inputs).1 !! n = Some c ↔
    admitted inputs n c ∧
    ∀ m d, admitted inputs m d → m ≠ n → blocks_overlap c.1.2 d.1.2 = false) ∧
  (is_Some ((node_candidates inputs).2 !! n) ↔
    is_Some (inputs !! n) ∧ (node_candidates inputs).1 !! n = None).
Proof.
  unfold node_candidates. pose proof (classified inputs) as Hcl.
  destruct (fold_left classify_input _ _) as [cs rs]. simpl in Hcl.
  change (map _ (btree_iter cs)) with (overlap_list cs).
  pose proof (λ m, reject_overlaps_spec _ rs m (overlap_list_NoDup cs)) as Hrej. simpl.
  set (rejected := reject_overlaps (overlap_list cs) rs) in *.
  assert (Hfin : ∀ m c, fold_left (λ m k, delete k m) (map fst (btree_iter rejected)) cs !! m
     = Some c ↔ cs !! m = Some c ∧ ¬ is_Some (rejected !! m)).
  { intros m c. rewrite fold_delete_lookup, <-elem_of_btree_keys. case_bool_decide; naive_solver. }
  split.
  - intros c. rewrite Hfin, (proj1 (Hcl n)). apply and_iff_compat_l_dep. intros Hc.
    rewrite Hrej, (proj2 (Hcl n)), (proj2 (proj1 (Hcl n) c) Hc). split.
    + intros Hno m d Hd Hne. apply not_true_iff_false. intros Ho. apply Hno. right.
      exists c.1.2, (m, d.1.2). rewrite !elem_of_overlap_list.
      apply (Hcl n) in Hc. apply (Hcl m) in Hd. split_and!; eauto.
    + intros Hall [[_ ?]|(p & [m q] & Hp & Hq & Hne & Ho)]; [done|].
      apply elem_of_overlap_list in Hp as (c' & Hc' & <-), Hq as (d & Hd & <-).
      apply (Hcl n) in Hc. simplify_eq.
      apply (Hcl m) in Hd. specialize (Hall m d Hd Hne). simpl in *. congruence.
  - assert (Hsub : is_Some (rejected !! n) → is_Some (inputs !! n)).
    { rewrite Hrej, (proj2 (Hcl n)). intros [[? _]|(p & x & (c & Hc & _)%elem_of_overlap_list & _)];
      [done|]. apply (Hcl n) in Hc as (? & -> & _). eauto. }
    rewrite fold_delete_lookup. case_bool_decide as Hb; rewrite elem_of_btree_keys in Hb; [tauto|].
    split; [tauto|]. intros [Hin Hn]. destruct Hb. apply Hrej. left. by apply (Hcl n).
Qed.

(** ** Blocks that keep their assignment *)

Definition block_candidate (a : AssignedNodeBlock) : Candidate :=
  (anb_node_uid a, anb_provider a, anb_transport a).

Lemma next_assignments_candidates previous revision candidates :
  block_candidate <$> next_assignments previous revision candidates = candidates.
Proof.
  apply map_eq. intros n. unfold next_assignments. rewrite lookup_fmap, map_lookup_imap.
  destruct (candidates !! n) as [[[uid p] t]|]; done.
Qed.

Lemma assignments_unchanged previous candidates :
  assignments_changed previous candidates = false → block_candidate <$> previous = candidates.
Proof.
  unfold assignments_changed. intros [Hsize%negb_false_iff%Nat.eqb_eq Hall]%orb_false_iff.
  symmetry. apply map_subseteq_size_eq; [|by rewrite map_size_fmap, Hsize].
  apply map_subseteq_spec. intros n [[uid p] t] Hc. rewrite lookup_fmap.
  assert (Hin : (n, (uid, p, t)) ∈ btree_iter candidates) by (by apply elem_of_btree_iter).
  rewrite <-not_true_iff_false, existsb_exists in Hall.
  destruct (previous !! n) as [a|] eqn:Ea.
  - simpl. f_equal. destruct (decide (block_candidate a = (uid, p, t))) as [|Hne]; [done|].
    destruct Hall. exists (n, (uid, p, t)). split; [by apply list_elem_of_In|]. rewrite Ea. simpl.
    destruct (bool_decide (anb_node_uid a = uid)) eqn:E1; [|done].
    destruct (bool_decide (anb_provider a = p)) eqn:E2; [|done].
    destruct (bool_decide (anb_transport a = t)) eqn:E3; [|done].
    apply bool_decide_eq_true in E1, E2, E3. destruct Hne. unfold block_candidate. by subst.
  - destruct Hall. exists (n, (uid, p, t)). split; [by apply list_elem_of_In|]. by rewrite Ea.
Qed.

(** ** Blocks are well-formed *)

Lemma node_block_provider_wf node p : node_block_provider node = Ok p → NodeBlockProvider_wf p.
Proof.
  unfold node_block_provider. destruct (ok_or _ _) as [cidrs|]; [|done].
  destruct (try_fold _ _ cidrs) as [[l4 l6]|] eqn:E; [|done].
  assert (Hwf : Forall Ipv4NodeBlock_wf l4 ∧ Forall Ipv6NodeBlock_wf l6).
  { revert E. apply (try_fold_inv (λ x, Forall Ipv4NodeBlock_wf x.1 ∧ Forall Ipv6NodeBlock_wf x.2));
      [by split; constructor|].
    intros [a b] cidr x _ [Ha Hb]. case_bool_decide; unfold map_err.
    - destruct (Ipv6NodeBlock_from_str cidr) as [block|] eqn:Eb; [|done]. intros [= <-].
      apply Ipv6NodeBlock_from_str_wf in Eb. simpl. by rewrite Forall_app, Forall_singleton.
    - destruct (Ipv4NodeBlock_from_str cidr) as [block|] eqn:Eb; [|done]. intros [= <-].
      apply Ipv4NodeBlock_from_str_wf in Eb. simpl. by rewrite Forall_app, Forall_singleton. }
  destruct l4 as [|b4 [|]], l6 as [|b6 [|]]; try done. intros [= <-].
  rewrite !Forall_singleton in Hwf. exact Hwf.
Qed.

Definition transport_wf (t : NodeTransport) : Prop :=
  1 ≤ nt_ipv4 t < 2 ^ 32 ∧ in_width 128 (nt_ipv6 t).

Lemma node_transport_wf node t : node_transport node = Ok t → transport_wf t.
Proof.
  unfold node_transport. destruct (try_fold _ _ _) as [[s4 s6]|] eqn:E; [|done].
  assert (Hwf : (∀ a, a ∈ s4 → 1 ≤ a < 2 ^ 32) ∧ (∀ a, a ∈ s6 → in_width 128 a)).
  { revert E. apply (try_fold_inv (λ x : gset Z * gset Z,
      (∀ a, a ∈ x.1 → 1 ≤ a < 2 ^ 32) ∧ (∀ a, a ∈ x.2 → in_width 128 a))).
    { split; intros a Ha; by apply not_elem_of_empty in Ha. }
    intros [x4 x6] entry x' _ [H4 H6]. destruct (parse_ip_addr _) as [[a|a]|] eqn:Ep; [..|done];
      apply parse_ip_addr_wf in Ep; simpl in Ep; intros [= <-]; simpl.
    - split; [|done]. destruct (usable_ipv4_transport a) eqn:Eu; [|done].
      intros b [->%elem_of_singleton|?]%elem_of_union; [|auto].
      unfold usable_ipv4_transport in Eu. destruct (Z.eqb_spec a 0); [done|].
      unfold in_width in Ep. lia.
    - split; [done|]. destruct (usable_ipv6_transport a); [|done].
      intros b [->%elem_of_singleton|?]%elem_of_union; [done|auto]. }
  destruct Hwf as [H4 H6]. setoid_rewrite <-elem_of_bset_iter in H4.
  setoid_rewrite <-elem_of_bset_iter in H6.
  destruct (bset_iter s4) as [|a4 [|]]; try done. destruct (bset_iter s6) as [|a6 [|]]; try done.
  intros [= <-]. split; [apply H4|apply H6]; by left.
Qed.

Definition input_wf (i : NodeBlockInput) : Prop :=
  (∀ p, nbi_provider i = Ok p → NodeBlockProvider_wf p) ∧
  (∀ t, nbi_transport i = Ok t → transport_wf t).

Definition inputs_wf (inputs : gmap string NodeBlockInput) : Prop :=
  map_Forall (λ _ i, input_wf i) inputs.

Lemma node_block_input_wf node i : node_block_input node = Some i → input_wf i.
Proof.
  unfold node_block_input. destruct (negb _); [done|]. intros [= <-].
  split; [apply node_block_provider_wf|apply node_transport_wf].
Qed.
