(* ===== verification/Controller.v ===== *)
(** * Watched cluster state ([bins/unf-controller])

    The controller keeps the policy inputs of the cluster in maps that the watch handlers
    update: Pods with their identities, namespace labels, compiled policies, node blocks and
    host-network gateways.  Each handler runs under the write guard of the policy state, so
    it is one step; it moves the policy revision when the published snapshot may change.
    The egress, encryption, NodePort, telemetry and topology-history state the same handlers
    also touch does not flow back into these maps and is left out. *)

From coqutil Require Import Datatypes.RecordSetters.
From S2P Require Import Prelude Common NetAddr Ipam PolicyIr PolicyCompile NetworkPolicy IdentityRegistry CanonicalKey PolicyLower NodeBlocks.
Import DoubleBraceUpdate.

Definition HOST_NETWORK_NAMESPACE : string := "openshift-host-network".

(** ** Pod objects *)

Record ContainerPort := {
  cport_name : option string;
  cport_protocol : option string;
  cport_container_port : Z;
}.
Record Container := { container_ports : option (list ContainerPort) }.
Record PodSpec := {
  pspec_service_account_name : option string;
  pspec_node_name : option string;
  pspec_host_network : option bool;
  pspec_containers : list Container;
}.
Record PodStatus := {
  pstatus_phase : option string;
  pstatus_pod_ips : option (list string);
  pstatus_pod_ip : option string;
}.
Record Pod := {
  pod_metadata : ObjectMeta;
  pod_spec : option PodSpec;
  pod_status : option PodStatus;
}.

Record Namespace := { ns_metadata : ObjectMeta }.

(** [kube::runtime::watcher::Event]. *)
Inductive Event (K : Type) :=
| Apply (object : K)
| InitApply (object : K)
| Delete (object : K)
| Init
| InitDone.
Arguments Apply {K} object.
Arguments InitApply {K} object.
Arguments Delete {K} object.
Arguments Init {K}.
Arguments InitDone {K}.

(** ** Controller state *)

Record PodRecord := {
  pr_namespace : string;
  pr_name : string;
  pr_uid : string;
  pr_node_name : option string;
  pr_host_network : bool;
  pr_endpoint : Endpoint;
  pr_ipv4_addresses : gset Z;
  pr_ipv6_addresses : gset Z;
}.

#[export] Instance PodRecord_eq_dec : EqDecision PodRecord.
Proof. solve_decision. Defined.

(** The tuple [DataplanePolicyState]. *)
Record DataplanePolicyState := {
  dps_revision : Z;
  dps_entries : list PolicyMapEntry;
  dps_ipv4_entries : list Ipv4PolicyMapEntry;
  dps_ipv6_entries : list Ipv6PolicyMapEntry;
  dps_egress_ipv4_entries : list EgressIpv4PolicyMapEntry;
  dps_egress_ipv6_entries : list EgressIpv6PolicyMapEntry;
}.

(** The revisions the modelled handlers move. *)
Record RevisionSet := { rev_policy : Z; rev_routing : Z; rev_topology : Z }.

(** Of Services and EndpointSlices only the namespace of each object is kept. *)
Record ControllerState := {
  identity_epoch : Z;
  pods : gmap string PodRecord;
  identities : IdentityRegistry;
  namespaces : gmap string (gmap string string);
  service_namespaces : gmap string string;
  endpoint_slice_namespaces : gmap string string;
  security_policies : gmap string SecurityPolicy;
  compiled_security_policies : gmap string PolicyIr;
  network_policies : gmap string NetworkPolicy;
  compiled_network_policies : gmap string (list PolicyIr);
  rejected_network_policies : gmap string NetworkPolicyCompileError;
  nodes : gmap string TopologyNode;
  node_block_inputs : gmap string NodeBlockInput;
  node_block_initialization : option (gmap string NodeBlockInput);
  node_blocks : gmap string AssignedNodeBlock;
  rejected_node_blocks : gmap string BlockRejection;
  host_network_gateways : gmap string HostNetworkGateways;
  dataplane_policy_cache : option DataplanePolicyState;
  revisions : RevisionSet;
}.

Definition initial_controller_state (epoch : Z) : ControllerState := {|
  identity_epoch := epoch;
  pods := ∅;
  identities := IdentityRegistry_default;
  namespaces := ∅;
  service_namespaces := ∅;
  endpoint_slice_namespaces := ∅;
  security_policies := ∅;
  compiled_security_policies := ∅;
  network_policies := ∅;
  compiled_network_policies := ∅;
  rejected_network_policies := ∅;
  nodes := ∅;
  node_block_inputs := ∅;
  node_block_initialization := None;
  node_blocks := ∅;
  rejected_node_blocks := ∅;
  host_network_gateways := ∅;
  dataplane_policy_cache := None;
  revisions := {| rev_policy := 0; rev_routing := 0; rev_topology := 0 |} |}.

Definition bump_policy_revision (st : ControllerState) : ControllerState :=
  st {{ revisions -> rev_policy ::= Revision_next }}.
Definition bump_routing_revision (st : ControllerState) : ControllerState :=
  st {{ revisions -> rev_routing ::= Revision_next }}.
Definition bump_topology_revision (st : ControllerState) : ControllerState :=
  st {{ revisions -> rev_topology ::= Revision_next }}.

(** [if changed { bump(state) }]. *)
Definition bump_if (changed : bool) (bump : ControllerState → ControllerState)
    (st : ControllerState) : ControllerState :=
  if changed then bump st else st.

Definition stable_policy_id (key : string) : PolicyId := provisional_identity_id key.

(** ** Reading a Pod object *)

Definition pod_is_terminal (pod : Pod) : bool :=
  is_some_and (pod_status pod ≫= pstatus_phase) (λ phase,
    bool_decide (phase = "Succeeded") || bool_decide (phase = "Failed")).

Inductive NamedPortError :=
| NamedPortOutsideU16 (name : string)
| NamedPortZero (name : string)
| NamedPortConflict (name : string) (existing number : Z).

Definition container_port_protocol (port : ContainerPort) : option Protocol :=
  let protocol := default "TCP" (cport_protocol port) in
  if bool_decide (protocol = "TCP") then Some Tcp
  else if bool_decide (protocol = "UDP") then Some Udp
  else if bool_decide (protocol = "SCTP") then Some Sctp
  else None.

(** The body of the loop over the ports of a container. *)
Definition add_named_port (named_ports : gmap NamedPort Z) (port : ContainerPort) :
    result NamedPortError (gmap NamedPort Z) :=
  match cport_name port with
  | None => Ok named_ports
  | Some name =>
      match container_port_protocol port with
      | None => Ok named_ports
      | Some protocol =>
          let? number := ok_or (try_width 16 (cport_container_port port)) (NamedPortOutsideU16 name) in
          if number =? 0 then Err (NamedPortZero name)
          else
            let key := {| np_name := name; np_protocol := protocol |} in
            match named_ports !! key with
            | Some existing =>
                if existing =? number then Ok (<[key := number]> named_ports)
                else Err (NamedPortConflict name existing number)
            | None => Ok (<[key := number]> named_ports)
            end
      end
  end.

Definition pod_containers (pod : Pod) : list Container :=
  match pod_spec pod with Some spec => pspec_containers spec | None => [] end.

Definition pod_named_ports (pod : Pod) : result NamedPortError (gmap NamedPort Z) :=
  try_fold (λ named_ports container,
    try_fold add_named_port named_ports (default [] (container_ports container)))
    ∅ (pod_containers pod).

Definition pod_uses_host_network (pod : Pod) : bool :=
  default false (pod_spec pod ≫= pspec_host_network).

Definition insert_address (addresses : gset IpAddr) (text : string) : gset IpAddr :=
  match parse_ip_addr text with Some address => {[ address ]} ∪ addresses | None => addresses end.

Definition pod_status_addresses (pod : Pod) : gset IpAddr :=
  match pod_status pod with
  | None => ∅
  | Some status =>
      let addresses := fold_left insert_address (default [] (pstatus_pod_ips status)) ∅ in
      match pstatus_pod_ip status with
      | Some pod_ip => insert_address addresses pod_ip
      | None => addresses
      end
  end.

Definition pod_addresses (pod : Pod) : gset IpAddr :=
  if pod_uses_host_network pod then ∅ else pod_status_addresses pod.

Definition pod_address_families (pod : Pod) : gset Z * gset Z :=
  fold_left (λ '(ipv4, ipv6) address,
    match address with
    | V4 address => ({[ address ]} ∪ ipv4, ipv6)
    | V6 address => (ipv4, {[ address ]} ∪ ipv6)
    end) (bset_iter (pod_status_addresses pod)) (∅, ∅).

Section Handlers.
Context `{KubeLibrary}.

Definition object_key (meta : ObjectMeta) : string :=
  default "" (meta_namespace meta) +:+ "/" +:+ name_any meta.

(** ** Pods *)

Definition pod_application (labels : gmap string string) : option string :=
  match labels !! "app.kubernetes.io/name" with
  | Some application => Some application
  | None => labels !! "app"
  end.

Definition pod_service_account (pod : Pod) : string :=
  default "default" (pod_spec pod ≫= pspec_service_account_name).

Definition pod_labels (pod : Pod) : gmap string string :=
  default ∅ (meta_labels (pod_metadata pod)).

(** The endpoint of a Pod once its named ports are admitted, and its canonical key. *)
Definition pod_identity_key (pod : Pod) (named_ports : gmap NamedPort Z) : string :=
  let labels := pod_labels pod in
  let workload := default (name_any (pod_metadata pod)) (pod_application labels) in
  canonical_identity_key "local" (default "" (meta_namespace (pod_metadata pod)))
    (pod_service_account pod) workload labels named_ports.

Definition pod_network_identity (pod : Pod) (identity_id : IdentityId) : NetworkIdentity :=
  let labels := pod_labels pod in
  let application := pod_application labels in
  {| ni_id := identity_id;
     ni_cluster := "local";
     ni_namespace := default "" (meta_namespace (pod_metadata pod));
     ni_workload := default (name_any (pod_metadata pod)) application;
     ni_service_account := pod_service_account pod;
     ni_application := application;
     ni_labels := labels |}.

Definition pod_endpoint (pod : Pod) (identity_id : IdentityId) (named_ports : gmap NamedPort Z) :
    Endpoint :=
  let labels := pod_labels pod in
  {| ep_identity := identity_id;
     ep_namespace := default "" (meta_namespace (pod_metadata pod));
     ep_namespace_labels := ∅;
     ep_service_account := pod_service_account pod;
     ep_application := pod_application labels;
     ep_labels := labels;
     ep_named_ports := named_ports |}.

Definition pod_record (pod : Pod) (identity_id : IdentityId) (named_ports : gmap NamedPort Z) :
    PodRecord :=
  let '(ipv4_addresses, ipv6_addresses) := pod_address_families pod in
  {| pr_namespace := default "" (meta_namespace (pod_metadata pod));
     pr_name := name_any (pod_metadata pod);
     pr_uid := default "" (meta_uid (pod_metadata pod));
     pr_node_name := pod_spec pod ≫= pspec_node_name;
     pr_host_network := pod_uses_host_network pod;
     pr_endpoint := pod_endpoint pod identity_id named_ports;
     pr_ipv4_addresses := ipv4_addresses;
     pr_ipv6_addresses := ipv6_addresses |}.

Definition pod_policy_differs (previous record : PodRecord) : bool :=
  negb (bool_decide (pr_endpoint previous = pr_endpoint record))
  || negb (bool_decide (pr_host_network previous = pr_host_network record))
  || negb (bool_decide (pr_ipv4_addresses previous = pr_ipv4_addresses record))
  || negb (bool_decide (pr_ipv6_addresses previous = pr_ipv6_addresses record)).

Definition upsert_pod (st : ControllerState) (pod : Pod) : ControllerState :=
  match pod_named_ports pod with
  | Err _ => st
  | Ok named_ports =>
      let identity_key := pod_identity_key pod named_ports in
      let identity_id := provisional_identity_id identity_key in
      let identity := pod_network_identity pod identity_id in
      let key := object_key (pod_metadata pod) in
      let '(admission, registry) :=
        IdentityRegistry_admit_pod (identities st) key identity_key identity
          (bset_iter (pod_addresses pod)) in
      let st := st {{ identities := registry }} in
      match admission with
      | Err _ => st
      | Ok _ =>
          let record := pod_record pod identity_id named_ports in
          let previous := pods st !! key in
          let st := st {{ pods ::= insert key record }} in
          let st := bump_if (is_none_or previous (λ previous, pod_policy_differs previous record))
                      bump_policy_revision st in
          bump_if (negb (bool_decide (previous = Some record))) bump_topology_revision st
      end
  end.

Definition remove_pod (st : ControllerState) (key : string) : ControllerState :=
  let removed := pods st !! key in
  let st := st {{ pods ::= delete key;
                  identities ::= λ r, (IdentityRegistry_remove_pod r key).2 }} in
  match removed with
  | None => st
  | Some removed =>
      let st := bump_topology_revision st in
      bump_if (negb (bool_decide (pr_ipv4_addresses removed = ∅))
               || negb (bool_decide (pr_ipv6_addresses removed = ∅))
               || negb (existsb (λ pod,
                    ep_identity (pr_endpoint pod) =? ep_identity (pr_endpoint removed))
                    (btree_values (pods st))))
        bump_policy_revision st
  end.

Definition apply_pod_event (st : ControllerState) (event : Event Pod) : ControllerState :=
  match event with
  | Apply pod | InitApply pod =>
      if pod_is_terminal pod then remove_pod st (object_key (pod_metadata pod))
      else upsert_pod st pod
  | Delete pod => remove_pod st (object_key (pod_metadata pod))
  | Init =>
      let had_pods := negb (bool_decide (pods st = ∅)) in
      let st := st {{ pods := ∅; identities ::= IdentityRegistry_clear }} in
      bump_if had_pods (λ st, bump_topology_revision (bump_policy_revision st)) st
  | InitDone => st
  end.

(** ** Namespaces *)

Definition namespace_change_affects_fabric (st : ControllerState) (namespace : string) : bool :=
  (rev_policy (revisions st) =? 0)
  || bool_decide (namespace = HOST_NETWORK_NAMESPACE)
  || existsb (λ pod, bool_decide (pr_namespace pod = namespace)) (btree_values (pods st))
  || existsb (λ service, bool_decide (service = namespace)) (btree_values (service_namespaces st))
  || existsb (λ slice, bool_decide (slice = namespace)) (btree_values (endpoint_slice_namespaces st)).

Definition invalidate_namespace_policy_if_needed (st : ControllerState) (namespace : string) :
    ControllerState :=
  bump_if (namespace_change_affects_fabric st namespace) bump_policy_revision st.

Definition normalized_namespace_labels (name : string) (namespace : Namespace) :
    gmap string string :=
  <[NAMESPACE_NAME_LABEL := name]> (default ∅ (meta_labels (ns_metadata namespace))).

Definition apply_namespace_event (st : ControllerState) (event : Event Namespace) :
    ControllerState :=
  match event with
  | Apply namespace | InitApply namespace =>
      let name := name_any (ns_metadata namespace) in
      let labels := normalized_namespace_labels name namespace in
      let previous := namespaces st !! name in
      let st := st {{ namespaces ::= insert name labels }} in
      if negb (bool_decide (previous = Some labels))
      then invalidate_namespace_policy_if_needed st name else st
  | Delete namespace =>
      let name := name_any (ns_metadata namespace) in
      let removed := bool_decide (is_Some (namespaces st !! name)) in
      let st := st {{ namespaces ::= delete name }} in
      if removed then invalidate_namespace_policy_if_needed st name else st
  | Init =>
      let had_namespaces := negb (bool_decide (namespaces st = ∅)) in
      let st := st {{ namespaces := ∅ }} in
      bump_if had_namespaces bump_policy_revision st
  | InitDone => st
  end.

(** ** Policies *)

Definition apply_policy_event (st : ControllerState) (event : Event SecurityPolicy) :
    ControllerState :=
  match event with
  | Apply policy | InitApply policy =>
      let key := object_key (secp_metadata policy) in
      let id := stable_policy_id key in
      match PolicyCompiler_compile id policy with
      | Ok ir =>
          let previous := compiled_security_policies st !! key in
          let st := st {{ compiled_security_policies ::= insert key ir;
                          security_policies ::= insert key policy }} in
          bump_if (negb (bool_decide (previous = Some ir))) bump_policy_revision st
      | Err _ =>
          let removed := bool_decide (is_Some (compiled_security_policies st !! key)) in
          let st := st {{ compiled_security_policies ::= delete key;
                          security_policies ::= delete key }} in
          bump_if removed bump_policy_revision st
      end
  | Delete policy =>
      let key := object_key (secp_metadata policy) in
      let removed := bool_decide (is_Some (compiled_security_policies st !! key)) in
      let st := st {{ security_policies ::= delete key;
                      compiled_security_policies ::= delete key }} in
      bump_if removed bump_policy_revision st
  | Init =>
      let had_policies := negb (bool_decide (compiled_security_policies st = ∅)) in
      let st := st {{ security_policies := ∅; compiled_security_policies := ∅ }} in
      bump_if had_policies bump_policy_revision st
  | InitDone => st
  end.

Definition apply_network_policy_event (st : ControllerState) (event : Event NetworkPolicy) :
    ControllerState :=
  match event with
  | Apply policy | InitApply policy =>
      let key := object_key (np_metadata policy) in
      let id := stable_policy_id ("networkpolicy:" +:+ key) in
      match compile_directions id policy with
      | Ok policies =>
          let previous := compiled_network_policies st !! key in
          let st := st {{ compiled_network_policies ::= insert key policies;
                          network_policies ::= insert key policy;
                          rejected_network_policies ::= delete key }} in
          bump_if (negb (bool_decide (previous = Some policies))) bump_policy_revision st
      | Err error =>
          let removed := bool_decide (is_Some (compiled_network_policies st !! key)) in
          let st := st {{ compiled_network_policies ::= delete key;
                          network_policies ::= delete key;
                          rejected_network_policies ::= insert key error }} in
          bump_if removed bump_policy_revision st
      end
  | Delete policy =>
      let key := object_key (np_metadata policy) in
      let removed := bool_decide (is_Some (compiled_network_policies st !! key)) in
      let st := st {{ network_policies ::= delete key;
                      rejected_network_policies ::= delete key;
                      compiled_network_policies ::= delete key }} in
      bump_if removed bump_policy_revision st
  | Init =>
      let had_policies := negb (bool_decide (compiled_network_policies st = ∅)) in
      let st := st {{ network_policies := ∅; rejected_network_policies := ∅;
                      compiled_network_policies := ∅ }} in
      bump_if had_policies bump_policy_revision st
  | InitDone => st
  end.

(** ** Nodes *)

Definition recompute_node_blocks (st : ControllerState) : ControllerState :=
  let previous_assignments := node_blocks st in
  let '(candidates, rejected) := node_candidates (node_block_inputs st) in
  let assignments_changed := assignments_changed previous_assignments candidates in
  let changed := assignments_changed || negb (bool_decide (rejected_node_blocks st = rejected)) in
  if changed then
    let st := bump_routing_revision st in
    let st := bump_if assignments_changed bump_policy_revision st in
    let routing_revision := rev_routing (revisions st) in
    st {{ node_blocks := next_assignments previous_assignments routing_revision candidates;
          rejected_node_blocks := rejected }}
  else st.

Definition update_node_block_input (st : ControllerState) (node : Node) : ControllerState :=
  let node_name := name_any (node_metadata node) in
  let previous := node_block_inputs st !! node_name in
  let '(st, changed) :=
    match node_block_input node with
    | Some input =>
        (st {{ node_block_inputs ::= insert node_name input }},
         negb (bool_decide (previous = Some input)))
    | None => (st {{ node_block_inputs ::= delete node_name }}, bool_decide (is_Some previous))
    end in
  if changed then recompute_node_blocks st else st.

Definition stage_node_block_input (st : ControllerState) (node : Node) : ControllerState :=
  match node_block_input node with
  | None => st
  | Some input =>
      match node_block_initialization st with
      | Some inputs =>
          st {{ node_block_initialization :=
                  Some (<[name_any (node_metadata node) := input]> inputs) }}
      | None => update_node_block_input st node
      end
  end.

Definition reconcile_node (st : ControllerState) (node : Node) (initializing : bool) :
    ControllerState :=
  let normalized := topology_node node in
  let gateways := ovn_host_network_gateways node in
  let st := if initializing then stage_node_block_input st node
            else update_node_block_input st node in
  let previous := nodes st !! tn_name normalized in
  let st := st {{ nodes ::= insert (tn_name normalized) normalized }} in
  let previous_gateways := host_network_gateways st !! tn_name normalized in
  let st :=
    if bool_decide (gateways = HostNetworkGateways_default)
    then st {{ host_network_gateways ::= delete (tn_name normalized) }}
    else st {{ host_network_gateways ::= insert (tn_name normalized) gateways }} in
  let st := bump_if (negb (bool_decide (previous = Some normalized))) bump_topology_revision st in
  let gateways_changed :=
    match previous_gateways with
    | None => negb (bool_decide (hng_ipv4 gateways = ∅)) || negb (bool_decide (hng_ipv6 gateways = ∅))
    | Some previous => negb (bool_decide (previous = gateways))
    end in
  bump_if gateways_changed bump_policy_revision st.

Definition apply_node_event (st : ControllerState) (event : Event Node) : ControllerState :=
  match event with
  | Apply node => reconcile_node st node false
  | InitApply node => reconcile_node st node true
  | Delete node =>
      let node_name := name_any (node_metadata node) in
      let had_input := bool_decide (is_Some (node_block_inputs st !! node_name)) in
      let st := st {{ node_block_inputs ::= delete node_name }} in
      let st := if had_input then recompute_node_blocks st else st in
      let had_node := bool_decide (is_Some (nodes st !! node_name)) in
      let st := bump_if had_node bump_topology_revision (st {{ nodes ::= delete node_name }}) in
      let had_gateways := bool_decide (is_Some (host_network_gateways st !! node_name)) in
      bump_if had_gateways bump_policy_revision
        (st {{ host_network_gateways ::= delete node_name }})
  | Init =>
      let st := st {{ node_block_initialization := Some ∅ }} in
      let had_nodes := negb (bool_decide (nodes st = ∅)) in
      let st := st {{ nodes := ∅ }} in
      let had_gateways := negb (bool_decide (host_network_gateways st = ∅)) in
      let st := st {{ host_network_gateways := ∅ }} in
      let st := bump_if had_nodes bump_topology_revision st in
      bump_if had_gateways bump_policy_revision st
  | InitDone =>
      match node_block_initialization st with
      | None => st
      | Some initialized =>
          let st := st {{ node_block_initialization := None }} in
          if negb (bool_decide (node_block_inputs st = initialized))
          then recompute_node_blocks (st {{ node_block_inputs := initialized }}) else st
      end
  end.

(** ** Steps

    A watch event, or a change of the Service and EndpointSlice maps. *)
Inductive ControllerEvent :=
| PodEvent (event : Event Pod)
| NamespaceEvent (event : Event Namespace)
| PolicyEvent (event : Event SecurityPolicy)
| NetworkPolicyEvent (event : Event NetworkPolicy)
| NodeEvent (event : Event Node)
| ServiceEvent (services endpoint_slices : gmap string string).

Definition apply_event (st : ControllerState) (event : ControllerEvent) : ControllerState :=
  match event with
  | PodEvent event => apply_pod_event st event
  | NamespaceEvent event => apply_namespace_event st event
  | PolicyEvent event => apply_policy_event st event
  | NetworkPolicyEvent event => apply_network_policy_event st event
  | NodeEvent event => apply_node_event st event
  | ServiceEvent services endpoint_slices =>
      st {{ service_namespaces := services; endpoint_slice_namespaces := endpoint_slices }}
  end.
End Handlers.
