(* ===== verification/ControllerSnapshot.v ===== *)
(** * The published policy snapshot ([bins/unf-controller])

    [dataplane_policy_state] lowers the current policies and endpoints into the entries of
    the five policy maps, adds the entries of host-network peers, node transports and
    host-network gateways, and keeps the result under the policy revision it was computed
    at. *)

From coqutil Require Import Datatypes.RecordSetters.
From S2P Require Import Prelude Common NetAddr Ipam PolicyIr PolicyCompile NetworkPolicy IdentityRegistry PolicyLower PolicyInstalled NodeBlocks Controller.
Import DoubleBraceUpdate.

Inductive ApiError :=
| BadRequest
| NotFound (pod : string)
| Unprocessable
| CompileFailed (error : DataplaneCompileError)
| EntryLimit (limit : Z).

Definition lowered_ok {A} (r : dp_result A) : result ApiError A :=
  match r with Ok a => Ok a | Err e => Err (CompileFailed e) end.

(** ** Endpoints *)

Definition endpoint_with_namespace_labels (namespaces : gmap string (gmap string string))
    (endpoint : Endpoint) : Endpoint := {|
  ep_identity := ep_identity endpoint;
  ep_namespace := ep_namespace endpoint;
  ep_namespace_labels :=
    default {[ NAMESPACE_NAME_LABEL := ep_namespace endpoint ]} (namespaces !! ep_namespace endpoint);
  ep_service_account := ep_service_account endpoint;
  ep_application := ep_application endpoint;
  ep_labels := ep_labels endpoint;
  ep_named_ports := ep_named_ports endpoint |}.

Definition host_network_gateway_endpoint (namespaces : gmap string (gmap string string)) : Endpoint :=
  endpoint_with_namespace_labels namespaces {|
    ep_identity := u_max 32;
    ep_namespace := HOST_NETWORK_NAMESPACE;
    ep_namespace_labels := ∅;
    ep_service_account := "";
    ep_application := None;
    ep_labels := ∅;
    ep_named_ports := ∅ |}.

Definition endpoints_with_namespace_labels (st : ControllerState) : list Endpoint :=
  map (λ pod, endpoint_with_namespace_labels (namespaces st) (pr_endpoint pod))
    (btree_values (pods st)).

Definition ipv4_endpoints_with_namespace_labels (st : ControllerState) : list Ipv4Endpoint :=
  List.flat_map (λ pod,
    map (λ address, {| ep4_address := address;
           ep4_endpoint := endpoint_with_namespace_labels (namespaces st) (pr_endpoint pod) |})
      (bset_iter (pr_ipv4_addresses pod)))
    (List.filter (λ pod, negb (pr_host_network pod)) (btree_values (pods st)))
  ++ map (λ address, {| ep4_address := address;
            ep4_endpoint := host_network_gateway_endpoint (namespaces st) |})
       (List.flat_map (λ gateways, bset_iter (hng_ipv4 gateways))
          (btree_values (host_network_gateways st))).

Definition ipv6_endpoints_with_namespace_labels (st : ControllerState) : list Ipv6Endpoint :=
  List.flat_map (λ pod,
    map (λ address, {| ep6_address := address;
           ep6_endpoint := endpoint_with_namespace_labels (namespaces st) (pr_endpoint pod) |})
      (bset_iter (pr_ipv6_addresses pod)))
    (List.filter (λ pod, negb (pr_host_network pod)) (btree_values (pods st)))
  ++ map (λ address, {| ep6_address := address;
            ep6_endpoint := host_network_gateway_endpoint (namespaces st) |})
       (List.flat_map (λ gateways, bset_iter (hng_ipv6 gateways))
          (btree_values (host_network_gateways st))).

Definition compiled_policies (st : ControllerState) : list PolicyIr :=
  btree_values (compiled_security_policies st)
  ++ concat (btree_values (compiled_network_policies st)).

(** ** Entries added after lowering *)

(** [iter_mut().find(p)] followed by a write of the element found. *)
Fixpoint update_first {A} (p : A → bool) (f : A → A) (l : list A) : option (list A) :=
  match l with
  | [] => None
  | x :: l => if p x then Some (f x :: l) else option_map (cons x) (update_first p f l)
  end.

Definition push_entry {K} (entries : list (MapEntry K)) (entry : MapEntry K) :
    result ApiError (list (MapEntry K)) :=
  if POLICY_MAP_BANK_ENTRY_LIMIT <=? Z.of_nat (length entries)
  then Err (EntryLimit POLICY_MAP_BANK_ENTRY_LIMIT)
  else Ok (entries ++ [entry]).

(** [merge_host_network_ipv4_entry] and [merge_host_network_ipv6_entry]. *)
Definition merge_host_network_entry {K} `{EqDecision K} (entries : list (MapEntry K))
    (candidate : MapEntry K) : result ApiError (list (MapEntry K)) :=
  match update_first (λ entry, bool_decide (entry_key entry = entry_key candidate))
          (λ existing,
             if bool_decide (rec_verdict (entry_decision candidate) = VAllow)
                && negb (bool_decide (rec_verdict (entry_decision existing) = VAllow))
             then candidate else existing) entries with
  | Some entries => Ok entries
  | None => push_entry entries candidate
  end.

(** [upsert_egress_ipv4_entry] and [upsert_egress_ipv6_entry]. *)
Definition upsert_egress_entry {K} `{EqDecision K} (entries : list (MapEntry K))
    (entry : MapEntry K) : result ApiError (list (MapEntry K)) :=
  match update_first (λ existing, bool_decide (entry_key existing = entry_key entry))
          (λ _, entry) entries with
  | Some entries => Ok entries
  | None => push_entry entries entry
  end.

(** The two inner loops of [add_host_network_ingress_entries]: one address of a
    host-network Pod as the only known source. *)
Definition add_host_ipv4_address (ingress_policies : list PolicyIr) (endpoints : list Endpoint)
    (endpoint : Endpoint) (ipv4_entries : list Ipv4PolicyMapEntry) (address : Z) :
    result ApiError (list Ipv4PolicyMapEntry) :=
  let source := {| ep4_address := address; ep4_endpoint := endpoint |} in
  let? candidates :=
    lowered_ok (compile_ipv4_dataplane_entries ingress_policies endpoints [source]) in
  try_fold merge_host_network_entry ipv4_entries
    (List.filter (λ entry, pk4_source_address (entry_key entry) =? address) candidates).

Definition add_host_ipv6_address (ingress_policies : list PolicyIr) (endpoints : list Endpoint)
    (endpoint : Endpoint) (ipv6_entries : list Ipv6PolicyMapEntry) (address : Z) :
    result ApiError (list Ipv6PolicyMapEntry) :=
  let source := {| ep6_address := address; ep6_endpoint := endpoint |} in
  let? candidates :=
    lowered_ok (compile_ipv6_dataplane_entries ingress_policies endpoints [source]) in
  try_fold merge_host_network_entry ipv6_entries
    (List.filter (λ entry, (pk6_source_network (entry_key entry) =? address)
                           && (pk6_source_prefix_len (entry_key entry) =? 128)) candidates).

Definition add_host_network_ingress_entries (st : ControllerState)
    (ingress_policies : list PolicyIr) (endpoints : list Endpoint)
    (ipv4_entries : list Ipv4PolicyMapEntry) (ipv6_entries : list Ipv6PolicyMapEntry) :
    result ApiError (list Ipv4PolicyMapEntry * list Ipv6PolicyMapEntry) :=
  let? (ipv4_entries, ipv6_entries) :=
    try_fold (λ '(ipv4_entries, ipv6_entries) pod,
      let endpoint := endpoint_with_namespace_labels (namespaces st) (pr_endpoint pod) in
      let? ipv4_entries :=
        try_fold (add_host_ipv4_address ingress_policies endpoints endpoint) ipv4_entries
          (bset_iter (pr_ipv4_addresses pod)) in
      let? ipv6_entries :=
        try_fold (add_host_ipv6_address ingress_policies endpoints endpoint) ipv6_entries
          (bset_iter (pr_ipv6_addresses pod)) in
      Ok (ipv4_entries, ipv6_entries))
      (ipv4_entries, ipv6_entries)
      (List.filter pr_host_network (btree_values (pods st))) in
  Ok (sort_by_key entry_key ipv4_entries, sort_by_key entry_key ipv6_entries).

Definition node_transports (st : ControllerState) : gset NodeTransport :=
  list_to_set (omap (λ assignment,
    match anb_transport assignment with Ok transport => Some transport | Err _ => None end)
    (btree_values (node_blocks st))).

Definition node_decision : PolicyDecisionRecord :=
  {| rec_verdict := VAllow; rec_reason := NoApplicablePolicy;
     rec_policy_id := None; rec_rule_id := None |}.

Definition plain_entry {K} (key : K) (decision : PolicyDecisionRecord) : MapEntry K :=
  {| entry_key := key; entry_decision := decision; entry_shadow := None |}.

(** The four lists of entries the node and gateway loops extend. *)
Record AddressedEntries := {
  ae_ipv4 : list Ipv4PolicyMapEntry;
  ae_ipv6 : list Ipv6PolicyMapEntry;
  ae_egress_ipv4 : list EgressIpv4PolicyMapEntry;
  ae_egress_ipv6 : list EgressIpv6PolicyMapEntry;
}.

Definition add_node_transport (entries : AddressedEntries) (transport : NodeTransport) :
    result ApiError AddressedEntries :=
  let? ipv4 := merge_host_network_entry (ae_ipv4 entries) (plain_entry
    {| pk4_source_address := nt_ipv4 transport; pk4_destination_identity := 0;
       pk4_protocol := 0; pk4_destination_port := 0 |} node_decision) in
  let? ipv6 := merge_host_network_entry (ae_ipv6 entries) (plain_entry
    {| pk6_source_network := nt_ipv6 transport; pk6_source_prefix_len := 128;
       pk6_destination_identity := 0; pk6_protocol := 0; pk6_destination_port := 0 |}
    node_decision) in
  let? egress_ipv4 := upsert_egress_entry (ae_egress_ipv4 entries) (plain_entry
    {| ek4_source_identity := 0; ek4_destination_address := nt_ipv4 transport;
       ek4_protocol := 0; ek4_destination_port := 0 |} node_decision) in
  let? egress_ipv6 := upsert_egress_entry (ae_egress_ipv6 entries) (plain_entry
    {| ek6_source_identity := 0; ek6_destination_network := nt_ipv6 transport;
       ek6_destination_prefix_len := 128; ek6_protocol := 0; ek6_destination_port := 0 |}
    node_decision) in
  Ok {| ae_ipv4 := ipv4; ae_ipv6 := ipv6; ae_egress_ipv4 := egress_ipv4;
        ae_egress_ipv6 := egress_ipv6 |}.

Definition add_primary_node_traffic_entries (st : ControllerState) (entries : AddressedEntries) :
    result ApiError AddressedEntries :=
  if bool_decide (node_transports st = ∅) then Ok entries
  else
    let? entries := try_fold add_node_transport entries (bset_iter (node_transports st)) in
    Ok {| ae_ipv4 := sort_by_key entry_key (ae_ipv4 entries);
          ae_ipv6 := sort_by_key entry_key (ae_ipv6 entries);
          ae_egress_ipv4 := sort_by_key entry_key (ae_egress_ipv4 entries);
          ae_egress_ipv6 := sort_by_key entry_key (ae_egress_ipv6 entries) |}.

Abbreviation EgressEntries := (list EgressIpv4PolicyMapEntry * list EgressIpv6PolicyMapEntry)%type.

(** The gateways of one node, for one rule that admits them. *)
Definition add_gateway (identity : IdentityId) (protocol : Z) (decision : PolicyDecisionRecord)
    (entries : EgressEntries) (gateway : HostNetworkGateways) : result ApiError EgressEntries :=
  let '(ipv4_entries, ipv6_entries) := entries in
  let? ipv4_entries :=
    try_fold (λ entries destination_address,
      upsert_egress_entry entries (plain_entry
        {| ek4_source_identity := identity; ek4_destination_address := destination_address;
           ek4_protocol := protocol; ek4_destination_port := 0 |} decision))
      ipv4_entries (bset_iter (hng_ipv4 gateway)) in
  let? ipv6_entries :=
    try_fold (λ entries destination_network,
      upsert_egress_entry entries (plain_entry
        {| ek6_source_identity := identity; ek6_destination_network := destination_network;
           ek6_destination_prefix_len := 128; ek6_protocol := protocol;
           ek6_destination_port := 0 |} decision))
      ipv6_entries (bset_iter (hng_ipv6 gateway)) in
  Ok (ipv4_entries, ipv6_entries).

Definition kubernetes_target (endpoint : Endpoint) (policy : PolicyIr) : bool :=
  bool_decide (pol_origin policy = KubernetesNetworkPolicy)
  && IdentitySelector_matches (pol_target policy) endpoint.

Definition gateway_decision (policy : PolicyIr) (rule : PolicyRule) : PolicyDecisionRecord :=
  {| rec_verdict := VAllow; rec_reason := ExplicitRule;
     rec_policy_id := Some (pol_id policy); rec_rule_id := Some (rule_id rule) |}.

(** The body of the loop over endpoints. *)
Definition add_endpoint_replies (gateways : list HostNetworkGateways) (gateway_endpoint : Endpoint)
    (ingress_policies egress_policies : list PolicyIr) (entries : EgressEntries)
    (endpoint : Endpoint) : result ApiError EgressEntries :=
  if negb (existsb (kubernetes_target endpoint) egress_policies) then Ok entries
  else
    try_fold (λ entries policy,
      try_fold (λ entries rule,
        try_fold (add_gateway (ep_identity endpoint)
                    (match rule_protocol rule with Some protocol => protocol_u8 protocol | None => 0 end)
                    (gateway_decision policy rule))
          entries gateways)
        entries
        (List.filter (λ rule, bool_decide (rule_action rule = ActAllow)
                              && IdentitySelector_matches (rule_source rule) gateway_endpoint)
           (pol_rules policy)))
      entries (List.filter (kubernetes_target endpoint) ingress_policies).

Definition add_ovn_host_network_reply_entries (st : ControllerState)
    (ingress_policies egress_policies : list PolicyIr) (endpoints : list Endpoint)
    (entries : EgressEntries) : result ApiError EgressEntries :=
  let gateway_endpoint := host_network_gateway_endpoint (namespaces st) in
  if bool_decide (host_network_gateways st = ∅) then Ok entries
  else
    let? (ipv4_entries, ipv6_entries) :=
      try_fold (add_endpoint_replies (btree_values (host_network_gateways st)) gateway_endpoint
                  ingress_policies egress_policies) entries endpoints in
    Ok (sort_by_key entry_key ipv4_entries, sort_by_key entry_key ipv6_entries).

(** ** The snapshot *)

(** [dataplane_policy_state] past its cache lookup. *)
Definition compute_policy_state (st : ControllerState) : result ApiError DataplanePolicyState :=
  let policies := compiled_policies st in
  let ingress_policies := List.filter (λ p, bool_decide (pol_direction p = Ingress)) policies in
  let egress_policies := List.filter (λ p, negb (bool_decide (pol_direction p = Ingress))) policies in
  let endpoints := endpoints_with_namespace_labels st in
  let? entries := lowered_ok (compile_dataplane_entries ingress_policies endpoints) in
  let ipv4_endpoints := ipv4_endpoints_with_namespace_labels st in
  let? ipv4_entries :=
    lowered_ok (compile_ipv4_dataplane_entries ingress_policies endpoints ipv4_endpoints) in
  let ipv6_endpoints := ipv6_endpoints_with_namespace_labels st in
  let? ipv6_entries :=
    lowered_ok (compile_ipv6_dataplane_entries ingress_policies endpoints ipv6_endpoints) in
  let? (ipv4_entries, ipv6_entries) :=
    add_host_network_ingress_entries st ingress_policies endpoints ipv4_entries ipv6_entries in
  let? egress_ipv4_entries :=
    lowered_ok (compile_egress_ipv4_dataplane_entries egress_policies endpoints ipv4_endpoints) in
  let? egress_ipv6_entries :=
    lowered_ok (compile_egress_ipv6_dataplane_entries egress_policies endpoints ipv6_endpoints) in
  let? added := add_primary_node_traffic_entries st
    {| ae_ipv4 := ipv4_entries; ae_ipv6 := ipv6_entries;
       ae_egress_ipv4 := egress_ipv4_entries; ae_egress_ipv6 := egress_ipv6_entries |} in
  let? (egress_ipv4_entries, egress_ipv6_entries) :=
    add_ovn_host_network_reply_entries st ingress_policies egress_policies endpoints
      (ae_egress_ipv4 added, ae_egress_ipv6 added) in
  Ok {| dps_revision := rev_policy (revisions st);
        dps_entries := entries;
        dps_ipv4_entries := ae_ipv4 added;
        dps_ipv6_entries := ae_ipv6 added;
        dps_egress_ipv4_entries := egress_ipv4_entries;
        dps_egress_ipv6_entries := egress_ipv6_entries |}.

Definition dataplane_policy_state (st : ControllerState) :
    result ApiError DataplanePolicyState * ControllerState :=
  let revision := rev_policy (revisions st) in
  match dataplane_policy_cache st with
  | Some snapshot =>
      if dps_revision snapshot =? revision then (Ok snapshot, st)
      else
        match compute_policy_state st with
        | Ok snapshot => (Ok snapshot, st {{ dataplane_policy_cache := Some snapshot }})
        | Err e => (Err e, st)
        end
  | None =>
      match compute_policy_state st with
      | Ok snapshot => (Ok snapshot, st {{ dataplane_policy_cache := Some snapshot }})
      | Err e => (Err e, st)
      end
  end.

Definition policy_snapshot (st : ControllerState) :
    result ApiError PolicyStateSnapshot * ControllerState :=
  let '(r, st) := dataplane_policy_state st in
  (let? state := r in
   Ok {| ps_schema_version := POLICY_SNAPSHOT_SCHEMA_VERSION;
         ps_source_epoch := identity_epoch st;
         ps_revision := dps_revision state;
         ps_entries := dps_entries state;
         ps_ipv4_entries := dps_ipv4_entries state;
         ps_ipv6_entries := dps_ipv6_entries state;
         ps_egress_ipv4_entries := dps_egress_ipv4_entries state;
         ps_egress_ipv6_entries := dps_egress_ipv6_entries state |}, st).
