(* ===== verification/ControllerFacts.v ===== *)
(** * What the published snapshot depends on

    The lowering reads the list of endpoints only through the metadata of each identity, and
    the reply entries of host-network gateways are the same whichever of several Pods of an
    identity they are computed from.  So a snapshot does not change when a Pod without
    addresses leaves an identity that other Pods still hold. *)

From S2P Require Import Prelude Common NetAddr Ipam PolicyIr PolicyCompile NetworkPolicy IdentityRegistry PolicyLower PolicyLowerSpec PolicyLowerFacts PolicyInstalled NodeBlocks Controller ControllerSnapshot.

(** ** A run of upserts *)

Section Upserts.
Context {K : Type} `{EqDecision K}.
Implicit Types entries ups : list (MapEntry K).

Definition keys (l : list (MapEntry K)) : list K := map entry_key l.

(** The keys a run adds. *)
Definition fresh (entries ups : list (MapEntry K)) : list K :=
  remove_dups (List.filter (λ k, negb (bool_decide (k ∈ keys entries))) (keys ups)).

Definition fits (entries ups : list (MapEntry K)) : Prop :=
  fresh entries ups = [] ∨
  Z.of_nat (length entries + length (fresh entries ups)) ≤ POLICY_MAP_BANK_ENTRY_LIMIT.

Definition overwrite (o : option (MapEntry K)) (l : list (MapEntry K)) : list (MapEntry K) :=
  match o with None => l | Some e => e :: tail l end.

Lemma elem_of_fresh entries ups k : k ∈ fresh entries ups ↔ k ∈ keys ups ∧ k ∉ keys entries.
Proof.
  unfold fresh. rewrite elem_of_remove_dups, list_elem_of_In, filter_In, <-list_elem_of_In.
  by rewrite negb_true_iff, bool_decide_eq_false.
Qed.

Lemma elem_of_keys_at (l : list (MapEntry K)) k : k ∈ keys l ↔ is_Some (last (at_key entry_key k l)).
Proof.
  rewrite <-not_eq_None_Some, last_None. unfold keys. rewrite elem_of_list_map. split.
  - intros (e & Hin & ->) Hn. apply not_elem_of_nil with (x := e). rewrite <-Hn.
    apply list_elem_of_In, filter_In. by rewrite <-list_elem_of_In, bool_decide_true.
  - intros Hn. destruct (at_key entry_key k l) as [|e t] eqn:E; [done|].
    assert (Hin : e ∈ at_key entry_key k l) by (rewrite E; left).
    apply list_elem_of_In, filter_In in Hin as [Hin Hk%bool_decide_eq_true].
    exists e. by rewrite list_elem_of_In.
Qed.

Lemma update_first_upsert (e : MapEntry K) entries :
  match update_first (λ x, bool_decide (entry_key x = entry_key e)) (λ _, e) entries with
  | Some l => entry_key e ∈ keys entries ∧ keys l = keys entries ∧
      ∀ k, at_key entry_key k l =
        overwrite (if decide (entry_key e = k) then Some e else None) (at_key entry_key k entries)
  | None => entry_key e ∉ keys entries
  end.
Proof.
  induction entries as [|x l IH]; simpl; [apply not_elem_of_nil|].
  case_bool_decide as Hx.
  - split; [rewrite Hx; left|]. split; [simpl; by rewrite Hx|]. intros k. simpl. rewrite Hx.
    destruct (decide (entry_key e = k)); [by rewrite bool_decide_true|by rewrite bool_decide_false].
  - destruct (update_first _ _ l) as [l'|]; simpl.
    + destruct IH as (Hin & Hk & Hat). split; [by right|]. split; [by f_equal|].
      intros k. simpl. rewrite Hat. destruct (decide (entry_key e = k)) as [<-|].
      * by rewrite bool_decide_false.
      * by case_bool_decide.
    + rewrite not_elem_of_cons. split; [congruence|done].
Qed.

Lemma fresh_push entries ups e :
  entry_key e ∉ keys entries →
  length (fresh entries (e :: ups)) = S (length (fresh (entries ++ [e]) ups)).
Proof.
  intros He. change (S _) with (length (entry_key e :: fresh (entries ++ [e]) ups)).
  apply Permutation_length, NoDup_Permutation; [apply NoDup_remove_dups|..].
  - apply NoDup_cons. split; [|apply NoDup_remove_dups]. rewrite elem_of_fresh.
    unfold keys. rewrite map_app, elem_of_app. simpl. rewrite list_elem_of_singleton. tauto.
  - intros k. rewrite elem_of_cons, !elem_of_fresh. unfold keys.
    rewrite map_app, elem_of_app. simpl. rewrite elem_of_cons, list_elem_of_singleton.
    destruct (decide (k = entry_key e)) as [->|]; [unfold keys in He|]; tauto.
Qed.

Lemma overwrite_twice ups (e : MapEntry K) k l :
  overwrite (last (at_key entry_key k ups))
    (overwrite (if decide (entry_key e = k) then Some e else None) l)
  = overwrite (last (at_key entry_key k (e :: ups))) l.
Proof.
  simpl. destruct (decide (entry_key e = k)).
  - rewrite bool_decide_true by done. rewrite last_cons. by destruct (last _).
  - by rewrite bool_decide_false.
Qed.

Lemma upsert_fold ups entries :
  match try_fold upsert_egress_entry entries ups with
  | Ok l => fits entries ups ∧
      ∀ k, at_key entry_key k l =
        overwrite (last (at_key entry_key k ups)) (at_key entry_key k entries)
  | Err e => e = EntryLimit POLICY_MAP_BANK_ENTRY_LIMIT ∧ ¬ fits entries ups
  end.
Proof.
  revert entries. induction ups as [|e ups IH]; intros entries; simpl; [by split; [left|]|].
  pose proof (update_first_upsert e entries) as Hu. unfold upsert_egress_entry at 1.
  destruct (update_first _ _ entries) as [l|].
  - destruct Hu as (Hin & Hk & Hat).
    assert (Hf : fits l ups ↔ fits entries (e :: ups)).
    { assert (fresh l ups = fresh entries (e :: ups)) as Hfr.
      { unfold fresh. simpl. rewrite Hk, bool_decide_true by done. done. }
      unfold fits. rewrite Hfr. apply (f_equal length) in Hk. unfold keys in Hk.
      rewrite !length_map in Hk. by rewrite Hk. }
    specialize (IH l). destruct (try_fold _ l ups) as [l'|]; rewrite <-Hf; [|done].
    destruct IH as [? IH]. split; [done|]. intros k. by rewrite IH, Hat, overwrite_twice.
  - pose proof (fresh_push entries ups e Hu) as Hlen. unfold push_entry.
    assert (Hne : fresh entries (e :: ups) ≠ []) by (intros Hn; by rewrite Hn in Hlen).
    destruct (Z.leb_spec POLICY_MAP_BANK_ENTRY_LIMIT (Z.of_nat (length entries))).
    { split; [done|]. intros [?|Hle]; [done|]. lia. }
    assert (Hf : fits (entries ++ [e]) ups ↔ fits entries (e :: ups)).
    { unfold fits. rewrite length_app. simpl. destruct (fresh (entries ++ [e]) ups); simpl in *; [|].
      - split; [intros _; right; lia|by left].
      - split; (intros [?|?]; [done|right; lia]). }
    specialize (IH (entries ++ [e])). destruct (try_fold _ _ ups) as [l'|]; rewrite <-Hf; [|done].
    destruct IH as [? IH]. split; [done|]. intros k. rewrite IH. etrans; [|apply (overwrite_twice ups e k)].
    f_equal. unfold at_key. rewrite List.filter_app. simpl.
    destruct (decide (entry_key e = k)) as [<-|].
    + rewrite bool_decide_true by done. simpl.
      destruct (List.filter _ entries) as [|x t] eqn:E; [done|]. destruct Hu.
      apply elem_of_keys_at. unfold at_key. rewrite E. by apply last_is_Some.
    + rewrite bool_decide_false by done. by rewrite app_nil_r.
Qed.

(** Two runs with the same last entry for each key end alike. *)
Lemma upsert_fold_same entries ups ups' :
  (∀ k, last (at_key entry_key k ups) = last (at_key entry_key k ups')) →
  match try_fold upsert_egress_entry entries ups, try_fold upsert_egress_entry entries ups' with
  | Ok l, Ok l' => ∀ k, at_key entry_key k l = at_key entry_key k l'
  | Err e, Err e' => e = e'
  | _, _ => False
  end.
Proof.
  intros Hlast. assert (Hfr : fresh entries ups ≡ₚ fresh entries ups').
  { apply NoDup_Permutation; [apply NoDup_remove_dups..|]. intros k.
    by rewrite !elem_of_fresh, !elem_of_keys_at, Hlast. }
  assert (Hf : fits entries ups ↔ fits entries ups').
  { unfold fits. rewrite (Permutation_length Hfr). by rewrite <-!length_zero_iff_nil, (Permutation_length Hfr). }
  pose proof (upsert_fold ups entries) as H1. pose proof (upsert_fold ups' entries) as H2.
  destruct (try_fold _ _ ups), (try_fold _ _ ups'); try tauto.
  - intros k. by rewrite (proj2 H1), (proj2 H2), Hlast.
  - destruct H1 as [-> _], H2 as [-> _]. done.
Qed.
End Upserts.

(** ** Reply entries as two runs of upserts *)

Definition both {A B} (r4 : result ApiError A) (r6 : result ApiError B) : result ApiError (A * B) :=
  match r4, r6 with
  | Ok a, Ok b => Ok (a, b)
  | _, _ => Err (EntryLimit POLICY_MAP_BANK_ENTRY_LIMIT)
  end.

Lemma try_fold_both {X A B} (F : A * B → X → result ApiError (A * B))
    {Y Z} (u4 : A → Y → result ApiError A) (u6 : B → Z → result ApiError B) f4 f6 l a b :
  (∀ a b x, x ∈ l → F (a, b) x = both (try_fold u4 a (f4 x)) (try_fold u6 b (f6 x))) →
  try_fold F (a, b) l
  = both (try_fold u4 a (List.flat_map f4 l)) (try_fold u6 b (List.flat_map f6 l)).
Proof.
  revert a b. induction l as [|x l IH]; intros a b HF; [done|]. simpl. rewrite !try_fold_app, HF by left.
  destruct (try_fold u4 a (f4 x)) as [a'|]; [|done].
  destruct (try_fold u6 b (f6 x)) as [b'|]; simpl.
  - apply IH. intros. apply HF. by right.
  - by destruct (try_fold u4 a' _).
Qed.

Definition gateway_ups4 (identity : IdentityId) (protocol : Z) (decision : PolicyDecisionRecord)
    (gateway : HostNetworkGateways) : list EgressIpv4PolicyMapEntry :=
  map (λ address, plain_entry {| ek4_source_identity := identity;
         ek4_destination_address := address; ek4_protocol := protocol;
         ek4_destination_port := 0 |} decision) (bset_iter (hng_ipv4 gateway)).

Definition gateway_ups6 (identity : IdentityId) (protocol : Z) (decision : PolicyDecisionRecord)
    (gateway : HostNetworkGateways) : list EgressIpv6PolicyMapEntry :=
  map (λ network, plain_entry {| ek6_source_identity := identity;
         ek6_destination_network := network; ek6_destination_prefix_len := 128;
         ek6_protocol := protocol; ek6_destination_port := 0 |} decision)
    (bset_iter (hng_ipv6 gateway)).

Lemma upsert_fold_Err {K} `{EqDecision K} (entries ups : list (MapEntry K)) e :
  try_fold upsert_egress_entry entries ups = Err e → e = EntryLimit POLICY_MAP_BANK_ENTRY_LIMIT.
Proof. intros H. pose proof (upsert_fold ups entries) as Hu. rewrite H in Hu. tauto. Qed.

Lemma add_gateway_both identity protocol decision a b gateway :
  add_gateway identity protocol decision (a, b) gateway
  = both (try_fold upsert_egress_entry a (gateway_ups4 identity protocol decision gateway))
      (try_fold upsert_egress_entry b (gateway_ups6 identity protocol decision gateway)).
Proof.
  unfold add_gateway, gateway_ups4, gateway_ups6. rewrite !try_fold_map.
  destruct (try_fold _ a _) as [a'|e] eqn:E; simpl.
  - destruct (try_fold _ b _) as [b'|e] eqn:E'; simpl; [done|].
    rewrite <-try_fold_map in E'. by apply upsert_fold_Err in E' as ->.
  - rewrite <-try_fold_map in E. by apply upsert_fold_Err in E as ->.
Qed.

(** What the reply entries of one endpoint are, for either family. *)
Definition reply_ups {E} (ups : IdentityId → Z → PolicyDecisionRecord → HostNetworkGateways → list E)
    (gateways : list HostNetworkGateways) (gateway_endpoint : Endpoint)
    (ingress_policies egress_policies : list PolicyIr) (endpoint : Endpoint) : list E :=
  if negb (existsb (kubernetes_target endpoint) egress_policies) then []
  else
    List.flat_map (λ policy,
      List.flat_map (λ rule,
        List.flat_map (ups (ep_identity endpoint)
            (match rule_protocol rule with Some protocol => protocol_u8 protocol | None => 0 end)
            (gateway_decision policy rule)) gateways)
        (List.filter (λ rule, bool_decide (rule_action rule = ActAllow)
                              && IdentitySelector_matches (rule_source rule) gateway_endpoint)
           (pol_rules policy)))
      (List.filter (kubernetes_target endpoint) ingress_policies).

Lemma add_endpoint_replies_both gateways gateway_endpoint ingress egress a b endpoint :
  add_endpoint_replies gateways gateway_endpoint ingress egress (a, b) endpoint
  = both
      (try_fold upsert_egress_entry a
        (reply_ups gateway_ups4 gateways gateway_endpoint ingress egress endpoint))
      (try_fold upsert_egress_entry b
        (reply_ups gateway_ups6 gateways gateway_endpoint ingress egress endpoint)).
Proof.
  unfold add_endpoint_replies, reply_ups. destruct (negb _); [done|].
  apply try_fold_both. intros a1 b1 policy _.
  apply try_fold_both. intros a2 b2 rule _.
  apply try_fold_both. intros a3 b3 gateway _. apply add_gateway_both.
Qed.

(** ** Endpoints of the same identity *)

Definition identity_functional (l : list Endpoint) : Prop :=
  ∀ x y, x ∈ l → y ∈ l → ep_identity x = ep_identity y → x = y.

Section SameEndpoints.
Context {K : Type} `{EqDecision K} (identity_of : K → IdentityId)
  (f : Endpoint → list (MapEntry K)).
Context (Hf : ∀ e x, x ∈ f e → identity_of (entry_key x) = ep_identity e).

Lemma at_key_other k e : ep_identity e ≠ identity_of k → at_key entry_key k (f e) = [].
Proof.
  intros Hne. destruct (at_key entry_key k (f e)) as [|x t] eqn:E; [done|].
  assert (Hin : x ∈ at_key entry_key k (f e)) by (rewrite E; left).
  apply list_elem_of_In, filter_In in Hin as [Hin Hk%bool_decide_eq_true].
  destruct Hne. rewrite <-Hk. symmetry. apply Hf. by apply list_elem_of_In.
Qed.

Lemma last_at_key_app k (l l' : list (MapEntry K)) :
  last (at_key entry_key k (l ++ l'))
  = match last (at_key entry_key k l') with
    | Some x => Some x
    | None => last (at_key entry_key k l)
    end.
Proof. unfold at_key. by rewrite List.filter_app, last_app. Qed.

Lemma last_flat_map_Some k l e :
  identity_functional l → e ∈ l → ep_identity e = identity_of k →
  last (at_key entry_key k (List.flat_map f l)) = last (at_key entry_key k (f e)).
Proof.
  induction l as [|x l IH]; intros Hfun He Hid; [by apply not_elem_of_nil in He|].
  simpl. rewrite last_at_key_app.
  assert (Hx : ep_identity x = identity_of k → x = e).
  { intros Hx. apply Hfun; [left|done|congruence]. }
  assert (Hnone : (∀ y, y ∈ l → ep_identity y ≠ identity_of k) →
    at_key entry_key k (List.flat_map f l) = []).
  { clear -Hf. induction l as [|y l IH]; intros Hno; [done|]. simpl. unfold at_key.
    rewrite List.filter_app. fold (at_key entry_key k (f y)). fold (at_key entry_key k (flat_map f l)).
    rewrite at_key_other by (apply Hno; left). apply IH. intros. apply Hno. by right. }
  destruct (decide (e ∈ l)) as [Hin|Hin].
  - rewrite IH; [|intros ? ? ? ?; apply Hfun; by right|done..].
    destruct (last (at_key entry_key k (f e))) eqn:E; [done|].
    destruct (decide (ep_identity x = identity_of k)) as [Heq|Hne]; [by rewrite (Hx Heq)|].
    by rewrite at_key_other.
  - apply elem_of_cons in He as [<-|?]; [|done]. rewrite Hnone; [done|].
    intros y Hy Heq. apply Hin. rewrite (Hfun e y); [done|left|by right|congruence].
Qed.

Lemma last_flat_map_same l l' k :
  identity_functional l → (∀ x, x ∈ l ↔ x ∈ l') →
  last (at_key entry_key k (List.flat_map f l)) = last (at_key entry_key k (List.flat_map f l')).
Proof.
  intros Hfun Hl. assert (Hfun' : identity_functional l').
  { intros x y Hx Hy. apply Hfun; by apply Hl. }
  destruct (List.find (λ e, ep_identity e =? identity_of k) l) as [e|] eqn:E.
  - apply find_some in E as [Hin%list_elem_of_In Hid%Z.eqb_eq].
    rewrite (last_flat_map_Some k l e) by done.
    by rewrite (last_flat_map_Some k l' e) by (done || by apply Hl).
  - assert (Hno : ∀ l0, (∀ x, x ∈ l ↔ x ∈ l0) → at_key entry_key k (List.flat_map f l0) = []).
    { intros l0 Hl0. destruct (at_key entry_key k (flat_map f l0)) as [|x t] eqn:Ex; [done|].
      assert (Hin : x ∈ at_key entry_key k (flat_map f l0)) by (rewrite Ex; left).
      apply list_elem_of_In, filter_In in Hin as [(e & He & Hxe)%in_flat_map Hk%bool_decide_eq_true].
      apply list_elem_of_In in He, Hxe. apply Hf in Hxe. rewrite Hk in Hxe. apply Hl0 in He.
      apply list_elem_of_In, (find_none _ _ E) in He. apply Z.eqb_neq in He. congruence. }
    by rewrite (Hno l), (Hno l').
Qed.
End SameEndpoints.

(** ** Lowering reads endpoints through their identities *)

Lemma unique_endpoints_Ok l : identity_functional l → ∃ m, unique_endpoints l = Ok m.
Proof.
  unfold unique_endpoints. intros Hfun.
  assert (Hgen : ∀ k (acc : gmap Z Endpoint), (∀ x, x ∈ k → x ∈ l) →
    (∀ i e, acc !! i = Some e → e ∈ l ∧ ep_identity e = i) →
    ∃ m, try_fold (λ unique endpoint,
      if is_some_and (unique !! ep_identity endpoint) (λ existing, negb (bool_decide (existing = endpoint)))
      then Err (IdentityMetadataConflict (ep_identity endpoint))
      else Ok (<[ep_identity endpoint := endpoint]> unique)) acc k = Ok m).
  { induction k as [|x k IH]; intros acc Hk Hacc; simpl; [by eexists|].
    destruct (is_some_and _ _) eqn:E.
    - destruct (acc !! ep_identity x) as [y|] eqn:Ey; [|done]. simpl in E.
      apply Hacc in Ey as [Hy Hid]. rewrite (Hfun y x), bool_decide_true in E by (done || apply Hk; left).
      done.
    - apply IH; [intros; apply Hk; by right|]. intros i e.
      rewrite lookup_insert_Some. intros [[<- <-]|[_ ?]]; [|by apply Hacc]. split; [apply Hk; left|done]. }
  apply (Hgen l ∅); [done|]. intros i e. by rewrite lookup_empty.
Qed.

Lemma unique_endpoints_same l l' :
  identity_functional l → (∀ x, x ∈ l ↔ x ∈ l') → unique_endpoints l = unique_endpoints l'.
Proof.
  intros Hfun Hl. destruct (unique_endpoints_Ok l Hfun) as [m Hm].
  destruct (unique_endpoints_Ok l') as [m' Hm']; [by intros x y Hx Hy; apply Hfun; apply Hl|].
  rewrite Hm, Hm'. f_equal. apply map_eq. intros i. apply option_eq. intros e.
  by rewrite (unique_endpoints_spec _ _ Hm), (unique_endpoints_spec _ _ Hm'), Hl.
Qed.

Section Same.
Context (l l' : list Endpoint) (Hu : unique_endpoints l = unique_endpoints l').

Lemma compile_dataplane_entries_same policies :
  compile_dataplane_entries policies l = compile_dataplane_entries policies l'.
Proof using Hu. unfold compile_dataplane_entries. by rewrite Hu. Qed.
Lemma compile_ipv4_dataplane_entries_same policies sources :
  compile_ipv4_dataplane_entries policies l sources = compile_ipv4_dataplane_entries policies l' sources.
Proof using Hu. unfold compile_ipv4_dataplane_entries. by rewrite Hu. Qed.
Lemma compile_ipv6_dataplane_entries_same policies sources :
  compile_ipv6_dataplane_entries policies l sources = compile_ipv6_dataplane_entries policies l' sources.
Proof using Hu. unfold compile_ipv6_dataplane_entries. by rewrite Hu. Qed.
Lemma compile_egress_ipv4_dataplane_entries_same policies destinations :
  compile_egress_ipv4_dataplane_entries policies l destinations
  = compile_egress_ipv4_dataplane_entries policies l' destinations.
Proof using Hu. unfold compile_egress_ipv4_dataplane_entries. by rewrite Hu. Qed.
Lemma compile_egress_ipv6_dataplane_entries_same policies destinations :
  compile_egress_ipv6_dataplane_entries policies l destinations
  = compile_egress_ipv6_dataplane_entries policies l' destinations.
Proof using Hu. unfold compile_egress_ipv6_dataplane_entries. by rewrite Hu. Qed.
End Same.

#[export] Instance EgressIpv4PolicyMapKey_ord_laws : OrdLaws EgressIpv4PolicyMapKey.
Proof. apply cmp_via_laws. by intros [] [] [= -> -> -> ->]. Qed.
#[export] Instance EgressIpv6PolicyMapKey_ord_laws : OrdLaws EgressIpv6PolicyMapKey.
Proof. apply cmp_via_laws. by intros [] [] [= -> -> -> -> ->]. Qed.

(** ** Reply entries *)

Lemma gateway_ups4_identity identity protocol decision gateway x :
  x ∈ gateway_ups4 identity protocol decision gateway → ek4_source_identity (entry_key x) = identity.
Proof. unfold gateway_ups4. rewrite elem_of_list_map. by intros (a & _ & ->). Qed.

Lemma gateway_ups6_identity identity protocol decision gateway x :
  x ∈ gateway_ups6 identity protocol decision gateway → ek6_source_identity (entry_key x) = identity.
Proof. unfold gateway_ups6. rewrite elem_of_list_map. by intros (a & _ & ->). Qed.

Lemma elem_of_reply_ups {E} (ups : IdentityId → Z → PolicyDecisionRecord → HostNetworkGateways → list E)
    gateways gateway_endpoint ingress egress endpoint x :
  x ∈ reply_ups ups gateways gateway_endpoint ingress egress endpoint →
  ∃ protocol decision gateway, x ∈ ups (ep_identity endpoint) protocol decision gateway.
Proof.
  unfold reply_ups. destruct (negb _); [by intros ?%not_elem_of_nil|].
  intros (policy & _ & (rule & _ & (gateway & _ & Hx)%in_flat_map)%in_flat_map)%list_elem_of_In%in_flat_map.
  apply list_elem_of_In in Hx. eauto.
Qed.

Lemma add_endpoint_replies_same gateways gateway_endpoint ingress egress a b l l' :
  identity_functional l → (∀ x, x ∈ l ↔ x ∈ l') →
  (let? (ipv4, ipv6) :=
     try_fold (add_endpoint_replies gateways gateway_endpoint ingress egress) (a, b) l in
   Ok (sort_by_key entry_key ipv4, sort_by_key entry_key ipv6))
  = (let? (ipv4, ipv6) :=
       try_fold (add_endpoint_replies gateways gateway_endpoint ingress egress) (a, b) l' in
     Ok (sort_by_key entry_key ipv4, sort_by_key entry_key ipv6)).
Proof.
  intros Hfun Hl. set (f4 := reply_ups gateway_ups4 gateways gateway_endpoint ingress egress).
  set (f6 := reply_ups gateway_ups6 gateways gateway_endpoint ingress egress).
  assert (Hb : ∀ k, try_fold (add_endpoint_replies gateways gateway_endpoint ingress egress) (a, b) k
    = both (try_fold upsert_egress_entry a (List.flat_map f4 k))
        (try_fold upsert_egress_entry b (List.flat_map f6 k))).
  { intros k. apply try_fold_both. intros. apply add_endpoint_replies_both. }
  rewrite !Hb. clear Hb.
  assert (H4 : ∀ k, last (at_key entry_key k (flat_map f4 l)) = last (at_key entry_key k (flat_map f4 l'))).
  { intros k. apply (last_flat_map_same ek4_source_identity); [|done..].
    intros e x (? & ? & ? & ?%gateway_ups4_identity)%elem_of_reply_ups. done. }
  assert (H6 : ∀ k, last (at_key entry_key k (flat_map f6 l)) = last (at_key entry_key k (flat_map f6 l'))).
  { intros k. apply (last_flat_map_same ek6_source_identity); [|done..].
    intros e x (? & ? & ? & ?%gateway_ups6_identity)%elem_of_reply_ups. done. }
  apply (upsert_fold_same a) in H4. apply (upsert_fold_same b) in H6.
  destruct (try_fold _ a (flat_map f4 l)), (try_fold _ a (flat_map f4 l')); try done.
  destruct (try_fold _ b (flat_map f6 l)), (try_fold _ b (flat_map f6 l')); try done. simpl.
  f_equal. f_equal; by apply sort_by_key_ext.
Qed.

(** ** The snapshot of two states *)

(** The host-network Pods with an address: endpoint and addresses. *)
Definition host_inputs (st : ControllerState) : list (Endpoint * gset Z * gset Z) :=
  List.filter (λ '(_, ipv4, ipv6), negb (bool_decide (ipv4 = ∅)) || negb (bool_decide (ipv6 = ∅)))
    (map (λ pod, (endpoint_with_namespace_labels (namespaces st) (pr_endpoint pod),
                  pr_ipv4_addresses pod, pr_ipv6_addresses pod))
       (List.filter pr_host_network (btree_values (pods st)))).

Record same_inputs (st st' : ControllerState) : Prop := {
  si_revision : rev_policy (revisions st) = rev_policy (revisions st');
  si_policies : compiled_policies st = compiled_policies st';
  si_functional : identity_functional (endpoints_with_namespace_labels st);
  si_endpoints : ∀ x, x ∈ endpoints_with_namespace_labels st ↔ x ∈ endpoints_with_namespace_labels st';
  si_ipv4 : ipv4_endpoints_with_namespace_labels st = ipv4_endpoints_with_namespace_labels st';
  si_ipv6 : ipv6_endpoints_with_namespace_labels st = ipv6_endpoints_with_namespace_labels st';
  si_hosts : host_inputs st = host_inputs st';
  si_gateway_endpoint :
    host_network_gateway_endpoint (namespaces st) = host_network_gateway_endpoint (namespaces st');
  si_gateways : host_network_gateways st = host_network_gateways st';
  si_transports : node_transports st = node_transports st';
}.

Lemma bset_iter_empty : bset_iter (∅ : gset Z) = [].
Proof. unfold bset_iter. by rewrite elements_empty. Qed.

Lemma add_host_fold st ingress endpoints a b :
  try_fold (λ '(ipv4_entries, ipv6_entries) pod,
      let endpoint := endpoint_with_namespace_labels (namespaces st) (pr_endpoint pod) in
      let? ipv4_entries :=
        try_fold (add_host_ipv4_address ingress endpoints endpoint) ipv4_entries
          (bset_iter (pr_ipv4_addresses pod)) in
      let? ipv6_entries :=
        try_fold (add_host_ipv6_address ingress endpoints endpoint) ipv6_entries
          (bset_iter (pr_ipv6_addresses pod)) in
      Ok (ipv4_entries, ipv6_entries)) (a, b) (List.filter pr_host_network (btree_values (pods st)))
  = try_fold (λ '(ipv4_entries, ipv6_entries) '(endpoint, ipv4, ipv6),
      let? ipv4_entries :=
        try_fold (add_host_ipv4_address ingress endpoints endpoint) ipv4_entries (bset_iter ipv4) in
      let? ipv6_entries :=
        try_fold (add_host_ipv6_address ingress endpoints endpoint) ipv6_entries (bset_iter ipv6) in
      Ok (ipv4_entries, ipv6_entries)) (a, b) (host_inputs st).
Proof.
  unfold host_inputs. revert a b.
  induction (List.filter pr_host_network _) as [|pod l IH]; intros a b; [done|].
  simpl. destruct (negb _ || negb _) eqn:E; simpl.
  - destruct (try_fold _ a _); [|done]. destruct (try_fold _ b _); [|done]. apply IH.
  - apply orb_false_iff in E as [->%negb_false_iff%bool_decide_eq_true E%negb_false_iff%bool_decide_eq_true].
    rewrite E, bset_iter_empty. apply IH.
Qed.

Lemma add_host_network_ingress_entries_same st st' ingress a b :
  same_inputs st st' →
  add_host_network_ingress_entries st ingress (endpoints_with_namespace_labels st) a b
  = add_host_network_ingress_entries st' ingress (endpoints_with_namespace_labels st') a b.
Proof.
  intros H. unfold add_host_network_ingress_entries. rewrite !add_host_fold, (si_hosts _ _ H).
  pose proof (unique_endpoints_same _ _ (si_functional _ _ H) (si_endpoints _ _ H)) as Hu.
  erewrite try_fold_ext; [done|]. intros [a1 b1] [[endpoint v4] v6] _.
  rewrite (try_fold_ext (add_host_ipv4_address _ _ _)
    (add_host_ipv4_address ingress (endpoints_with_namespace_labels st') endpoint));
    [|intros; unfold add_host_ipv4_address; by rewrite (compile_ipv4_dataplane_entries_same _ _ Hu)].
  destruct (try_fold _ a1 _); [|done].
  by rewrite (try_fold_ext (add_host_ipv6_address _ _ _)
    (add_host_ipv6_address ingress (endpoints_with_namespace_labels st') endpoint));
    [|intros; unfold add_host_ipv6_address; by rewrite (compile_ipv6_dataplane_entries_same _ _ Hu)].
Qed.

Lemma add_ovn_host_network_reply_entries_same st st' ingress egress entries :
  same_inputs st st' →
  add_ovn_host_network_reply_entries st ingress egress (endpoints_with_namespace_labels st) entries
  = add_ovn_host_network_reply_entries st' ingress egress (endpoints_with_namespace_labels st') entries.
Proof.
  intros H. unfold add_ovn_host_network_reply_entries. destruct entries as [a b].
  rewrite (si_gateways _ _ H), (si_gateway_endpoint _ _ H). case_bool_decide; [done|].
  apply add_endpoint_replies_same; apply H.
Qed.

Lemma add_primary_node_traffic_entries_same st st' entries :
  same_inputs st st' →
  add_primary_node_traffic_entries st entries = add_primary_node_traffic_entries st' entries.
Proof. intros H. unfold add_primary_node_traffic_entries. by rewrite (si_transports _ _ H). Qed.

Lemma compute_policy_state_same st st' :
  same_inputs st st' → compute_policy_state st = compute_policy_state st'.
Proof.
  intros H. pose proof (unique_endpoints_same _ _ (si_functional _ _ H) (si_endpoints _ _ H)) as Hu.
  unfold compute_policy_state.
  rewrite (si_policies _ _ H), (si_ipv4 _ _ H), (si_ipv6 _ _ H), (si_revision _ _ H).
  rewrite (compile_dataplane_entries_same _ _ Hu), (compile_ipv4_dataplane_entries_same _ _ Hu),
    (compile_ipv6_dataplane_entries_same _ _ Hu), (compile_egress_ipv4_dataplane_entries_same _ _ Hu),
    (compile_egress_ipv6_dataplane_entries_same _ _ Hu).
  destruct (lowered_ok _); [|done]. destruct (lowered_ok _); [|done]. destruct (lowered_ok _); [|done].
  rewrite (add_host_network_ingress_entries_same _ _ _ _ _ H).
  destruct (add_host_network_ingress_entries _ _ _ _ _) as [[a b]|]; [|done].
  destruct (lowered_ok _); [|done]. destruct (lowered_ok _); [|done].
  rewrite (add_primary_node_traffic_entries_same _ _ _ H).
  destruct (add_primary_node_traffic_entries _ _); [|done].
  by rewrite (add_ovn_host_network_reply_entries_same _ _ _ _ _ H).
Qed.
