(* ===== verification/ControllerInvariant.v ===== *)
(** * Invariants of the watched state

    In every state the handlers reach: the registry binds exactly the recorded Pods, Pods
    of one identity have the same metadata, node blocks are those the inputs admit, and the
    revision moves with everything the published snapshot is computed from. *)

From coqutil Require Import Datatypes.RecordSetters.
From S2P Require Import Prelude Common NetAddr Ipam PolicyIr PolicyCompile NetworkPolicy IdentityRegistry CanonicalKey PolicyLower PolicyLowerSpec PolicyLowerFacts PolicyInstalled NodeBlocks Controller ControllerSnapshot ControllerFacts.
Import DoubleBraceUpdate.

(** A field a conditional bump does not touch. *)
Ltac bumped :=
  unfold bump_if, bump_policy_revision, bump_topology_revision, bump_routing_revision in *;
  simpl in *;
  repeat match goal with |- context [if ?b then _ else _] => destruct b; simpl end.

(** ** Pods and identities *)

Definition address_set (ipv4 ipv6 : gset Z) : gset IpAddr := set_map V4 ipv4 ∪ set_map V6 ipv6.

Definition pod_binding (p : PodRecord) : PodIdentityBinding := {|
  pb_identity_id := ep_identity (pr_endpoint p);
  pb_addresses :=
    if pr_host_network p then ∅ else address_set (pr_ipv4_addresses p) (pr_ipv6_addresses p) |}.

(** The metadata of an endpoint is what its canonical key names. *)
Definition described_by (e : Endpoint) (key : string) : Prop :=
  ep_namespace_labels e = ∅ ∧ ep_application e = pod_application (ep_labels e) ∧
  ∃ workload, key = canonical_identity_key "local" (ep_namespace e) (ep_service_account e) workload
    (ep_labels e) (ep_named_ports e).

Lemma described_by_inj e e' key :
  described_by e key → described_by e' key → ep_identity e = ep_identity e' → e = e'.
Proof.
  intros (Hl & Ha & w & ->) (Hl' & Ha' & w' & Hk) Hid.
  apply canonical_identity_key_inj in Hk as (_ & Hn & Hs & _ & Hlab & Hp).
  destruct e, e'. simpl in *. by subst.
Qed.

Definition pod_wf (p : PodRecord) : Prop :=
  pr_namespace p = ep_namespace (pr_endpoint p) ∧
  Forall (in_width 32) (elements (pr_ipv4_addresses p)) ∧
  Forall (in_width 128) (elements (pr_ipv6_addresses p)) ∧
  1 ≤ ep_identity (pr_endpoint p) < 2 ^ 32 ∧
  map_Forall (λ _ port, 0 < port < 2 ^ 16) (ep_named_ports (pr_endpoint p)).

Record pods_inv (records : gmap string PodRecord) (r : IdentityRegistry) : Prop := {
  pi_registry : registry_wf r;
  pi_bindings : ir_pods r = pod_binding <$> records;
  pi_described : ∀ k p, records !! k = Some p → ∃ entry,
    ir_identities r !! ep_identity (pr_endpoint p) = Some entry ∧
    described_by (pr_endpoint p) (ie_canonical_key entry);
  pi_wf : map_Forall (λ _ p, pod_wf p) records;
}.

Lemma pods_inv_functional records r k k' p p' :
  pods_inv records r → records !! k = Some p → records !! k' = Some p' →
  ep_identity (pr_endpoint p) = ep_identity (pr_endpoint p') → pr_endpoint p = pr_endpoint p'.
Proof.
  intros H Hp Hp' Hid. destruct (pi_described _ _ H k p Hp) as (e & He & Hd).
  destruct (pi_described _ _ H k' p' Hp') as (e' & He' & Hd').
  rewrite Hid, He' in He. injection He as ->. by eapply described_by_inj.
Qed.

Lemma pods_inv_initial : pods_inv ∅ IdentityRegistry_default.
Proof.
  split; [apply registry_default_wf|by rewrite fmap_empty|by intros k p; rewrite lookup_empty|
    apply map_Forall_empty].
Qed.

(** *** What a Pod object gives *)

Lemma insert_address_wf addresses text :
  (∀ a, a ∈ addresses → ip_wf a) → ∀ a, a ∈ insert_address addresses text → ip_wf a.
Proof.
  intros H a. unfold insert_address. destruct (parse_ip_addr text) as [b|] eqn:E; [|by apply H].
  rewrite elem_of_union, elem_of_singleton. intros [->|?]; [by eapply parse_ip_addr_wf|by apply H].
Qed.

Lemma pod_status_addresses_wf pod a : a ∈ pod_status_addresses pod → ip_wf a.
Proof.
  unfold pod_status_addresses. destruct (pod_status pod) as [status|]; [|by intros ?%not_elem_of_empty].
  assert (Hfold : ∀ l (acc : gset IpAddr), (∀ a, a ∈ acc → ip_wf a) →
    ∀ a, a ∈ fold_left insert_address l acc → ip_wf a).
  { induction l as [|x l IH]; intros acc Hacc; simpl; [done|]. apply IH, insert_address_wf, Hacc. }
  assert (Hin : ∀ a, a ∈ fold_left insert_address (default [] (pstatus_pod_ips status)) ∅ → ip_wf a).
  { apply Hfold. by intros b ?%not_elem_of_empty. }
  destruct (pstatus_pod_ip status); [by apply insert_address_wf|apply Hin].
Qed.

Lemma pod_address_families_spec pod ipv4 ipv6 :
  pod_address_families pod = (ipv4, ipv6) →
  address_set ipv4 ipv6 = pod_status_addresses pod ∧
  Forall (in_width 32) (elements ipv4) ∧ Forall (in_width 128) (elements ipv6).
Proof.
  unfold pod_address_families. pose proof (pod_status_addresses_wf pod) as Hwf.
  set (s := pod_status_addresses pod) in *.
  assert (Hgen : ∀ l (acc : gset Z * gset Z), fold_left (λ '(ipv4, ipv6) address,
      match address with
      | V4 address => ({[ address ]} ∪ ipv4, ipv6)
      | V6 address => (ipv4, {[ address ]} ∪ ipv6)
      end) l acc = (ipv4, ipv6) →
    (∀ x, x ∈ ipv4 ↔ x ∈ acc.1 ∨ V4 x ∈ l) ∧ (∀ x, x ∈ ipv6 ↔ x ∈ acc.2 ∨ V6 x ∈ l)).
  { induction l as [|[x|x] l IH]; intros [a b]; simpl.
    - intros [= -> ->]. split; intros y; rewrite elem_of_nil; tauto.
    - intros [H4 H6]%IH. simpl in *. setoid_rewrite elem_of_cons. split; intros y;
        rewrite ?H4, ?H6, ?elem_of_union, ?elem_of_singleton; naive_solver.
    - intros [H4 H6]%IH. simpl in *. setoid_rewrite elem_of_cons. split; intros y;
        rewrite ?H4, ?H6, ?elem_of_union, ?elem_of_singleton; naive_solver. }
  intros [H4 H6]%Hgen. simpl in H4, H6. setoid_rewrite elem_of_bset_iter in H4.
  setoid_rewrite elem_of_bset_iter in H6. setoid_rewrite elem_of_empty in H4.
  setoid_rewrite elem_of_empty in H6. split_and!.
  - apply set_eq. intros [x|x]; unfold address_set; rewrite elem_of_union, !elem_of_map.
    + split; [intros [(y & [= ->] & ?%H4)|(y & ? & _)]; naive_solver|]. intros. left. exists x.
      split; [done|]. apply H4. tauto.
    + split; [intros [(y & ? & _)|(y & [= ->] & ?%H6)]; naive_solver|]. intros. right. exists x.
      split; [done|]. apply H6. tauto.
  - apply Forall_forall. intros x Hx%elem_of_elements%H4. apply (Hwf (V4 x)). tauto.
  - apply Forall_forall. intros x Hx%elem_of_elements%H6. apply (Hwf (V6 x)). tauto.
Qed.

Lemma pod_named_ports_wf pod named_ports :
  pod_named_ports pod = Ok named_ports → map_Forall (λ _ port, 0 < port < 2 ^ 16) named_ports.
Proof.
  unfold pod_named_ports. apply try_fold_inv; [apply map_Forall_empty|].
  intros m container m' _ Hm. apply try_fold_inv; [done|]. clear m Hm.
  intros m port m1 _ Hm. unfold add_named_port. destruct (cport_name port) as [name|]; [|by intros [= <-]].
  destruct (container_port_protocol port) as [protocol|]; [|by intros [= <-]].
  destruct (try_width 16 _) as [number|] eqn:E; [|done]. simpl.
  apply try_width_Some in E as [-> Hw]. unfold in_width in Hw.
  destruct (Z.eqb_spec (cport_container_port port) 0); [done|].
  assert (Hins : ∀ key, map_Forall (λ _ port, 0 < port < 2 ^ 16)
    (<[key := cport_container_port port]> m)).
  { intros key. apply map_Forall_insert_2; [lia|done]. }
  destruct (m !! _) as [existing|]; [destruct (_ =? _); [|done]|]; intros [= <-]; apply Hins.
Qed.

Section Steps.
Context `{KubeLibrary}.

Lemma pod_record_binding pod id named_ports :
  pod_binding (pod_record pod id named_ports)
  = {| pb_identity_id := id; pb_addresses := pod_addresses pod |}.
Proof.
  unfold pod_record, pod_binding, pod_addresses.
  destruct (pod_address_families pod) as [ipv4 ipv6] eqn:E. simpl.
  apply pod_address_families_spec in E as [-> _]. by destruct (pod_uses_host_network pod).
Qed.

Lemma pod_record_wf pod id named_ports :
  pod_named_ports pod = Ok named_ports → 1 ≤ id < 2 ^ 32 → pod_wf (pod_record pod id named_ports).
Proof.
  intros Hn Hid. unfold pod_record, pod_wf. destruct (pod_address_families pod) as [ipv4 ipv6] eqn:E.
  apply pod_address_families_spec in E as (_ & ? & ?). simpl. split_and!; try done; try lia.
  by eapply pod_named_ports_wf.
Qed.

Lemma pod_record_endpoint pod id named_ports :
  pr_endpoint (pod_record pod id named_ports) = pod_endpoint pod id named_ports.
Proof. unfold pod_record. by destruct (pod_address_families pod). Qed.

(** Binding one Pod, by the effect of an admission on the registry. *)
Lemma pods_inv_admit records r r' key pod named_ports :
  let identity_key := pod_identity_key pod named_ports in
  let id := provisional_identity_id identity_key in
  pods_inv records r → pod_named_ports pod = Ok named_ports →
  IdentityRegistry_admit_pod r key identity_key (pod_network_identity pod id)
    (bset_iter (pod_addresses pod)) = (Ok (), r') →
  pods_inv (<[key := pod_record pod id named_ports]> records) r'.
Proof.
  intros identity_key id Hinv Hn Hadmit.
  apply admit_pod_spec in Hadmit as [Hwf (Hp & (entry & He & Hk & _) & Ho & Hc & _)]; [|apply Hinv].
  rewrite collision_None in Hc. simpl in *.
  assert (Hpods : ir_pods r' = pod_binding <$> <[key := pod_record pod id named_ports]> records).
  { rewrite Hp, (pi_bindings _ _ Hinv), fmap_insert, pod_record_binding. f_equal. f_equal.
    apply set_eq. intros a. by rewrite elem_of_list_to_set, elem_of_bset_iter. }
  split; [done|done| |].
  - intros k p Hkp. destruct (decide (ep_identity (pr_endpoint p) = id)) as [Hid|Hid].
    + exists entry. rewrite Hid, He. split; [done|]. rewrite Hk.
      apply lookup_insert_Some in Hkp as [[_ <-]|[_ Hkp]].
      * rewrite pod_record_endpoint. by split_and!; [done..|eexists].
      * destruct (pi_described _ _ Hinv k p Hkp) as (e0 & He0 & Hd). rewrite Hid in He0.
        by rewrite (Hc e0 He0) in Hd.
    + apply lookup_insert_Some in Hkp as [[_ <-]|[Hne Hkp]];
        [by rewrite pod_record_endpoint in Hid|].
      destruct (bound_identity r' k (pod_binding p) Hwf) as [e He'].
      { by rewrite Hpods, lookup_fmap, lookup_insert_ne, Hkp. }
      exists e. split; [done|]. destruct (Ho _ e Hid He') as (e0 & He0 & <- & _).
      destruct (pi_described _ _ Hinv k p Hkp) as (e1 & He1 & Hd). congruence.
  - apply map_Forall_insert_2; [|apply Hinv]. apply pod_record_wf; [done|].
    apply provisional_identity_id_range.
Qed.

Lemma upsert_pod_inv st pod :
  pods_inv (pods st) (identities st) →
  pods_inv (pods (upsert_pod st pod)) (identities (upsert_pod st pod)).
Proof.
  intros Hinv. unfold upsert_pod. destruct (pod_named_ports pod) as [named_ports|] eqn:En; [|done].
  destruct (IdentityRegistry_admit_pod _ _ _ _ _) as [[[]|e] r'] eqn:Ea.
  - eapply pods_inv_admit in Ea; [|done..]. by bumped.
  - apply admit_pod_spec in Ea as [_ Hr]; [|apply Hinv].
    assert (r' = identities st) as -> by (by destruct e, Hr). done.
Qed.

Lemma pods_inv_remove records r key :
  pods_inv records r → pods_inv (delete key records) (IdentityRegistry_remove_pod r key).2.
Proof.
  intros Hinv. pose proof (remove_pod_spec r key (pi_registry _ _ Hinv)) as Hr.
  destruct (IdentityRegistry_remove_pod r key) as [removed r']. simpl.
  destruct Hr as (Hwf & Hp & _ & _ & Hid).
  assert (Hpods : ir_pods r' = pod_binding <$> delete key records).
  { by rewrite Hp, (pi_bindings _ _ Hinv), fmap_delete. }
  split; [done|done| |by apply map_Forall_delete, Hinv].
  intros k p Hkp. destruct (bound_identity r' k (pod_binding p) Hwf) as [e He].
  { by rewrite Hpods, lookup_fmap, Hkp. }
  exists e. split; [done|]. destruct (Hid _ e He) as (e0 & He0 & <-).
  apply lookup_delete_Some in Hkp as [_ Hkp].
  destruct (pi_described _ _ Hinv k p Hkp) as (e1 & He1 & Hd). simpl in *. congruence.
Qed.

Lemma remove_pod_inv st key :
  pods_inv (pods st) (identities st) →
  pods_inv (pods (remove_pod st key)) (identities (remove_pod st key)).
Proof.
  intros Hinv%(pods_inv_remove _ _ key). unfold remove_pod. destruct (pods st !! key); by bumped.
Qed.

Lemma apply_pod_event_inv st event :
  pods_inv (pods st) (identities st) →
  pods_inv (pods (apply_pod_event st event)) (identities (apply_pod_event st event)).
Proof.
  intros Hinv. destruct event as [pod|pod|pod| |]; simpl.
  1-2: destruct (pod_is_terminal pod); [by apply remove_pod_inv|by apply upsert_pod_inv].
  - by apply remove_pod_inv.
  - assert (pods_inv ∅ (IdentityRegistry_clear (identities st))).
    { destruct (clear_spec _ (pi_registry _ _ Hinv)) as (Hwf & Hp & _).
      split; [done|by rewrite Hp, fmap_empty|by intros k p; rewrite lookup_empty|apply map_Forall_empty]. }
    by bumped.
  - done.
Qed.

(** ** Nodes *)

Record nodes_inv (st : ControllerState) : Prop := {
  ni_inputs : inputs_wf (node_block_inputs st);
  ni_initialization : ∀ inputs, node_block_initialization st = Some inputs → inputs_wf inputs;
  ni_blocks : block_candidate <$> node_blocks st = (node_candidates (node_block_inputs st)).1;
  ni_rejected : rejected_node_blocks st = (node_candidates (node_block_inputs st)).2;
  ni_gateways : map_Forall (λ _ g, g ≠ HostNetworkGateways_default) (host_network_gateways st);
}.

(** The fields the node handlers leave alone. *)
Definition node_frame (st st' : ControllerState) : Prop :=
  identity_epoch st' = identity_epoch st ∧ pods st' = pods st ∧ identities st' = identities st ∧
  namespaces st' = namespaces st ∧ compiled_security_policies st' = compiled_security_policies st ∧
  compiled_network_policies st' = compiled_network_policies st ∧
  network_policies st' = network_policies st ∧
  dataplane_policy_cache st' = dataplane_policy_cache st.

Lemma recompute_node_blocks_spec st :
  let st' := recompute_node_blocks st in
  node_frame st st' ∧ node_block_inputs st' = node_block_inputs st ∧
  node_block_initialization st' = node_block_initialization st ∧
  host_network_gateways st' = host_network_gateways st ∧
  block_candidate <$> node_blocks st' = (node_candidates (node_block_inputs st)).1 ∧
  rejected_node_blocks st' = (node_candidates (node_block_inputs st)).2 ∧
  rev_policy (revisions st') =
    (if assignments_changed (node_blocks st) (node_candidates (node_block_inputs st)).1
     then Revision_next (rev_policy (revisions st)) else rev_policy (revisions st)).
Proof.
  unfold recompute_node_blocks. destruct (node_candidates _) as [candidates rejected]. simpl.
  destruct (assignments_changed _ _) eqn:Ea; simpl.
  - unfold node_frame. split_and!; try done. apply next_assignments_candidates.
  - case_bool_decide as Hr; unfold node_frame; split_and!; try done.
    + by apply assignments_unchanged.
    + apply next_assignments_candidates.
Qed.

(** ** Steps that move the revision, or leave the snapshot as it is *)

Lemma same_inputs_refl st :
  identity_functional (endpoints_with_namespace_labels st) → same_inputs st st.
Proof. intros Hfun. by split. Qed.

Lemma same_inputs_trans st1 st2 st3 :
  same_inputs st1 st2 → same_inputs st2 st3 → same_inputs st1 st3.
Proof.
  intros [R1 P1 F1 E1 V1 W1 H1 G1 N1 T1] [R2 P2 _ E2 V2 W2 H2 G2 N2 T2].
  split; [by rewrite R1|by rewrite P1|done|intros x; by rewrite E1, E2|by rewrite V1|by rewrite W1|
    by rewrite H1|by rewrite G1|by rewrite N1|by rewrite T1].
Qed.

(** Either the revision moved, short of its last value, or the inputs are the same. *)
Definition settles (st st' : ControllerState) : Prop :=
  rev_policy (revisions st) ≤ rev_policy (revisions st') ∧
  (rev_policy (revisions st') = rev_policy (revisions st) →
   rev_policy (revisions st) < u_max 64 → same_inputs st st').

Lemma settles_trans st1 st2 st3 : settles st1 st2 → settles st2 st3 → settles st1 st3.
Proof.
  intros [L1 S1] [L2 S2]. split; [lia|]. intros Heq Hlt.
  eapply same_inputs_trans; [apply S1|apply S2]; lia.
Qed.

Lemma settles_same st st' : same_inputs st st' → settles st st'.
Proof. intros Hs. split; [rewrite (si_revision _ _ Hs); lia|done]. Qed.

Lemma settles_bump_if c st st' :
  rev_policy (revisions st') = rev_policy (revisions st) → (c = false → same_inputs st st') →
  rev_policy (revisions st) ≤ u_max 64 →
  settles st (bump_if c bump_policy_revision st').
Proof.
  intros Hrev Hsame Hmax. destruct c; [|by apply settles_same, Hsame]. unfold settles. simpl.
  change (rev_policy (revisions st) ≤ Revision_next (rev_policy (revisions st')) ∧
    (Revision_next (rev_policy (revisions st')) = rev_policy (revisions st) →
     rev_policy (revisions st) < u_max 64 → same_inputs st (bump_policy_revision st'))).
  rewrite Hrev. unfold Revision_next. split; [lia|]. intros; lia.
Qed.

Lemma same_inputs_topology c st st' :
  same_inputs st st' → same_inputs st (bump_if c bump_topology_revision st').
Proof. intros Hs. destruct c; [|done]. destruct Hs. split; assumption. Qed.

(** A Pod seen by the lowering. *)
Definition pod_agrees (ns ns' : gmap string (gmap string string)) (p p' : PodRecord) : Prop :=
  endpoint_with_namespace_labels ns (pr_endpoint p) = endpoint_with_namespace_labels ns' (pr_endpoint p') ∧
  pr_host_network p = pr_host_network p' ∧
  pr_ipv4_addresses p = pr_ipv4_addresses p' ∧ pr_ipv6_addresses p = pr_ipv6_addresses p'.

Lemma same_inputs_pods st st' :
  rev_policy (revisions st) = rev_policy (revisions st') →
  compiled_policies st = compiled_policies st' →
  identity_functional (endpoints_with_namespace_labels st) →
  Forall2 (pod_agrees (namespaces st) (namespaces st')) (btree_values (pods st)) (btree_values (pods st')) →
  host_network_gateway_endpoint (namespaces st) = host_network_gateway_endpoint (namespaces st') →
  host_network_gateways st = host_network_gateways st' →
  node_transports st = node_transports st' →
  same_inputs st st'.
Proof.
  intros Hrev Hpol Hfun Hpods Hge Hg Ht.
  assert (Hep : endpoints_with_namespace_labels st = endpoints_with_namespace_labels st').
  { unfold endpoints_with_namespace_labels. induction Hpods as [|p p' l l' [He _] _ IH]; simpl; [done|].
    by rewrite He, IH. }
  split; try done.
  - by rewrite Hep.
  - unfold ipv4_endpoints_with_namespace_labels. rewrite Hge, Hg. f_equal.
    clear Hep Hfun. induction Hpods as [|p p' l l' (He & Hh & H4 & H6) _ IH]; simpl; [done|].
    rewrite Hh. destruct (negb _); simpl; [|done]. by rewrite He, H4, IH.
  - unfold ipv6_endpoints_with_namespace_labels. rewrite Hge, Hg. f_equal.
    clear Hep Hfun. induction Hpods as [|p p' l l' (He & Hh & H4 & H6) _ IH]; simpl; [done|].
    rewrite Hh. destruct (negb _); simpl; [|done]. by rewrite He, H6, IH.
  - unfold host_inputs. clear Hep Hfun.
    induction Hpods as [|p p' l l' (He & Hh & H4 & H6) _ IH]; simpl; [done|].
    rewrite Hh. destruct (pr_host_network p'); simpl; [|done]. rewrite He, H4, H6, IH. done.
Qed.

(** The usual case: Pods and namespaces are the same. *)
Lemma same_inputs_fields st st' :
  identity_functional (endpoints_with_namespace_labels st) →
  rev_policy (revisions st') = rev_policy (revisions st) →
  compiled_policies st' = compiled_policies st →
  pods st' = pods st → namespaces st' = namespaces st →
  host_network_gateways st' = host_network_gateways st →
  node_transports st' = node_transports st →
  same_inputs st st'.
Proof.
  intros Hfun Hrev Hpol Hp Hn Hg Ht. apply same_inputs_pods; try (done || congruence).
  rewrite Hp, Hn. apply Forall2_same_length_lookup. split; [done|]. intros. by simplify_eq.
Qed.

Lemma elem_of_node_transports st t :
  t ∈ node_transports st ↔ ∃ n, (block_candidate <$> node_blocks st) !! n ≫= (λ c,
    match c.2 with Ok t => Some t | Err _ => None end) = Some t.
Proof.
  unfold node_transports. rewrite elem_of_list_to_set, list_elem_of_omap.
  setoid_rewrite elem_of_btree_values. setoid_rewrite lookup_fmap. split.
  - intros (a & (n & Hn) & Ha). exists n. by rewrite Hn.
  - intros (n & Hn). destruct (node_blocks st !! n) as [a|] eqn:Ea; [|done].
    exists a. split; [by exists n|exact Hn].
Qed.

Lemma node_transports_candidates st st' :
  block_candidate <$> node_blocks st = block_candidate <$> node_blocks st' →
  node_transports st = node_transports st'.
Proof. intros Hb. apply set_eq. intros t. by rewrite !elem_of_node_transports, Hb. Qed.

(** ** The invariant *)

Record controller_inv (st : ControllerState) : Prop := {
  ci_pods : pods_inv (pods st) (identities st);
  ci_nodes : nodes_inv st;
  ci_revision : 0 ≤ rev_policy (revisions st) ≤ u_max 64;
}.

Lemma ci_functional st :
  controller_inv st → identity_functional (endpoints_with_namespace_labels st).
Proof.
  intros Hinv x y. unfold endpoints_with_namespace_labels. rewrite !elem_of_list_map.
  intros (p & (k & Hp)%elem_of_btree_values & ->) (p' & (k' & Hp')%elem_of_btree_values & ->).
  simpl. intros Hid.
  by rewrite (pods_inv_functional _ _ k k' p p' (ci_pods _ Hinv) Hp Hp' Hid).
Qed.

(** The case analysis of the policy handlers: the compiled policies, as the two maps. *)
Lemma settles_policies c st st' :
  controller_inv st → rev_policy (revisions st') = rev_policy (revisions st) →
  pods st' = pods st → namespaces st' = namespaces st →
  host_network_gateways st' = host_network_gateways st →
  node_blocks st' = node_blocks st →
  (c = false → compiled_security_policies st' = compiled_security_policies st ∧
               compiled_network_policies st' = compiled_network_policies st) →
  settles st (bump_if c bump_policy_revision st').
Proof.
  intros Hinv Hrev Hp Hn Hg Hb Hc. apply settles_bump_if; [done| |apply Hinv].
  intros [Hs Hk]%Hc. apply same_inputs_fields; try done; [by apply ci_functional|..].
  - unfold compiled_policies. by rewrite Hs, Hk.
  - unfold node_transports. by rewrite Hb.
Qed.

Lemma map_cleared {V} (m : gmap string V) `{Decision (m = ∅)} : negb (bool_decide (m = ∅)) = false → ∅ = m.
Proof. by intros ->%negb_false_iff%bool_decide_eq_true. Qed.

Lemma map_deleted {V} (m : gmap string V) k : bool_decide (is_Some (m !! k)) = false → delete k m = m.
Proof. intros ?%bool_decide_eq_false%eq_None_not_Some. by apply delete_id. Qed.

Lemma map_inserted {V} `{EqDecision V} (m : gmap string V) k v :
  negb (bool_decide (m !! k = Some v)) = false → <[k := v]> m = m.
Proof. intros ?%negb_false_iff%bool_decide_eq_true. by apply insert_id. Qed.

Lemma apply_policy_event_settles st event :
  controller_inv st → settles st (apply_policy_event st event).
Proof.
  intros Hinv. pose proof (settles_same _ _ (same_inputs_refl _ (ci_functional _ Hinv))) as Hrefl.
  destruct event as [policy|policy|policy| |]; simpl; [| | | |done].
  1-2: destruct (PolicyCompiler_compile _ _) as [ir|e]; apply settles_policies; try done;
    intros Hc; split; try done; (by apply map_inserted || by apply map_deleted).
  - apply settles_policies; try done. intros Hc. split; [by apply map_deleted|done].
  - apply settles_policies; try done. intros Hc. split; [exact (map_cleared _ Hc)|done].
Qed.

Lemma apply_network_policy_event_settles st event :
  controller_inv st → settles st (apply_network_policy_event st event).
Proof.
  intros Hinv. pose proof (settles_same _ _ (same_inputs_refl _ (ci_functional _ Hinv))) as Hrefl.
  destruct event as [policy|policy|policy| |]; simpl; [| | | |done].
  1-2: destruct (compile_directions _ _) as [ir|e]; apply settles_policies; try done;
    intros Hc; split; try done; (by apply map_inserted || by apply map_deleted).
  - apply settles_policies; try done. intros Hc. split; [done|by apply map_deleted].
  - apply settles_policies; try done. intros Hc. split; [done|exact (map_cleared _ Hc)].
Qed.

(** *** Namespaces *)

Lemma endpoint_labels_same ns ns' e :
  ns' !! ep_namespace e = ns !! ep_namespace e →
  endpoint_with_namespace_labels ns e = endpoint_with_namespace_labels ns' e.
Proof. intros He. unfold endpoint_with_namespace_labels. by rewrite He. Qed.

(** Labels of a namespace without Pods are not read. *)
Lemma same_inputs_namespace st st' name :
  controller_inv st → rev_policy (revisions st') = rev_policy (revisions st) →
  pods st' = pods st → compiled_policies st' = compiled_policies st →
  host_network_gateways st' = host_network_gateways st → node_blocks st' = node_blocks st →
  (∀ other, other ≠ name → namespaces st' !! other = namespaces st !! other) →
  namespace_change_affects_fabric st name = false →
  same_inputs st st'.
Proof.
  intros Hinv Hrev Hp Hpol Hg Hb Hns Haff. unfold namespace_change_affects_fabric in Haff.
  rewrite !orb_false_iff in Haff. destruct Haff as [[[[_ Hhost] Hpods] _] _].
  apply bool_decide_eq_false in Hhost. apply same_inputs_pods; try done; [by apply ci_functional|..].
  - rewrite Hp. apply Forall2_same_length_lookup. split; [done|]. intros i p p' H1 H2. simplify_eq.
    split_and!; try done. apply endpoint_labels_same, Hns. intros Heq.
    apply list_elem_of_lookup_2, elem_of_btree_values in H1 as [k Hk].
    rewrite <-not_true_iff_false, existsb_exists in Hpods. apply Hpods. exists p. split.
    + apply list_elem_of_In, elem_of_btree_values. eauto.
    + apply bool_decide_eq_true. destruct (pi_wf _ _ (ci_pods _ Hinv) k p Hk) as [-> _]. done.
  - apply endpoint_labels_same. simpl. by apply Hns.
  - unfold node_transports. by rewrite Hb.
Qed.

Lemma apply_namespace_event_settles st event :
  controller_inv st → settles st (apply_namespace_event st event).
Proof.
  intros Hinv. pose proof (same_inputs_refl _ (ci_functional _ Hinv)) as Hrefl.
  destruct event as [ns|ns|ns| |]; simpl; [| | | |by apply settles_same].
  1-2: case_bool_decide as Hl; simpl;
    [apply settles_same, same_inputs_fields; try done; [by apply ci_functional|by apply insert_id]|];
    apply settles_bump_if; [done| |apply Hinv];
    intros Ha; eapply same_inputs_namespace; try done;
    intros other Hne; by apply lookup_insert_ne.
  - case_bool_decide as Hl; simpl.
    + apply settles_bump_if; [done| |apply Hinv]. intros Ha. eapply same_inputs_namespace; try done.
      intros other Hne. by apply lookup_delete_ne.
    + apply settles_same, same_inputs_fields; try done; [by apply ci_functional|].
      by apply delete_id, eq_None_not_Some.
  - apply settles_bump_if; [done| |apply Hinv]. intros Hc.
    apply same_inputs_fields; try done; [by apply ci_functional|exact (map_cleared _ Hc)].
Qed.

(** *** Pods *)

Lemma settles_topology c st st' :
  settles st st' → settles st (bump_if c bump_topology_revision st').
Proof.
  intros [Hle Hs]. destruct c; [|done]. split; [done|]. intros Heq Hlt.
  apply (same_inputs_topology true), Hs; done.
Qed.

Definition pod_inputs (p : PodRecord) : Endpoint * bool * gset Z * gset Z :=
  (pr_endpoint p, pr_host_network p, pr_ipv4_addresses p, pr_ipv6_addresses p).

Lemma pod_policy_differs_false p p' : pod_policy_differs p p' = false → pod_inputs p = pod_inputs p'.
Proof.
  unfold pod_policy_differs, pod_inputs. rewrite !orb_false_iff, !negb_false_iff, !bool_decide_eq_true.
  by intros [[[-> ->] ->] ->].
Qed.

Lemma same_inputs_pod_update st st' key p p' :
  controller_inv st → pods st !! key = Some p → pods st' = <[key := p']> (pods st) →
  pod_inputs p = pod_inputs p' →
  rev_policy (revisions st') = rev_policy (revisions st) →
  compiled_policies st' = compiled_policies st → namespaces st' = namespaces st →
  host_network_gateways st' = host_network_gateways st → node_blocks st' = node_blocks st →
  same_inputs st st'.
Proof.
  intros Hinv Hp Hp' Heq Hrev Hpol Hns Hg Hb.
  assert (Hvals : map pod_inputs (btree_values (pods st)) = map pod_inputs (btree_values (pods st'))).
  { rewrite <-!btree_values_fmap, Hp', fmap_insert, <-Heq. f_equal. symmetry. apply insert_id.
    by rewrite lookup_fmap, Hp. }
  apply same_inputs_pods; try done; [by apply ci_functional|..].
  - rewrite Hns. revert Hvals. generalize (btree_values (pods st)) (btree_values (pods st')). clear.
    induction l as [|x l IH]; intros [|y l']; try done; simpl; intros [= E1 E2 E3 E4 Hl].
    constructor; [|by apply IH]. split_and!; try done. by rewrite E1.
  - by rewrite Hns.
  - unfold node_transports. by rewrite Hb.
Qed.

Lemma upsert_pod_settles st pod : controller_inv st → settles st (upsert_pod st pod).
Proof.
  intros Hinv. pose proof (same_inputs_refl _ (ci_functional _ Hinv)) as Hrefl.
  unfold upsert_pod. destruct (pod_named_ports pod) as [named_ports|]; [|by apply settles_same].
  destruct (IdentityRegistry_admit_pod _ _ _ _ _) as [[[]|e] r'].
  - change (pods (st {{ identities := r' }})) with (pods st).
    apply settles_topology, settles_bump_if; [done| |apply Hinv].
    destruct (pods st !! object_key _) as [p|] eqn:Hp; [|done]. simpl.
    intros Hd%pod_policy_differs_false.
    by eapply same_inputs_pod_update.
  - apply settles_same, same_inputs_fields; try done. by apply ci_functional.
Qed.

(** A Pod without addresses leaves an identity others hold. *)
Lemma same_inputs_removed st st' key p q :
  controller_inv st → pods st !! key = Some p → pods st' = delete key (pods st) →
  pr_ipv4_addresses p = ∅ → pr_ipv6_addresses p = ∅ →
  q ∈ btree_values (delete key (pods st)) →
  ep_identity (pr_endpoint q) = ep_identity (pr_endpoint p) →
  rev_policy (revisions st') = rev_policy (revisions st) →
  compiled_policies st' = compiled_policies st → namespaces st' = namespaces st →
  host_network_gateways st' = host_network_gateways st → node_blocks st' = node_blocks st →
  same_inputs st st'.
Proof.
  intros Hinv Hp Hp' H4 H6 Hq Hid Hrev Hpol Hns Hg Hb.
  assert (Hpq : pr_endpoint q = pr_endpoint p).
  { apply elem_of_btree_values in Hq as [k Hk]. apply lookup_delete_Some in Hk as [_ Hk].
    by eapply pods_inv_functional; [apply Hinv|..]. }
  destruct (btree_iter_delete (pods st) key p Hp) as (l1 & l2 & Hl & Hl').
  assert (Hv : btree_values (pods st) = l1.*2 ++ p :: l2.*2).
  { unfold btree_values. by rewrite Hl, fmap_app. }
  assert (Hv' : btree_values (pods st') = l1.*2 ++ l2.*2).
  { unfold btree_values. by rewrite Hp', Hl', fmap_app. }
  rewrite <-Hp', Hv' in Hq.
  split; try done; [by apply ci_functional|..].
  - intros x. unfold endpoints_with_namespace_labels. rewrite Hns, Hv, Hv', !map_app. simpl.
    rewrite !elem_of_app, elem_of_cons. split; [|tauto]. intros [?|[->|?]]; [tauto| |tauto].
    rewrite <-elem_of_app, <-map_app, <-Hpq. apply elem_of_list_map. eauto.
  - unfold ipv4_endpoints_with_namespace_labels. rewrite Hns, Hg, Hv, Hv', !List.filter_app.
    simpl. f_equal. rewrite !flat_map_app. f_equal. destruct (negb _); [|done]. simpl.
    by rewrite H4, bset_iter_empty.
  - unfold ipv6_endpoints_with_namespace_labels. rewrite Hns, Hg, Hv, Hv', !List.filter_app.
    simpl. f_equal. rewrite !flat_map_app. f_equal. destruct (negb _); [|done]. simpl.
    by rewrite H6, bset_iter_empty.
  - unfold host_inputs. rewrite Hns, Hv, Hv', !List.filter_app, !map_app, !List.filter_app. simpl.
    f_equal. destruct (pr_host_network p); [|done]. simpl.
    by rewrite H4, H6, !bool_decide_true.
  - by rewrite Hns.
  - unfold node_transports. by rewrite Hb.
Qed.

Lemma remove_pod_settles st key : controller_inv st → settles st (remove_pod st key).
Proof.
  intros Hinv. unfold remove_pod. destruct (pods st !! key) as [p|] eqn:Hp.
  - apply settles_bump_if; [done| |apply Hinv]. simpl.
    rewrite !orb_false_iff, !negb_false_iff, !bool_decide_eq_true.
    intros [[H4 H6] (q & Hq%list_elem_of_In & Hid%Z.eqb_eq)%existsb_exists].
    by eapply same_inputs_removed.
  - apply settles_same, same_inputs_fields; try done; [by apply ci_functional|].
    by apply delete_id.
Qed.

Lemma apply_pod_event_settles st event :
  controller_inv st → settles st (apply_pod_event st event).
Proof.
  intros Hinv. destruct event as [pod|pod|pod| |]; simpl.
  1-2: destruct (pod_is_terminal pod); [by apply remove_pod_settles|by apply upsert_pod_settles].
  - by apply remove_pod_settles.
  - destruct (negb _) eqn:Hc; simpl.
    + apply (settles_topology true), (settles_bump_if true); [done..|apply Hinv].
    + apply settles_same, same_inputs_fields; try done; [by apply ci_functional|].
      exact (map_cleared _ Hc).
  - by apply settles_same, same_inputs_refl, ci_functional.
Qed.

(** *** Nodes *)

Lemma Revision_next_bounds r : 0 ≤ r ≤ u_max 64 → 0 ≤ Revision_next r ≤ u_max 64.
Proof. unfold Revision_next. lia. Qed.

Lemma settles_moved st st' :
  rev_policy (revisions st) ≤ u_max 64 →
  rev_policy (revisions st') = Revision_next (rev_policy (revisions st)) → settles st st'.
Proof. intros Hmax Hrev. unfold settles. rewrite Hrev. unfold Revision_next. split; [lia|]. intros; lia. Qed.

Lemma nodes_inv_ext st st' :
  nodes_inv st → node_block_inputs st' = node_block_inputs st →
  (∀ inputs, node_block_initialization st' = Some inputs → inputs_wf inputs) →
  node_blocks st' = node_blocks st → rejected_node_blocks st' = rejected_node_blocks st →
  map_Forall (λ _ g, g ≠ HostNetworkGateways_default) (host_network_gateways st') → nodes_inv st'.
Proof. intros [Hi _ Hb Hr _] Ei Hini Eb Er Hg. split; try done; rewrite ?Ei, ?Eb, ?Er; done. Qed.

(** One part of a node handler. *)
Record node_good (st st' : ControllerState) : Prop := {
  ng_frame : node_frame st st';
  ng_inv : nodes_inv st';
  ng_revision : 0 ≤ rev_policy (revisions st') ≤ u_max 64;
  ng_settles : settles st st';
}.

Lemma node_good_inv st st' : controller_inv st → node_good st st' → controller_inv st'.
Proof.
  intros Hinv [(_ & Hp & Hi & _) Hn Hr _]. split; [|done..]. rewrite Hp, Hi. apply Hinv.
Qed.

Lemma node_good_trans st1 st2 st3 : node_good st1 st2 → node_good st2 st3 → node_good st1 st3.
Proof.
  intros [F1 _ _ S1] [F2 N2 R2 S2]. split; [|done|done|by eapply settles_trans].
  unfold node_frame in *. destruct_and!. split_and!; by etrans.
Qed.

(** Changing the inputs, with the blocks computed again when they differ. *)
Lemma node_good_inputs st st1 :
  controller_inv st → node_frame st st1 → rev_policy (revisions st1) = rev_policy (revisions st) →
  host_network_gateways st1 = host_network_gateways st → node_blocks st1 = node_blocks st →
  inputs_wf (node_block_inputs st1) →
  (∀ inputs, node_block_initialization st1 = Some inputs → inputs_wf inputs) →
  node_good st (recompute_node_blocks st1).
Proof.
  intros Hinv Hf Hr Hg Hb Hwf Hini. pose proof (ni_gateways _ (ci_nodes _ Hinv)) as Hgw.
  pose proof (recompute_node_blocks_spec st1) as Hs. simpl in Hs.
  set (st' := recompute_node_blocks st1) in *.
  destruct Hs as (Hf' & Hin & Hit & Hg' & Hbl & Hrj & Hrev).
  assert (Hframe : node_frame st st').
  { unfold node_frame in *. destruct_and!. split_and!; by etrans. }
  split; [done|split; rewrite ?Hin, ?Hit, ?Hg', ?Hg; done| |].
  - rewrite Hrev, Hr. destruct (assignments_changed _ _); [apply Revision_next_bounds|]; apply Hinv.
  - rewrite Hr in Hrev. destruct (assignments_changed _ _) eqn:Ea; [apply settles_moved; [apply Hinv|done]|].
    apply assignments_unchanged in Ea. rewrite Hb, <-Hbl in Ea.
    destruct Hframe as (_ & Hp & _ & Hns & Hsp & Hnp & _). apply settles_same, same_inputs_fields; try done.
    + by apply ci_functional.
    + unfold compiled_policies. by rewrite Hsp, Hnp.
    + by rewrite Hg', Hg.
    + symmetry. by apply node_transports_candidates.
Qed.

(** A change of fields the snapshot does not read. *)
Lemma node_good_quiet st st' :
  controller_inv st → node_frame st st' → nodes_inv st' →
  rev_policy (revisions st') = rev_policy (revisions st) →
  host_network_gateways st' = host_network_gateways st → node_blocks st' = node_blocks st →
  node_good st st'.
Proof.
  intros Hinv Hf Hn Hr Hg Hb. split; [done|done|rewrite Hr; apply Hinv|].
  destruct Hf as (_ & Hp & _ & Hns & Hsp & Hnp & _). apply settles_same, same_inputs_fields; try done.
  - by apply ci_functional.
  - unfold compiled_policies. by rewrite Hsp, Hnp.
  - unfold node_transports. by rewrite Hb.
Qed.

Lemma update_node_block_input_good st node :
  controller_inv st → node_good st (update_node_block_input st node).
Proof.
  intros Hinv. pose proof (ci_nodes _ Hinv) as Hn. unfold update_node_block_input.
  destruct (node_block_input node) as [input|] eqn:Ei.
  - assert (Hwf : inputs_wf (<[name_any (node_metadata node) := input]> (node_block_inputs st))).
    { apply map_Forall_insert_2; [|apply Hn]. by eapply node_block_input_wf. }
    case_bool_decide as Hc; simpl.
    + apply node_good_quiet; try done. apply (nodes_inv_ext st); try done; [|apply Hn..].
      by apply insert_id.
    + apply node_good_inputs; try done. apply Hn.
  - case_bool_decide as Hc; simpl.
    + apply node_good_inputs; try done; [|apply Hn]. by apply map_Forall_delete, Hn.
    + apply node_good_quiet; try done. apply (nodes_inv_ext st); try done; [|apply Hn..].
      by apply delete_id, eq_None_not_Some.
Qed.

Lemma stage_node_block_input_good st node :
  controller_inv st → node_good st (stage_node_block_input st node).
Proof.
  intros Hinv. pose proof (ci_nodes _ Hinv) as Hn. unfold stage_node_block_input.
  destruct (node_block_input node) as [input|] eqn:Ei; [|by apply node_good_quiet].
  destruct (node_block_initialization st) as [inputs|] eqn:Eini; [|by apply update_node_block_input_good].
  apply node_good_quiet; try done. apply (nodes_inv_ext st); try done; [|apply Hn].
  intros inputs' [= <-]. apply map_Forall_insert_2; [|by apply (ni_initialization _ Hn)].
  by eapply node_block_input_wf.
Qed.

Lemma node_good_gateways c st st' :
  controller_inv st → node_frame st st' → rev_policy (revisions st') = rev_policy (revisions st) →
  node_block_inputs st' = node_block_inputs st →
  node_block_initialization st' = node_block_initialization st →
  node_blocks st' = node_blocks st → rejected_node_blocks st' = rejected_node_blocks st →
  map_Forall (λ _ g, g ≠ HostNetworkGateways_default) (host_network_gateways st') →
  (c = false → host_network_gateways st' = host_network_gateways st) →
  node_good st (bump_if c bump_policy_revision st').
Proof.
  intros Hinv Hf Hr Hin Hini Hb Hrj Hg Hc. pose proof (ci_nodes _ Hinv) as Hn.
  assert (nodes_inv st').
  { apply (nodes_inv_ext st); try done. rewrite Hini. apply Hn. }
  destruct c; [|apply node_good_quiet; auto].
  split; [done|by apply (nodes_inv_ext st'); try done; apply (ni_initialization st')| |].
  - simpl. change (0 ≤ Revision_next (rev_policy (revisions st')) ≤ u_max 64).
    rewrite Hr. apply Revision_next_bounds, Hinv.
  - apply settles_moved; [apply Hinv|]. by rewrite <-Hr.
Qed.

(** The gateway map after the entry of one node is replaced, and whether it changed. *)
Lemma gateways_replaced (m : gmap string HostNetworkGateways) name g :
  map_Forall (λ _ g, g ≠ HostNetworkGateways_default) m →
  let m' := if bool_decide (g = HostNetworkGateways_default) then delete name m
            else <[name := g]> m in
  map_Forall (λ _ g, g ≠ HostNetworkGateways_default) m' ∧
  (match m !! name with
   | None => negb (bool_decide (hng_ipv4 g = ∅)) || negb (bool_decide (hng_ipv6 g = ∅))
   | Some previous => negb (bool_decide (previous = g))
   end = false → m' = m).
Proof.
  intros Hm. simpl. case_bool_decide as Hd.
  - split; [by apply map_Forall_delete|]. subst g. destruct (m !! name) as [g|] eqn:E.
    + intros ->%negb_false_iff%bool_decide_eq_true. by destruct (Hm name _ E).
    + intros _. by apply delete_id.
  - split; [by apply map_Forall_insert_2|]. destruct (m !! name) as [g'|] eqn:E.
    + intros ->%negb_false_iff%bool_decide_eq_true. by apply insert_id.
    + rewrite orb_false_iff, !negb_false_iff, !bool_decide_eq_true. intros [H4 H6].
      destruct Hd. destruct g. unfold HostNetworkGateways_default. simpl in *. by subst.
Qed.

Lemma reconcile_node_good st node initializing :
  controller_inv st → node_good st (reconcile_node st node initializing).
Proof.
  intros Hinv. unfold reconcile_node.
  set (st1 := if initializing then _ else _).
  assert (Hg1 : node_good st st1).
  { subst st1. destruct initializing; [by apply stage_node_block_input_good|
      by apply update_node_block_input_good]. }
  pose proof (node_good_inv _ _ Hinv Hg1) as Hinv1. eapply node_good_trans; [exact Hg1|].
  clearbody st1. clear Hg1 Hinv. simpl.
  destruct (gateways_replaced (host_network_gateways st1) (name_any (node_metadata node))
    (ovn_host_network_gateways node) (ni_gateways _ (ci_nodes _ Hinv1))) as [Hall Hsame].
  apply node_good_gateways; [done|..].
  1-6: by bumped; case_bool_decide.
  - bumped; case_bool_decide; exact Hall.
  - intros Hc. specialize (Hsame Hc). bumped; case_bool_decide; exact Hsame.
Qed.

Lemma apply_node_event_good st event :
  controller_inv st → node_good st (apply_node_event st event).
Proof.
  intros Hinv. pose proof (ci_nodes _ Hinv) as Hn.
  destruct event as [node|node|node| |]; simpl; [by apply reconcile_node_good..| | |].
  - set (name := name_any (node_metadata node)).
    set (st1 := if bool_decide _ then _ else _).
    assert (Hg1 : node_good st st1).
    { subst st1. case_bool_decide as Hc.
      - apply node_good_inputs; try done; [|apply Hn]. by apply map_Forall_delete, Hn.
      - apply node_good_quiet; try done. apply (nodes_inv_ext st); try done; [|apply Hn..].
        by apply delete_id, eq_None_not_Some. }
    pose proof (node_good_inv _ _ Hinv Hg1) as Hinv1. eapply node_good_trans; [exact Hg1|].
    clearbody st1. clear Hg1 Hinv Hn. apply node_good_gateways; [done|..].
    1-6: by bumped.
    + bumped; apply map_Forall_delete, Hinv1.
    + intros Hc. bumped; by apply map_deleted.
  - apply node_good_trans with (st2 := st {{ node_block_initialization := Some ∅ }}).
    { apply node_good_quiet; try done. apply (nodes_inv_ext st); try done; [|apply Hn].
      intros inputs [= <-]. apply map_Forall_empty. }
    set (st1 := st {{ node_block_initialization := Some ∅ }}).
    assert (Hinv1 : controller_inv st1).
    { split; [apply Hinv| |apply Hinv]. apply (nodes_inv_ext st); try done; [|apply Hn].
      intros inputs [= <-]. apply map_Forall_empty. }
    apply node_good_gateways; [done|..].
    1-6: by bumped.
    + bumped; apply map_Forall_empty.
    + intros Hc. bumped; exact (map_cleared _ Hc).
  - destruct (node_block_initialization st) as [initialized|] eqn:Ei; [|by apply node_good_quiet].
    pose proof (ni_initialization _ Hn _ Ei) as Hwf. case_bool_decide as Hc; simpl.
    + apply node_good_quiet; try done. apply (nodes_inv_ext st); try done. apply Hn.
    + by apply node_good_inputs.
Qed.

(** ** Every event *)

Definition is_node_event (event : ControllerEvent) : bool :=
  match event with NodeEvent _ => true | _ => false end.

Lemma other_event_frame st event :
  is_node_event event = false →
  let st' := apply_event st event in
  node_block_inputs st' = node_block_inputs st ∧
  node_block_initialization st' = node_block_initialization st ∧
  node_blocks st' = node_blocks st ∧ rejected_node_blocks st' = rejected_node_blocks st ∧
  host_network_gateways st' = host_network_gateways st ∧
  identity_epoch st' = identity_epoch st ∧
  dataplane_policy_cache st' = dataplane_policy_cache st ∧
  (rev_policy (revisions st') = rev_policy (revisions st) ∨
   rev_policy (revisions st') = Revision_next (rev_policy (revisions st))).
Proof.
  intros Hne st'. subst st'. unfold apply_event.
  destruct event as [[]|[]|[]|[]|?|services slices]; [..|done|by split_and!; auto]; clear Hne;
    unfold apply_pod_event, apply_namespace_event, apply_policy_event, apply_network_policy_event,
      upsert_pod, remove_pod, invalidate_namespace_policy_if_needed;
    repeat match goal with
    | |- context [match ?x with _ => _ end] => destruct x
    end; bumped; split_and!; auto.
Qed.

Lemma apply_event_settles st event : controller_inv st → settles st (apply_event st event).
Proof.
  intros Hinv. destruct event as [e|e|e|e|e|services slices]; simpl.
  - by apply apply_pod_event_settles.
  - by apply apply_namespace_event_settles.
  - by apply apply_policy_event_settles.
  - by apply apply_network_policy_event_settles.
  - by apply apply_node_event_good.
  - apply settles_same, same_inputs_fields; try done. by apply ci_functional.
Qed.

Lemma apply_event_pods_inv st event :
  controller_inv st →
  pods_inv (pods (apply_event st event)) (identities (apply_event st event)).
Proof.
  intros Hinv. pose proof (ci_pods _ Hinv) as Hp. destruct event as [e|e|e|e|e|services slices]; simpl.
  - by apply apply_pod_event_inv.
  - destruct e; simpl; unfold invalidate_namespace_policy_if_needed; by bumped.
  - destruct e; simpl; try destruct (PolicyCompiler_compile _ _); by bumped.
  - destruct e; simpl; try destruct (compile_directions _ _); by bumped.
  - by apply (node_good_inv st), apply_node_event_good.
  - done.
Qed.

Lemma apply_event_inv st event : controller_inv st → controller_inv (apply_event st event).
Proof.
  intros Hinv. destruct (is_node_event event) eqn:E.
  - destruct event; try done. by eapply node_good_inv, apply_node_event_good.
  - destruct (other_event_frame st event E) as (H1 & H2 & H3 & H4 & H5 & _ & _ & Hr).
    split; [by apply apply_event_pods_inv| |].
    + apply (nodes_inv_ext st); try done; [apply Hinv|rewrite H2; apply Hinv|rewrite H5; apply Hinv].
    + destruct Hr as [->| ->]; [apply Hinv|apply Revision_next_bounds, Hinv].
Qed.

Lemma apply_event_cache st event :
  controller_inv st → dataplane_policy_cache (apply_event st event) = dataplane_policy_cache st.
Proof.
  intros Hinv. destruct (is_node_event event) eqn:E; [|by apply other_event_frame].
  destruct event as [| | | |e|]; try done. simpl.
  by destruct (ng_frame _ _ (apply_node_event_good st e Hinv)) as (_ & _ & _ & _ & _ & _ & _ & ?).
Qed.

(** ** Reachable states *)

Inductive controller_step : ControllerState → ControllerState → Prop :=
| step_event st event : controller_step st (apply_event st event)
| step_serve st : controller_step st (dataplane_policy_state st).2.

(** A cached snapshot is that of its revision. *)
Definition cache_coherent (st : ControllerState) : Prop :=
  ∀ snapshot, dataplane_policy_cache st = Some snapshot →
    dps_revision snapshot ≤ rev_policy (revisions st) ∧
    (dps_revision snapshot = rev_policy (revisions st) → rev_policy (revisions st) < u_max 64 →
     compute_policy_state st = Ok snapshot).

Lemma cache_coherent_settles st st' :
  settles st st' → dataplane_policy_cache st' = dataplane_policy_cache st →
  cache_coherent st → cache_coherent st'.
Proof.
  intros [Hle Hs] Hc Hco snapshot Hsn. rewrite Hc in Hsn. destruct (Hco _ Hsn) as [Hr Hsame].
  split; [lia|]. intros Heq Hlt. rewrite <-(compute_policy_state_same st st'); [|apply Hs; lia].
  apply Hsame; lia.
Qed.

Lemma compute_policy_state_revision st snapshot :
  compute_policy_state st = Ok snapshot → dps_revision snapshot = rev_policy (revisions st).
Proof.
  unfold compute_policy_state. do 3 (destruct (lowered_ok _); [|done]).
  destruct (add_host_network_ingress_entries _ _ _ _ _) as [[]|]; [|done].
  do 2 (destruct (lowered_ok _); [|done]). destruct (add_primary_node_traffic_entries _ _); [|done].
  destruct (add_ovn_host_network_reply_entries _ _ _ _ _) as [[]|]; [|done]. by intros [= <-].
Qed.

(** What serving a snapshot does: the cached or the computed one, which is kept. *)
Lemma dataplane_policy_state_cases st :
  (∃ snapshot, dataplane_policy_cache st = Some snapshot ∧
     dps_revision snapshot = rev_policy (revisions st) ∧
     dataplane_policy_state st = (Ok snapshot, st)) ∨
  (∃ snapshot, compute_policy_state st = Ok snapshot ∧
     dataplane_policy_state st = (Ok snapshot, st {{ dataplane_policy_cache := Some snapshot }})) ∨
  (∃ e, compute_policy_state st = Err e ∧ dataplane_policy_state st = (Err e, st)).
Proof.
  unfold dataplane_policy_state. destruct (dataplane_policy_cache st) as [snapshot|].
  - destruct (Z.eqb_spec (dps_revision snapshot) (rev_policy (revisions st))); [left; by eexists|].
    right. destruct (compute_policy_state st); [left|right]; by eexists.
  - right. destruct (compute_policy_state st); [left|right]; by eexists.
Qed.

Lemma step_good st st' :
  controller_step st st' → controller_inv st → cache_coherent st →
  controller_inv st' ∧ cache_coherent st' ∧ settles st st'.
Proof.
  intros [st1 event|st1] Hinv Hco.
  - pose proof (apply_event_settles st1 event Hinv). split; [by apply apply_event_inv|]. split; [|done].
    by eapply cache_coherent_settles; [|apply apply_event_cache|].
  - pose proof (settles_same _ _ (same_inputs_refl _ (ci_functional _ Hinv))) as Hrefl.
    destruct (dataplane_policy_state_cases st1) as [(s & _ & _ & ->)|[(s & Hs & ->)|(e & _ & ->)]]; try done.
    simpl. set (st2 := st1 {{ dataplane_policy_cache := Some s }}).
    assert (Hsame : same_inputs st1 st2) by (by apply same_inputs_fields; try done; apply ci_functional).
    split; [split; [apply Hinv| |apply Hinv]|split].
    + apply (nodes_inv_ext st1); try done; apply Hinv.
    + intros s' [= <-]. rewrite (compute_policy_state_revision _ _ Hs). split; [done|]. intros _ _.
      rewrite <-Hs. symmetry. by apply compute_policy_state_same.
    + by apply settles_same.
Qed.

Lemma initial_inv epoch :
  controller_inv (initial_controller_state epoch) ∧ cache_coherent (initial_controller_state epoch).
Proof.
  split; [|done]. split; [apply pods_inv_initial| |done]. by split; try apply map_Forall_empty.
Qed.

Lemma reachable_good epoch st :
  rtc controller_step (initial_controller_state epoch) st → controller_inv st ∧ cache_coherent st.
Proof.
  intros Hr. pose proof (initial_inv epoch) as H0. induction Hr as [|x y z Hxy _ IH]; [done|].
  apply IH. destruct H0 as [Hi Hc]. by destruct (step_good _ _ Hxy Hi Hc) as (? & ? & _).
Qed.

Lemma steps_settle st st' :
  rtc controller_step st st' → controller_inv st → cache_coherent st → settles st st'.
Proof.
  induction 1 as [st|x y z Hxy _ IH]; intros Hi Hc.
  - by apply settles_same, same_inputs_refl, ci_functional.
  - destruct (step_good _ _ Hxy Hi Hc) as (Hi' & Hc' & Hs). eapply settles_trans; [done|by apply IH].
Qed.

Lemma served_fresh st :
  controller_inv st → cache_coherent st → rev_policy (revisions st) < u_max 64 →
  (dataplane_policy_state st).1 = compute_policy_state st.
Proof.
  intros Hinv Hco Hlt.
  destruct (dataplane_policy_state_cases st) as [(s & Hs & Hr & ->)|[(s & -> & ->)|(e & -> & ->)]];
    try done. simpl. destruct (Hco _ Hs) as [_ Hc]. symmetry. by apply Hc.
Qed.
End Steps.
