(* ===== verification/ControllerProperties.v ===== *)
(** * What the controller guarantees

    Properties of every state the controller reaches from its start, over any sequence of
    watch events and snapshot requests. *)

From S2P Require Import Prelude Common NetAddr Ipam PolicyIr PolicyCompile NetworkPolicy IdentityRegistry CanonicalKey PolicyLower PolicyLowerSpec PolicyLowerFacts PolicyInstalled NodeBlocks Controller ControllerSnapshot ControllerFacts ControllerInvariant.

Section Reachable.
Context `{KubeLibrary}.

Definition reachable (epoch : Z) (st : ControllerState) : Prop :=
  rtc controller_step (initial_controller_state epoch) st.

(** C14. What the controller publishes is current and named by its revision.  In any state it
    reaches, a request is answered with the snapshot computed from the present Pods, labels,
    policies, node blocks and gateways, whether or not it comes from the cache.  The policy
    revision never goes back, and as long as it does not move the answer does not change. *)
Theorem published_snapshot_coherent epoch st st' :
  reachable epoch st → rtc controller_step st st' → rev_policy (revisions st') < u_max 64 →
  (dataplane_policy_state st').1 = compute_policy_state st' ∧
  rev_policy (revisions st) ≤ rev_policy (revisions st') ∧
  (rev_policy (revisions st) = rev_policy (revisions st') →
   (dataplane_policy_state st).1 = (dataplane_policy_state st').1).
Proof.
  intros Hr Hs Hlt. destruct (reachable_good _ _ Hr) as [Hi Hc].
  destruct (reachable_good epoch st') as [Hi' Hc']; [by etrans|].
  destruct (steps_settle _ _ Hs Hi Hc) as [Hle Hsame].
  split; [by apply served_fresh|]. split; [done|]. intros Heq.
  rewrite !served_fresh by (done || lia). apply compute_policy_state_same, Hsame; lia.
Qed.

(** C15. Identities are exact.  In any state the controller reaches, an address answers with an
    identity exactly when a Pod outside the host network holds the address, and then with
    that Pod's identity; Pods with the same identity have the same metadata, whatever number
    their keys hash to; so lowering never meets two endpoints with one identity. *)
Theorem controller_identities_exact epoch st :
  reachable epoch st →
  (∀ address id, identity_for_ip (identities st) address = Some id ↔
    ∃ key pod, pods st !! key = Some pod ∧ pr_host_network pod = false ∧
      address ∈ address_set (pr_ipv4_addresses pod) (pr_ipv6_addresses pod) ∧
      ep_identity (pr_endpoint pod) = id) ∧
  (∀ key key' pod pod', pods st !! key = Some pod → pods st !! key' = Some pod' →
    ep_identity (pr_endpoint pod) = ep_identity (pr_endpoint pod') →
    pr_endpoint pod = pr_endpoint pod') ∧
  is_ok (unique_endpoints (endpoints_with_namespace_labels st)) = true.
Proof.
  intros Hr. destruct (reachable_good _ _ Hr) as [Hi _]. pose proof (ci_pods _ Hi) as Hp.
  split_and!.
  - intros address id. rewrite (identity_for_ip_iff _ _ _ (pi_registry _ _ Hp)), (pi_bindings _ _ Hp).
    setoid_rewrite lookup_fmap_Some. split.
    + intros (k & b & (p & <- & Hk) & Hid & Ha). exists k, p. simpl in *.
      by destruct (pr_host_network p); [apply not_elem_of_empty in Ha|].
    + intros (k & p & Hk & Hh & Ha & Hid). exists k, (pod_binding p). split; [by exists p|].
      simpl. by rewrite Hh.
  - intros key key' pod pod' Hk Hk'. by eapply pods_inv_functional.
  - by destruct (unique_endpoints_Ok _ (ci_functional _ Hi)) as [m ->].
Qed.

(** C16. Node blocks never overlap.  In any state the controller reaches, a node holds a block
    exactly when its input is complete and overlaps no other complete input, so no address
    that one node's allocator leases is leased by another's, in either family. *)
Theorem assigned_blocks_disjoint epoch st :
  reachable epoch st →
  (∀ n c, (block_candidate <$> node_blocks st) !! n = Some c ↔
    admitted (node_block_inputs st) n c ∧
    ∀ m d, admitted (node_block_inputs st) m d → m ≠ n → blocks_overlap c.1.2 d.1.2 = false) ∧
  (∀ n m a b used used' lease lease', n ≠ m →
    node_blocks st !! n = Some a → node_blocks st !! m = Some b →
    NodeBlockProvider_allocate (anb_provider a) used = Ok lease →
    NodeBlockProvider_allocate (anb_provider b) used' = Ok lease' →
    lease_a4 lease ≠ lease_a4 lease' ∧ lease_a6 lease ≠ lease_a6 lease').
Proof.
  intros Hr. destruct (reachable_good _ _ Hr) as [Hi _]. destruct (ci_nodes _ Hi) as [Hwf _ Hb _ _].
  assert (Hspec : ∀ n c, (block_candidate <$> node_blocks st) !! n = Some c ↔
    admitted (node_block_inputs st) n c ∧
    ∀ m d, admitted (node_block_inputs st) m d → m ≠ n → blocks_overlap c.1.2 d.1.2 = false).
  { intros n c. rewrite Hb. apply node_candidates_spec. }
  split; [exact Hspec|]. intros n m a b used used' lease lease' Hne Ha Hbm HA HB.
  assert (Hna : (block_candidate <$> node_blocks st) !! n = Some (block_candidate a)).
  { by rewrite lookup_fmap, Ha. }
  assert (Hmb : (block_candidate <$> node_blocks st) !! m = Some (block_candidate b)).
  { by rewrite lookup_fmap, Hbm. }
  apply Hspec in Hna as [Hna Hno], Hmb as [Hmb _].
  assert (Hpwf : ∀ k x, admitted (node_block_inputs st) k (block_candidate x) →
    NodeBlockProvider_wf (anb_provider x)).
  { intros k x (i & Hk & Hp & _). by eapply Hwf. }
  specialize (Hno m _ Hmb (not_eq_sym Hne)). simpl in Hno.
  unfold blocks_overlap in Hno. apply orb_false_iff in Hno as [H4 H6].
  pose proof (Hpwf _ _ Hna) as Wa. pose proof (Hpwf _ _ Hmb) as Wb.
  destruct (allocate_contained _ _ _ Wa HA) as (A1 & A2 & A3 & A4).
  destruct (allocate_contained _ _ _ Wb HB) as (B1 & B2 & B3 & B4).
  rewrite <-not_true_iff_false, Ipv4NodeBlock_overlaps_iff in H4 by (apply Wa || apply Wb).
  rewrite <-not_true_iff_false, Ipv6NodeBlock_overlaps_iff in H6 by (apply Wa || apply Wb).
  split; intros Heq; [apply H4|apply H6]; eexists; by rewrite <-Heq in *.
Qed.

Definition run_events (epoch : Z) (events : list ControllerEvent) : ControllerState :=
  fold_left apply_event events (initial_controller_state epoch).

Lemma run_events_steps st events : rtc controller_step st (fold_left apply_event events st).
Proof.
  revert st. induction events as [|e events IH]; intros st; simpl; [done|].
  eapply rtc_l; [constructor|apply IH].
Qed.
End Reachable.

(** ** Witnesses: a cluster of two nodes and two Pods *)

Definition demo_library : KubeLibrary :=
  {| name_any := λ meta, default "" (meta_name meta); decode_node_subnets := λ _, None |}.

#[local] Existing Instance demo_library.

Definition demo_meta (namespace name uid : string) (labels : gmap string string) : ObjectMeta := {|
  meta_name := Some name; meta_namespace := Some namespace; meta_generate_name := None;
  meta_uid := Some uid; meta_labels := Some labels; meta_annotations := None |}.

Definition demo_pod_object (name ip : string) : Pod := {|
  pod_metadata := demo_meta "prod" name name {[ "app" := name ]};
  pod_spec := Some {| pspec_service_account_name := None; pspec_node_name := Some "worker-a";
                      pspec_host_network := None;
                      pspec_containers := [{| container_ports := Some [
                        {| cport_name := Some "http"; cport_protocol := None;
                           cport_container_port := 8080 |}] |}] |};
  pod_status := Some {| pstatus_phase := Some "Running"; pstatus_pod_ips := Some [ip];
                        pstatus_pod_ip := Some ip |} |}.

Definition demo_namespace (name : string) : Namespace :=
  {| ns_metadata := demo_meta "" name name {[ "tier" := "test" ]} |}.

Definition demo_node (name cidr4 cidr6 ip4 ip6 : string) : Node := {|
  node_metadata := demo_meta "" name name {[ PRIMARY_CNI_NODE_LABEL := PRIMARY_CNI_NODE_LABEL_VALUE ]};
  node_spec := Some {| nspec_pod_cidrs := Some [cidr4; cidr6]; nspec_pod_cidr := None |};
  node_status := Some {| nstatus_addresses := Some [
      {| naddr_type := "InternalIP"; naddr_address := ip4 |};
      {| naddr_type := "InternalIP"; naddr_address := ip6 |}];
    nstatus_conditions := None |} |}.

Definition demo_cluster : ControllerState := run_events 1 [
  NamespaceEvent (Apply (demo_namespace "prod"));
  PodEvent (Apply (demo_pod_object "web" "10.128.0.7"));
  PodEvent (Apply (demo_pod_object "db" "10.129.0.9"));
  NodeEvent (Apply (demo_node "worker-a" "10.128.0.0/24" "fd00:1::/64" "192.0.2.1" "2001:db8::1"));
  NodeEvent (Apply (demo_node "worker-b" "10.129.0.0/24" "fd00:2::/64" "192.0.2.2" "2001:db8::2"))].

Lemma demo_cluster_reachable : reachable 1 demo_cluster.
Proof. apply run_events_steps. Qed.

(** The cluster after a request and after labels of a namespace without Pods changed. *)
Definition demo_later : ControllerState :=
  apply_event (dataplane_policy_state demo_cluster).2 (NamespaceEvent (Apply (demo_namespace "idle"))).

Lemma published_snapshot_coherent_witness :
  is_ok (compute_policy_state demo_later) = true ∧
  (dataplane_policy_state demo_cluster).1 = (dataplane_policy_state demo_later).1.
Proof.
  split; [by vm_compute|]. apply (published_snapshot_coherent 1).
  - exact demo_cluster_reachable.
  - exact (rtc_l _ _ _ _ (step_serve demo_cluster) (rtc_once _ _ (step_event _ _))).
  - by vm_compute.
  - by vm_compute.
Defined.

Lemma controller_identities_exact_witness :
  is_Some (identity_for_ip (identities demo_cluster) (V4 176226313)) ∧
  is_ok (unique_endpoints (endpoints_with_namespace_labels demo_cluster)) = true.
Proof.
  split; [vm_compute; by eexists|]. apply (controller_identities_exact 1). exact demo_cluster_reachable.
Defined.

Lemma assigned_blocks_disjoint_witness :
  bool_decide (dom (node_blocks demo_cluster) = {[ "worker-a"; "worker-b" ]}) = true ∧
  ∀ a b used used' lease lease',
    node_blocks demo_cluster !! "worker-a" = Some a →
    node_blocks demo_cluster !! "worker-b" = Some b →
    NodeBlockProvider_allocate (anb_provider a) used = Ok lease →
    NodeBlockProvider_allocate (anb_provider b) used' = Ok lease' →
    lease_a4 lease ≠ lease_a4 lease' ∧ lease_a6 lease ≠ lease_a6 lease'.
Proof.
  split; [by vm_compute|]. intros a b used used' lease lease'.
  exact (proj2 (assigned_blocks_disjoint 1 demo_cluster demo_cluster_reachable)
    "worker-a" "worker-b" a b used used' lease lease' ltac:(discriminate)).
Defined.
