(* ===== verification/ControllerEnforcement.v ===== *)
(** * From watched objects to packets

    The snapshot the controller publishes is the lowered form of the NetworkPolicy objects it
    holds, with entries added for node and host-network addresses; installed by an agent, it
    enforces the objects between Pods. *)

From coqutil Require Import Datatypes.RecordSetters.
From S2P Require Import Prelude Common NetAddr Ipam PolicyIr PolicyCompile NetworkPolicy IdentityRegistry CanonicalKey.
From S2P Require Import PolicyLower PolicyLowerSpec PolicyLowerFacts LowerAddresses LowerIngress LowerIpv6 LowerEgress.
From S2P Require Import Bytes PolicyAbi TcPolicy TcFlow PolicyInstalled PolicyBanks PolicyBanksFacts PolicySync PolicyUpdates PolicyProgress EndToEnd Enforcement.
From S2P Require Import NodeBlocks Controller ControllerSnapshot ControllerFacts ControllerInvariant ControllerProperties.
Import DoubleBraceUpdate.

(** ** The objects behind the compiled policies *)

Definition network_policy_id (key : string) : PolicyId := stable_policy_id ("networkpolicy:" +:+ key).

(** The compiled policies are those of the objects, under the same keys. *)
Definition compiled_from (objects : gmap string NetworkPolicy)
    (compiled : gmap string (list PolicyIr)) : Prop :=
  ∀ key, option_Forall2 (λ np ps, compile_directions (network_policy_id key) np = Ok ps)
    (objects !! key) (compiled !! key).

Record objects_inv (st : ControllerState) : Prop := {
  oi_namespaces :
    map_Forall (λ name labels, labels !! NAMESPACE_NAME_LABEL = Some name) (namespaces st);
  oi_policies : compiled_from (network_policies st) (compiled_network_policies st);
}.

Section Objects.
Context `{KubeLibrary}.

Lemma objects_inv_ext st st' :
  objects_inv st → namespaces st' = namespaces st → network_policies st' = network_policies st →
  compiled_network_policies st' = compiled_network_policies st → objects_inv st'.
Proof. intros [H1 H2] E1 E2 E3. split; [by rewrite E1|by rewrite E2, E3]. Qed.

Lemma objects_insert objects compiled key np ps :
  compiled_from objects compiled → compile_directions (network_policy_id key) np = Ok ps →
  compiled_from (<[key := np]> objects) (<[key := ps]> compiled).
Proof.
  intros Hall Hnp k. destruct (decide (key = k)) as [<-|Hne].
  - rewrite !lookup_insert_eq. by constructor.
  - rewrite !lookup_insert_ne by done. apply Hall.
Qed.

Lemma objects_delete objects compiled key :
  compiled_from objects compiled → compiled_from (delete key objects) (delete key compiled).
Proof.
  intros Hall k. destruct (decide (key = k)) as [<-|Hne].
  - rewrite !lookup_delete_eq. constructor.
  - rewrite !lookup_delete_ne by done. apply Hall.
Qed.

Lemma compiled_from_empty : compiled_from ∅ ∅.
Proof. intros k. rewrite !lookup_empty. constructor. Qed.

Lemma apply_network_policy_event_objects st event :
  objects_inv st → objects_inv (apply_network_policy_event st event).
Proof.
  intros [H1 H2]. unfold apply_network_policy_event.
  destruct event as [np|np|np| |]; try (by split).
  all: try (destruct (compile_directions _ _) eqn:E); split; bumped; try done.
  all: try (by apply objects_insert). all: try (by apply objects_delete).
  all: exact compiled_from_empty.
Qed.

Lemma apply_namespace_event_objects st event :
  objects_inv st → objects_inv (apply_namespace_event st event).
Proof.
  intros [H1 H2]. unfold apply_namespace_event, invalidate_namespace_policy_if_needed.
  destruct event as [ns|ns|ns| |]; try (by split).
  all: repeat case_bool_decide; split; bumped; try done.
  all: try (by apply map_Forall_delete). all: try (by apply map_Forall_empty).
  all: apply map_Forall_insert_2; [|done]; apply lookup_insert_eq.
Qed.

Lemma apply_event_objects st event :
  controller_inv st → objects_inv st → objects_inv (apply_event st event).
Proof.
  intros Hinv Ho. destruct event as [e|e|e|e|e|services slices]; simpl.
  - destruct e; unfold apply_pod_event, upsert_pod, remove_pod;
      repeat match goal with |- context [match ?x with _ => _ end] => destruct x end;
      bumped; by apply (objects_inv_ext st).
  - by apply apply_namespace_event_objects.
  - destruct e; unfold apply_policy_event;
      repeat match goal with |- context [match ?x with _ => _ end] => destruct x end;
      bumped; by apply (objects_inv_ext st).
  - by apply apply_network_policy_event_objects.
  - destruct (ng_frame _ _ (apply_node_event_good st e Hinv)) as (_ & _ & _ & E1 & _ & E2 & E3 & _).
    by apply (objects_inv_ext st).
  - by apply (objects_inv_ext st).
Qed.

Lemma apply_event_epoch st event :
  controller_inv st → identity_epoch (apply_event st event) = identity_epoch st.
Proof.
  intros Hinv. destruct (is_node_event event) eqn:E; [|by apply other_event_frame].
  destruct event as [| | | |e|]; try done. simpl.
  by destruct (ng_frame _ _ (apply_node_event_good st e Hinv)) as (? & _).
Qed.

Lemma reachable_objects epoch st :
  reachable epoch st → objects_inv st ∧ identity_epoch st = epoch.
Proof.
  revert st. apply rtc_ind_r; [|intros st st' Hr Hs [Ho He]].
  { split; [split; [apply map_Forall_empty|apply compiled_from_empty]|done]. }
  destruct (reachable_good _ _ Hr) as [Hinv _]. destruct Hs as [st event|st].
  - by rewrite apply_event_epoch; [split; [apply apply_event_objects|]|].
  - destruct (dataplane_policy_state_cases st) as [(s & _ & _ & ->)|[(s & _ & ->)|(e & _ & ->)]]; try done.
    split; [by apply (objects_inv_ext st)|done].
Qed.

(** The objects in the order the policies are listed. *)
Definition network_policy_objects (st : ControllerState) : list (PolicyId * NetworkPolicy) :=
  map (λ '(key, np), (network_policy_id key, np)) (btree_iter (network_policies st)).

Lemma network_policy_objects_compile st :
  objects_inv st →
  compile_objects (network_policy_objects st) = Ok (btree_values (compiled_network_policies st)).
Proof.
  intros [_ Ho]. set (g key np := match compile_directions (network_policy_id key) np with
    | Ok ps => ps | Err _ => [] end).
  assert (E : compiled_network_policies st = map_imap (λ key np, Some (g key np)) (network_policies st)).
  { apply map_eq. intros key. rewrite map_lookup_imap. specialize (Ho key).
    destruct Ho as [np ps Hnp|]; [|done]. simpl. unfold g. by rewrite Hnp. }
  apply try_map_Forall2. unfold btree_values, network_policy_objects. rewrite E, btree_iter_imap.
  rewrite map_map. apply Forall2_fmap_2, Forall_Forall2_diag, Forall_forall.
  intros [key np] Hin%elem_of_btree_iter. simpl. specialize (Ho key). rewrite Hin in Ho.
  inversion Ho as [? ps Hnp|]; subst. unfold g. by rewrite Hnp.
Qed.
End Objects.

(** ** Entries added for other addresses *)

Lemma entry_at_at_key {K} `{OrdLaws K} `{EqDecision K} (l : list (MapEntry K)) k :
  entry_at l k = option_map entry_value (head (at_key entry_key k l)).
Proof.
  unfold entry_at, at_key. induction l as [|x l IH]; [done|]. simpl.
  case_bool_decide; [done|apply IH].
Qed.

#[export] Instance Ipv4PolicyMapKey_ord_laws : OrdLaws Ipv4PolicyMapKey.
Proof. apply cmp_via_laws. intros [] []. simpl. by intros [= -> -> -> ->]. Qed.
#[export] Instance Ipv6PolicyMapKey_ord_laws : OrdLaws Ipv6PolicyMapKey.
Proof. apply cmp_via_laws. intros [] []. simpl. by intros [= -> -> -> -> ->]. Qed.

Section Extends.
Context {K : Type} `{OrdLaws K} `{EqDecision K} (special : K → Prop) (ok : MapEntry K → Prop).

(** [l'] is [l] with acceptable entries added or replaced under special keys. *)
Record extends (l l' : list (MapEntry K)) : Prop := {
  ex_at : ∀ k, ¬ special k → at_key entry_key k l' = at_key entry_key k l;
  ex_elem : ∀ x, x ∈ l' → x ∈ l ∨ ok x;
}.

#[export] Instance extends_preorder : PreOrder extends.
Proof.
  split.
  - intros l. split; [done|by left].
  - intros l1 l2 l3 [H1 H1'] [H2 H2']. split.
    + intros k Hk. by rewrite H2, H1.
    + intros x Hx. destruct (H2' x Hx) as [Hx'|?]; [|by right]. by apply H1'.
Qed.

Lemma extends_sort l : extends l (sort_by_key entry_key l).
Proof.
  split; [intros k _; apply at_key_sort|]. intros x. unfold sort_by_key. rewrite sort_by_elem. auto.
Qed.

Lemma extends_push l c l' :
  special (entry_key c) → ok c → push_entry l c = Ok l' → extends l l'.
Proof.
  intros Hs Hok. unfold push_entry. destruct (_ <=? _); [done|]. intros [= <-]. split.
  - intros k Hk. unfold at_key. rewrite List.filter_app. simpl.
    rewrite bool_decide_false by congruence. apply app_nil_r.
  - intros x Hx. apply elem_of_app in Hx as [?|Hx]; [by left|]. apply list_elem_of_singleton in Hx as ->. by right.
Qed.

Lemma extends_update f l l' c :
  special (entry_key c) → (∀ x, f x = x ∨ f x = c) → ok c →
  update_first (λ x, bool_decide (entry_key x = entry_key c)) f l = Some l' → extends l l'.
Proof.
  intros Hs Hf Hok. revert l'. induction l as [|x l IH]; intros l'; simpl; [done|].
  case_bool_decide as Hx.
  - intros [= <-]. split.
    + intros k Hk. simpl. assert (Hfx : entry_key (f x) = entry_key c).
      { destruct (Hf x) as [->| ->]; done. }
      rewrite !bool_decide_false by congruence. done.
    + intros y Hy. apply elem_of_cons in Hy as [->|?]; [|left; by right]. destruct (Hf x) as [->| ->]; [left; left|by right].
  - destruct (update_first _ _ l) as [l2|]; [|done]. simpl. intros [= <-].
    destruct (IH l2 eq_refl) as [H1 H2]. split.
    + intros k Hk. simpl. by rewrite H1.
    + intros y Hy. apply elem_of_cons in Hy as [->|Hy]; [left; left|]. destruct (H2 y Hy); [left; by right|by right].
Qed.

Lemma extends_merge l c l' :
  special (entry_key c) → ok c → merge_host_network_entry l c = Ok l' → extends l l'.
Proof.
  intros Hs Hok. unfold merge_host_network_entry. destruct (update_first _ _ l) as [l2|] eqn:E.
  - intros [= <-]. eapply extends_update; [done| |done|exact E]. intros x. cbv beta. case_match; auto.
  - by apply extends_push.
Qed.

Lemma extends_upsert l c l' :
  special (entry_key c) → ok c → upsert_egress_entry l c = Ok l' → extends l l'.
Proof.
  intros Hs Hok. unfold upsert_egress_entry. destruct (update_first _ _ l) as [l2|] eqn:E.
  - intros [= <-]. eapply extends_update; [done| |done|exact E]. auto.
  - by apply extends_push.
Qed.

Lemma extends_fold {E A} (f : list (MapEntry K) → A → result E (list (MapEntry K))) xs l l' :
  (∀ x l l', x ∈ xs → f l x = Ok l' → extends l l') → try_fold f l xs = Ok l' → extends l l'.
Proof.
  intros Hf. apply (try_fold_inv (extends l)); [done|]. intros b x b' Hx Hb Hfx.
  etrans; [exact Hb|by eapply Hf].
Qed.

Lemma extends_entry_at l l' k : extends l l' → ¬ special k → entry_at l' k = entry_at l k.
Proof. intros [Hat _] Hk. by rewrite !entry_at_at_key, Hat. Qed.
End Extends.

(** ** The published snapshot *)

(** Addresses of nodes: their transports and those of host-network Pods. *)
Definition host_address (st : ControllerState) (a : Z) : Prop :=
  (∃ t, t ∈ node_transports st ∧ nt_ipv4 t = a) ∨
  (∃ key pod, pods st !! key = Some pod ∧ pr_host_network pod = true ∧ a ∈ pr_ipv4_addresses pod).

(** Pods outside the host network do not share the address of a node. *)
Definition separate_addresses (st : ControllerState) : Prop :=
  ∀ key pod a, pods st !! key = Some pod → a ∈ pr_ipv4_addresses pod →
    a ≠ 0 ∧ (pr_host_network pod = false → ¬ host_address st a).

Section Published.
Context `{KubeLibrary} (st : ControllerState) (Hinv : controller_inv st) (Hobj : objects_inv st).
Context (Hsep : separate_addresses st) (Hgw : host_network_gateways st = ∅).
Context (Hsec : compiled_security_policies st = ∅).

Lemma pod_wf_at key pod : pods st !! key = Some pod → pod_wf pod.
Proof. intros Hp. by apply (pi_wf _ _ (ci_pods _ Hinv) key). Qed.

Lemma labelled_workload key pod :
  pods st !! key = Some pod →
  let x := endpoint_with_namespace_labels (namespaces st) (pr_endpoint pod) in
  wf_workload x ∧ workload x.
Proof.
  intros Hp x. destruct (pod_wf_at _ _ Hp) as (_ & _ & _ & Hid & Hports).
  split; [split; [done|]|split; [simpl; lia|]].
  - intros n q Hq. specialize (Hports n q Hq). simpl in Hports. lia.
  - simpl. destruct (namespaces st !! _) as [labels|] eqn:E; simpl; [|apply lookup_singleton_eq].
    by apply (oi_namespaces _ Hobj) in E.
Qed.

Lemma elem_of_endpoints x :
  x ∈ endpoints_with_namespace_labels st ↔ ∃ key pod, pods st !! key = Some pod ∧
    x = endpoint_with_namespace_labels (namespaces st) (pr_endpoint pod).
Proof.
  unfold endpoints_with_namespace_labels. rewrite elem_of_list_map.
  setoid_rewrite elem_of_btree_values. naive_solver.
Qed.

Lemma elem_of_ipv4_endpoints y :
  y ∈ ipv4_endpoints_with_namespace_labels st ↔ ∃ key pod, pods st !! key = Some pod ∧
    pr_host_network pod = false ∧ ep4_address y ∈ pr_ipv4_addresses pod ∧
    ep4_endpoint y = endpoint_with_namespace_labels (namespaces st) (pr_endpoint pod).
Proof using Hgw.
  unfold ipv4_endpoints_with_namespace_labels. rewrite Hgw.
  rewrite elem_of_app. change (btree_values ∅) with (@nil HostNetworkGateways). simpl.
  rewrite elem_of_nil, elem_of_list_flat_map. setoid_rewrite elem_of_list_map.
  setoid_rewrite elem_of_bset_iter. setoid_rewrite elem_of_list_filter.
  setoid_rewrite elem_of_btree_values. setoid_rewrite negb_true_iff. split.
  - intros [(pod & [[key Hk] Hh] & a & Ha & ->)|[]]. by exists key, pod.
  - intros (key & pod & Hk & Hh & Ha & He). left. exists pod. split; [by split; [exists key|]|].
    exists (ep4_address y). split; [done|]. destruct y. simpl in *. by subst.
Qed.

Lemma elem_of_ipv6_endpoints y :
  y ∈ ipv6_endpoints_with_namespace_labels st → ∃ key pod, pods st !! key = Some pod ∧
    ep6_address y ∈ pr_ipv6_addresses pod ∧
    ep6_endpoint y = endpoint_with_namespace_labels (namespaces st) (pr_endpoint pod).
Proof using Hgw.
  unfold ipv6_endpoints_with_namespace_labels. rewrite Hgw.
  rewrite elem_of_app. change (btree_values ∅) with (@nil HostNetworkGateways). simpl.
  rewrite elem_of_nil, elem_of_list_flat_map. setoid_rewrite elem_of_list_map.
  setoid_rewrite elem_of_bset_iter. setoid_rewrite elem_of_list_filter.
  setoid_rewrite elem_of_btree_values.
  intros [(pod & [[key Hk] Hh] & a & Ha & ->)|[]]. by exists key, pod.
Qed.

Lemma pod_address_width key pod a :
  pods st !! key = Some pod → a ∈ pr_ipv4_addresses pod → 1 ≤ a < 2 ^ 32.
Proof.
  intros Hp Ha. destruct (pod_wf_at _ _ Hp) as (_ & H4 & _). rewrite Forall_forall in H4.
  destruct (Hsep _ _ _ Hp Ha) as [Hne _]. destruct (H4 a) as [? ?]; [by apply elem_of_elements|lia].
Qed.

(** The known sources of one lowering call. *)
Lemma known_pods sources4 sources6 :
  (∀ y, y ∈ sources4 → ∃ key pod, pods st !! key = Some pod ∧ ep4_address y ∈ pr_ipv4_addresses pod ∧
     ep4_endpoint y = endpoint_with_namespace_labels (namespaces st) (pr_endpoint pod)) →
  (∀ y, y ∈ sources6 → ∃ key pod, pods st !! key = Some pod ∧ ep6_address y ∈ pr_ipv6_addresses pod ∧
     ep6_endpoint y = endpoint_with_namespace_labels (namespaces st) (pr_endpoint pod)) →
  wf_pods (endpoints_with_namespace_labels st) sources4 sources6.
Proof.
  intros H4 H6. split.
  - intros x (key & pod & Hp & ->)%elem_of_endpoints. by eapply labelled_workload.
  - intros y (key & pod & Hp & Ha & ->)%H4. split; [by eapply pod_address_width|].
    apply elem_of_endpoints. by exists key, pod.
  - intros y (key & pod & Hp & Ha & ->)%H6. split; [|apply elem_of_endpoints; by exists key, pod].
    destruct (pod_wf_at _ _ Hp) as (_ & _ & Hw & _). rewrite Forall_forall in Hw.
    by apply Hw, elem_of_elements.
Qed.

Local Abbreviation policies := (concat (btree_values (compiled_network_policies st))).
Local Abbreviation endpoints := (endpoints_with_namespace_labels st).

Definition special4 (k : Ipv4PolicyMapKey) : Prop := host_address st (pk4_source_address k).
Definition special_egress4 (k : EgressIpv4PolicyMapKey) : Prop :=
  host_address st (ek4_destination_address k).

Lemma objects_wf : wf_objects (network_policy_objects st).
Proof.
  intros i np. unfold network_policy_objects. rewrite elem_of_list_map.
  intros ([key np'] & _ & [= -> ->]). apply provisional_identity_id_range.
Qed.

Lemma known_cluster sources4 sources6 :
  wf_pods endpoints sources4 sources6 → wf_cluster policies endpoints sources4 sources6.
Proof.
  intros Hp. eapply compiled_cluster; [by apply network_policy_objects_compile|apply objects_wf|done].
Qed.

Lemma add_host_ipv4_extends key pod a l l' :
  pods st !! key = Some pod → pr_host_network pod = true → a ∈ pr_ipv4_addresses pod →
  add_host_ipv4_address (of_direction Ingress policies) endpoints
    (endpoint_with_namespace_labels (namespaces st) (pr_endpoint pod)) l a = Ok l' →
  extends special4 (wf_entry wf_key4) l l'.
Proof.
  intros Hp Hh Ha. unfold add_host_ipv4_address. set (source := {| ep4_address := a |}).
  assert (Hwf : wf_cluster policies endpoints [source] []).
  { apply known_cluster, known_pods; [|by intros y ?%not_elem_of_nil].
    intros y ->%list_elem_of_singleton. by exists key, pod. }
  destruct (lowered_ok _) as [candidates|] eqn:Ec; [|done].
  destruct (compile_ipv4_dataplane_entries _ _ _) as [entries|] eqn:Ee; [|done].
  injection Ec as ->. apply extends_fold. intros c l1 l2 Hc. elems in Hc. destruct Hc as [Hc Hca].
  destruct (lowered_policies_wf _ _ _ _ Hwf Ingress) as [Hwi Hni].
  apply extends_merge.
  - apply Z.eqb_eq in Hca. unfold special4. rewrite Hca. right. by exists key, pod.
  - by eapply (ipv4_lowered_wf _ _ Hwi Hni (cluster_workloads _ _ _ _ Hwf) _ _ c Ee
      (cluster_ingress4 _ _ _ _ Hwf) (cluster_addresses4 _ _ _ _ Hwf)).
Qed.

Lemma add_host_ipv6_extends key pod a l l' :
  pods st !! key = Some pod → a ∈ pr_ipv6_addresses pod →
  add_host_ipv6_address (of_direction Ingress policies) endpoints
    (endpoint_with_namespace_labels (namespaces st) (pr_endpoint pod)) l a = Ok l' →
  extends (λ _, True) (wf_entry wf_key6) l l'.
Proof.
  intros Hp Ha. unfold add_host_ipv6_address. set (source := {| ep6_address := a |}).
  assert (Hwf : wf_cluster policies endpoints [] [source]).
  { apply known_cluster, known_pods; [by intros y ?%not_elem_of_nil|].
    intros y ->%list_elem_of_singleton. by exists key, pod. }
  destruct (lowered_ok _) as [candidates|] eqn:Ec; [|done].
  destruct (compile_ipv6_dataplane_entries _ _ _) as [entries|] eqn:Ee; [|done].
  injection Ec as ->. apply extends_fold. intros c l1 l2 Hc. elems in Hc. destruct Hc as [Hc _].
  destruct (lowered_policies_wf _ _ _ _ Hwf Ingress) as [Hwi Hni]. apply extends_merge; [done|].
  by eapply (ipv6_lowered_wf _ _ Hwi Hni (cluster_workloads _ _ _ _ Hwf) _ _ c Ee
      (cluster_ingress6 _ _ _ _ Hwf)).
Qed.

Lemma add_host_network_extends l4 l6 l4' l6' :
  add_host_network_ingress_entries st (of_direction Ingress policies) endpoints l4 l6
    = Ok (l4', l6') →
  extends special4 (wf_entry wf_key4) l4 l4' ∧ extends (λ _, True) (wf_entry wf_key6) l6 l6'.
Proof.
  unfold add_host_network_ingress_entries.
  destruct (try_fold _ _ _) as [[m4 m6]|] eqn:E; [|done]. intros [= <- <-].
  assert (Hm : extends special4 (wf_entry wf_key4) l4 m4 ∧
    extends (λ _, True) (wf_entry wf_key6) l6 m6).
  { revert E. apply (try_fold_inv (λ x, extends special4 (wf_entry wf_key4) l4 x.1 ∧
      extends (λ _, True) (wf_entry wf_key6) l6 x.2)); [done|].
    intros [b4 b6] pod b' Hpod [H4 H6]. elems in Hpod.
    destruct Hpod as [[key Hk]%elem_of_btree_values Hh].
    destruct (try_fold _ b4 _) as [c4|] eqn:E4; [|done].
    destruct (try_fold _ b6 _) as [c6|] eqn:E6; [|done]. intros [= <-]. simpl. split.
    - etrans; [exact H4|]. eapply extends_fold; [|exact E4]. intros a l l' Ha. elems in Ha.
      by eapply add_host_ipv4_extends.
    - etrans; [exact H6|]. eapply extends_fold; [|exact E6]. intros a l l' Ha. elems in Ha.
      by eapply add_host_ipv6_extends. }
  destruct Hm. split; (etrans; [eassumption|apply extends_sort]).
Qed.

Lemma node_transports_wf t : t ∈ node_transports st → transport_wf t.
Proof.
  intros (n & Hn)%elem_of_node_transports. rewrite (ni_blocks _ (ci_nodes _ Hinv)) in Hn.
  destruct (_ !! n) as [c|] eqn:Ec; [|done]. simpl in Hn.
  apply node_candidates_spec in Ec as [(input & Hi & _ & _ & _ & Ht) _].
  apply (ni_inputs _ (ci_nodes _ Hinv)) in Hi as [_ Hwf]. apply Hwf. rewrite Ht.
  destruct (c.2); [|done]. by injection Hn as ->.
Qed.

Lemma plain_entry_wf {K} (wf : K → Prop) k : wf k → wf_entry wf (plain_entry k node_decision).
Proof. by split. Qed.

Record extends_all (l l' : AddressedEntries) : Prop := {
  xa_ipv4 : extends special4 (wf_entry wf_key4) (ae_ipv4 l) (ae_ipv4 l');
  xa_ipv6 : extends (λ _, True) (wf_entry wf_key6) (ae_ipv6 l) (ae_ipv6 l');
  xa_egress_ipv4 :
    extends special_egress4 (wf_entry wf_egress_key4) (ae_egress_ipv4 l) (ae_egress_ipv4 l');
  xa_egress_ipv6 :
    extends (λ _, True) (wf_entry wf_egress_key6) (ae_egress_ipv6 l) (ae_egress_ipv6 l');
}.

#[local] Instance extends_all_preorder : PreOrder extends_all.
Proof.
  split.
  - intros l. by split.
  - intros l1 l2 l3 [] []. split; by etrans.
Qed.

Lemma add_node_transport_extends t l l' :
  t ∈ node_transports st → add_node_transport l t = Ok l' → extends_all l l'.
Proof.
  intros Ht. pose proof (node_transports_wf t Ht) as [H4 H6].
  assert (Hhost : host_address st (nt_ipv4 t)) by (left; by exists t).
  assert (H4w : in_width 32 (nt_ipv4 t)) by (unfold in_width; lia).
  assert (H6w : wf_cidr6 {| c6_network := nt_ipv6 t; c6_prefix_len := 128 |}).
  { split; [simpl; lia|]. split; [done|apply Z.mod_1_r]. }
  unfold add_node_transport. intros E. split_ok E. injection E as <-. split; simpl.
  - eapply extends_merge; [..|eassumption]; [done|by apply plain_entry_wf].
  - eapply extends_merge; [..|eassumption]; [done|by apply plain_entry_wf].
  - eapply extends_upsert; [..|eassumption]; [done|by apply plain_entry_wf].
  - eapply extends_upsert; [..|eassumption]; [done|by apply plain_entry_wf].
Qed.

Lemma add_primary_node_traffic_extends l l' :
  add_primary_node_traffic_entries st l = Ok l' → extends_all l l'.
Proof.
  unfold add_primary_node_traffic_entries. case_bool_decide; [by intros [= <-]|].
  destruct (try_fold _ l _) as [m|] eqn:E; [|done]. intros [= <-].
  assert (Hm : extends_all l m).
  { revert E. apply (try_fold_inv (extends_all l)); [done|]. intros b t b' Ht Hb Hb'.
    elems in Ht. etrans; [exact Hb|by eapply add_node_transport_extends]. }
  destruct Hm. split; simpl; (etrans; [eassumption|apply extends_sort]).
Qed.

(** The published entries, in terms of what lowering gives. *)
Lemma compute_policy_state_extends epoch state :
  compute_policy_state st = Ok state → ∃ plain,
    lower_policies epoch (rev_policy (revisions st)) policies endpoints
      (ipv4_endpoints_with_namespace_labels st) (ipv6_endpoints_with_namespace_labels st) = Ok plain ∧
    dps_revision state = rev_policy (revisions st) ∧ dps_entries state = ps_entries plain ∧
    extends_all
      {| ae_ipv4 := ps_ipv4_entries plain; ae_ipv6 := ps_ipv6_entries plain;
         ae_egress_ipv4 := ps_egress_ipv4_entries plain;
         ae_egress_ipv6 := ps_egress_ipv6_entries plain |}
      {| ae_ipv4 := dps_ipv4_entries state; ae_ipv6 := dps_ipv6_entries state;
         ae_egress_ipv4 := dps_egress_ipv4_entries state;
         ae_egress_ipv6 := dps_egress_ipv6_entries state |}.
Proof.
  assert (Hpol : compiled_policies st = policies) by (unfold compiled_policies; by rewrite Hsec).
  unfold compute_policy_state, lower_policies. rewrite Hpol.
  destruct (compile_dataplane_entries _ _) as [entries|]; [|done]. simpl.
  destruct (compile_ipv4_dataplane_entries _ _ _) as [i4|]; [|done]. simpl.
  destruct (compile_ipv6_dataplane_entries _ _ _) as [i6|]; [|done]. simpl.
  destruct (add_host_network_ingress_entries _ _ _ _ _) as [[h4 h6]|] eqn:Eh; [|done].
  destruct (compile_egress_ipv4_dataplane_entries _ _ _) as [e4|]; [|done]. simpl.
  destruct (compile_egress_ipv6_dataplane_entries _ _ _) as [e6|]; [|done]. simpl.
  destruct (add_primary_node_traffic_entries _ _) as [added|] eqn:Ea; [|done].
  unfold add_ovn_host_network_reply_entries. rewrite bool_decide_true by done. intros [= <-].
  eexists. split; [reflexivity|]. split; [done|]. split; [done|]. simpl.
  apply add_host_network_extends in Eh as [H4 H6].
  apply add_primary_node_traffic_extends in Ea as [A4 A6 B4 B6]. simpl in *.
  split; simpl; [by etrans|by etrans|done|done].
Qed.

Lemma extends_Forall {K} `{OrdLaws K} `{EqDecision K} special (ok : MapEntry K → Prop) l l' :
  extends special ok l l' → Forall ok l → Forall ok l'.
Proof.
  rewrite !Forall_forall. intros [_ He] Hl x Hx. destruct (He x Hx); auto.
Qed.

Lemma published_pods :
  wf_pods endpoints (ipv4_endpoints_with_namespace_labels st) (ipv6_endpoints_with_namespace_labels st).
Proof.
  apply known_pods; [|apply elem_of_ipv6_endpoints].
  intros y (key & pod & Hp & _ & Ha & He)%elem_of_ipv4_endpoints. by exists key, pod.
Qed.

Lemma pod_address_separate a :
  (∃ y, y ∈ ipv4_endpoints_with_namespace_labels st ∧ ep4_address y = a) → ¬ host_address st a.
Proof.
  intros (y & (key & pod & Hp & Hh & Ha & _)%elem_of_ipv4_endpoints & <-).
  by destruct (Hsep _ _ _ Hp Ha) as [_ Hn]; apply Hn.
Qed.

Lemma zero_separate : ¬ host_address st 0.
Proof.
  intros [(t & Ht & Hz)|(key & pod & Hp & _ & Ha)].
  - destruct (node_transports_wf t Ht) as [? _]. lia.
  - by destruct (Hsep _ _ _ Hp Ha).
Qed.

Lemma computed_lowered epoch state snapshot :
  in_width 64 epoch → 1 ≤ rev_policy (revisions st) < u_max 64 →
  compute_policy_state st = Ok state →
  snapshot = {| ps_schema_version := POLICY_SNAPSHOT_SCHEMA_VERSION; ps_source_epoch := epoch;
    ps_revision := dps_revision state; ps_entries := dps_entries state;
    ps_ipv4_entries := dps_ipv4_entries state; ps_ipv6_entries := dps_ipv6_entries state;
    ps_egress_ipv4_entries := dps_egress_ipv4_entries state;
    ps_egress_ipv6_entries := dps_egress_ipv6_entries state |} →
  lowered (network_policy_objects st) endpoints (ipv4_endpoints_with_namespace_labels st)
    (ipv6_endpoints_with_namespace_labels st) snapshot.
Proof.
  intros Hep Hrev Hs ->. destruct (compute_policy_state_extends epoch state Hs)
    as (plain & Hl & Hr & Hid & [H4 H6 E4 E6]). simpl in *.
  assert (Hrw : 1 ≤ rev_policy (revisions st) < 2 ^ 64) by (change (u_max 64) with (2 ^ 64 - 1) in Hrev; lia).
  pose proof (known_cluster _ _ published_pods) as Hwf.
  pose proof (lowered_snapshot_wf _ _ _ _ _ _ _ Hep Hrw Hl Hwf) as (W1 & W2 & W3 & W4 & W5 & W6).
  pose proof (lowered_egress_ipv6_wf _ _ _ _ _ _ _ Hl Hwf) as W7.
  assert (Hws : wf_snapshot {| ps_schema_version := POLICY_SNAPSHOT_SCHEMA_VERSION;
    ps_source_epoch := epoch; ps_revision := dps_revision state; ps_entries := dps_entries state;
    ps_ipv4_entries := dps_ipv4_entries state; ps_ipv6_entries := dps_ipv6_entries state;
    ps_egress_ipv4_entries := dps_egress_ipv4_entries state;
    ps_egress_ipv6_entries := dps_egress_ipv6_entries state |}).
  { unfold wf_snapshot. simpl. rewrite Hr, Hid.
    split_and!; try done; (eapply extends_Forall; eassumption) || lia. }
  split; [apply objects_wf|apply published_pods| |].
  - split; [exact Hws|]. by eapply extends_Forall.
  - exists (btree_values (compiled_network_policies st)), plain. simpl. rewrite Hr.
    split; [by apply network_policy_objects_compile|]. split; [done|].
    destruct (lower_policies_Ok _ _ _ _ _ _ _ Hl) as (_ & Hpr & _).
    split; simpl; [by rewrite Hr in Hws|by rewrite ?Hpr|done|..|]; [|done|].
    + intros k Hk. eapply extends_entry_at; [exact H4|]. unfold special4.
      destruct Hk as [->|Hk]; [apply zero_separate|by apply pod_address_separate].
    + intros k Hk. eapply extends_entry_at; [exact E4|]. unfold special_egress4.
      destruct Hk as [->|Hk]; [apply zero_separate|by apply pod_address_separate].
Qed.
End Published.

(** A cluster with NetworkPolicy objects only, outside an OVN fabric, at a revision that has
    not saturated. *)
Record standard_cluster (st : ControllerState) : Prop := {
  sc_revision : 1 ≤ rev_policy (revisions st) < u_max 64;
  sc_addresses : separate_addresses st;
  sc_gateways : host_network_gateways st = ∅;
  sc_native : compiled_security_policies st = ∅;
}.

Section Properties.
Context `{KubeLibrary}.

Lemma published_lowered epoch st snapshot :
  reachable epoch st → in_width 64 epoch → standard_cluster st →
  (policy_snapshot st).1 = Ok snapshot →
  lowered (network_policy_objects st) (endpoints_with_namespace_labels st)
    (ipv4_endpoints_with_namespace_labels st) (ipv6_endpoints_with_namespace_labels st) snapshot.
Proof.
  intros Hr Hep [Hrev Hsep Hgw Hsec]. destruct (reachable_good _ _ Hr) as [Hi Hc].
  destruct (reachable_objects _ _ Hr) as [Ho <-].
  pose proof (served_fresh st Hi Hc ltac:(lia)) as Hf. unfold policy_snapshot.
  destruct (dataplane_policy_state_cases st) as [(s & _ & _ & E)|[(s & _ & E)|(e & _ & E)]];
    rewrite E in *; simpl in *; try done; intros [= <-]; symmetry in Hf;
    (eapply (computed_lowered st Hi Ho Hsep Hgw Hsec (identity_epoch st) s); [done|lia|done|done]).
Qed.


End Properties.

(** ** Witnesses: a policy for one of two Pods, next to a host-network Pod *)

Definition separate_check (st : ControllerState) : bool :=
  forallb (λ pod, forallb (λ a, negb (a =? 0) && (pr_host_network pod ||
      negb (existsb (λ t, nt_ipv4 t =? a) (bset_iter (node_transports st))
            || existsb (λ pod, pr_host_network pod && bool_decide (a ∈ pr_ipv4_addresses pod))
                 (btree_values (pods st)))))
    (bset_iter (pr_ipv4_addresses pod))) (btree_values (pods st)).

Lemma separate_check_sound st : separate_check st = true → separate_addresses st.
Proof.
  unfold separate_check. rewrite forallb_forall. setoid_rewrite <-list_elem_of_In.
  intros Hall key pod a Hp Ha.
  assert (Hin : pod ∈ btree_values (pods st)) by (apply elem_of_btree_values; by exists key).
  specialize (Hall pod Hin). rewrite forallb_forall in Hall.
  specialize (Hall a). rewrite <-list_elem_of_In, elem_of_bset_iter in Hall. specialize (Hall Ha).
  apply andb_true_iff in Hall as [Hz%negb_true_iff%Z.eqb_neq Hh]. split; [done|]. intros Hnet.
  rewrite Hnet in Hh. simpl in Hh. apply negb_true_iff, orb_false_iff in Hh as [H1 H2].
  rewrite <-not_true_iff_false, existsb_exists in H1, H2.
  intros [(t & Ht & <-)|(key' & pod' & Hp' & Hh' & Ha')].
  - apply H1. exists t. rewrite <-list_elem_of_In, elem_of_bset_iter. split; [done|apply Z.eqb_refl].
  - apply H2. exists pod'. rewrite <-list_elem_of_In, elem_of_btree_values, Hh', bool_decide_true by done.
    split; [by exists key'|done].
Qed.

#[local] Existing Instance demo_library.

(** Only [web] may connect to [db], and only to its named port. *)
Definition demo_db_policy : NetworkPolicy := {|
  np_metadata := demo_meta "prod" "db" "db" ∅;
  np_spec := Some {|
    nps_egress := None;
    nps_ingress := Some
      [{| ing_from := Some
            [{| peer_ip_block := None; peer_namespace_selector := None;
                peer_pod_selector := Some (demo_app_selector "web") |}];
          ing_ports := Some [{| npp_end_port := None; npp_port := Some (StrVal "http");
                                npp_protocol := None |}] |}];
    nps_pod_selector := Some (demo_app_selector "db");
    nps_policy_types := None |} |}.

Definition demo_host_pod : Pod := {|
  pod_metadata := demo_meta "prod" "agent" "agent" {[ "app" := "agent" ]};
  pod_spec := Some {| pspec_service_account_name := None; pspec_node_name := Some "worker-a";
                      pspec_host_network := Some true; pspec_containers := [] |};
  pod_status := Some {| pstatus_phase := Some "Running"; pstatus_pod_ips := Some ["192.0.2.1"];
                        pstatus_pod_ip := None |} |}.

Definition demo_standard : ControllerState :=
  apply_event demo_cluster (PodEvent (Apply demo_host_pod)).
Definition demo_secured : ControllerState :=
  apply_event demo_standard (NetworkPolicyEvent (Apply demo_db_policy)).

Definition published (st : ControllerState) : PolicyStateSnapshot :=
  match (policy_snapshot st).1 with
  | Ok snapshot => snapshot
  | Err _ => {| ps_schema_version := 0; ps_source_epoch := 1; ps_revision := 1; ps_entries := [];
                ps_ipv4_entries := []; ps_ipv6_entries := []; ps_egress_ipv4_entries := [];
                ps_egress_ipv6_entries := [] |}
  end.

Lemma demo_standard_ok : standard_cluster demo_standard.
Proof.
  split; [vm_compute; by split|apply separate_check_sound; by vm_compute|by vm_compute..].
Qed.

Lemma demo_secured_ok : standard_cluster demo_secured.
Proof.
  split; [vm_compute; by split|apply separate_check_sound; by vm_compute|by vm_compute..].
Qed.

Lemma demo_standard_reachable : reachable 1 demo_standard.
Proof. eapply rtc_r; [exact demo_cluster_reachable|constructor]. Qed.

Lemma demo_secured_reachable : reachable 1 demo_secured.
Proof. eapply rtc_r; [exact demo_standard_reachable|constructor]. Qed.


(** An agent that has applied the snapshot before the policy. *)
Definition standard_agent : Agent := (update (λ _, false) fresh_agent (published demo_standard)).2.

Lemma standard_agent_state :
  consistent LittleEndian (a_policies standard_agent) (w_kernel (a_world standard_agent)) ∧
  in_force LittleEndian (w_kernel (a_world standard_agent))
    (sy_active_bank (a_policies standard_agent)) (Some (published demo_standard)).
Proof.
  apply first_update.
  - vm_compute. reflexivity.
  - eapply lo_storable, (published_lowered 1 demo_standard);
      [exact demo_standard_reachable|by split|exact demo_standard_ok|vm_compute; reflexivity].
  - vm_compute. discriminate.
Qed.

