(* ===== verification/CniAttachment.v ===== *)
(** * CNI attachments and transactions ([crates/unf-cni-state])

    The data of the attachment journal: keys, specifications, phases, durable records, the
    transaction protocol of the agent socket, the validation of what a client sends, and the
    host interface name derived from a key.  Rust strings are byte strings; error values keep
    their constructor and structured fields, the formatted diagnostics are not modelled. *)

From Stdlib Require Import Ascii.
From S2P Require Import Prelude Common NetAddr Ipam Bytes.

Definition CNI_TRANSACTION_SCHEMA_VERSION : Z := 4.
Definition UID_CNI_TRANSACTION_SCHEMA_VERSION : Z := 3.
Definition LEGACY_CNI_TRANSACTION_SCHEMA_VERSION : Z := 2.
Definition MAX_ATTACHMENT_LIST_RECORDS : Z := 8.

Definition MIN_DUAL_STACK_MTU : Z := 1280.
Definition MAX_MTU : Z := 65535.
Definition MAX_IDENTIFIER_BYTES : Z := 253.
Definition MAX_NETNS_BYTES : Z := 4096.

(** ** Attachments *)

Record AttachmentKey := {
  key_network : string;
  key_container_id : string;
  key_ifname : string;
}.

Record AttachmentSpec := {
  aspec_key : AttachmentKey;
  aspec_netns : string;
  aspec_mtu : Z;
  aspec_workload_uid : option string;
}.

Inductive AttachmentPhase := Preparing | Ready | Aborting | Deleting.

Record AttachmentRecord := {
  att_spec : AttachmentSpec;
  att_host_interface : string;
  att_lease : DualStackLease;
  att_phase : AttachmentPhase;
  att_creation_token : option bytes;
}.

#[export] Instance AttachmentKey_eq_dec : EqDecision AttachmentKey.
Proof. solve_decision. Defined.
#[export] Instance AttachmentSpec_eq_dec : EqDecision AttachmentSpec.
Proof. solve_decision. Defined.
#[export] Instance AttachmentPhase_eq_dec : EqDecision AttachmentPhase.
Proof. solve_decision. Defined.
#[export] Instance AttachmentRecord_eq_dec : EqDecision AttachmentRecord.
Proof. solve_decision. Defined.

(** The derived [Ord]: field by field. *)
Definition key_code (k : AttachmentKey) : string * (string * string) :=
  (key_network k, (key_container_id k, key_ifname k)).

#[export] Instance key_code_inj : Inj (=) (=) key_code.
Proof. by intros [] [] [= -> -> ->]. Qed.
#[export] Instance AttachmentKey_countable : Countable AttachmentKey.
Proof.
  apply (inj_countable' key_code (λ '(n, (c, i)),
    {| key_network := n; key_container_id := c; key_ifname := i |})).
  by intros [].
Defined.
#[export] Instance AttachmentKey_ord : Ord AttachmentKey := cmp_via key_code.
#[export] Instance AttachmentKey_ord_laws : OrdLaws AttachmentKey.
Proof. apply cmp_via_laws, _. Qed.

(** The key of a record. *)
Definition att_key (r : AttachmentRecord) : AttachmentKey := aspec_key (att_spec r).

Definition set_phase (r : AttachmentRecord) (phase : AttachmentPhase) : AttachmentRecord :=
  {| att_spec := att_spec r; att_host_interface := att_host_interface r;
     att_lease := att_lease r; att_phase := phase;
     att_creation_token := att_creation_token r |}.

Definition accepts_replay (self requested : AttachmentSpec) : bool :=
  bool_decide (aspec_key self = aspec_key requested)
  && bool_decide (aspec_netns self = aspec_netns requested)
  && (aspec_mtu self =? aspec_mtu requested)
  && is_none_or (aspec_workload_uid self)
       (λ uid, bool_decide (aspec_workload_uid requested = Some uid)).

(** ** The transaction protocol *)

Inductive TransactionOperation :=
| OpStatus
| OpList (network : string) (after : option AttachmentKey) (limit : Z)
| OpInspect (key : AttachmentKey)
| OpPrepare (attachment : AttachmentSpec)
| OpCommit (key : AttachmentKey)
| OpBeginAbort (key : AttachmentKey)
| OpCompleteAbort (key : AttachmentKey)
| OpCheck (attachment : AttachmentSpec)
| OpBeginDelete (key : AttachmentKey)
| OpCompleteDelete (key : AttachmentKey).

(** Every variant of the source's [TransactionRequest] is the operation of the same name
    with the schema version of the message. *)
Record TransactionRequest := {
  request_schema_version : Z;
  into_operation : TransactionOperation;
}.
Definition TransactionRequest_new (schema_version : Z) (operation : TransactionOperation) :
    TransactionRequest :=
  {| request_schema_version := schema_version; into_operation := operation |}.

Inductive TransactionErrorCode :=
| TxInvalidRequest | TxIncompatibleSchema | TxNotFound | TxConflict
| TxInvalidTransition | TxPersistenceFailure | TxExhausted | TxUnauthorized.

Inductive TransactionOutcome :=
| OutcomeOk (attachment : option AttachmentRecord) (attachments : list AttachmentRecord)
    (attachment_count : Z)
| OutcomeError (code : TransactionErrorCode).

Record TransactionResponse := {
  response_schema_version : Z;
  response_outcome : TransactionOutcome;
}.

Definition TransactionResponse_error (code : TransactionErrorCode) : TransactionResponse :=
  {| response_schema_version := CNI_TRANSACTION_SCHEMA_VERSION;
     response_outcome := OutcomeError code |}.

Inductive JournalError :=
| JInvalid
| JNotFound
| JConflict
| JInvalidTransition
| JIncompatibleSchema (actual expected : Z)
| JIo
| JRetirement
| JJson
| JIpam (error : IpamError).
#[export] Instance JournalError_eq_dec : EqDecision JournalError.
Proof. solve_decision. Defined.

(** ** Validation *)

Definition is_ascii_alphanumeric (c : ascii) : bool :=
  let b := Z.of_nat (nat_of_ascii c) in
  ((48 <=? b) && (b <=? 57)) || ((65 <=? b) && (b <=? 90)) || ((97 <=? b) && (b <=? 122)).

Definition identifier_byte (c : ascii) : bool :=
  is_ascii_alphanumeric c || bool_decide (c ∈ ["_"; "."; "-"]%char).

Definition valid_identifier (value : string) (max : Z) : bool :=
  (Z.of_nat (String.length value) <=? max)
  && match String.list_ascii_of_string value with
     | [] => false
     | first :: rest => is_ascii_alphanumeric first && forallb identifier_byte rest
     end.

Definition valid_workload_uid (uid : string) : bool := valid_identifier uid 128.
Definition valid_interface_name (value : string) : bool := valid_identifier value 15.

Definition validate_key (key : AttachmentKey) : result JournalError () :=
  if negb (valid_identifier (key_network key) MAX_IDENTIFIER_BYTES)
     || negb (valid_identifier (key_container_id key) MAX_IDENTIFIER_BYTES)
     || negb (valid_interface_name (key_ifname key))
  then Err JInvalid else Ok ().

Definition validate_spec (spec : AttachmentSpec) : result JournalError () :=
  let? _ := validate_key (aspec_key spec) in
  if is_some_and (aspec_workload_uid spec) (λ uid, negb (valid_workload_uid uid))
  then Err JInvalid
  else if negb (String.prefix "/" (aspec_netns spec))
          || bool_decide (zero ∈ String.list_ascii_of_string (aspec_netns spec))
          || (MAX_NETNS_BYTES <? Z.of_nat (String.length (aspec_netns spec)))
  then Err JInvalid
  else if negb ((MIN_DUAL_STACK_MTU <=? aspec_mtu spec) && (aspec_mtu spec <=? MAX_MTU))
  then Err JInvalid
  else Ok ().

(** ** The host interface of an attachment *)

Definition FNV_OFFSET : Z := 0xcbf29ce484222325.
Definition FNV_PRIME : Z := 0x100000001b3.

(** One byte of the 64-bit FNV-1a hash. *)
Definition fnv64_step (hash : Z) (byte : Z) : Z :=
  wrapping 64 (Z.lxor hash byte * FNV_PRIME).

Definition string_bytes (s : string) : bytes :=
  map (λ c, Z.of_nat (nat_of_ascii c)) (String.list_ascii_of_string s).

Definition key_hash (key : AttachmentKey) : Z :=
  fold_left fnv64_step
    (flat_map (λ value, string_bytes value ++ [0])
       [key_network key; key_container_id key; key_ifname key])
    FNV_OFFSET.

Definition hex_digit (d : Z) : ascii :=
  ascii_of_nat (Z.to_nat (if d <? 10 then 48 + d else 87 + d)).

(** [{:0nx}] of a value of at most [n] hexadecimal digits. *)
Fixpoint hex_digits (n : nat) (v : Z) : string :=
  match n with
  | O => EmptyString
  | S m => String (hex_digit (Z.land (Z.shiftr v (4 * Z.of_nat m)) 15)) (hex_digits m v)
  end.

Definition deterministic_host_interface (key : AttachmentKey) : string :=
  String.append "unf" (hex_digits 11 (Z.land (key_hash key) 0x7ffffffffff)).

(** ** Facts *)

Lemma hex_digit_alphanumeric d : 0 ≤ d < 16 → is_ascii_alphanumeric (hex_digit d) = true.
Proof.
  intros Hd. assert (d ∈ seqZ 0 16) as Hin by (apply elem_of_seqZ; lia).
  assert (Forall (λ d, is_ascii_alphanumeric (hex_digit d) = true) (seqZ 0 16)) as Hall
    by (vm_compute; repeat constructor).
  rewrite list.Forall_forall in Hall. auto.
Qed.

Lemma hex_digit_inj d e : 0 ≤ d < 16 → 0 ≤ e < 16 → hex_digit d = hex_digit e → d = e.
Proof.
  unfold hex_digit. intros Hd He Heq. apply (f_equal nat_of_ascii) in Heq.
  destruct (Z.ltb_spec d 10), (Z.ltb_spec e 10);
    rewrite !nat_ascii_embedding in Heq by lia; lia.
Qed.

Lemma nibble v m : Z.land (Z.shiftr v (4 * Z.of_nat m)) 15 = v / 16 ^ Z.of_nat m mod 16.
Proof.
  change 15 with (Z.ones 4). rewrite Z.land_ones, Z.shiftr_div_pow2 by lia.
  by rewrite Z.pow_mul_r by lia.
Qed.

Lemma hex_digits_length n v : String.length (hex_digits n v) = n.
Proof. induction n; simpl; congruence. Qed.

Lemma hex_digits_alphanumeric n v :
  forallb is_ascii_alphanumeric (String.list_ascii_of_string (hex_digits n v)) = true.
Proof.
  induction n as [|n IH]; [done|]. cbn -[Z.land Z.of_nat is_ascii_alphanumeric hex_digit].
  rewrite IH, hex_digit_alphanumeric; [done|]. rewrite nibble. by apply Z.mod_pos_bound.
Qed.

(** The digits determine the low [4 n] bits they print. *)
Lemma hex_digits_inj n v u :
  hex_digits n v = hex_digits n u → v mod 16 ^ Z.of_nat n = u mod 16 ^ Z.of_nat n.
Proof.
  induction n as [|n IH]; [by rewrite !Z.mod_1_r|].
  cbn -[Z.land Z.of_nat hex_digit Z.pow]. intros [= Hd Hrest].
  apply hex_digit_inj in Hd; [|rewrite nibble; by apply Z.mod_pos_bound..].
  specialize (IH Hrest). rewrite !nibble in Hd.
  rewrite Nat2Z.inj_succ, Z.pow_succ_r by lia.
  assert (0 < 16 ^ Z.of_nat n) by (apply Z.pow_pos_nonneg; lia).
  rewrite (Z.mul_comm 16), !Z.rem_mul_r by lia. by rewrite IH, Hd.
Qed.

Lemma key_hash_width key : in_width 64 (key_hash key).
Proof.
  unfold key_hash. generalize (flat_map (λ value, string_bytes value ++ [0])
    [key_network key; key_container_id key; key_ifname key]).
  assert (in_width 64 FNV_OFFSET) as Hoffset by (vm_compute; done).
  intros l. revert Hoffset. generalize FNV_OFFSET.
  induction l as [|b l IH]; simpl; [done|]. intros z _. apply IH.
  unfold fnv64_step. auto with unf_width lia.
Qed.

Lemma identifier_of_alphanumeric c : is_ascii_alphanumeric c = true → identifier_byte c = true.
Proof. unfold identifier_byte. by intros ->. Qed.

(** ** Properties *)

(** C31. The host interface of an attachment fits Linux.  For every key the derived name is a
    valid interface name of exactly 14 bytes (the kernel's limit is 15), and the name loses
    nothing of the 43 bits of the hash it prints: two attachments get the same host interface
    exactly when their hashes agree modulo [2 ^ 43]. *)
Theorem host_interface_bounded key :
  valid_interface_name (deterministic_host_interface key) = true ∧
  String.length (deterministic_host_interface key) = 14%nat ∧
  ∀ other, deterministic_host_interface key = deterministic_host_interface other ↔
    key_hash key mod 2 ^ 43 = key_hash other mod 2 ^ 43.
Proof.
  unfold valid_interface_name, valid_identifier, deterministic_host_interface.
  change 0x7ffffffffff with (Z.ones 43).
  assert (Happend : ∀ s, String.append "unf" s =
    String "u"%char (String "n"%char (String "f"%char s))) by done.
  split; [|split].
  - rewrite !Happend. cbn [String.length String.list_ascii_of_string forallb].
    rewrite hex_digits_length, !identifier_of_alphanumeric by done.
    pose proof (hex_digits_alphanumeric 11 (Z.land (key_hash key) (Z.ones 43))) as Hhex.
    rewrite forallb_forall in Hhex. cbn [andb].
    apply andb_true_iff. split; [done|]. apply andb_true_iff. split; [done|].
    apply forallb_forall. auto using identifier_of_alphanumeric.
  - rewrite Happend. cbn [String.length]. by rewrite hex_digits_length.
  - intros other. rewrite <-!Z.land_ones by done. split; [|by intros ->].
    assert (Hinj : ∀ s t, String.append "unf" s = String.append "unf" t → s = t)
      by (intros s t; rewrite !Happend; congruence).
    assert (Hsmall : ∀ z, z mod 2 ^ 43 mod 16 ^ Z.of_nat 11 = z mod 2 ^ 43).
    { intros z. apply Z.mod_small. pose proof (Z.mod_pos_bound z (2 ^ 43)). lia. }
    rewrite !Z.land_ones by done. intros Heq%Hinj%hex_digits_inj. by rewrite !Hsmall in Heq.
Qed.
