(* ===== verification/CniJournal.v ===== *)
(** * The durable attachment journal ([crates/unf-cni-state])

    [AttachmentJournal] keeps the attachments of a node in memory and in one JSON file that it
    replaces atomically: write a temporary file, sync it, rename it over the journal and sync
    the directory.  The file system is modelled at that level: every call into the system is
    one step that may fail, a file has bytes and a synced flag, and the directory entry of the
    journal remembers the entries a crash may still bring back.  The world also records every
    intermediate state of the disk, so that a crash can happen between any two calls.

    [serde_json] is a parameter ([JournalJson]); its law is that a document which was written
    is read back.  The random source and the failures are parameters of an environment.  The
    absolute-path and symlink checks are calls that may fail; file modes are not modelled. *)

From coqutil Require Import Datatypes.RecordSetters.
From S2P Require Import Prelude Common NetAddr Ipam Bytes CniAttachment.
Import DoubleBraceUpdate.

Definition ATTACHMENT_JOURNAL_SCHEMA_VERSION : Z := 4.
Definition REQUIRED_RETIREMENT_JOURNAL_SCHEMA_VERSION : Z := 5.
Definition UID_ATTACHMENT_JOURNAL_SCHEMA_VERSION : Z := 3.
Definition UNBOUND_ATTACHMENT_JOURNAL_SCHEMA_VERSION : Z := 2.
Definition LEGACY_ATTACHMENT_JOURNAL_SCHEMA_VERSION : Z := 1.

(** ** Documents *)

Record JournalDocument := {
  doc_schema_version : Z;
  doc_provider : NodeBlockProvider;
  doc_attachments : list AttachmentRecord;
}.

Record LegacyAttachmentRecord := {
  legacy_spec : AttachmentSpec;
  legacy_host_interface : string;
  legacy_phase : AttachmentPhase;
}.
Record LegacyJournalDocument := {
  legacy_schema_version : Z;
  legacy_attachments : list LegacyAttachmentRecord;
}.

(** A record whose numbers fit the fields of the Rust struct. *)
Definition record_typed (r : AttachmentRecord) : Prop :=
  in_width 32 (aspec_mtu (att_spec r)) ∧
  in_width 32 (lease_a4 (att_lease r)) ∧ in_width 128 (lease_a6 (att_lease r)) ∧
  (∀ token, att_creation_token r = Some token → length token = 32%nat ∧ byte_string token).

Definition document_typed (document : JournalDocument) : Prop :=
  in_width 16 (doc_schema_version document) ∧ NodeBlockProvider_wf (doc_provider document) ∧
  Forall record_typed (doc_attachments document).

(** [serde_json] at the types of the journal: printing a document, parsing bytes to a value,
    the [schemaVersion] member of a value as a [u16], and the two document types of a value. *)
Class JournalJson := {
  json_value : Type;
  to_vec_pretty : JournalDocument → bytes;
  from_slice : bytes → option json_value;
  value_schema_version : json_value → option Z;
  document_from_value : json_value → option JournalDocument;
  legacy_from_value : json_value → option LegacyJournalDocument;
}.

(** What is printed is read back, and what is read has the types of the structs. *)
Class JournalJsonLaws `(JournalJson) : Prop := {
  json_round_trip document : document_typed document →
    ∃ value, from_slice (to_vec_pretty document ++ [10]) = Some value ∧
      value_schema_version value = Some (doc_schema_version document) ∧
      document_from_value value = Some document;
  json_document_typed value document : document_from_value value = Some document →
    value_schema_version value = Some (doc_schema_version document) ∧
    Forall record_typed (doc_attachments document);
  json_legacy_typed value document : legacy_from_value value = Some document →
    value_schema_version value = Some (legacy_schema_version document);
}.

(** ** The disk *)

Record FileState := { file_bytes : bytes; file_synced : bool }.

(** A directory entry: what lookups see, and the older entries a crash may bring back because
    the directory has not been synced since. *)
Record DirEntry := { entry_latest : option FileState; entry_pending : list (option FileState) }.

Definition entry_possible (e : DirEntry) : list (option FileState) :=
  entry_latest e :: entry_pending e.
Definition entry_put (f : option FileState) (e : DirEntry) : DirEntry :=
  {| entry_latest := f; entry_pending := entry_possible e |}.
Definition entry_flush (e : DirEntry) : DirEntry :=
  {| entry_latest := entry_latest e; entry_pending := [] |}.

Record Disk := {
  disk_journal : DirEntry;
  disk_temporary : option FileState;
}.

Record JournalWorld := {
  jw_disk : Disk;
  jw_calls : nat;
  jw_retired : list bytes;
  jw_instances : nat;
  jw_history : list (Disk * list bytes);
}.

(** The answers of the system: whether the [n]-th call fails, how much of a failed write was
    written, whether [Path::exists] cannot tell (it then answers [false]), and random bytes. *)
Record JournalEnv := {
  env_fails : nat → bool;
  env_written : nat → nat;
  env_exists_fails : nat → bool;
  env_random : nat → bytes;
}.

(** One more call was made: note the state of the world after it. *)
Definition jw_log (w : JournalWorld) : JournalWorld :=
  w {{ jw_calls ::= S; jw_history ::= cons (jw_disk w, jw_retired w) }}.

Section World.
Context (env : JournalEnv).

Abbreviation Call := (Routine JournalWorld JournalError).

(** A call with its effect on the disk when it succeeds and when it fails. *)
Definition sys_call (done failed : Disk → Disk) : Call () := λ w,
  if env_fails env (jw_calls w)
  then (Err JIo, jw_log (w {{ jw_disk ::= failed }}))
  else (Ok (), jw_log (w {{ jw_disk ::= done }})).

(** A call that only looks. *)
Definition sys_query : Call () := sys_call (λ d, d) (λ d, d).

Definition path_exists (found : Disk → bool) : Call bool := λ w,
  (Ok (found (jw_disk w) && negb (env_exists_fails env (jw_calls w))), jw_log w).

Definition journal_exists (d : Disk) : bool :=
  bool_decide (is_Some (entry_latest (disk_journal d))).
Definition temporary_exists (d : Disk) : bool := bool_decide (is_Some (disk_temporary d)).

(** [OpenOptions::create_new]: fails when the file is there. *)
Definition create_temporary : Call () := λ w,
  if temporary_exists (jw_disk w) then (Err JIo, jw_log w)
  else sys_call (λ d, d {{ disk_temporary := Some {| file_bytes := []; file_synced := false |} }})
         (λ d, d) w.

(** [write_all] appends; when it fails, some prefix was written. *)
Definition append_temporary (data : bytes) (d : Disk) : Disk :=
  d {{ disk_temporary ::= option_map (λ f,
        {| file_bytes := file_bytes f ++ data; file_synced := false |}) }}.
Definition write_all (data : bytes) : Call () := λ w,
  sys_call (append_temporary data) (append_temporary (take (env_written env (jw_calls w)) data)) w.

Definition sync_temporary : Call () :=
  sys_call (λ d, d {{ disk_temporary ::= option_map (λ f,
                       {| file_bytes := file_bytes f; file_synced := true |}) }})
    (λ d, d).

Definition rename_temporary : Call () :=
  sys_call (λ d, {| disk_journal := entry_put (disk_temporary d) (disk_journal d);
                    disk_temporary := None |})
    (λ d, d).

(** [File::open(parent)?.sync_all()]. *)
Definition sync_directory : Call () :=
  let* _ := sys_query in
  sys_call (λ d, d {{ disk_journal ::= entry_flush }}) (λ d, d).

Definition remove_temporary : Call () :=
  sys_call (λ d, d {{ disk_temporary := None }}) (λ d, d).

Definition reject_symlink_components : Call () := sys_query.
Definition set_permissions : Call () := sys_query.

(** [getrandom::fill] of 32 bytes. *)
Definition fill_random : Call bytes := λ w,
  if env_fails env (jw_calls w) then (Err JIo, jw_log w)
  else (Ok (env_random env (jw_calls w)), jw_log w).

(** The installed [AttachmentRetirement]: on success the token is revoked everywhere. *)
Definition retire (token : bytes) : Call () := λ w,
  if env_fails env (jw_calls w) then (Err JRetirement, jw_log w)
  else (Ok (), jw_log (w {{ jw_retired ::= cons token }})).

(** [Arc::new(())]: an identity no other allocation has. *)
Definition new_instance : Call nat := λ w,
  (Ok (jw_instances w), w {{ jw_instances ::= S }}).

End World.

(** ** Reading a document *)

(** The local variables of the loop over the records of a document. *)
Record DocumentScan := {
  scan_attachments : gmap AttachmentKey AttachmentRecord;
  scan_interfaces : gset string;
  scan_used : UsedAddresses;
  scan_previous : option AttachmentKey;
  scan_tokens : gset bytes;
}.

Definition scan_start : DocumentScan :=
  {| scan_attachments := ∅; scan_interfaces := ∅; scan_used := UsedAddresses_default;
     scan_previous := None; scan_tokens := ∅ |}.

Definition ipam {A} (r : result IpamError A) : result JournalError A :=
  match r with Ok a => Ok a | Err e => Err (JIpam e) end.

(** Returns the set of interfaces with the record's own. *)
Definition validate_record_identity (spec : AttachmentSpec) (host_interface : string)
    (previous_key : option AttachmentKey) (interfaces : gset string) :
    result JournalError (gset string) :=
  let? _ := validate_spec spec in
  if negb (bool_decide (host_interface = deterministic_host_interface (aspec_key spec)))
  then Err JInvalid
  else if is_some_and previous_key (λ key, leb (aspec_key spec) key) then Err JInvalid
  else if bool_decide (host_interface ∈ interfaces) then Err JConflict
  else Ok ({[host_interface]} ∪ interfaces).

Definition zero_token : bytes := replicate 32 0.

(** The check of a creation nonce; returns the set of nonces with the record's own. *)
Definition scan_token (schema_version : Z) (record : AttachmentRecord) (tokens : gset bytes) :
    result JournalError (gset bytes) :=
  match att_creation_token record with
  | None => Ok tokens
  | Some token =>
      if negb ((schema_version =? ATTACHMENT_JOURNAL_SCHEMA_VERSION)
               || (schema_version =? REQUIRED_RETIREMENT_JOURNAL_SCHEMA_VERSION))
         || bool_decide (aspec_workload_uid (att_spec record) = None)
         || bool_decide (token = zero_token)
         || bool_decide (token ∈ tokens)
      then Err JInvalid
      else Ok ({[token]} ∪ tokens)
  end.

Definition validate_step (schema_version : Z) (provider : NodeBlockProvider)
    (scan : DocumentScan) (record : AttachmentRecord) : result JournalError DocumentScan :=
  let? tokens := scan_token schema_version record (scan_tokens scan) in
  if (schema_version =? UNBOUND_ATTACHMENT_JOURNAL_SCHEMA_VERSION)
     && bool_decide (is_Some (aspec_workload_uid (att_spec record)))
  then Err JInvalid
  else
    let? interfaces := validate_record_identity (att_spec record) (att_host_interface record)
                         (scan_previous scan) (scan_interfaces scan) in
    let? _ := ipam (NodeBlockProvider_validate provider (att_lease record)) in
    let? used := ipam (UsedAddresses_insert (scan_used scan) (att_lease record)) in
    Ok {| scan_attachments := <[att_key record := record]> (scan_attachments scan);
          scan_interfaces := interfaces;
          scan_used := used;
          scan_previous := Some (att_key record);
          scan_tokens := tokens |}.

Definition validate_document (document : JournalDocument) (provider : NodeBlockProvider) :
    result JournalError (gmap AttachmentKey AttachmentRecord) :=
  let version := doc_schema_version document in
  if negb ((version =? REQUIRED_RETIREMENT_JOURNAL_SCHEMA_VERSION)
           || (version =? ATTACHMENT_JOURNAL_SCHEMA_VERSION)
           || (version =? UID_ATTACHMENT_JOURNAL_SCHEMA_VERSION)
           || (version =? UNBOUND_ATTACHMENT_JOURNAL_SCHEMA_VERSION))
  then Err (JIncompatibleSchema version REQUIRED_RETIREMENT_JOURNAL_SCHEMA_VERSION)
  else
    let? scan := try_fold (validate_step version provider) scan_start (doc_attachments document) in
    Ok (scan_attachments scan).

Definition migrate_step (provider : NodeBlockProvider) (scan : DocumentScan)
    (legacy : LegacyAttachmentRecord) : result JournalError DocumentScan :=
  if bool_decide (is_Some (aspec_workload_uid (legacy_spec legacy))) then Err JInvalid
  else
    let? interfaces := validate_record_identity (legacy_spec legacy)
                         (legacy_host_interface legacy)
                         (scan_previous scan) (scan_interfaces scan) in
    let? lease := ipam (NodeBlockProvider_allocate provider (scan_used scan)) in
    let? used := ipam (UsedAddresses_insert (scan_used scan) lease) in
    let record := {| att_spec := legacy_spec legacy;
                     att_host_interface := legacy_host_interface legacy;
                     att_lease := lease; att_phase := legacy_phase legacy;
                     att_creation_token := None |} in
    Ok {| scan_attachments := <[att_key record := record]> (scan_attachments scan);
          scan_interfaces := interfaces;
          scan_used := used;
          scan_previous := Some (att_key record);
          scan_tokens := scan_tokens scan |}.

Definition migrate_legacy_document (document : LegacyJournalDocument)
    (provider : NodeBlockProvider) : result JournalError (gmap AttachmentKey AttachmentRecord) :=
  if negb (legacy_schema_version document =? LEGACY_ATTACHMENT_JOURNAL_SCHEMA_VERSION)
  then Err (JIncompatibleSchema (legacy_schema_version document)
              ATTACHMENT_JOURNAL_SCHEMA_VERSION)
  else
    let? scan := try_fold (migrate_step provider) scan_start (legacy_attachments document) in
    Ok (scan_attachments scan).

Record LoadedJournal := {
  loaded_attachments : gmap AttachmentKey AttachmentRecord;
  loaded_migrated : bool;
  loaded_retirement_required : bool;
}.

Definition LoadedJournal_default : LoadedJournal :=
  {| loaded_attachments := ∅; loaded_migrated := false; loaded_retirement_required := false |}.

Section Load.
Context `{JournalJson}.

(** [load_document] on the bytes it has read. *)
Definition load_bytes (content : bytes) (provider : NodeBlockProvider) :
    result JournalError LoadedJournal :=
  let? value := ok_or (from_slice content) JJson in
  let? actual := ok_or (value_schema_version value) JInvalid in
  if (actual =? REQUIRED_RETIREMENT_JOURNAL_SCHEMA_VERSION)
     || (actual =? ATTACHMENT_JOURNAL_SCHEMA_VERSION)
     || (actual =? UID_ATTACHMENT_JOURNAL_SCHEMA_VERSION)
     || (actual =? UNBOUND_ATTACHMENT_JOURNAL_SCHEMA_VERSION)
  then
    let? document := ok_or (document_from_value value) JJson in
    if negb (bool_decide (doc_provider document = provider)) then Err JConflict
    else
      let? attachments := validate_document document provider in
      Ok {| loaded_attachments := attachments; loaded_migrated := false;
            loaded_retirement_required :=
              actual =? REQUIRED_RETIREMENT_JOURNAL_SCHEMA_VERSION |}
  else if actual =? LEGACY_ATTACHMENT_JOURNAL_SCHEMA_VERSION then
    let? document := ok_or (legacy_from_value value) JJson in
    let? attachments := migrate_legacy_document document provider in
    Ok {| loaded_attachments := attachments; loaded_migrated := true;
          loaded_retirement_required := false |}
  else Err (JIncompatibleSchema actual REQUIRED_RETIREMENT_JOURNAL_SCHEMA_VERSION).

End Load.

(** ** The journal *)

(** [path] is the one journal of the disk; [aj_instance] and [aj_retirement] hold the identity
    of an [Arc]. *)
Record AttachmentJournal := {
  aj_provider : NodeBlockProvider;
  aj_attachments : gmap AttachmentKey AttachmentRecord;
  aj_instance : option nat;
  aj_revision : Z;
  aj_retirement : option nat;
  aj_retirement_required : bool;
}.

Definition aj_len (j : AttachmentJournal) : Z := Z.of_nat (size (aj_attachments j)).
Definition aj_get (j : AttachmentJournal) (key : AttachmentKey) : option AttachmentRecord :=
  aj_attachments j !! key.
Definition aj_records (j : AttachmentJournal) : list AttachmentRecord :=
  btree_values (aj_attachments j).

Record AttachmentJournalCut := { cut_instance : nat; cut_revision : Z }.

Definition retirement_missing (j : AttachmentJournal) : bool :=
  aj_retirement_required j && bool_decide (aj_retirement j = None).

Definition aj_cut (j : AttachmentJournal) : option AttachmentJournalCut :=
  if retirement_missing j then None
  else match aj_instance j with
       | None => None
       | Some instance => Some {| cut_instance := instance; cut_revision := aj_revision j |}
       end.

Definition is_current (j : AttachmentJournal) (cut : AttachmentJournalCut) : bool :=
  (negb (aj_retirement_required j) || bool_decide (is_Some (aj_retirement j)))
  && is_some_and (aj_instance j) (λ instance, (instance =? cut_instance cut)%nat)
  && (aj_revision j =? cut_revision cut).

Definition retirement_matches (j : AttachmentJournal) (registration : nat) : bool :=
  is_some_and (aj_retirement j) (λ owner, (owner =? registration)%nat).

(** The schema a document needs, by what its records carry. *)
Definition required_schema (j : AttachmentJournal) : Z :=
  if aj_retirement_required j then REQUIRED_RETIREMENT_JOURNAL_SCHEMA_VERSION
  else if existsb (λ r, bool_decide (is_Some (att_creation_token r))) (aj_records j)
  then ATTACHMENT_JOURNAL_SCHEMA_VERSION
  else if existsb (λ r, bool_decide (is_Some (aspec_workload_uid (att_spec r)))) (aj_records j)
  then UID_ATTACHMENT_JOURNAL_SCHEMA_VERSION
  else UNBOUND_ATTACHMENT_JOURNAL_SCHEMA_VERSION.

Definition journal_document (j : AttachmentJournal) : JournalDocument :=
  {| doc_schema_version := required_schema j; doc_provider := aj_provider j;
     doc_attachments := aj_records j |}.

(** ** Rollback *)

Record MutationSnapshot := {
  snapshot_key : AttachmentKey;
  snapshot_record : option AttachmentRecord;
}.

Definition mutated_key (operation : TransactionOperation) : option AttachmentKey :=
  match operation with
  | OpPrepare attachment => Some (aspec_key attachment)
  | OpCommit key | OpBeginAbort key | OpCompleteAbort key
  | OpBeginDelete key | OpCompleteDelete key => Some key
  | OpStatus | OpList _ _ _ | OpInspect _ | OpCheck _ => None
  end.

Definition MutationSnapshot_capture (j : AttachmentJournal) (operation : TransactionOperation) :
    option MutationSnapshot :=
  match mutated_key operation with
  | None => None
  | Some key => Some {| snapshot_key := key; snapshot_record := aj_get j key |}
  end.

Definition MutationSnapshot_restore (self : MutationSnapshot) (j : AttachmentJournal) :
    AttachmentJournal :=
  match snapshot_record self with
  | Some record => j {{ aj_attachments ::= insert (snapshot_key self) record }}
  | None => j {{ aj_attachments ::= delete (snapshot_key self) }}
  end.

(** ** Persisting and opening *)

Section Journal.
Context (env : JournalEnv) `{JournalJson}.

Definition write_document (content : bytes) : Routine JournalWorld JournalError () :=
  let* _ := create_temporary env in
  let* _ := write_all env content in
  let* _ := write_all env [10] in
  let* _ := sync_temporary env in
  let* _ := rename_temporary env in
  let* _ := sync_directory env in
  set_permissions env.

Definition persist (j : AttachmentJournal) : Routine JournalWorld JournalError () :=
  let* _ := reject_symlink_components env in
  let* present := path_exists env temporary_exists in
  if present then op_fail JIo
  else λ w,
    match write_document (to_vec_pretty (journal_document j)) w with
    | (Ok _, w) => (Ok (), w)
    | (Err error, w) => (Err error, (remove_temporary env w).2)
    end.

Definition remove_stale_temporary : Routine JournalWorld JournalError () := λ w,
  if temporary_exists (jw_disk w)
  then (let* _ := sys_query env in remove_temporary env) w
  else sys_query env w.

Definition load_document (provider : NodeBlockProvider) :
    Routine JournalWorld JournalError LoadedJournal :=
  let* _ := sys_query env in
  λ w, match entry_latest (disk_journal (jw_disk w)) with
       | None => (Err JIo, w)
       | Some file => (load_bytes (file_bytes file) provider, w)
       end.

Definition AttachmentJournal_open (provider : NodeBlockProvider) :
    Routine JournalWorld JournalError AttachmentJournal :=
  let* _ := reject_symlink_components env in
  let* _ := sys_query env in
  let* _ := reject_symlink_components env in
  let* _ := remove_stale_temporary in
  let* present := path_exists env journal_exists in
  let* loaded := (if present
                  then (let* _ := sys_query env in load_document provider)
                  else op_ret LoadedJournal_default) in
  let* instance := new_instance in
  let journal := {| aj_provider := provider;
                    aj_attachments := loaded_attachments loaded;
                    aj_instance := Some instance;
                    aj_revision := 0;
                    aj_retirement := None;
                    aj_retirement_required := loaded_retirement_required loaded |} in
  let* _ := (if loaded_migrated loaded then persist journal
             else (let* present := path_exists env journal_exists in
                   if present then set_permissions env else op_ret ())) in
  op_ret journal.

End Journal.

(** ** Transactions *)

(** The journal behind the agent's lock, and the world it acts on. *)
Record JournalState := { js_journal : AttachmentJournal; js_world : JournalWorld }.

Abbreviation Transaction := (Routine JournalState JournalError).

Definition get_journal : Transaction AttachmentJournal := λ s, (Ok (js_journal s), s).
Definition put_journal (f : AttachmentJournal → AttachmentJournal) : Transaction () := λ s,
  (Ok (), s {{ js_journal ::= f }}).
Definition on_world {A} (c : Routine JournalWorld JournalError A) : Transaction A := λ s,
  let '(r, w) := c (js_world s) in (r, s {{ js_world := w }}).

Definition put_record (key : AttachmentKey) (record : AttachmentRecord) : Transaction () :=
  put_journal (λ j, j {{ aj_attachments ::= insert key record }}).
Definition remove_record (key : AttachmentKey) : Transaction () :=
  put_journal (λ j, j {{ aj_attachments ::= delete key }}).

(** [Iterator::take_while]. *)
Fixpoint take_while {A} (p : A → bool) (l : list A) : list A :=
  match l with
  | [] => []
  | x :: l => if p x then x :: take_while p l else []
  end.

(** [BTreeMap::range] from a lower bound is the part of the ordered iteration above it. *)
Definition list_records (j : AttachmentJournal) (network : string)
    (after : option AttachmentKey) (limit : Z) : result JournalError (list AttachmentRecord) :=
  if negb (valid_identifier network MAX_IDENTIFIER_BYTES) then Err JInvalid
  else
    let? _ := match after with Some after => validate_key after | None => Ok () end in
    if negb ((1 <=? limit) && (limit <=? MAX_ATTACHMENT_LIST_RECORDS)) then Err JInvalid
    else
      let minimum := {| key_network := network; key_container_id := EmptyString;
                        key_ifname := EmptyString |} in
      let in_range : AttachmentKey → bool :=
        match after with
        | Some cursor => if leb minimum cursor then ltb cursor else leb minimum
        | None => leb minimum
        end in
      Ok (map snd
            (take (Z.to_nat limit)
               (take_while (λ e, bool_decide (key_network e.1 = network))
                  (List.filter (λ e, in_range e.1) (btree_iter (aj_attachments j)))))).

(** A record an older client must not see. *)
Definition unreadable (schema_version : Z) (record : AttachmentRecord) : bool :=
  bool_decide (is_Some (att_creation_token record))
  || ((schema_version =? LEGACY_CNI_TRANSACTION_SCHEMA_VERSION)
      && bool_decide (is_Some (aspec_workload_uid (att_spec record)))).

Definition validate_legacy_operation (j : AttachmentJournal) (schema_version : Z)
    (operation : TransactionOperation) : result JournalError () :=
  let bound :=
    match operation with
    | OpStatus => false
    | OpList network after _ =>
        existsb (λ record, bool_decide (key_network (att_key record) = network)
                   && is_none_or after (λ cursor, ltb cursor (att_key record))
                   && unreadable schema_version record)
          (aj_records j)
    | OpPrepare attachment | OpCheck attachment =>
        ((schema_version =? LEGACY_CNI_TRANSACTION_SCHEMA_VERSION)
         && bool_decide (is_Some (aspec_workload_uid attachment)))
        || is_some_and (aj_get j (aspec_key attachment)) (unreadable schema_version)
    | OpInspect key | OpCommit key | OpBeginAbort key | OpCompleteAbort key
    | OpBeginDelete key | OpCompleteDelete key =>
        is_some_and (aj_get j key) (unreadable schema_version)
    end in
  if bound then Err (JIncompatibleSchema schema_version CNI_TRANSACTION_SCHEMA_VERSION)
  else Ok ().

Section Transactions.
Context (env : JournalEnv) `{JournalJson}.

(** A fresh creation nonce, when the client and the Pod ask for one. *)
Definition creation_nonce (spec : AttachmentSpec) (schema_version : Z) :
    Transaction (option bytes) :=
  if (schema_version =? CNI_TRANSACTION_SCHEMA_VERSION)
     && bool_decide (is_Some (aspec_workload_uid spec))
  then
    let* token := on_world (fill_random env) in
    let* j := get_journal in
    if bool_decide (token = zero_token)
       || existsb (λ record, bool_decide (att_creation_token record = Some token)) (aj_records j)
    then op_fail JConflict
    else op_ret (Some token)
  else op_ret None.

Definition prepare (spec : AttachmentSpec) (schema_version : Z) :
    Transaction AttachmentRecord :=
  let* j := get_journal in
  match aj_get j (aspec_key spec) with
  | Some existing =>
      if negb (accepts_replay (att_spec existing) spec) then op_fail JConflict
      else if bool_decide (att_phase existing = Preparing) then op_ret existing
      else op_fail JInvalidTransition
  | None =>
      let host_interface := deterministic_host_interface (aspec_key spec) in
      if existsb (λ record, bool_decide (att_host_interface record = host_interface))
           (aj_records j)
      then op_fail JConflict
      else
        let* used := op_lift (ipam (UsedAddresses_from_leases (map att_lease (aj_records j)))) in
        let* lease := op_lift (ipam (NodeBlockProvider_allocate (aj_provider j) used)) in
        let* creation_token := creation_nonce spec schema_version in
        let record := {| att_spec := spec; att_host_interface := host_interface;
                         att_lease := lease; att_phase := Preparing;
                         att_creation_token := creation_token |} in
        let* _ := put_record (aspec_key spec) record in
        op_ret record
  end.

Definition commit (key : AttachmentKey) : Transaction AttachmentRecord :=
  let* j := get_journal in
  match aj_get j key with
  | None => op_fail JNotFound
  | Some record =>
      match att_phase record with
      | Preparing =>
          let* _ := put_record key (set_phase record Ready) in
          op_ret (set_phase record Ready)
      | Ready => op_ret record
      | Aborting | Deleting => op_fail JInvalidTransition
      end
  end.

Definition begin_abort (key : AttachmentKey) : Transaction (option AttachmentRecord) :=
  let* j := get_journal in
  match aj_get j key with
  | None => op_ret None
  | Some record =>
      match att_phase record with
      | Preparing | Aborting =>
          let* _ := put_record key (set_phase record Aborting) in
          op_ret (Some (set_phase record Aborting))
      | Ready | Deleting => op_fail JInvalidTransition
      end
  end.

Definition complete_abort (key : AttachmentKey) : Transaction (option AttachmentRecord) :=
  let* j := get_journal in
  match aj_get j key with
  | None => op_ret None
  | Some record =>
      if negb (bool_decide (att_phase record = Aborting)) then op_fail JInvalidTransition
      else let* _ := remove_record key in op_ret None
  end.

Definition check (spec : AttachmentSpec) : Transaction AttachmentRecord :=
  let* j := get_journal in
  match aj_get j (aspec_key spec) with
  | None => op_fail JNotFound
  | Some record =>
      if negb (accepts_replay (att_spec record) spec) then op_fail JConflict
      else if negb (bool_decide (att_phase record = Ready)) then op_fail JInvalidTransition
      else op_ret record
  end.

Definition begin_delete (key : AttachmentKey) : Transaction (option AttachmentRecord) :=
  let* j := get_journal in
  match aj_get j key with
  | None => op_ret None
  | Some record =>
      match att_phase record with
      | Preparing | Ready =>
          let* _ := put_record key (set_phase record Deleting) in
          op_ret (Some (set_phase record Deleting))
      | Deleting => op_ret (Some record)
      | Aborting => op_fail JInvalidTransition
      end
  end.

Definition complete_delete (key : AttachmentKey) : Transaction (option AttachmentRecord) :=
  let* j := get_journal in
  match aj_get j key with
  | None => op_ret None
  | Some record =>
      if negb (bool_decide (att_phase record = Deleting)) then op_fail JInvalidTransition
      else let* _ := remove_record key in op_ret None
  end.

Definition apply_operation (operation : TransactionOperation) (schema_version : Z) :
    Transaction (option AttachmentRecord * list AttachmentRecord) :=
  match operation with
  | OpStatus => op_ret (None, [])
  | OpList network after limit =>
      let* j := get_journal in
      let* records := op_lift (list_records j network after limit) in
      op_ret (None, records)
  | OpInspect key =>
      let* _ := op_lift (validate_key key) in
      let* j := get_journal in
      op_ret (aj_get j key, [])
  | OpPrepare attachment =>
      let* _ := op_lift (validate_spec attachment) in
      let* record := prepare attachment schema_version in
      op_ret (Some record, [])
  | OpCommit key =>
      let* _ := op_lift (validate_key key) in
      let* record := commit key in
      op_ret (Some record, [])
  | OpBeginAbort key =>
      let* _ := op_lift (validate_key key) in
      let* record := begin_abort key in
      op_ret (record, [])
  | OpCompleteAbort key =>
      let* _ := op_lift (validate_key key) in
      let* record := complete_abort key in
      op_ret (record, [])
  | OpCheck attachment =>
      let* _ := op_lift (validate_spec attachment) in
      let* record := check attachment in
      op_ret (Some record, [])
  | OpBeginDelete key =>
      let* _ := op_lift (validate_key key) in
      let* record := begin_delete key in
      op_ret (record, [])
  | OpCompleteDelete key =>
      let* _ := op_lift (validate_key key) in
      let* record := complete_delete key in
      op_ret (record, [])
  end.

(** Runs [c]; when it fails, undoes the mutation and drops the publication fence. *)
Definition or_restore (previous : MutationSnapshot) (c : Transaction ()) : Transaction () := λ s,
  match c s with
  | (Ok _, s) => (Ok (), s)
  | (Err error, s) =>
      (Err error, s {{ js_journal ::= λ j,
                         (MutationSnapshot_restore previous j) {{ aj_instance := None }} }})
  end.

(** The retirement of a published incarnation, when one leaves the ready state. *)
Definition retire_previous (previous : MutationSnapshot) : Transaction () :=
  let* j := get_journal in
  match snapshot_record previous with
  | Some record =>
      match bool_decide (att_phase record = Ready), att_creation_token record, aj_retirement j with
      | true, Some token, Some _ => on_world (retire env token)
      | _, _, _ => op_ret ()
      end
  | None => op_ret ()
  end.

Definition persist_mutation (previous : MutationSnapshot) : Transaction () :=
  let* j := get_journal in
  match checked_add 64 (aj_revision j) 1 with
  | None =>
      let* _ := put_journal (MutationSnapshot_restore previous) in
      op_fail JInvalidTransition
  | Some revision =>
      let* _ := or_restore previous (retire_previous previous) in
      let* _ := or_restore previous (let* j := get_journal in on_world (persist env j)) in
      let* _ := put_journal (λ j, j {{ aj_revision := revision }}) in
      let* j := get_journal in
      match aj_instance j with
      | Some _ => op_ret ()
      | None =>
          let* instance := on_world new_instance in
          put_journal (λ j, j {{ aj_instance := Some instance }})
      end
  end.

Definition apply (request : TransactionRequest) : Transaction TransactionResponse := λ s,
  let j := js_journal s in
  let schema_version := request_schema_version request in
  if retirement_missing j then (Err JInvalidTransition, s)
  else if negb ((schema_version =? CNI_TRANSACTION_SCHEMA_VERSION)
                || (schema_version =? UID_CNI_TRANSACTION_SCHEMA_VERSION)
                || (schema_version =? LEGACY_CNI_TRANSACTION_SCHEMA_VERSION))
  then (Err (JIncompatibleSchema schema_version CNI_TRANSACTION_SCHEMA_VERSION), s)
  else
    let operation := into_operation request in
    match (if negb (schema_version =? CNI_TRANSACTION_SCHEMA_VERSION)
           then validate_legacy_operation j schema_version operation else Ok ()) with
    | Err error => (Err error, s)
    | Ok _ =>
        let previous := MutationSnapshot_capture j operation in
        match apply_operation operation schema_version s with
        | (Err error, s) =>
            (Err error, match previous with
                        | Some previous => s {{ js_journal ::= MutationSnapshot_restore previous }}
                        | None => s
                        end)
        | (Ok (attachment, attachments), s) =>
            (let* _ := match previous with
                       | Some previous =>
                           if bool_decide (aj_get (js_journal s) (snapshot_key previous)
                                           = snapshot_record previous)
                           then op_ret () else persist_mutation previous
                       | None => op_ret ()
                       end in
             let* j := get_journal in
             op_ret {| response_schema_version := schema_version;
                       response_outcome := OutcomeOk attachment attachments (aj_len j) |}) s
        end
    end.

(** ** Retirement hooks *)

Definition install_retirement : Transaction nat :=
  let* j := get_journal in
  if bool_decide (is_Some (aj_retirement j)) || bool_decide (aj_instance j = None)
  then op_fail JInvalidTransition
  else
    let* owner := on_world new_instance in
    let* _ := put_journal (λ j, j {{ aj_retirement := Some owner }}) in
    let* instance := on_world new_instance in
    let* _ := put_journal (λ j, j {{ aj_instance := Some instance }}) in
    op_ret owner.

Definition install_required_retirement : Transaction nat :=
  let* registration := install_retirement in
  let* j := get_journal in
  if negb (aj_retirement_required j) then
    let* _ := put_journal (λ j, j {{ aj_retirement_required := true }}) in
    λ s, match (let* j := get_journal in on_world (persist env j)) s with
         | (Ok _, s) => (Ok registration, s)
         | (Err error, s) => (Err error, s {{ js_journal ::= λ j, j {{ aj_instance := None }} }})
         end
  else op_ret registration.

End Transactions.
