(* ===== verification/CniJournalFacts.v ===== *)
(** * What the attachment journal keeps true

    The invariant of the attachments of a journal, that every document the journal accepts
    satisfies it, that what is persisted is read back, and that every operation keeps it. *)

From coqutil Require Import Datatypes.RecordSetters.
From S2P Require Import Prelude Common NetAddr Ipam Bytes CniAttachment CniJournal.
Import DoubleBraceUpdate.

(** ** Well-formed attachments *)

(** What the record stored under [key] satisfies on its own. *)
Record record_wf (provider : NodeBlockProvider) (key : AttachmentKey) (r : AttachmentRecord) :
    Prop := {
  record_key : att_key r = key;
  record_spec : validate_spec (att_spec r) = Ok ();
  record_interface : att_host_interface r = deterministic_host_interface key;
  record_lease : NodeBlockProvider_validate provider (att_lease r) = Ok ();
  record_fits : record_typed r;
  record_token token : att_creation_token r = Some token →
    token ≠ zero_token ∧ is_Some (aspec_workload_uid (att_spec r));
}.

(** Two records that own the same interface, address or creation nonce. *)
Definition shares (r s : AttachmentRecord) : Prop :=
  att_host_interface r = att_host_interface s ∨
  lease_a4 (att_lease r) = lease_a4 (att_lease s) ∨
  lease_a6 (att_lease r) = lease_a6 (att_lease s) ∨
  ∃ token, att_creation_token r = Some token ∧ att_creation_token s = Some token.

Record attachments_wf (provider : NodeBlockProvider) (m : gmap AttachmentKey AttachmentRecord) :
    Prop := {
  attachments_records key r : m !! key = Some r → record_wf provider key r;
  attachments_distinct k1 k2 r1 r2 :
    m !! k1 = Some r1 → m !! k2 = Some r2 → shares r1 r2 → k1 = k2;
}.

Record journal_wf (j : AttachmentJournal) : Prop := {
  journal_provider : NodeBlockProvider_wf (aj_provider j);
  journal_attachments : attachments_wf (aj_provider j) (aj_attachments j);
  journal_revision : in_width 64 (aj_revision j);
}.

Lemma shares_sym r s : shares r s → shares s r.
Proof. unfold shares. naive_solver. Qed.

Lemma attachments_wf_empty provider : attachments_wf provider ∅.
Proof. split; intros *; by rewrite lookup_empty. Qed.

Lemma attachments_wf_delete provider m key :
  attachments_wf provider m → attachments_wf provider (delete key m).
Proof.
  intros [Hr Hd]. split.
  - intros k r. rewrite lookup_delete_Some. naive_solver.
  - intros k1 k2 r1 r2. rewrite !lookup_delete_Some. naive_solver.
Qed.

Lemma attachments_wf_insert provider m key r :
  attachments_wf provider m → record_wf provider key r →
  (∀ k s, m !! k = Some s → k ≠ key → ¬ shares r s) →
  attachments_wf provider (<[key := r]> m).
Proof.
  intros [Hr Hd] Hwf Hfresh. split.
  - intros k s. rewrite lookup_insert_Some. naive_solver.
  - intros k1 k2 r1 r2. rewrite !lookup_insert_Some.
    intros [[<- <-]|[Hk1 H1]] [[<- <-]|[Hk2 H2]] Hs; [done|..|by eapply Hd].
    + by destruct (Hfresh k2 r2).
    + destruct (Hfresh k1 r1); [done..|]. by apply shares_sym.
Qed.

(** Only the phase changes: nothing that is owned moves. *)
Lemma attachments_wf_phase provider m key r phase :
  attachments_wf provider m → m !! key = Some r →
  attachments_wf provider (<[key := set_phase r phase]> m).
Proof.
  intros Hwf Hr. destruct (attachments_records _ _ Hwf key r Hr).
  apply attachments_wf_insert; [done|by split|].
  intros k s Hk Hne Hshares. destruct Hne. apply shares_sym in Hshares.
  exact (attachments_distinct _ _ Hwf k key s r Hk Hr Hshares).
Qed.

(** ** Reading a document *)

Lemma validate_spec_mtu spec : validate_spec spec = Ok () → in_width 32 (aspec_mtu spec).
Proof.
  unfold validate_spec. destruct (validate_key _); [|done]. repeat (destruct (_ || _); [done|]).
  unfold MIN_DUAL_STACK_MTU, MAX_MTU, in_width.
  destruct (is_some_and _ _); [done|]. destruct (_ || _); [done|].
  destruct (Z.leb_spec 1280 (aspec_mtu spec)), (Z.leb_spec (aspec_mtu spec) 65535);
    simpl; try done. lia.
Qed.

Lemma validate_record_identity_Ok spec host previous interfaces interfaces' :
  validate_record_identity spec host previous interfaces = Ok interfaces' →
  validate_spec spec = Ok () ∧ host = deterministic_host_interface (aspec_key spec) ∧
  host ∉ interfaces ∧ interfaces' = {[host]} ∪ interfaces.
Proof.
  unfold validate_record_identity. destruct (validate_spec spec) as [[]|]; [|done].
  case_bool_decide; [|done]. simpl. destruct (is_some_and _ _); [done|].
  case_bool_decide; [done|]. naive_solver.
Qed.

Lemma ipam_Ok {A} (r : result IpamError A) a : ipam r = Ok a ↔ r = Ok a.
Proof. destruct r; simpl; naive_solver. Qed.

(** The loop variables cover what the records seen so far own. *)
Record scan_wf (provider : NodeBlockProvider) (scan : DocumentScan) : Prop := {
  scan_records : attachments_wf provider (scan_attachments scan);
  scan_owned key r : scan_attachments scan !! key = Some r →
    att_host_interface r ∈ scan_interfaces scan ∧
    lease_a4 (att_lease r) ∈ used_ipv4 (scan_used scan) ∧
    lease_a6 (att_lease r) ∈ used_ipv6 (scan_used scan) ∧
    (∀ token, att_creation_token r = Some token → token ∈ scan_tokens scan);
}.

(** One more record whose resources are new to the scan. *)
Lemma scan_wf_extend provider scan r tokens used previous :
  scan_wf provider scan → record_wf provider (att_key r) r →
  att_host_interface r ∉ scan_interfaces scan →
  UsedAddresses_insert (scan_used scan) (att_lease r) = Ok used →
  (∀ token, att_creation_token r = Some token → token ∉ scan_tokens scan ∧ token ∈ tokens) →
  scan_tokens scan ⊆ tokens →
  scan_wf provider {| scan_attachments := <[att_key r := r]> (scan_attachments scan);
                      scan_interfaces := {[att_host_interface r]} ∪ scan_interfaces scan;
                      scan_used := used; scan_previous := previous; scan_tokens := tokens |}.
Proof.
  intros [Hwf Hown] Hr Hi (H4 & H6 & ->)%UsedAddresses_insert_iff Htok Hsub. split; simpl.
  - apply attachments_wf_insert; [done..|]. intros k s Hs _.
    destruct (Hown k s Hs) as (? & ? & ? & Ht). unfold shares.
    intros [Heq|[Heq|[Heq|(token & Hr1 & Hs1)]]]; [congruence..|].
    destruct (Htok token Hr1). by apply Ht in Hs1.
  - intros k s. rewrite lookup_insert_Some. intros [[<- <-]|[_ Hs]]; [set_solver|].
    destruct (Hown k s Hs) as (? & ? & ? & Ht). set_solver.
Qed.

Lemma scan_token_Ok version r tokens tokens' :
  scan_token version r tokens = Ok tokens' →
  tokens ⊆ tokens' ∧
  ∀ token, att_creation_token r = Some token →
    token ≠ zero_token ∧ is_Some (aspec_workload_uid (att_spec r)) ∧
    token ∉ tokens ∧ token ∈ tokens'.
Proof.
  unfold scan_token. destruct (att_creation_token r) as [token|]; [|naive_solver].
  destruct (_ || _) eqn:E; [done|]. intros [= <-].
  rewrite !orb_false_iff, !bool_decide_eq_false, not_eq_None_Some in E.
  destruct E as [[[_ ?] ?] ?]. split; [set_solver|]. intros ? [= <-]. set_solver.
Qed.

Lemma validate_step_wf version provider scan r scan' :
  scan_wf provider scan → record_typed r →
  validate_step version provider scan r = Ok scan' → scan_wf provider scan'.
Proof.
  unfold validate_step. intros Hscan Htyped Hstep. split_ok Hstep. injection Hstep as <-.
  apply scan_token_Ok in Heqr0 as [Hsub Htok].
  apply validate_record_identity_Ok in Heqr1 as (Hspec & Hhost & Hnew & ->).
  apply ipam_Ok in Heqr2 as Hlease, Heqr3 as Hused.
  apply scan_wf_extend; try done; [|naive_solver].
  destruct value1. split; try done. intros token Ht. by destruct (Htok token Ht) as (? & ? & _).
Qed.

Lemma migrate_step_wf provider scan legacy scan' :
  NodeBlockProvider_wf provider → scan_wf provider scan →
  migrate_step provider scan legacy = Ok scan' → scan_wf provider scan'.
Proof.
  unfold migrate_step. intros Hp Hscan Hstep. split_ok Hstep. injection Hstep as <-.
  apply validate_record_identity_Ok in Heqr as (Hspec & Hhost & Hnew & ->).
  apply ipam_Ok in Heqr0 as Hlease, Heqr1 as Hused.
  apply (scan_wf_extend _ _ {| att_spec := legacy_spec legacy |}); try done.
  destruct (allocate_valid _ _ _ Hp Hlease) as [Hv _].
  destruct (allocate_typed _ _ _ Hp Hlease).
  split; try done. split_and!; [by apply validate_spec_mtu|done..].
Qed.

Lemma scan_start_wf provider : scan_wf provider scan_start.
Proof. split; simpl; [apply attachments_wf_empty|]. intros ? ?. by rewrite lookup_empty. Qed.

Section Load.
Context `{JournalJsonLaws}.

(** Whatever a journal file holds, the attachments it loads are well-formed. *)
Lemma load_bytes_wf content provider loaded :
  NodeBlockProvider_wf provider → load_bytes content provider = Ok loaded →
  attachments_wf provider (loaded_attachments loaded).
Proof.
  unfold load_bytes. intros Hp Hload. split_ok Hload; injection Hload as <-; simpl.
  - unfold validate_document in Heqr2. split_ok Heqr2. injection Heqr2 as <-.
    destruct (document_from_value value) as [document|] eqn:Hdoc; [|done].
    apply json_document_typed in Hdoc as [_ Htyped]. injection Heqr1 as <-.
    apply scan_records. eapply try_fold_inv; [apply scan_start_wf| |done].
    rewrite Forall_forall in Htyped. intros scan r scan' Hr. eauto using validate_step_wf.
  - unfold migrate_legacy_document in Heqr2. split_ok Heqr2. injection Heqr2 as <-.
    apply scan_records. eapply try_fold_inv; [apply scan_start_wf| |done].
    eauto using migrate_step_wf.
Qed.

End Load.

(** ** Reading back what was written *)

Lemma btree_values_split `{OrdLaws K} `{Countable K} {V} (m : gmap K V) (key : V → K) pre x post :
  (∀ k v, m !! k = Some v → key v = k) →
  btree_values m = pre ++ x :: post →
  m !! key x = Some x ∧ ∀ y, y ∈ pre → m !! key y = Some y ∧ ltb (key y) (key x) = true.
Proof.
  intros Hkey Hsplit. pose proof (btree_iter_sorted m) as Hsorted.
  assert (Hin : ∀ k v, (k, v) ∈ btree_iter m → m !! key v = Some v ∧ key v = k).
  { intros k v Hkv%elem_of_btree_iter. by rewrite (Hkey k v Hkv). }
  unfold btree_values in Hsplit. apply map_eq_app in Hsplit as (l1 & l2 & Hl & <- & Hl2).
  apply map_eq_cons in Hl2 as ([k x'] & l3 & -> & <- & _). rewrite Hl in Hin, Hsorted.
  simpl. destruct (Hin k x') as [Hx Hkx]; [set_solver|]. split; [done|].
  intros y ([k' y'] & Hy & ->)%elem_of_list_map. simpl.
  destruct (Hin k' y') as [Hy' Hky]; [set_solver|]. split; [done|]. rewrite Hky, Hkx.
  apply StronglySorted_app in Hsorted as (Hcross & _ & _).
  by apply (Hcross (k', y') (k, x')); [|set_solver].
Qed.

Lemma required_schema_token j r token :
  r ∈ aj_records j → att_creation_token r = Some token →
  required_schema j = ATTACHMENT_JOURNAL_SCHEMA_VERSION ∨
  required_schema j = REQUIRED_RETIREMENT_JOURNAL_SCHEMA_VERSION.
Proof.
  unfold required_schema. intros Hr Htoken. destruct (aj_retirement_required j); [by right|].
  left. replace (existsb _ _) with true; [done|]. symmetry. apply existsb_exists. exists r.
  split; [by apply list_elem_of_In|]. rewrite Htoken. by apply bool_decide_eq_true.
Qed.

Lemma required_schema_uid j r :
  r ∈ aj_records j → is_Some (aspec_workload_uid (att_spec r)) →
  required_schema j ≠ UNBOUND_ATTACHMENT_JOURNAL_SCHEMA_VERSION.
Proof.
  unfold required_schema. intros Hr Huid. destruct (aj_retirement_required j); [done|].
  destruct (existsb _ _); [done|]. replace (existsb _ _) with true; [done|].
  symmetry. apply existsb_exists. exists r.
  split; [by apply list_elem_of_In|]. by apply bool_decide_eq_true.
Qed.

Lemma required_schema_range j :
  required_schema j ∈ [REQUIRED_RETIREMENT_JOURNAL_SCHEMA_VERSION; ATTACHMENT_JOURNAL_SCHEMA_VERSION;
    UID_ATTACHMENT_JOURNAL_SCHEMA_VERSION; UNBOUND_ATTACHMENT_JOURNAL_SCHEMA_VERSION].
Proof. unfold required_schema. repeat case_match; set_solver. Qed.

(** The loop variables after the records [l]. *)
Definition scan_of (l : list AttachmentRecord) : DocumentScan :=
  {| scan_attachments := list_to_map ((λ r, (att_key r, r)) <$> l);
     scan_interfaces := list_to_set (att_host_interface <$> l);
     scan_used := {| used_leases := list_to_set (att_lease <$> l);
                     used_ipv4 := list_to_set (lease_a4 ∘ att_lease <$> l);
                     used_ipv6 := list_to_set (lease_a6 ∘ att_lease <$> l) |};
     scan_previous := last (att_key <$> l);
     scan_tokens := list_to_set (omap att_creation_token l) |}.

Lemma scan_of_snoc l r :
  att_key r ∉ att_key <$> l →
  scan_of (l ++ [r]) =
  {| scan_attachments := <[att_key r := r]> (scan_attachments (scan_of l));
     scan_interfaces := {[att_host_interface r]} ∪ scan_interfaces (scan_of l);
     scan_used := {| used_leases := {[att_lease r]} ∪ used_leases (scan_used (scan_of l));
                     used_ipv4 := {[lease_a4 (att_lease r)]} ∪ used_ipv4 (scan_used (scan_of l));
                     used_ipv6 := {[lease_a6 (att_lease r)]} ∪ used_ipv6 (scan_used (scan_of l)) |};
     scan_previous := Some (att_key r);
     scan_tokens := list_to_set (option_list (att_creation_token r)) ∪ scan_tokens (scan_of l) |}.
Proof.
  intros Hnew. unfold scan_of. rewrite !fmap_app, omap_app. simpl. rewrite last_snoc. f_equal.
  - rewrite list_to_map_snoc; [done|]. rewrite <-list_fmap_compose. done.
  - rewrite list_to_set_app_L. set_solver.
  - rewrite !list_to_set_app_L. f_equal; set_solver.
  - rewrite list_to_set_app_L. destruct (att_creation_token r); simpl; set_solver.
Qed.

Section RoundTrip.
Context (j : AttachmentJournal).
Context (Hwf : attachments_wf (aj_provider j) (aj_attachments j)).

Lemma journal_records_keyed key r : aj_attachments j !! key = Some r → att_key r = key.
Proof. intros Hr. by destruct (attachments_records _ _ Hwf key r Hr). Qed.

Lemma records_prefix pre x post :
  aj_records j = pre ++ x :: post →
  record_wf (aj_provider j) (att_key x) x ∧ x ∈ aj_records j ∧
  ∀ y, y ∈ pre → ltb (att_key y) (att_key x) = true ∧ ¬ shares y x.
Proof.
  intros Hsplit. assert (x ∈ aj_records j) by (rewrite Hsplit; set_solver).
  destruct (btree_values_split _ att_key pre x post journal_records_keyed Hsplit) as [Hx Hpre].
  split; [by apply (attachments_records _ _ Hwf)|]. split; [done|].
  intros y Hy. destruct (Hpre y Hy) as [Hm Hlt]. split; [done|]. intros Hs.
  pose proof (attachments_distinct _ _ Hwf _ _ _ _ Hm Hx Hs) as Heq.
  rewrite Heq, ltb_irrefl in Hlt. done.
Qed.

Lemma scan_token_next pre x post :
  aj_records j = pre ++ x :: post →
  scan_token (required_schema j) x (scan_tokens (scan_of pre)) =
  Ok (list_to_set (option_list (att_creation_token x)) ∪ scan_tokens (scan_of pre)).
Proof.
  intros Hsplit. destruct (records_prefix pre x post Hsplit) as (Hx & Hin & Hpre).
  unfold scan_token. destruct (att_creation_token x) as [token|] eqn:Htoken; simpl.
  2:{ f_equal. set_solver. }
  destruct (record_token _ _ _ Hx token Htoken) as [Hz [uid Huid]].
  rewrite !bool_decide_eq_false_2; [|..|by rewrite Huid].
  - destruct (required_schema_token j x token Hin Htoken) as [-> | ->]; simpl; f_equal; set_solver.
  - rewrite elem_of_list_to_set, list_elem_of_omap. intros (y & Hy & Hty).
    destruct (Hpre y Hy) as [_ Hs]. apply Hs. unfold shares. naive_solver.
  - done.
Qed.

Lemma validate_identity_next pre x post :
  aj_records j = pre ++ x :: post →
  validate_record_identity (att_spec x) (att_host_interface x)
    (scan_previous (scan_of pre)) (scan_interfaces (scan_of pre)) =
  Ok ({[att_host_interface x]} ∪ scan_interfaces (scan_of pre)).
Proof.
  intros Hsplit. destruct (records_prefix pre x post Hsplit) as (Hx & Hin & Hpre).
  unfold validate_record_identity. rewrite (record_spec _ _ _ Hx).
  rewrite bool_decide_eq_true_2 by (by rewrite (record_interface _ _ _ Hx)). simpl.
  replace (is_some_and _ _) with false.
  2:{ destruct (last (att_key <$> pre)) as [key|] eqn:Hlast; [|done]. simpl.
      apply last_Some_elem_of, list_elem_of_fmap in Hlast as (y & -> & Hy).
      destruct (Hpre y Hy) as [Hlt _]. rewrite leb_ltb. change (aspec_key _) with (att_key x).
      by rewrite Hlt. }
  rewrite bool_decide_eq_false_2; [done|].
  rewrite elem_of_list_to_set, list_elem_of_fmap. intros (y & Heq & Hy).
  destruct (Hpre y Hy) as [_ Hs]. apply Hs. by left.
Qed.

Lemma used_insert_next pre x post :
  aj_records j = pre ++ x :: post →
  UsedAddresses_insert (scan_used (scan_of pre)) (att_lease x) =
  Ok {| used_leases := {[att_lease x]} ∪ used_leases (scan_used (scan_of pre));
        used_ipv4 := {[lease_a4 (att_lease x)]} ∪ used_ipv4 (scan_used (scan_of pre));
        used_ipv6 := {[lease_a6 (att_lease x)]} ∪ used_ipv6 (scan_used (scan_of pre)) |}.
Proof.
  intros Hsplit. destruct (records_prefix pre x post Hsplit) as (Hx & Hin & Hpre).
  apply UsedAddresses_insert_iff. simpl. rewrite !elem_of_list_to_set, !list_elem_of_fmap.
  split_and!; [..|done]; intros (y & Heq & Hy); destruct (Hpre y Hy) as [_ Hs]; apply Hs;
    unfold shares; naive_solver.
Qed.

Lemma validate_step_next pre x post :
  aj_records j = pre ++ x :: post →
  validate_step (required_schema j) (aj_provider j) (scan_of pre) x = Ok (scan_of (pre ++ [x])).
Proof.
  intros Hsplit. destruct (records_prefix pre x post Hsplit) as (Hx & Hin & Hpre).
  unfold validate_step. rewrite (scan_token_next pre x post Hsplit).
  replace (_ && _) with false.
  2:{ symmetry. apply andb_false_iff. case_bool_decide as Huid; [|by right]. left.
      apply Z.eqb_neq. by apply (required_schema_uid j x). }
  rewrite (validate_identity_next pre x post Hsplit), (record_lease _ _ _ Hx),
    (used_insert_next pre x post Hsplit), scan_of_snoc; [reflexivity|].
  rewrite list_elem_of_fmap. intros (y & Heq & Hy).
  destruct (Hpre y Hy) as [Hlt _]. rewrite Heq, ltb_irrefl in Hlt. done.
Qed.

(** A document made from well-formed attachments is accepted and gives them back. *)
Lemma validate_journal_document :
  validate_document (journal_document j) (aj_provider j) = Ok (aj_attachments j).
Proof.
  unfold validate_document, journal_document; simpl.
  pose proof (required_schema_range j) as Hrange. rewrite !elem_of_cons, elem_of_nil in Hrange.
  replace (negb _) with false
    by (destruct Hrange as [-> | [-> | [-> | [-> | []]]]]; reflexivity).
  rewrite (try_fold_prefixes _ scan_of) by (intros; by eapply validate_step_next). simpl.
  f_equal. unfold aj_records, btree_values. rewrite <-(btree_iter_to_map (aj_attachments j)) at 2.
  f_equal. change (map snd ?l) with (snd <$> l). rewrite <-list_fmap_compose.
  rewrite <-(list_fmap_id (btree_iter _)) at 2. apply list_fmap_ext.
  intros i [k r] Hkr%list_elem_of_lookup_2%elem_of_btree_iter. simpl.
  by rewrite (journal_records_keyed k r Hkr).
Qed.

End RoundTrip.

(** The bytes [persist] leaves in the journal file. *)
Definition document_bytes `{JournalJson} (j : AttachmentJournal) : bytes :=
  to_vec_pretty (journal_document j) ++ [10].

Lemma journal_document_typed j : journal_wf j → document_typed (journal_document j).
Proof.
  intros [Hp Hwf _]. split_and!; simpl; [|done|].
  - pose proof (required_schema_range j) as Hrange. rewrite !elem_of_cons, elem_of_nil in Hrange.
    destruct Hrange as [-> | [-> | [-> | [-> | []]]]]; by vm_compute.
  - apply Forall_forall. intros r (key & Hr)%elem_of_btree_values.
    by destruct (attachments_records _ _ Hwf key r Hr).
Qed.

(** What a well-formed journal persists, it loads. *)
Lemma load_persisted `{JournalJsonLaws} j :
  journal_wf j →
  load_bytes (document_bytes j) (aj_provider j) =
  Ok {| loaded_attachments := aj_attachments j; loaded_migrated := false;
        loaded_retirement_required := aj_retirement_required j |}.
Proof.
  intros Hj. unfold load_bytes, document_bytes.
  destruct (json_round_trip _ (journal_document_typed j Hj)) as (value & -> & Hversion & Hdoc).
  simpl. rewrite Hversion. simpl. rewrite Hdoc. simpl.
  rewrite bool_decide_eq_true_2, (validate_journal_document j) by (done || apply Hj). simpl.
  unfold required_schema. by repeat case_match.
Qed.

(** ** Operations *)

(** What one transaction may do to the record of a key: a preparation creates it, the other
    steps move it along its phases without touching what it owns, and only the completion of
    an abort or of a deletion removes it. *)
Inductive lifecycle : TransactionOperation → option AttachmentRecord → option AttachmentRecord →
    Prop :=
| life_same operation o : lifecycle operation o o
| life_prepare spec r : att_phase r = Preparing → lifecycle (OpPrepare spec) None (Some r)
| life_commit key r : att_phase r = Preparing →
    lifecycle (OpCommit key) (Some r) (Some (set_phase r Ready))
| life_abort key r : att_phase r = Preparing →
    lifecycle (OpBeginAbort key) (Some r) (Some (set_phase r Aborting))
| life_delete key r : att_phase r = Preparing ∨ att_phase r = Ready →
    lifecycle (OpBeginDelete key) (Some r) (Some (set_phase r Deleting))
| life_aborted key r : att_phase r = Aborting → lifecycle (OpCompleteAbort key) (Some r) None
| life_deleted key r : att_phase r = Deleting → lifecycle (OpCompleteDelete key) (Some r) None.

Definition with_record (m : gmap AttachmentKey AttachmentRecord) (key : AttachmentKey)
    (o : option AttachmentRecord) : gmap AttachmentKey AttachmentRecord :=
  partial_alter (λ _, o) key m.

Lemma lookup_with_record m key o k :
  with_record m key o !! k = if decide (key = k) then o else m !! k.
Proof. apply lookup_partial_alter. Qed.

Lemma with_record_same m key : with_record m key (m !! key) = m.
Proof.
  apply map_eq. intros k. rewrite lookup_with_record. by case_decide; subst.
Qed.

Lemma with_record_with_record m key o o' :
  with_record (with_record m key o) key o' = with_record m key o'.
Proof. apply map_eq. intros k. rewrite !lookup_with_record. by case_decide. Qed.

Lemma set_phase_id r : set_phase r (att_phase r) = r.
Proof. by destruct r. Qed.

Definition with_attachments (j : AttachmentJournal) (m : gmap AttachmentKey AttachmentRecord) :
    AttachmentJournal :=
  j {{ aj_attachments := m }}.

Lemma with_attachments_id j : with_attachments j (aj_attachments j) = j.
Proof. by destruct j. Qed.

(** A call that neither writes nor revokes. *)
Record quiet (w w' : JournalWorld) : Prop := {
  quiet_disk : jw_disk w' = jw_disk w;
  quiet_retired : jw_retired w' = jw_retired w;
  quiet_history : ∃ new, jw_history w' = new ++ jw_history w ∧
    Forall (λ e, e = (jw_disk w, jw_retired w)) new;
}.

Lemma quiet_refl w : quiet w w.
Proof. split; [done..|]. by exists []. Qed.

(** Random sources give 32 bytes. *)
Definition env_wf (env : JournalEnv) : Prop :=
  ∀ n, length (env_random env n) = 32%nat ∧ byte_string (env_random env n).

(** The effect of an operation on the journal: a lifecycle step of its key's record. *)
Definition operation_effect (operation : TransactionOperation) (s s' : JournalState)
    (failed : bool) : Prop :=
  quiet (js_world s) (js_world s') ∧
  ∃ m, js_journal s' = with_attachments (js_journal s) m ∧
    attachments_wf (aj_provider (js_journal s)) m ∧
    (m = aj_attachments (js_journal s) ∨
     failed = false ∧ ∃ key o, mutated_key operation = Some key ∧
       m = with_record (aj_attachments (js_journal s)) key o ∧
       lifecycle operation (aj_attachments (js_journal s) !! key) o).

Section Effects.
Context (s : JournalState) (operation : TransactionOperation).
Context (Hs : journal_wf (js_journal s)).
Local Abbreviation j := (js_journal s).

Lemma effect_none failed : operation_effect operation s s failed.
Proof.
  split; [apply quiet_refl|]. exists (aj_attachments j). rewrite with_attachments_id.
  split; [done|]. split; [apply Hs|by left].
Qed.

Lemma effect_record key o w :
  mutated_key operation = Some key → lifecycle operation (aj_attachments j !! key) o →
  attachments_wf (aj_provider j) (with_record (aj_attachments j) key o) →
  quiet (js_world s) w →
  operation_effect operation s
    {| js_journal := with_attachments j (with_record (aj_attachments j) key o); js_world := w |}
    false.
Proof. intros Hkey Hlife Hwf Hq. split; [done|]. eexists. split; [done|]. naive_solver. Qed.

(** The operations on the record of a key, given what they find. *)
Lemma effect_phase key r phase :
  mutated_key operation = Some key → aj_get j key = Some r →
  lifecycle operation (Some r) (Some (set_phase r phase)) →
  operation_effect operation s (put_record key (set_phase r phase) s).2 false.
Proof.
  intros Hkey Hr Hlife. apply (effect_record key (Some (set_phase r phase)) (js_world s)); try done.
  - unfold aj_get in Hr. by rewrite Hr.
  - by apply attachments_wf_phase; [apply Hs|].
  - apply quiet_refl.
Qed.

Lemma effect_remove key r :
  mutated_key operation = Some key → aj_get j key = Some r →
  lifecycle operation (Some r) None →
  operation_effect operation s (remove_record key s).2 false.
Proof.
  intros Hkey Hr Hlife. apply (effect_record key None (js_world s)); try done.
  - unfold aj_get in Hr. by rewrite Hr.
  - apply attachments_wf_delete, Hs.
  - apply quiet_refl.
Qed.

End Effects.

Definition failed_result {A} (r : result JournalError A) : bool := negb (is_ok r).

(** Runs one of the record operations: looks the key up and splits on the phase. *)
Ltac run_record_op Hrun :=
  unfold op_bind, get_journal, op_ret, op_fail in Hrun; simpl in Hrun;
  destruct (aj_get _ _) as [record|] eqn:Hget;
    [destruct (att_phase record) eqn:Hphase|]; simplify_eq/=;
  first [apply effect_none; done
        |eapply effect_phase; [done..|solve [constructor; auto]]
        |eapply effect_remove; [done..|solve [constructor; auto]]
        |idtac].

Section Operations.
Context (env : JournalEnv) (s : JournalState).
Context (Hs : journal_wf (js_journal s)).

Lemma commit_effect key r s' :
  commit key s = (r, s') → operation_effect (OpCommit key) s s' (failed_result r).
Proof. intros Hrun. unfold commit in Hrun. run_record_op Hrun. Qed.

Lemma begin_abort_effect key r s' :
  begin_abort key s = (r, s') → operation_effect (OpBeginAbort key) s s' (failed_result r).
Proof.
  intros Hrun. unfold begin_abort in Hrun. run_record_op Hrun.
  eapply effect_phase; [done..|]. rewrite <-Hphase, set_phase_id. constructor.
Qed.

Lemma complete_abort_effect key r s' :
  complete_abort key s = (r, s') → operation_effect (OpCompleteAbort key) s s' (failed_result r).
Proof. intros Hrun. unfold complete_abort in Hrun. run_record_op Hrun. Qed.

Lemma begin_delete_effect key r s' :
  begin_delete key s = (r, s') → operation_effect (OpBeginDelete key) s s' (failed_result r).
Proof. intros Hrun. unfold begin_delete in Hrun. run_record_op Hrun. Qed.

Lemma complete_delete_effect key r s' :
  complete_delete key s = (r, s') → operation_effect (OpCompleteDelete key) s s' (failed_result r).
Proof. intros Hrun. unfold complete_delete in Hrun. run_record_op Hrun. Qed.

Lemma check_effect spec r s' :
  check spec s = (r, s') → s' = s.
Proof.
  unfold check, op_bind, get_journal; simpl.
  destruct (aj_get _ _); [|by intros [= <- <-]]. by repeat case_match; intros [= <- <-].
Qed.

Lemma creation_nonce_spec spec version r s' :
  env_wf env → creation_nonce env spec version s = (r, s') →
  js_journal s' = js_journal s ∧ quiet (js_world s) (js_world s') ∧
  ∀ token, r = Ok (Some token) →
    is_Some (aspec_workload_uid spec) ∧ token ≠ zero_token ∧
    length token = 32%nat ∧ byte_string token ∧
    ∀ x, x ∈ aj_records (js_journal s) → att_creation_token x ≠ Some token.
Proof.
  intros Henv. unfold creation_nonce. destruct (_ && _) eqn:E.
  2:{ intros [= <- <-]. split; [done|]. split; [apply quiet_refl|done]. }
  apply andb_true_iff in E as [_ Huid%bool_decide_eq_true].
  unfold op_bind, on_world, fill_random, get_journal, op_fail, op_ret; simpl.
  set (n := jw_calls (js_world s)). set (w' := jw_log (js_world s)).
  assert (quiet (js_world s) w') as Hq.
  { split; [done..|]. exists [(jw_disk (js_world s), jw_retired (js_world s))]. naive_solver. }
  destruct (env_fails env n); [by intros [= <- <-]|]. simpl.
  destruct (_ || _) eqn:Efresh; intros [= <- <-]; [done|]. split; [done|]. split; [done|].
  intros token [= <-]. destruct (Henv n). apply orb_false_iff in Efresh as [Hz Hused].
  rewrite bool_decide_eq_false in Hz. split_and!; try done. intros x Hx Htoken.
  apply not_true_iff_false in Hused. apply Hused, existsb_exists. exists x.
  split; [by apply list_elem_of_In|by apply bool_decide_eq_true].
Qed.

(** The record a preparation adds owns nothing another record owns. *)
Lemma prepared_record_wf spec used lease token :
  validate_spec spec = Ok () →
  (∀ x, x ∈ aj_records (js_journal s) →
    att_host_interface x ≠ deterministic_host_interface (aspec_key spec)) →
  UsedAddresses_from_leases (map att_lease (aj_records (js_journal s))) = Ok used →
  NodeBlockProvider_allocate (aj_provider (js_journal s)) used = Ok lease →
  (∀ t, token = Some t → is_Some (aspec_workload_uid spec) ∧ t ≠ zero_token ∧
    length t = 32%nat ∧ byte_string t ∧
    ∀ x, x ∈ aj_records (js_journal s) → att_creation_token x ≠ Some t) →
  attachments_wf (aj_provider (js_journal s))
    (<[aspec_key spec := {| att_spec := spec;
                            att_host_interface := deterministic_host_interface (aspec_key spec);
                            att_lease := lease; att_phase := Preparing;
                            att_creation_token := token |}]> (aj_attachments (js_journal s))).
Proof.
  intros Hspec Hhost Hused Hlease Htoken. pose proof (journal_provider _ Hs) as Hp.
  destruct (allocate_valid _ _ _ Hp Hlease) as (Hv & H4 & H6).
  destruct (allocate_typed _ _ _ Hp Hlease).
  apply UsedAddresses_from_leases_inv in Hused as (Hu & Hl & _).
  rewrite (used_ipv4_image _ Hu), Hl in H4. rewrite (used_ipv6_image _ Hu), Hl in H6.
  apply attachments_wf_insert; [apply Hs|split; try done|].
  - split_and!; simpl; try done; [by apply validate_spec_mtu|]. intros t Ht.
    by destruct (Htoken t Ht) as (_ & _ & ? & ? & _).
  - intros t Ht. by destruct (Htoken t Ht) as (? & ? & _).
  - intros k x Hx _. assert (x ∈ aj_records (js_journal s)) as Hin
      by (apply elem_of_btree_values; eauto).
    assert (att_lease x ∈ map att_lease (aj_records (js_journal s)))
      by (apply elem_of_list_map; eauto).
    intros [Heq|[Heq|[Heq|(t & Ht & Htx)]]]; simpl in *.
    + by apply (Hhost x).
    + apply H4. rewrite Heq. set_solver.
    + apply H6. rewrite Heq. set_solver.
    + destruct (Htoken t Ht) as (_ & _ & _ & _ & Hfresh). by apply (Hfresh x).
Qed.

Lemma prepare_effect spec version r s' :
  env_wf env → validate_spec spec = Ok () → prepare env spec version s = (r, s') →
  operation_effect (OpPrepare spec) s s' (failed_result r).
Proof.
  intros Henv Hspec. unfold prepare. unfold op_bind at 1, get_journal. simpl.
  destruct (aj_get _ _) as [existing|] eqn:Hget.
  { unfold op_fail, op_ret. repeat case_match; intros [= <- <-]; by apply effect_none. }
  destruct (existsb _ _) eqn:Ehost; [intros [= <- <-]; by apply effect_none|].
  unfold op_bind, op_lift.
  destruct (UsedAddresses_from_leases _) as [used|] eqn:Eused;
    simpl; [|intros [= <- <-]; by apply effect_none].
  destruct (NodeBlockProvider_allocate _ _) as [lease|] eqn:Elease;
    simpl; [|intros [= <- <-]; by apply effect_none].
  destruct (creation_nonce env spec version s) as [nonce s1] eqn:Enonce.
  apply creation_nonce_spec in Enonce as (Hj & Hq & Htoken); [|done].
  destruct s1 as [j1 w1]; simpl in Hj, Hq; subst j1. destruct nonce as [token|e].
  - unfold put_record, put_journal, op_ret. intros [= <- <-].
    apply (effect_record s (OpPrepare spec) (aspec_key spec) (Some _) w1); try done;
      [|apply (prepared_record_wf spec used lease token); try done].
    + unfold aj_get in Hget. rewrite Hget. by constructor.
    + intros x Hx Heq. apply not_true_iff_false in Ehost. apply Ehost, existsb_exists.
      exists x. split; [by apply list_elem_of_In|by apply bool_decide_eq_true].
    + intros t ->. by apply Htoken.
  - intros [= <- <-]. split; [done|]. apply (effect_none _ (OpPrepare spec) Hs true).
Qed.

(** A validated operation whose result is only wrapped. *)
Lemma validated_effect {A B C} operation (v : result JournalError A) (c : A → Routine JournalState JournalError B)
    (f : B → C) r s' :
  (∀ a b s', v = Ok a → c a s = (b, s') → operation_effect operation s s' (failed_result b)) →
  (let* a := op_lift v in let* b := c a in op_ret (f b)) s = (r, s') →
  operation_effect operation s s' (failed_result r).
Proof.
  intros Hc. unfold op_bind, op_lift, op_ret. destruct v as [a|e].
  - destruct (c a s) as [[b|e] s1] eqn:Ec; intros [= <- <-];
      exact (Hc a _ s1 eq_refl Ec).
  - intros [= <- <-]. by apply effect_none.
Qed.

Lemma apply_operation_effect operation version r s' :
  env_wf env → apply_operation env operation version s = (r, s') →
  operation_effect operation s s' (failed_result r).
Proof.
  intros Henv. destruct operation; simpl.
  - intros [= <- <-]. by apply effect_none.
  - unfold op_bind, op_lift, get_journal, op_ret. case_match; intros [= <- <-]; by apply effect_none.
  - unfold op_bind, op_lift, get_journal, op_ret. case_match; intros [= <- <-]; by apply effect_none.
  - apply validated_effect. intros [] b s1 Hv. by apply prepare_effect.
  - apply validated_effect. intros [] b s1 _. by apply commit_effect.
  - apply validated_effect. intros [] b s1 _. by apply begin_abort_effect.
  - apply validated_effect. intros [] b s1 _. by apply complete_abort_effect.
  - apply validated_effect. intros [] b s1 _ ->%check_effect. by apply effect_none.
  - apply validated_effect. intros [] b s1 _. by apply begin_delete_effect.
  - apply validated_effect. intros [] b s1 _. by apply complete_delete_effect.
Qed.
End Operations.
