(* ===== verification/CniJournalCrash.v ===== *)
(** * Crash safety of the attachment journal

    A crash may happen between any two calls into the system: it brings back one of the
    entries the directory may hold, with the bytes of the files that were synced.  Crash
    triples say what holds at every such point of an action; from them follow the atomicity
    and the durability of transactions, over every sequence of transactions, failures,
    crashes and reopenings. *)

From coqutil Require Import Datatypes.RecordSetters.
From S2P Require Import Prelude Common NetAddr Ipam Bytes CniAttachment CniJournal CniJournalFacts.
Import DoubleBraceUpdate.

(** ** Crash triples *)

(** Started where [I] and [P] hold, [c] keeps [I] at every call it makes and establishes [Q]
    when it succeeds. *)
Definition crash_triple {A} (I : Disk → list bytes → Prop) (P : Disk → Prop)
    (c : Routine JournalWorld JournalError A) (Q : A → Disk → Prop) : Prop :=
  ∀ w r w', I (jw_disk w) (jw_retired w) → P (jw_disk w) → c w = (r, w') →
    I (jw_disk w') (jw_retired w') ∧
    (∃ new, jw_history w' = new ++ jw_history w ∧ Forall (λ e, I e.1 e.2) new) ∧
    match r with Ok a => Q a (jw_disk w') | Err _ => True end.

Section Triples.
Context (env : JournalEnv) (I : Disk → list bytes → Prop).

Lemma triple_ret {A} (a : A) (P : Disk → Prop) (Q : A → Disk → Prop) :
  (∀ d, P d → Q a d) → crash_triple I P (op_ret a) Q.
Proof. intros HQ w r w' HI HP [= <- <-]. split_and!; [done|by exists []|by apply HQ]. Qed.

Lemma triple_fail {A} e (P : Disk → Prop) (Q : A → Disk → Prop) : crash_triple I P (op_fail e) Q.
Proof. intros w r w' HI HP [= <- <-]. split_and!; [done|by exists []|done]. Qed.

Lemma triple_bind {A B} P Q R (c : Routine JournalWorld JournalError A)
    (k : A → Routine JournalWorld JournalError B) :
  crash_triple I P c Q → (∀ a, crash_triple I (Q a) (k a) R) → crash_triple I P (op_bind c k) R.
Proof.
  intros Hc Hk w r w' HI HP. unfold op_bind. destruct (c w) as [[a|e] w1] eqn:Ec.
  - destruct (Hc _ _ _ HI HP Ec) as (HI1 & (new1 & Hh1 & Hn1) & HQ). intros Hrun.
    destruct (Hk a _ _ _ HI1 HQ Hrun) as (HI2 & (new2 & Hh2 & Hn2) & HR).
    split_and!; [done| |done]. exists (new2 ++ new1). rewrite Hh2, Hh1, (assoc_L (++)).
    split; [done|]. by apply Forall_app.
  - intros [= <- <-]. destruct (Hc _ _ _ HI HP Ec) as (HI1 & Hnew & _). by split_and!.
Qed.

Lemma triple_conseq {A} (P P' : Disk → Prop) (Q Q' : A → Disk → Prop) c :
  (∀ d, P' d → P d) → (∀ a d, Q a d → Q' a d) → crash_triple I P c Q → crash_triple I P' c Q'.
Proof.
  intros HP HQ Hc w r w' HI HP' Hrun.
  destruct (Hc _ _ _ HI (HP _ HP') Hrun) as (? & ? & Hr). split_and!; [done..|].
  destruct r; auto.
Qed.

Lemma triple_sys (P Q : Disk → Prop) done failed :
  (∀ d t, P d → I d t → I (done d) t ∧ I (failed d) t ∧ Q (done d)) →
  crash_triple I P (sys_call env done failed) (λ _, Q).
Proof.
  intros Hcall w r w' HI HP. destruct (Hcall _ _ HP HI) as (Hd & Hf & HQ).
  unfold sys_call. destruct (env_fails env _); intros [= <- <-]; simpl;
    (split_and!; [done| |done]); eexists [_]; (split; [reflexivity|by apply Forall_singleton]).
Qed.

Lemma triple_query P : crash_triple I P (sys_query env) (λ _, P).
Proof. by apply triple_sys. Qed.

Lemma triple_exists P found :
  crash_triple I P (path_exists env found) (λ _, P).
Proof.
  intros w r w' HI HP [= <- <-]; simpl. split_and!; [done| |done].
  eexists [_]. split; [reflexivity|by apply Forall_singleton].
Qed.

End Triples.

(** ** Persisting *)

Section Persist.
Context (env : JournalEnv) `{JournalJson} (j : AttachmentJournal).
Context (possible : list (option FileState)) (retired : list bytes).

Definition new_file : FileState := {| file_bytes := document_bytes j; file_synced := true |}.

(** While persisting, the journal's entry is an old one or the new file. *)
Definition old_or_new (d : Disk) (t : list bytes) : Prop :=
  t = retired ∧ ∀ e, e ∈ entry_possible (disk_journal d) → e ∈ possible ∨ e = Some new_file.

Definition persisted (d : Disk) : Prop :=
  disk_journal d = {| entry_latest := Some new_file; entry_pending := [] |}.

Definition temporary_is (f : FileState) (d : Disk) : Prop := disk_temporary d = Some f.

Lemma write_all_triple written data :
  crash_triple old_or_new (temporary_is {| file_bytes := written; file_synced := false |})
    (write_all env data)
    (λ _, temporary_is {| file_bytes := written ++ data; file_synced := false |}).
Proof.
  intros w r w' HI HP. unfold write_all. revert w r w' HI HP. intros w.
  generalize (env_written env (jw_calls w)). intros n. revert w.
  apply triple_sys. unfold temporary_is. by intros [entry temporary] t [= ->] Ht.
Qed.

Lemma write_document_triple :
  crash_triple old_or_new (λ _, True) (write_document env (to_vec_pretty (journal_document j)))
    (λ _, persisted).
Proof.
  unfold write_document. eapply triple_bind with
    (Q := λ _, temporary_is {| file_bytes := []; file_synced := false |}).
  { intros w r w' HI _. unfold create_temporary. destruct (temporary_exists _).
    - intros [= <- <-]; simpl. split_and!; [done| |done]. eexists [_].
      split; [reflexivity|by apply Forall_singleton].
    - by apply (triple_sys env old_or_new (λ _, True) (temporary_is _)). }
  intros _. eapply triple_bind with (Q := λ _, temporary_is
    {| file_bytes := to_vec_pretty (journal_document j); file_synced := false |}).
  { apply (write_all_triple []). }
  intros _. eapply triple_bind with (Q := λ _, temporary_is
    {| file_bytes := document_bytes j; file_synced := false |}).
  { apply write_all_triple. }
  intros _. eapply triple_bind with (Q := λ _, temporary_is new_file).
  { apply triple_sys. unfold temporary_is. by intros [entry temporary] t [= ->] Ht. }
  intros _. eapply triple_bind with (Q := λ _ d, entry_latest (disk_journal d) = Some new_file).
  { apply triple_sys. unfold temporary_is. intros [entry temporary] t [= ->] [-> Ht].
    split_and!; [|done..]. split; [done|]. simpl. intros e [->|He]%elem_of_cons; auto. }
  intros _. eapply triple_bind with (Q := λ _, persisted).
  { unfold sync_directory. eapply triple_bind; [apply triple_query|]. intros [].
    apply triple_sys. intros [[latest pending] temporary] t [= ->] [-> Ht].
    split_and!; [|done..]. split; [done|]. simpl.
    intros e [->|[]%not_elem_of_nil]%elem_of_cons; auto. }
  intros _. apply triple_query.
Qed.

Lemma persist_triple :
  crash_triple old_or_new (λ _, True) (persist env j) (λ _, persisted).
Proof.
  unfold persist. eapply triple_bind; [apply triple_query|]. intros [].
  eapply triple_bind; [apply triple_exists|]. intros [|]; [apply triple_fail|].
  intros w r w' HI HP. destruct (write_document env _ w) as [[[]|e] w1] eqn:Ewrite.
  - intros [= <- <-]. by apply (write_document_triple _ _ _ HI HP Ewrite).
  - destruct (write_document_triple _ _ _ HI HP Ewrite) as (HI1 & (new & Hh & Hn) & _).
    intros [= <- <-].
    destruct (remove_temporary env w1) as [r2 w2] eqn:Eremove.
    edestruct (triple_sys env old_or_new (λ _, True) (λ _, True)) as (HI2 & (new2 & Hh2 & Hn2) & _);
      [|exact HI1|done|exact Eremove|]; [done|].
    simpl. split_and!; [done| |done]. exists (new2 ++ new).
    rewrite Hh2, Hh, (assoc_L (++)). split; [done|]. by apply Forall_app.
Qed.

End Persist.

(** ** What a directory entry stands for *)

(** Calls that leave the disk alone. *)
Record untouched (w w' : JournalWorld) : Prop := {
  untouched_disk : jw_disk w' = jw_disk w;
  untouched_history : ∃ new, jw_history w' = new ++ jw_history w ∧
    Forall (λ e, e.1 = jw_disk w) new;
}.

Lemma quiet_untouched w w' : quiet w w' → untouched w w'.
Proof.
  intros [Hd _ (new & Hnew & Hall)]. split; [done|]. exists new. split; [done|].
  eapply Forall_impl; [done|]. by intros ? ->.
Qed.

Lemma untouched_trans w1 w2 w3 : untouched w1 w2 → untouched w2 w3 → untouched w1 w3.
Proof.
  intros [Hd (new & Hn & Ha)] [Hd' (new' & Hn' & Ha')]. split; [by rewrite Hd'|].
  exists (new' ++ new). rewrite Hn', Hn, (assoc_L (++)). split; [done|]. apply Forall_app.
  split; [|done]. eapply Forall_impl; [done|]. intros e ->. done.
Qed.

Section Entries.
Context `{JournalJson} (provider : NodeBlockProvider).

(** The attachments a journal would load from an entry, when the entry survives a crash. *)
Definition entry_attachments (e : option FileState) :
    option (gmap AttachmentKey AttachmentRecord) :=
  match e with
  | None => Some ∅
  | Some f =>
      if file_synced f then
        match load_bytes (file_bytes f) provider with
        | Ok loaded => Some (loaded_attachments loaded)
        | Err _ => None
        end
      else None
  end.

(** Every entry the directory may hold stands for [m]. *)
Definition disk_holds (m : gmap AttachmentKey AttachmentRecord) (d : Disk) : Prop :=
  ∀ e, e ∈ entry_possible (disk_journal d) → entry_attachments e = Some m.

(** The tokens of the published incarnations that [m'] no longer has ready were revoked. *)
Definition retired_before (j : AttachmentJournal) (m' : gmap AttachmentKey AttachmentRecord)
    (retired : list bytes) : Prop :=
  ∀ key r token, aj_attachments j !! key = Some r → att_phase r = Ready →
    att_creation_token r = Some token → is_Some (aj_retirement j) →
    m' !! key = Some r ∨ token ∈ retired.

(** A point of a transaction that started in [s] and would lead to [m']: what the directory
    may hold is what it held before, or stands for [m'] after the revocations [m'] needs. *)
Definition point (s : JournalState) (m' : gmap AttachmentKey AttachmentRecord) (d : Disk)
    (retired : list bytes) : Prop :=
  ∀ e, e ∈ entry_possible (disk_journal d) →
    e ∈ entry_possible (disk_journal (jw_disk (js_world s))) ∨
    (entry_attachments e = Some m' ∧ retired_before (js_journal s) m' retired).

(** All the points from [s] to [s']. *)
Definition points (s : JournalState) (m' : gmap AttachmentKey AttachmentRecord)
    (s' : JournalState) : Prop :=
  point s m' (jw_disk (js_world s')) (jw_retired (js_world s')) ∧
  ∃ new, jw_history (js_world s') = new ++ jw_history (js_world s) ∧
    Forall (λ e, point s m' e.1 e.2) new.

Lemma point_same s m' d retired :
  disk_journal d = disk_journal (jw_disk (js_world s)) → point s m' d retired.
Proof. intros Hd e. rewrite Hd. by left. Qed.

Lemma untouched_points s m' s' : untouched (js_world s) (js_world s') → points s m' s'.
Proof.
  intros [Hd (new & Hnew & Hall)]. split; [apply point_same; by rewrite Hd|].
  exists new. split; [done|]. eapply Forall_impl; [done|]. intros e He.
  apply point_same. by rewrite He.
Qed.

Lemma disk_holds_persisted `{!JournalJsonLaws _} j d :
  journal_wf j → aj_provider j = provider → persisted j d → disk_holds (aj_attachments j) d.
Proof.
  intros Hj Hp Hd e. unfold entry_possible. rewrite Hd. simpl.
  intros [->|[]%not_elem_of_nil]%elem_of_cons. simpl. by rewrite <-Hp, load_persisted.
Qed.

End Entries.

(** ** Mutations *)

Lemma aj_get_with j m key : aj_get (with_attachments j m) key = m !! key.
Proof. done. Qed.

Lemma restore_with_record j key o :
  MutationSnapshot_restore {| snapshot_key := key; snapshot_record := aj_get j key |}
    (with_attachments j (with_record (aj_attachments j) key o)) = j.
Proof.
  unfold MutationSnapshot_restore, aj_get. destruct (aj_attachments j !! key) eqn:E; simpl.
  all: transitivity (with_attachments j (with_record (with_record (aj_attachments j) key o) key
    (aj_attachments j !! key))); [by rewrite E|].
  all: by rewrite with_record_with_record, with_record_same, with_attachments_id.
Qed.

(** What a transaction that would lead to [m'] does. *)
Record transaction_spec `{JournalJson} (s : JournalState)
    (m' : gmap AttachmentKey AttachmentRecord) (ok : bool) (s' : JournalState) : Prop := {
  ts_provider : aj_provider (js_journal s') = aj_provider (js_journal s);
  ts_wf : journal_wf (js_journal s');
  ts_points : points (aj_provider (js_journal s)) s m' s';
  ts_result : aj_attachments (js_journal s') =
    if ok then m' else aj_attachments (js_journal s);
  ts_durable : is_Some (aj_instance (js_journal s')) →
    (is_Some (aj_instance (js_journal s)) ∧
     aj_attachments (js_journal s') = aj_attachments (js_journal s) ∧
     disk_journal (jw_disk (js_world s')) = disk_journal (jw_disk (js_world s))) ∨
    disk_holds (aj_provider (js_journal s)) (aj_attachments (js_journal s'))
      (jw_disk (js_world s'));
  ts_committed : ok = true → m' ≠ aj_attachments (js_journal s) →
    disk_holds (aj_provider (js_journal s)) m' (jw_disk (js_world s')) ∧
    is_Some (aj_instance (js_journal s'));
  ts_revision : aj_revision (js_journal s) ≤ aj_revision (js_journal s') ∧
    (aj_attachments (js_journal s') ≠ aj_attachments (js_journal s) →
     aj_revision (js_journal s) < aj_revision (js_journal s'));
}.

(** A transaction that changes nothing, or leaves only doubt about what is durable. *)
Lemma transaction_idle `{JournalJson} s m' ok s' :
  journal_wf (js_journal s) → untouched (js_world s) (js_world s') →
  js_journal s' = js_journal s → (ok = true → m' = aj_attachments (js_journal s)) →
  transaction_spec s m' ok s'.
Proof.
  intros Hs Hq Hj Hm. split; rewrite ?Hj; try done; [by apply untouched_points|..].
  - destruct ok; [by rewrite Hm|done].
  - intros ?. left. by rewrite (untouched_disk _ _ Hq).
  - intros Hok. by rewrite Hm.
Qed.

Lemma transaction_failed `{JournalJson} s m' s' :
  journal_wf (js_journal s) → points (aj_provider (js_journal s)) s m' s' →
  js_journal s' = (js_journal s) {{ aj_instance := None }} → transaction_spec s m' false s'.
Proof.
  intros [Hp Ha Hr] Hpoints Hj. split; rewrite ?Hj; try done. by intros [? ?].
Qed.

Lemma transaction_committed `{JournalJson} s m' s' :
  journal_wf (js_journal s') → aj_provider (js_journal s') = aj_provider (js_journal s) →
  points (aj_provider (js_journal s)) s m' s' → aj_attachments (js_journal s') = m' →
  disk_holds (aj_provider (js_journal s)) m' (jw_disk (js_world s')) →
  is_Some (aj_instance (js_journal s')) →
  aj_revision (js_journal s) ≤ aj_revision (js_journal s') ∧
    (aj_attachments (js_journal s') ≠ aj_attachments (js_journal s) →
     aj_revision (js_journal s) < aj_revision (js_journal s')) →
  transaction_spec s m' true s'.
Proof. intros Hwf Hp Hpoints <- Hd Hi Hr. split; try done. by right. Qed.

(** Persisting a journal from a state whose disk is that of [s]. *)
Lemma persist_points (env : JournalEnv) `{JournalJsonLaws} s s2 j r w :
  journal_wf j → aj_provider j = aj_provider (js_journal s) →
  untouched (js_world s) (js_world s2) →
  retired_before (js_journal s) (aj_attachments j) (jw_retired (js_world s2)) →
  persist env j (js_world s2) = (r, w) →
  (∀ jn, points (aj_provider (js_journal s)) s (aj_attachments j)
           {| js_journal := jn; js_world := w |}) ∧
  (is_ok r = true → disk_holds (aj_provider (js_journal s)) (aj_attachments j) (jw_disk w)).
Proof.
  intros Hwf Hp [Hd (new & Hnew & Hall)] Hret Hrun.
  set (possible := entry_possible (disk_journal (jw_disk (js_world s)))).
  destruct (persist_triple env j possible (jw_retired (js_world s2)) (js_world s2) r w)
    as (HI & (new2 & Hnew2 & Hall2) & Hok); [|done..|].
  { split; [done|]. rewrite Hd. by left. }
  assert (Hpoint : ∀ d t, old_or_new j possible (jw_retired (js_world s2)) d t →
    point (aj_provider (js_journal s)) s (aj_attachments j) d t).
  { intros d t [-> He] e [Hin|Heq]%He; [by left|right]. rewrite Heq. split; [|done].
    simpl. by rewrite <-Hp, (load_persisted j Hwf). }
  split.
  - intros jn. split; [by apply Hpoint|]. exists (new2 ++ new). simpl.
    rewrite Hnew2, Hnew, (assoc_L (++)). split; [done|]. apply Forall_app. split.
    + eapply Forall_impl; [done|]. intros e. apply Hpoint.
    + eapply Forall_impl; [done|]. intros e He. apply point_same. by rewrite He.
  - intros Hr. destruct r as [[]|]; [|done]. by apply (disk_holds_persisted _ j).
Qed.

Section Mutation.
Context (env : JournalEnv) `{JournalJsonLaws} (s s1 : JournalState).
Context (key : AttachmentKey) (o : option AttachmentRecord).
Let j := js_journal s.
Let m' := with_record (aj_attachments j) key o.
Let previous := {| snapshot_key := key; snapshot_record := aj_get j key |}.
Context (Hs : journal_wf j) (Hm : attachments_wf (aj_provider j) m').
Context (Hj1 : js_journal s1 = with_attachments j m').
Context (Hq1 : quiet (js_world s) (js_world s1)).

(** The journal that is persisted. *)
Let j' := with_attachments j m'.

Lemma mutated_wf : journal_wf j'.
Proof. destruct Hs as [Hp _ Hr]. by split. Qed.

(** The previous incarnation is revoked, if it was published. *)
Lemma retire_previous_spec r s2 :
  retire_previous env previous s1 = (r, s2) →
  js_journal s2 = j' ∧ untouched (js_world s1) (js_world s2) ∧
  (is_ok r = true → retired_before j m' (jw_retired (js_world s2))).
Proof.
  assert (Hother : ∀ k x, k ≠ key → aj_attachments j !! k = Some x → m' !! k = Some x).
  { intros k x Hk Hx. unfold m'. rewrite lookup_with_record. by case_decide. }
  unfold retire_previous, op_bind, get_journal. rewrite Hj1.
  change (aj_retirement (with_attachments j m')) with (aj_retirement j). cbn [snapshot_record previous].
  assert (Hidle : (∀ x token, aj_get j key = Some x → att_phase x = Ready →
      att_creation_token x = Some token → aj_retirement j = None) →
    (@Ok JournalError () (), s1) = (r, s2) →
    js_journal s2 = j' ∧ untouched (js_world s1) (js_world s2) ∧
    (is_ok r = true → retired_before j m' (jw_retired (js_world s2)))).
  { intros Hnone [= <- <-]. split_and!; [done|by split; [|exists []]|].
    intros _ k x t Hx Hp Htok [owner Hhook].
    destruct (decide (k = key)) as [->|]; [|by eauto]. by rewrite (Hnone x t) in Hhook. }
  destruct (aj_get j key) as [record|] eqn:Hget; [|by apply Hidle].
  destruct (bool_decide (att_phase record = Ready)) eqn:Eready;
    [|apply Hidle; intros x t [= <-] Hp; by rewrite bool_decide_eq_false in Eready].
  destruct (att_creation_token record) as [token|] eqn:Etoken;
    [|apply Hidle; intros x t [= <-] Hp; congruence].
  destruct (aj_retirement j) as [owner|] eqn:Ehook; [|by apply Hidle].
  clear Hidle. unfold on_world, retire.
  destruct (env_fails env _); intros [= <- <-]; (split_and!; [done| |]);
    try (split; [done|]; eexists [_]; split; [reflexivity|by apply Forall_singleton]); [done|].
  intros _ k x t Hx Hp Htok _. destruct (decide (k = key)) as [->|Hk]; [|by eauto].
  unfold aj_get in Hget. right. assert (t = token) as -> by congruence. by left.
Qed.


Lemma persist_mutation_spec r s' :
  persist_mutation env previous s1 = (r, s') → transaction_spec s m' (is_ok r) s'.
Proof.
  assert (Hrestore : MutationSnapshot_restore previous j' = j) by apply restore_with_record.
  pose proof (quiet_untouched _ _ Hq1) as Hu1.
  unfold persist_mutation. unfold op_bind at 1, get_journal. rewrite Hj1.
  destruct (checked_add 64 _ 1) as [revision|] eqn:Erev.
  2:{ destruct s1 as [j1 w1]; simpl in *; subst j1. intros [= <- <-].
      by apply transaction_idle. }
  unfold op_bind at 1, or_restore at 1.
  destruct (retire_previous env previous s1) as [r1 [j2 w2]] eqn:Eretire.
  destruct (retire_previous_spec _ _ Eretire) as (Hj2 & Hu2 & Hret). simpl in Hj2. subst j2.
  pose proof (untouched_trans _ _ _ Hu1 Hu2) as Hu.
  destruct r1 as [[]|e].
  2:{ intros [= <- <-]. apply transaction_failed; [done|by apply untouched_points|].
      simpl. by rewrite Hrestore. }
  unfold op_bind at 1, or_restore at 1. unfold op_bind at 1, on_world at 1.
  cbn [js_world js_journal]. destruct (persist env j' w2) as [r2 w3] eqn:Epersist.
  destruct (persist_points env s {| js_journal := j'; js_world := w2 |} j' r2 w3 mutated_wf
    eq_refl Hu (Hret eq_refl) Epersist) as [Hpoints Hholds].
  destruct r2 as [[]|e].
  2:{ intros [= <- <-]. apply transaction_failed; [done|apply Hpoints|].
      simpl. by rewrite Hrestore. }
  apply try_width_Some in Erev as [-> Hrev]. intros Hrun.
  assert (is_ok r = true ∧ is_Some (aj_instance (js_journal s')) ∧
    aj_provider (js_journal s') = aj_provider j ∧ aj_attachments (js_journal s') = m' ∧
    aj_revision (js_journal s') = aj_revision j + 1 ∧
    jw_disk (js_world s') = jw_disk w3 ∧ jw_retired (js_world s') = jw_retired w3 ∧
    jw_history (js_world s') = jw_history w3)
    as (-> & Hi & Hp' & Hm' & Hr' & Hd & Ht & Hh).
  { revert Hrun. unfold op_bind, put_journal. cbv beta iota.
    lazymatch goal with |- context [match aj_instance ?x with _ => _ end] =>
      change (aj_instance x) with (aj_instance j) end.
    destruct (aj_instance j) as [instance|] eqn:Ei; intros [= <- <-]; by split_and!. }
  destruct mutated_wf as [Hp Ha _].
  apply transaction_committed; try done.
  - split; rewrite ?Hp', ?Hm', ?Hr'; done.
  - destruct (Hpoints j) as [Hpoint Hall]. split; simpl in *; by rewrite ?Hd, ?Ht, ?Hh.
  - rewrite Hd. by apply Hholds.
  - rewrite Hr'. unfold j. lia.
Qed.

End Mutation.

(** ** Transactions *)

Definition attempted (operation : TransactionOperation)
    (m m' : gmap AttachmentKey AttachmentRecord) : Prop :=
  m' = m ∨ ∃ key o, mutated_key operation = Some key ∧ m' = with_record m key o ∧
    lifecycle operation (m !! key) o.

(** A response reports what its operation returned on the way to [m']. *)
Definition answers (env : JournalEnv) (request : TransactionRequest) (s : JournalState)
    (m' : gmap AttachmentKey AttachmentRecord) (response : TransactionResponse) : Prop :=
  ∃ attachment attachments w,
    apply_operation env (into_operation request) (request_schema_version request) s =
      (Ok (attachment, attachments),
       {| js_journal := with_attachments (js_journal s) m'; js_world := w |}) ∧
    response_schema_version response = request_schema_version request ∧
    ∃ count, response_outcome response = OutcomeOk attachment attachments count.

Lemma journal_apply_spec (env : JournalEnv) `{JournalJsonLaws} request s r s' :
  env_wf env → journal_wf (js_journal s) → apply env request s = (r, s') →
  ∃ m', attempted (into_operation request) (aj_attachments (js_journal s)) m' ∧
    transaction_spec s m' (is_ok r) s' ∧
    ∀ response, r = Ok response → answers env request s m' response.
Proof.
  intros Henv Hs. unfold apply.
  assert (Hidle : ∀ e : JournalError, ∃ m',
    attempted (into_operation request) (aj_attachments (js_journal s)) m' ∧
    transaction_spec s m' false s ∧
    ∀ response, Err e = Ok response → answers env request s m' response).
  { intros e. exists (aj_attachments (js_journal s)). split; [by left|]. split; [|done].
    apply transaction_idle; [done|apply quiet_untouched, quiet_refl|done..]. }
  destruct (retirement_missing _); [intros [= <- <-]; by apply Hidle|].
  destruct (negb _); [intros [= <- <-]; by apply Hidle|].
  destruct (if negb _ then _ else _) as [[]|e]; [|intros [= <- <-]; by apply Hidle].
  destruct (apply_operation env _ _ s) as [r1 [j1 w1]] eqn:Eop.
  pose proof Eop as Hop. apply apply_operation_effect in Eop as [Hq (m & Hj1 & Hm & Hkind)]; [|done..].
  simpl in Hq, Hj1. subst j1. unfold MutationSnapshot_capture.
  destruct r1 as [[attachment attachments]|e].
  2:{ destruct Hkind as [->|[? _]]; [|done]. intros [= <- <-].
      exists (aj_attachments (js_journal s)). split; [by left|]. split; [|done].
      apply transaction_idle; [done|..|done].
      - destruct (mutated_key _); by apply quiet_untouched.
      - destruct (mutated_key _) as [key|]; simpl; [|by rewrite with_attachments_id].
        pose proof (restore_with_record (js_journal s) key
          (aj_attachments (js_journal s) !! key)) as Hr.
        by rewrite with_record_same in Hr. }
  intros Hrun. exists m. split; [destruct Hkind as [->|[_ ?]]; [by left|by right]|].
  assert (Hanswer : ∀ response s2, response_schema_version response = request_schema_version request →
    (∃ count, response_outcome response = OutcomeOk attachment attachments count) →
    (r, s') = (Ok response, s2) → ∀ response, r = Ok response → answers env request s m response).
  { intros response s2 Hv Hout [= -> ->] ? [= <-]. by exists attachment, attachments, w1. }
  revert Hrun. destruct Hkind as [->|(_ & key & o & Hkey & -> & Hlife)].
  { rewrite with_attachments_id. simpl. destruct (mutated_key _) as [key|];
      [rewrite bool_decide_eq_true_2 by done|]; intros Hrun; symmetry in Hrun;
      (split; [|by eapply Hanswer; [| |exact Hrun]; [|eexists]]); injection Hrun as -> ->;
      by apply transaction_idle; [|apply quiet_untouched|..]. }
  rewrite Hkey. cbn [js_journal snapshot_key snapshot_record]. case_bool_decide as Hsame.
  - rewrite aj_get_with, lookup_with_record, decide_True in Hsame by done. subst o.
    rewrite with_record_same in Hanswer |- *. rewrite with_attachments_id.
    intros Hrun; symmetry in Hrun.
    split; [|by eapply Hanswer; [| |exact Hrun]; [|eexists]]. injection Hrun as -> ->.
    by apply transaction_idle; [|apply quiet_untouched|..].
  - unfold op_bind at 1. destruct (persist_mutation env _ _) as [r2 s2] eqn:Epersist.
    apply (persist_mutation_spec env s _ key o) in Epersist; [|done..].
    destruct r2 as [[]|e]; intros Hrun; symmetry in Hrun; injection Hrun as -> ->;
      (split; [exact Epersist|]); [|done].
    intros ? [= <-]. exists attachment, attachments, w1. repeat split; [exact Hop|]. by eexists.
Qed.

Lemma retired_before_same j retired : retired_before j (aj_attachments j) retired.
Proof. intros key r token Hr _ _ _. by left. Qed.

(** Installing a hook changes no attachment. *)
Lemma install_retirement_spec `{JournalJson} s r s' :
  journal_wf (js_journal s) → install_retirement s = (r, s') →
  transaction_spec s (aj_attachments (js_journal s)) (is_ok r) s' ∧
  journal_wf (js_journal s') ∧ aj_provider (js_journal s') = aj_provider (js_journal s) ∧
  aj_attachments (js_journal s') = aj_attachments (js_journal s) ∧
  untouched (js_world s) (js_world s') ∧
  (is_ok r = true → is_Some (aj_instance (js_journal s'))).
Proof.
  intros Hs. pose proof (quiet_untouched _ _ (quiet_refl (js_world s))) as Hu.
  unfold install_retirement. unfold op_bind at 1, get_journal. destruct (_ || _) eqn:E.
  { intros [= <- <-]. split_and!; try done. by apply transaction_idle. }
  apply orb_false_iff in E as [_ Hi%bool_decide_eq_false%not_eq_None_Some].
  unfold op_bind, on_world, new_instance, put_journal, op_ret. intros [= <- <-].
  destruct Hs as [Hp Ha Hr]. destruct Hu as [Hd Hh].
  split_and!; try done. split; try done; [apply untouched_points; by split|].
  intros _. by left.
Qed.

Lemma install_required_retirement_spec (env : JournalEnv) `{JournalJsonLaws} s r s' :
  journal_wf (js_journal s) → install_required_retirement env s = (r, s') →
  transaction_spec s (aj_attachments (js_journal s)) (is_ok r) s'.
Proof.
  intros Hs. unfold install_required_retirement. unfold op_bind at 1.
  destruct (install_retirement s) as [r1 [j0 w0]] eqn:Einstall.
  apply install_retirement_spec in Einstall as (Hspec & Hwf & Hp & Hm & Hu & Hi); [|done].
  destruct r1 as [registration|e]; [|by intros [= <- <-]].
  unfold op_bind at 1, get_journal at 1. destruct (negb _); [|by intros [= <- <-]].
  unfold op_bind, put_journal, get_journal, on_world.
  set (j1 := j0 {{ aj_retirement_required := true }}).
  lazymatch goal with |- context [persist env ?j ?w] =>
    change (persist env j w) with (persist env j1 w0) end.
  destruct (persist env j1 w0) as [r2 w2] eqn:Epersist.
  assert (Hwf1 : journal_wf j1) by (destruct Hwf; by split).
  assert (Hm1 : aj_attachments j1 = aj_attachments (js_journal s)) by exact Hm.
  apply (persist_points env s {| js_journal := j0; js_world := w0 |} j1) in Epersist
    as [Hpoints Hholds]; [|done..|rewrite Hm1; apply retired_before_same].
  rewrite Hm1 in Hpoints, Hholds. destruct r2 as [[]|e]; intros [= <- <-].
  - apply transaction_committed; try done;
      [by apply Hholds|by apply Hi|exact (ts_revision _ _ _ _ Hspec)].
  - destruct Hwf1 as [? ? ?].
    split; try done; [by intros [? ?]|exact (ts_revision _ _ _ _ Hspec)].
Qed.
