(* ===== verification/CniJournalSafety.v ===== *)
(** * The attachment journal over crashes and restarts

    The agent's journal as a machine that serves transactions, installs retirement hooks,
    loses power at any call, and is opened again.  Its reachable states keep the attachments
    exclusive and durable, a transaction is atomic over a crash at any of its calls, and a
    published incarnation is revoked before it leaves the ready state on disk. *)

From coqutil Require Import Datatypes.RecordSetters.
From S2P Require Import Prelude Common NetAddr Ipam Bytes CniAttachment CniJournal CniJournalFacts CniJournalCrash.
Import DoubleBraceUpdate.

(** [Path::exists] always knows. *)
Definition exists_reliable (env : JournalEnv) : Prop := ∀ n, env_exists_fails env n = false.

(** ** Opening *)

Section Open.
Context (env : JournalEnv) `{JournalJsonLaws} (provider : NodeBlockProvider).
Context (Hprovider : NodeBlockProvider_wf provider) (Hexists : exists_reliable env).
Context (m : gmap AttachmentKey AttachmentRecord).

Definition journal_holds (d : Disk) (_ : list bytes) : Prop := disk_holds provider m d.

Lemma entry_attachments_wf e m' :
  entry_attachments provider e = Some m' → attachments_wf provider m'.
Proof.
  destruct e as [f|]; simpl; [|intros [= <-]; apply attachments_wf_empty].
  destruct (file_synced f); [|done]. destruct (load_bytes _ _) as [loaded|] eqn:Eload; [|done].
  intros [= <-]. by eapply load_bytes_wf.
Qed.

Lemma holds_latest d t : journal_holds d t → entry_attachments provider (entry_latest (disk_journal d)) = Some m.
Proof. intros Hd. apply Hd. by left. Qed.

Lemma triple_exists_exact found P :
  crash_triple journal_holds P (path_exists env found) (λ b d, P d ∧ b = found d).
Proof.
  intros w r w' HI HP [= <- <-]; simpl. rewrite Hexists, andb_true_r. split_and!; [done| |done..].
  eexists [_]. split; [reflexivity|by apply Forall_singleton].
Qed.

Lemma remove_stale_triple :
  crash_triple journal_holds (λ _, True) (remove_stale_temporary env) (λ _ _, True).
Proof.
  assert (Hremove : crash_triple journal_holds (λ _, True)
    (let* _ := sys_query env in remove_temporary env) (λ _ _, True)).
  { eapply triple_bind; [apply triple_query|]. intros []. by apply triple_sys. }
  intros w r w' HI HP. unfold remove_stale_temporary. destruct (temporary_exists _).
  - by apply Hremove.
  - by apply (triple_query env journal_holds (λ _, True)).
Qed.

Lemma load_triple :
  crash_triple journal_holds (λ d, journal_exists d = true) (load_document env provider)
    (λ loaded _, loaded_attachments loaded = m).
Proof.
  unfold load_document. eapply triple_bind; [apply triple_query|]. intros [].
  intros w r w' HI Hex. pose proof (holds_latest _ _ HI) as Hlatest.
  apply bool_decide_eq_true in Hex as [file Hfile]. rewrite Hfile in Hlatest |- *.
  simpl in Hlatest. destruct (file_synced file); [|done].
  destruct (load_bytes _ _) as [loaded|]; [|done]. injection Hlatest as Hloaded.
  intros [= <- <-]. split_and!; [done|by exists []|done].
Qed.

Lemma new_instance_triple P : crash_triple journal_holds P new_instance (λ _, P).
Proof. intros w r w' HI HP [= <- <-]. split_and!; [done|by exists []|done]. Qed.

Lemma persist_holds j :
  journal_wf j → aj_provider j = provider → aj_attachments j = m →
  crash_triple journal_holds (λ _, True) (persist env j) (λ _ _, True).
Proof.
  intros Hj Hp Hm w r w' HI _ Hrun.
  set (possible := entry_possible (disk_journal (jw_disk w))).
  destruct (persist_triple env j possible (jw_retired w) w r w') as (HI' & (new & Hn & Hall) & _);
    [by split; [|left]|done..|].
  assert (Hto : ∀ d t, old_or_new j possible (jw_retired w) d t → journal_holds d t).
  { intros d t [_ He] e [Hin| ->]%He; [by apply HI|]. simpl.
    by rewrite <-Hp, (load_persisted j Hj), Hm. }
  split_and!; [by apply Hto| |by destruct r]. exists new. split; [done|].
  eapply Forall_impl; [done|]. intros e. apply Hto.
Qed.

Definition opened (j : AttachmentJournal) : Prop :=
  journal_wf j ∧ aj_provider j = provider ∧ aj_attachments j = m ∧
  is_Some (aj_instance j) ∧ aj_retirement j = None.

Lemma open_finish (migrated : bool) j :
  opened j →
  crash_triple journal_holds (λ _, True)
    (let* _ := (if migrated then persist env j
                else (let* present := path_exists env journal_exists in
                      if present then set_permissions env else op_ret ())) in
     op_ret j)
    (λ j _, opened j).
Proof.
  intros Hj. eapply triple_bind with (Q := λ _ _, opened j); [|intros []; by apply triple_ret].
  destruct migrated.
  - destruct Hj as (? & ? & ? & ?).
    eapply triple_conseq; [..|by apply (persist_holds j)]; [done|]. by intros [] d _.
  - eapply triple_bind with (Q := λ _ _, opened j);
      [by apply (triple_conseq _ (λ _, True) _ (λ _ _, True)); [| |apply triple_exists]|].
    intros []; [apply triple_query|by apply triple_ret].
Qed.

(** Opening keeps what the disk stands for, at every call, and loads it. *)
Lemma open_triple :
  crash_triple journal_holds (λ _, True) (AttachmentJournal_open env provider) (λ j _, opened j).
Proof.
  unfold AttachmentJournal_open.
  eapply triple_bind; [apply triple_query|]. intros [].
  eapply triple_bind; [apply triple_query|]. intros [].
  eapply triple_bind; [apply triple_query|]. intros [].
  eapply triple_bind; [apply remove_stale_triple|]. intros [].
  eapply triple_bind; [apply triple_exists_exact|]. intros present.
  eapply triple_bind with (Q := λ loaded _, loaded_attachments loaded = m).
  { destruct present.
    - eapply triple_bind; [apply triple_query|]. intros [].
      eapply triple_conseq; [..|apply load_triple]; [by intros d [_ <-]|done].
    - intros w r w' HI [_ Hnone] [= <- <-]. split_and!; [done|by exists []|].
      apply holds_latest in HI. unfold journal_exists in Hnone. symmetry in Hnone.
      apply bool_decide_eq_false, eq_None_not_Some in Hnone. rewrite Hnone in HI.
      by injection HI. }
  intros loaded. eapply triple_bind; [apply new_instance_triple|]. intros instance.
  set (j := {| aj_provider := provider |}).
  intros w r w' HI Hloaded. apply (open_finish (loaded_migrated loaded) j); try done.
  split_and!; try done. split; try done; simpl.
  rewrite Hloaded. eapply entry_attachments_wf, holds_latest, HI.
Qed.

End Open.

(** ** Opening succeeds when no call fails *)

Definition env_reliable (env : JournalEnv) : Prop :=
  exists_reliable env ∧ ∀ n, env_fails env n = false.

(** From [P], [c] succeeds and establishes [Q]. *)
Definition total_triple {A} (P : Disk → Prop) (c : Routine JournalWorld JournalError A)
    (Q : A → Disk → Prop) : Prop :=
  ∀ w, P (jw_disk w) → ∃ a w', c w = (Ok a, w') ∧ Q a (jw_disk w').

Section Total.
Context (env : JournalEnv) (Henv : env_reliable env).

Lemma total_bind {A B} P Q R (c : Routine JournalWorld JournalError A)
    (k : A → Routine JournalWorld JournalError B) :
  total_triple P c Q → (∀ a, total_triple (Q a) (k a) R) → total_triple P (op_bind c k) R.
Proof.
  intros Hc Hk w HP. destruct (Hc w HP) as (a & w1 & Ec & HQ).
  rewrite (op_bind_runs _ _ _ _ _ Ec). by apply Hk.
Qed.

Lemma total_ret {A} (a : A) (P : Disk → Prop) (Q : A → Disk → Prop) :
  (∀ d, P d → Q a d) → total_triple P (op_ret a) Q.
Proof. intros HQ w HP. exists a, w. auto. Qed.

Lemma total_sys (P Q : Disk → Prop) done failed :
  (∀ d, P d → Q (done d)) → total_triple P (sys_call env done failed) (λ _, Q).
Proof.
  intros HQ w HP. unfold sys_call. rewrite (proj2 Henv). eexists _, _.
  split; [reflexivity|]. by apply HQ.
Qed.

Lemma total_query P : total_triple P (sys_query env) (λ _, P).
Proof. by apply total_sys. Qed.

Lemma total_exists P found : total_triple P (path_exists env found) (λ b d, P d ∧ b = found d).
Proof.
  intros w HP. unfold path_exists. rewrite (proj1 Henv), andb_true_r.
  eexists _, _. split; [reflexivity|done].
Qed.

Lemma total_persist `{JournalJson} j :
  total_triple (λ d, disk_temporary d = None) (persist env j) (λ _ _, True).
Proof.
  unfold persist. eapply total_bind; [apply total_query|]. intros [].
  eapply total_bind; [apply total_exists|]. intros present w [Hnone Hpresent].
  unfold temporary_exists in Hpresent. rewrite Hnone in Hpresent.
  change (present = false) in Hpresent. subst present.
  assert (Hwrite : total_triple (λ d, disk_temporary d = None)
    (write_document env (to_vec_pretty (journal_document j))) (λ _ _, True)).
  { unfold write_document. eapply total_bind with (Q := λ _ _, True).
    { intros w1 Hw1. unfold create_temporary, temporary_exists. rewrite Hw1.
      by apply (total_sys (λ _, True) (λ _, True)). }
    intros _. repeat (eapply total_bind with (Q := λ _ _, True);
      [first [apply total_query|by apply total_sys|intros w1 _; unfold write_all;
              by apply (total_sys (λ _, True) (λ _, True))]|intros _]).
    eapply total_bind with (Q := λ _ _, True); [|intros _; by apply total_sys].
    unfold sync_directory. eapply total_bind; [apply total_query|]. intros []. by apply total_sys. }
  destruct (Hwrite w Hnone) as (? & w' & -> & _). by eexists _, _.
Qed.

Lemma total_remove_stale `{JournalJson} provider m :
  total_triple (disk_holds provider m) (remove_stale_temporary env)
    (λ _ d, disk_holds provider m d ∧ disk_temporary d = None).
Proof.
  assert (Hremove : total_triple (disk_holds provider m)
    (let* _ := sys_query env in remove_temporary env)
    (λ _ d, disk_holds provider m d ∧ disk_temporary d = None)).
  { eapply total_bind; [apply total_query|]. intros []. by apply total_sys. }
  intros w Hw. unfold remove_stale_temporary, temporary_exists. case_bool_decide as Htemp.
  - by apply Hremove.
  - apply eq_None_not_Some in Htemp.
    by apply (total_query (λ d, disk_holds provider m d ∧ disk_temporary d = None)).
Qed.

Lemma total_load `{JournalJson} provider m :
  total_triple (λ d, (disk_holds provider m d ∧ disk_temporary d = None) ∧ true = journal_exists d)
    (load_document env provider) (λ _ d, disk_temporary d = None).
Proof.
  unfold load_document. eapply total_bind; [apply total_query|]. intros [] w [[Hw Ht] Hp].
  symmetry in Hp. apply bool_decide_eq_true in Hp as [file Hfile]. rewrite Hfile.
  assert (Hload : entry_attachments provider (Some file) = Some m)
    by (apply Hw; rewrite <-Hfile; by left).
  simpl in Hload. destruct (file_synced file); [|done].
  destruct (load_bytes _ _); [|done]. by eexists _, _.
Qed.

(** A disk that stands for some attachments opens. *)
Lemma open_succeeds `{JournalJson} provider m w :
  disk_holds provider m (jw_disk w) →
  ∃ j w', AttachmentJournal_open env provider w = (Ok j, w').
Proof.
  intros Hholds. cut (total_triple (disk_holds provider m) (AttachmentJournal_open env provider)
    (λ _ _, True)); [intros Ht; destruct (Ht w Hholds) as (j & w' & ? & _); by eauto|].
  unfold AttachmentJournal_open.
  eapply total_bind; [apply total_query|]. intros [].
  eapply total_bind; [apply total_query|]. intros [].
  eapply total_bind; [apply total_query|]. intros [].
  eapply total_bind; [apply total_remove_stale|]. intros [].
  eapply total_bind; [apply total_exists|]. intros present.
  eapply total_bind with (Q := λ _ d, disk_temporary d = None).
  { destruct present; [|by apply total_ret; intros d [[_ ?] _]].
    eapply total_bind; [apply total_query|]. intros []. apply total_load. }
  intros loaded. eapply total_bind with (Q := λ _ d, disk_temporary d = None).
  { intros w1 Hw1. by eexists _, _. }
  intros instance. eapply total_bind with (Q := λ _ _, True); [|intros _; by apply total_ret].
  destruct (loaded_migrated loaded); [apply total_persist|].
  eapply total_bind; [apply total_exists|]. intros []; [by apply total_sys|by apply total_ret].
Qed.

End Total.

(** ** Crashes *)

(** What a crash makes of a file: its synced bytes, or anything. *)
Inductive survives : option FileState → option FileState → Prop :=
| survives_none : survives None None
| survives_file f content :
    (file_synced f = true → content = file_bytes f) →
    survives (Some f) (Some {| file_bytes := content; file_synced := true |}).

(** A crash settles the journal's entry to one it may have; the temporary file is anything. *)
Inductive crash (d : Disk) : Disk → Prop :=
| crash_settles e e' temporary :
    e ∈ entry_possible (disk_journal d) → survives e e' →
    crash d {| disk_journal := {| entry_latest := e'; entry_pending := [] |};
               disk_temporary := temporary |}.

(** The states of the disk, with the tokens revoked by then, that an action passes through. *)
Definition passes_through (w w' : JournalWorld) (e : Disk * list bytes) : Prop :=
  e = (jw_disk w, jw_retired w) ∨ e = (jw_disk w', jw_retired w') ∨
  ∃ new, jw_history w' = new ++ jw_history w ∧ e ∈ new.

Lemma crash_holds `{JournalJson} provider d d' :
  crash d d' →
  ∃ e, e ∈ entry_possible (disk_journal d) ∧
    ∀ m, entry_attachments provider e = Some m → disk_holds provider m d'.
Proof.
  intros [e e' temporary Hin Hsurvives]. exists e. split; [done|]. intros m Hm x.
  unfold entry_possible; simpl. intros [->|[]%not_elem_of_nil]%elem_of_cons.
  destruct Hsurvives as [|f content Hcontent]; [done|]. simpl in *.
  destruct (file_synced f); [|done]. by rewrite Hcontent.
Qed.

(** ** The machine *)

(** The calls of the agent on its journal. *)
Inductive JournalCall :=
| CallApply (request : TransactionRequest)
| CallInstall
| CallInstallRequired.

Definition run_call (env : JournalEnv) `{JournalJson} (call : JournalCall) (s : JournalState) :
    bool * JournalState :=
  match call with
  | CallApply request => let '(r, s) := apply env request s in (is_ok r, s)
  | CallInstall => let '(r, s) := install_retirement s in (is_ok r, s)
  | CallInstallRequired => let '(r, s) := install_required_retirement env s in (is_ok r, s)
  end.

(** The agent serves its journal, or is down with what is left on disk. *)
Inductive Machine :=
| Running (s : JournalState)
| Down (w : JournalWorld).

Inductive machine_step `{JournalJson} (provider : NodeBlockProvider) : Machine → Machine → Prop :=
| machine_call env call s ok s' :
    env_wf env → run_call env call s = (ok, s') →
    machine_step provider (Running s) (Running s')
| machine_crash env call s ok s' d retired w :
    env_wf env → run_call env call s = (ok, s') →
    passes_through (js_world s) (js_world s') (d, retired) → crash d (jw_disk w) →
    machine_step provider (Running s) (Down w)
| machine_open env w j w' :
    exists_reliable env → AttachmentJournal_open env provider w = (Ok j, w') →
    machine_step provider (Down w) (Running {| js_journal := j; js_world := w' |})
| machine_open_failed env w e w' :
    exists_reliable env → AttachmentJournal_open env provider w = (Err e, w') →
    machine_step provider (Down w) (Down w')
| machine_open_crash env w r w' d retired w1 :
    exists_reliable env → AttachmentJournal_open env provider w = (r, w') →
    passes_through w w' (d, retired) → crash d (jw_disk w1) →
    machine_step provider (Down w) (Down w1).

(** ** The invariant of the machine *)

Section Invariant.
Context `{JournalJsonLaws} (provider : NodeBlockProvider).
Context (Hprovider : NodeBlockProvider_wf provider).

(** Every entry the directory may hold stands for the attachments of the journal up to the
    record of one key, and for exactly them while the journal has its fence. *)
Record running_ok (s : JournalState) : Prop := {
  run_provider : aj_provider (js_journal s) = provider;
  run_wf : journal_wf (js_journal s);
  run_near e : e ∈ entry_possible (disk_journal (jw_disk (js_world s))) →
    ∃ key o, entry_attachments provider e =
      Some (with_record (aj_attachments (js_journal s)) key o);
  run_fenced : is_Some (aj_instance (js_journal s)) →
    disk_holds provider (aj_attachments (js_journal s)) (jw_disk (js_world s));
}.

Definition machine_ok (x : Machine) : Prop :=
  match x with
  | Running s => running_ok s
  | Down w => ∃ m, disk_holds provider m (jw_disk w)
  end.

Definition call_attempted (call : JournalCall) (m m' : gmap AttachmentKey AttachmentRecord) : Prop :=
  match call with
  | CallApply request => attempted (into_operation request) m m'
  | CallInstall | CallInstallRequired => m' = m
  end.

Lemma run_call_spec env call s ok s' :
  env_wf env → journal_wf (js_journal s) → run_call env call s = (ok, s') →
  ∃ m', call_attempted call (aj_attachments (js_journal s)) m' ∧ transaction_spec s m' ok s'.
Proof.
  intros Henv Hs. destruct call as [request| |]; simpl.
  - destruct (apply env request s) as [r s1] eqn:E. intros [= <- <-].
    destruct (journal_apply_spec _ _ _ _ _ Henv Hs E) as (m' & ? & ? & _). eauto.
  - destruct (install_retirement s) as [r s1] eqn:E. intros [= <- <-].
    eexists. split; [done|]. by apply install_retirement_spec.
  - destruct (install_required_retirement env s) as [r s1] eqn:E. intros [= <- <-].
    eexists. split; [done|]. by eapply install_required_retirement_spec.
Qed.

Lemma call_attempted_near call m m' :
  call_attempted call m m' → ∃ key o, m' = with_record m key o.
Proof.
  destruct call; simpl; [intros [->|(key & o & _ & -> & _)]; [|by eauto]|intros ->|intros ->].
  all: set (key := {| key_network := ""; key_container_id := ""; key_ifname := "" |}).
  all: exists key, (m !! key); by rewrite with_record_same.
Qed.

Lemma running_call env call s ok s' :
  env_wf env → running_ok s → run_call env call s = (ok, s') → running_ok s'.
Proof.
  intros Henv [Hp Hwf Hnear Hfence] Hrun.
  destruct (run_call_spec _ _ _ _ _ Henv Hwf Hrun) as (m' & Hatt & [Hp' Hwf' [Hpt _] Hres Hdur Hcom]).
  rewrite Hp in *. split; [done|done|..].
  - intros e He. destruct (decide (ok = true ∧ m' ≠ aj_attachments (js_journal s))) as [[-> Hne]|Hno].
    { destruct (Hcom eq_refl Hne) as [Hholds _]. rewrite (Hholds e He), Hres.
      destruct (call_attempted_near (CallApply (TransactionRequest_new 0 OpStatus)) m' m')
        as (key & o & Hk); [by left|]. exists key, o. by rewrite <-Hk. }
    assert (aj_attachments (js_journal s') = aj_attachments (js_journal s)) as ->.
    { rewrite Hres. destruct ok; [|done]. destruct (decide (m' = aj_attachments (js_journal s)));
        [done|naive_solver]. }
    destruct (Hpt e He) as [Hold|[Hnew _]]; [by apply Hnear|].
    destruct (call_attempted_near _ _ _ Hatt) as (key & o & ->). by eauto.
  - intros Hi. destruct (Hdur Hi) as [(Hi' & -> & Hd)|Hholds]; [|done].
    intros e. rewrite Hd. by apply Hfence.
Qed.

(** Wherever the power goes in a call, what may be left is an old entry or the new state. *)
Lemma passes_point s m' ok s' d retired :
  running_ok s → transaction_spec s m' ok s' →
  passes_through (js_world s) (js_world s') (d, retired) → point provider s m' d retired.
Proof.
  intros Hok Hspec Hpass. pose proof (run_provider _ Hok) as Hp.
  destruct (ts_points _ _ _ _ Hspec) as [Hend (new & Hnew & Hall)].
  rewrite Hp in *. destruct Hpass as [[= -> ->]|[[= -> ->]|(new' & Hnew' & Hin)]].
  - by apply point_same.
  - done.
  - rewrite Hnew in Hnew'. apply app_inv_tail in Hnew' as <-.
    rewrite Forall_forall in Hall. by apply (Hall _ Hin).
Qed.

Lemma passes_holds m env w r w' d retired :
  exists_reliable env → disk_holds provider m (jw_disk w) →
  AttachmentJournal_open env provider w = (r, w') → passes_through w w' (d, retired) →
  disk_holds provider m d.
Proof.
  intros Henv Hw Hrun Hpass.
  destruct (open_triple env provider Hprovider Henv m _ _ _ Hw I Hrun)
    as (Hend & (new & Hnew & Hall) & _).
  destruct Hpass as [[= -> ->]|[[= -> ->]|(new' & Hnew' & Hin)]]; [done..|].
  rewrite Hnew in Hnew'. apply app_inv_tail in Hnew' as <-.
  rewrite Forall_forall in Hall. by apply (Hall _ Hin).
Qed.

Lemma crash_settled m d d' :
  disk_holds provider m d → crash d d' → disk_holds provider m d'.
Proof. intros Hd (e & He & Hm)%(crash_holds provider). by apply Hm, Hd. Qed.

Lemma machine_step_ok x y : machine_ok x → machine_step provider x y → machine_ok y.
Proof.
  intros Hx Hstep. destruct Hstep as [env call s ok s' ?? |env call s ok s' d retired w ???? |
    env w j w' ? Hrun|env w e w' ? Hrun|env w r w' d retired w1 ????]; simpl in *.
  - by eapply running_call.
  - destruct (run_call_spec env call s ok s') as (m' & _ & Hspec); [done|apply Hx|done|].
    pose proof (passes_point s m' ok s' d retired Hx Hspec ltac:(done)) as Hpoint.
    destruct (crash_holds provider d (jw_disk w)) as (e & He & Hm); [done|].
    destruct (Hpoint e He) as [Hold|[Hnew _]]; [|by eauto].
    destruct (run_near _ Hx e Hold) as (key & o & Hnear). by eauto.
  - destruct Hx as [m Hm]. destruct (open_triple env provider Hprovider ltac:(done) m _ _ _ Hm I Hrun)
      as (Hend & _ & (Hwf & Hp & Ha & Hi & _)).
    split; simpl; try done; rewrite Ha; [|done]. intros e He.
    destruct (call_attempted_near (CallApply (TransactionRequest_new 0 OpStatus)) m m)
      as (key & o & Hk); [by left|]. exists key, o. rewrite <-Hk. by apply Hend.
  - destruct Hx as [m Hm]. exists m.
    by destruct (open_triple env provider Hprovider ltac:(done) m _ _ _ Hm I Hrun) as (Hend & _).
  - destruct Hx as [m Hm]. exists m. eapply crash_settled; [|done]. by eapply passes_holds.
Qed.

Lemma reachable_ok x y : machine_ok x → rtc (machine_step provider) x y → machine_ok y.
Proof. intros Hx Hreach. induction Hreach; eauto using machine_step_ok. Qed.

End Invariant.

(** ** Reopening *)

(** What a reopening without failures finds on a disk. *)
Definition reopens `{JournalJson} (provider : NodeBlockProvider) (d : Disk)
    (P : gmap AttachmentKey AttachmentRecord → Prop) : Prop :=
  ∀ env w, env_reliable env → jw_disk w = d →
    ∃ j w', AttachmentJournal_open env provider w = (Ok j, w') ∧ P (aj_attachments j).

Lemma reopens_holds `{JournalJsonLaws} provider m d (P : gmap AttachmentKey AttachmentRecord → Prop) :
  NodeBlockProvider_wf provider → disk_holds provider m d → P m → reopens provider d P.
Proof.
  intros Hp Hd HP env w Henv <-. destruct (open_succeeds env Henv provider m w Hd) as (j & w' & Hrun).
  exists j, w'. split; [done|].
  destruct (open_triple env provider Hp (proj1 Henv) m _ _ _ Hd I Hrun)
    as (_ & _ & (_ & _ & -> & _)). done.
Qed.

Lemma cut_fenced j c : aj_cut j = Some c → is_Some (aj_instance j).
Proof. unfold aj_cut. destruct (retirement_missing j), (aj_instance j); naive_solver. Qed.

(** The runs of an agent: calls on its journal, without a restart. *)
Definition agent_call `{JournalJson} (s s' : JournalState) : Prop :=
  ∃ env call ok, env_wf env ∧ run_call env call s = (ok, s').

Lemma agent_calls_revision `{JournalJsonLaws} s s' :
  journal_wf (js_journal s) → rtc agent_call s s' →
  journal_wf (js_journal s') ∧ aj_revision (js_journal s) ≤ aj_revision (js_journal s') ∧
  (aj_revision (js_journal s') = aj_revision (js_journal s) →
   aj_attachments (js_journal s') = aj_attachments (js_journal s)).
Proof.
  intros Hs Hrun. induction Hrun as [s|s s1 s' (env & call & ok & Henv & Hcall) _ IH]; [done|].
  destruct (run_call_spec _ _ _ _ _ Henv Hs Hcall) as (m' & _ & Hspec).
  destruct (ts_revision _ _ _ _ Hspec) as [Hle Hne].
  destruct (IH (ts_wf _ _ _ _ Hspec)) as (Hwf & Hle' & Hsame). split_and!; [done|lia|].
  intros Heq. rewrite Hsame by lia.
  destruct (decide (aj_attachments (js_journal s1) = aj_attachments (js_journal s))); [done|].
  specialize (Hne ltac:(done)). lia.
Qed.

(** ** Properties *)

Section Properties.
Context `{JournalJsonLaws} (provider : NodeBlockProvider).

(** C8. Attachments are exclusive.  However the agent, its failures, its crashes and its
    restarts interleave, the attachments of the journal each have a lease of the node's own
    blocks and the host interface of their key, and no two of them own the same IPv4 or IPv6
    address, the same host interface or the same creation nonce. *)
Theorem journal_attachments_exclusive w0 m0 s k1 r1 :
  NodeBlockProvider_wf provider → disk_holds provider m0 (jw_disk w0) →
  rtc (machine_step provider) (Down w0) (Running s) →
  aj_attachments (js_journal s) !! k1 = Some r1 →
  (NodeBlockProvider_validate provider (att_lease r1) = Ok () ∧
   att_key r1 = k1 ∧ att_host_interface r1 = deterministic_host_interface k1) ∧
  ∀ k2 r2, aj_attachments (js_journal s) !! k2 = Some r2 → k1 ≠ k2 →
    lease_a4 (att_lease r1) ≠ lease_a4 (att_lease r2) ∧
    lease_a6 (att_lease r1) ≠ lease_a6 (att_lease r2) ∧
    att_host_interface r1 ≠ att_host_interface r2 ∧
    (is_Some (att_creation_token r1) → att_creation_token r1 ≠ att_creation_token r2).
Proof.
  intros Hp Hm Hreach Hr1.
  destruct (reachable_ok provider Hp (Down w0) (Running s) (ex_intro _ m0 Hm) Hreach)
    as [Hps [_ Hwf _] _ _]. rewrite Hps in Hwf.
  destruct (attachments_records _ _ Hwf k1 r1 Hr1). split; [done|]. intros k2 r2 Hr2 Hne.
  assert (Hno : ¬ shares r1 r2) by (intros Hs; by apply Hne, (attachments_distinct _ _ Hwf _ _ _ _ Hr1 Hr2)).
  unfold shares in Hno. split_and!; [naive_solver..|]. intros [t Ht] Heq.
  apply Hno. right. right. right. exists t. by rewrite <-Heq.
Qed.

(** C18. The journal survives crashes.  In every state the agent can reach, a crash leaves a
    journal that opens, with the attachments of the agent up to the record of at most one
    key; and as long as the journal hands out its publication fence, with exactly them. *)
Theorem journal_crash_safe w0 m0 s d :
  NodeBlockProvider_wf provider → disk_holds provider m0 (jw_disk w0) →
  rtc (machine_step provider) (Down w0) (Running s) → crash (jw_disk (js_world s)) d →
  reopens provider d (λ m,
    (∃ key o, m = with_record (aj_attachments (js_journal s)) key o) ∧
    (aj_cut (js_journal s) ≠ None → m = aj_attachments (js_journal s))).
Proof.
  intros Hp Hm Hreach Hcrash.
  pose proof (reachable_ok provider Hp (Down w0) (Running s) (ex_intro _ m0 Hm) Hreach) as Hok.
  destruct (crash_holds provider _ _ Hcrash) as (e & He & Hholds).
  destruct (run_near _ _ Hok e He) as (key & o & Hnear).
  eapply reopens_holds; [done|by apply Hholds|]. split; [by eauto|].
  destruct (aj_cut (js_journal s)) as [c|] eqn:Hcut; [|done]. intros _.
  pose proof (run_fenced _ _ Hok (cut_fenced _ _ Hcut) e He). congruence.
Qed.

(** C7. Transactions are atomic and durable.  A transaction of a fenced journal replaces the
    attachments by one lifecycle step of the record of its key, or leaves them; a crash at any
    call it makes leaves a journal that opens with the attachments before or after that step.
    Once it has answered [Ok], every crash leaves the attachments it answered for. *)
Theorem transaction_atomic w0 m0 s c env request r s' :
  NodeBlockProvider_wf provider → disk_holds provider m0 (jw_disk w0) →
  rtc (machine_step provider) (Down w0) (Running s) → aj_cut (js_journal s) = Some c →
  env_wf env → apply env request s = (r, s') →
  ∃ m', attempted (into_operation request) (aj_attachments (js_journal s)) m' ∧
    aj_attachments (js_journal s') = (if is_ok r then m' else aj_attachments (js_journal s)) ∧
    (∀ d retired d', passes_through (js_world s) (js_world s') (d, retired) → crash d d' →
       reopens provider d' (λ m, m = aj_attachments (js_journal s) ∨ m = m')) ∧
    (∀ d', is_ok r = true → crash (jw_disk (js_world s')) d' → reopens provider d' (λ m, m = m')).
Proof.
  intros Hp Hm Hreach Hcut Henv Hrun.
  pose proof (reachable_ok provider Hp (Down w0) (Running s) (ex_intro _ m0 Hm) Hreach) as Hok.
  pose proof (run_fenced _ _ Hok (cut_fenced _ _ Hcut)) as Hfence.
  destruct (journal_apply_spec _ _ _ _ _ Henv (run_wf _ _ Hok) Hrun) as (m' & Hatt & Hspec & _).
  exists m'. split_and!; [done|by apply Hspec|..].
  - intros d retired d' Hpass Hcrash.
    destruct (crash_holds provider _ _ Hcrash) as (e & He & Hholds).
    destruct (passes_point _ _ _ _ _ _ _ Hok Hspec Hpass e He) as [Hold|[Hnew _]].
    + apply reopens_holds with (aj_attachments (js_journal s)); [done| |by left].
      by apply Hholds, Hfence.
    + apply reopens_holds with m'; [done|by apply Hholds|by right].
  - intros d' Hr Hcrash. apply reopens_holds with m'; [done| |done].
    eapply crash_settled; [|done]. rewrite Hr in Hspec.
    destruct (decide (m' = aj_attachments (js_journal s))) as [->|Hne].
    + intros e He. pose proof (passes_point _ _ _ _ _ _ _ Hok Hspec
        (or_intror (or_introl eq_refl)) e He) as [Hold|[Hnew _]]; [by apply Hfence|done].
    + rewrite <-(run_provider _ _ Hok). by apply Hspec.
Qed.

(** C19. Revocation comes first.  While a retirement hook is installed, a transaction on a
    fenced journal never lets a published incarnation go before it is revoked: whatever call
    a crash interrupts, either the reopened journal still has the record ready under its key,
    or the hook had already revoked its creation nonce. *)
Theorem retirement_before_removal w0 m0 s c env request r s' key record token :
  NodeBlockProvider_wf provider → disk_holds provider m0 (jw_disk w0) →
  rtc (machine_step provider) (Down w0) (Running s) → aj_cut (js_journal s) = Some c →
  is_Some (aj_retirement (js_journal s)) →
  aj_attachments (js_journal s) !! key = Some record → att_phase record = Ready →
  att_creation_token record = Some token →
  env_wf env → apply env request s = (r, s') →
  ∀ d retired d', passes_through (js_world s) (js_world s') (d, retired) → crash d d' →
    reopens provider d' (λ m, m !! key = Some record ∨ token ∈ retired).
Proof.
  intros Hp Hm Hreach Hcut Hhook Hrec Hready Htoken Henv Hrun d retired d' Hpass Hcrash.
  pose proof (reachable_ok provider Hp (Down w0) (Running s) (ex_intro _ m0 Hm) Hreach) as Hok.
  pose proof (run_fenced _ _ Hok (cut_fenced _ _ Hcut)) as Hfence.
  destruct (journal_apply_spec _ _ _ _ _ Henv (run_wf _ _ Hok) Hrun) as (m' & Hatt & Hspec & _).
  destruct (crash_holds provider _ _ Hcrash) as (e & He & Hholds).
  destruct (passes_point _ _ _ _ _ _ _ Hok Hspec Hpass e He) as [Hold|[Hnew Hretired]].
  - apply reopens_holds with (aj_attachments (js_journal s)); [done| |by left].
    by apply Hholds, Hfence.
  - apply reopens_holds with m'; [done|by apply Hholds|]. by apply (Hretired key).
Qed.

(** C29. A current cut fences the inventory.  A cut taken from a journal is current later only
    if no durable change happened since: at every state the agent passed through, the
    attachments were those the cut was taken on, changes that were undone included. *)
Theorem cut_fences_inventory s s1 s' c :
  journal_wf (js_journal s) → aj_cut (js_journal s) = Some c →
  rtc agent_call s s1 → rtc agent_call s1 s' → is_current (js_journal s') c = true →
  aj_attachments (js_journal s1) = aj_attachments (js_journal s) ∧
  aj_attachments (js_journal s') = aj_attachments (js_journal s).
Proof.
  intros Hs Hcut Hrun1 Hrun2 Hcurrent.
  destruct (agent_calls_revision s s1 Hs Hrun1) as (Hwf1 & Hle1 & Hsame1).
  destruct (agent_calls_revision s1 s' Hwf1 Hrun2) as (_ & Hle2 & Hsame2).
  assert (aj_revision (js_journal s') = aj_revision (js_journal s)) as Hrev.
  { unfold is_current in Hcurrent. rewrite !andb_true_iff, Z.eqb_eq in Hcurrent.
    destruct Hcurrent as [_ ->]. unfold aj_cut in Hcut.
    destruct (retirement_missing _); [done|]. destruct (aj_instance _); naive_solver. }
  rewrite Hsame2, Hsame1 by lia. done.
Qed.

(** C30. What is persisted is what is loaded.  After a journal has persisted itself, a load of
    the file gives back its attachments and its retirement requirement, unmigrated, whatever
    the schema version its records required. *)
Theorem persist_load_round_trip env env' j w w' :
  journal_wf j → persist env j w = (Ok (), w') → env_reliable env' →
  ∃ w'', load_document env' (aj_provider j) w' =
    (Ok {| loaded_attachments := aj_attachments j; loaded_migrated := false;
           loaded_retirement_required := aj_retirement_required j |}, w'').
Proof.
  intros Hj Hrun Henv.
  destruct (persist_triple env j (entry_possible (disk_journal (jw_disk w))) (jw_retired w) w (Ok ()) w')
    as (_ & _ & Hd); [by split; [|left]|done..|].
  destruct (total_query env' Henv (persisted j) w' Hd) as ([] & w1 & Hquery & Hd1).
  unfold load_document. rewrite (op_bind_runs _ _ _ _ _ Hquery), Hd1.
  cbn [entry_latest new_file file_bytes]. rewrite (load_persisted j Hj). by eexists.
Qed.

End Properties.
