(* ===== verification/CniJournalList.v ===== *)
(** * Listing attachments by pages

    [list_records] walks the ordered map from a lower bound and stops at the first record of
    another network; the page is the first records of the network after the cursor. *)

From S2P Require Import Prelude Common NetAddr Ipam Bytes CniAttachment CniJournal CniJournalFacts.

(** ** Order of keys *)

Lemma empty_string_least s : leb EmptyString s = true.
Proof. by destruct s. Qed.

Lemma key_cmp k1 k2 :
  cmp k1 k2 = then_cmp (cmp (key_network k1) (key_network k2))
    (then_cmp (cmp (key_container_id k1) (key_container_id k2))
              (cmp (key_ifname k1) (key_ifname k2))).
Proof. done. Qed.

Lemma key_le_network k1 k2 : leb k1 k2 = true → leb (key_network k1) (key_network k2) = true.
Proof. unfold leb. rewrite key_cmp. by destruct (cmp (key_network k1) (key_network k2)). Qed.

Definition network_minimum (network : string) : AttachmentKey :=
  {| key_network := network; key_container_id := EmptyString; key_ifname := EmptyString |}.

(** The keys of a network start at its minimum. *)
Lemma network_minimum_le key : leb (network_minimum (key_network key)) key = true.
Proof.
  pose proof (empty_string_least (key_container_id key)) as Hc.
  pose proof (empty_string_least (key_ifname key)) as Hi. unfold leb in *.
  rewrite key_cmp, cmp_refl. simpl. by destruct (cmp EmptyString (key_container_id key)).
Qed.

(** ** A prefix of a sorted list *)

Lemma take_while_filter {A} (R : A → A → Prop) (p : A → bool) l :
  StronglySorted R l → (∀ x y, x ∈ l → y ∈ l → R x y → p y = true → p x = true) →
  take_while p l = List.filter p l.
Proof.
  induction 1 as [|x l Hs IH Hx]; intros Hp; [done|]. simpl. destruct (p x) eqn:Epx.
  - f_equal. apply IH. intros y z Hy Hz. apply Hp; by right.
  - rewrite Forall_forall in Hx. destruct (List.filter p l) as [|y l'] eqn:E; [done|].
    assert (y ∈ List.filter p l) as [Hy Hpy]%elem_of_list_filter by (rewrite E; by left).
    rewrite (Hp x y) in Epx; [done|by left|by right|by apply Hx|done].
Qed.

Lemma filter_sorted {A} (R : A → A → Prop) (p : A → bool) l :
  StronglySorted R l → StronglySorted R (List.filter p l).
Proof.
  induction 1 as [|x l Hs IH Hx]; simpl; [constructor|]. destruct (p x); [|done].
  constructor; [done|]. rewrite Forall_forall in *. intros y [Hy _]%elem_of_list_filter. auto.
Qed.

Lemma map_filter_comm {A B} (f : A → B) (p : B → bool) l :
  map f (List.filter (λ x, p (f x)) l) = List.filter p (map f l).
Proof. induction l as [|x l IH]; simpl; [done|]. destruct (p (f x)); simpl; by rewrite IH. Qed.

(** ** Pages *)

(** The records of a network after a cursor, in the order of the journal. *)
Definition network_records (j : AttachmentJournal) (network : string)
    (after : option AttachmentKey) : list AttachmentRecord :=
  List.filter (λ r, bool_decide (key_network (att_key r) = network)
                 && is_none_or after (λ cursor, ltb cursor (att_key r)))
    (aj_records j).

(** The lower bound of the walk. *)
Definition walk_from (network : string) (after : option AttachmentKey) : AttachmentKey → bool :=
  match after with
  | Some cursor =>
      if leb (network_minimum network) cursor then ltb cursor else leb (network_minimum network)
  | None => leb (network_minimum network)
  end.

Lemma walk_from_network network after key :
  walk_from network after key = true → leb network (key_network key) = true.
Proof.
  intros Hwalk. apply (key_le_network (network_minimum network) key). revert Hwalk.
  unfold walk_from. destruct after as [cursor|]; [|done].
  destruct (leb (network_minimum network) cursor) eqn:E; [|done].
  intros Hlt%ltb_leb. by eapply leb_trans.
Qed.

Lemma walk_from_after after key :
  walk_from (key_network key) after key = is_none_or after (λ cursor, ltb cursor key).
Proof.
  unfold walk_from. pose proof (network_minimum_le key) as Hmin.
  destruct after as [cursor|]; simpl; [|done].
  destruct (leb (network_minimum _) cursor) eqn:E; [done|]. rewrite Hmin. symmetry.
  rewrite leb_ltb, negb_false_iff in E.
  apply not_false_iff_true. intros Hno. rewrite <-(negb_involutive (ltb cursor key)), <-leb_ltb in Hno.
  apply negb_false_iff in Hno.
  pose proof (leb_trans _ _ _ Hmin Hno) as Hle. rewrite leb_ltb, E in Hle. done.
Qed.

Lemma walk_prefix j network after :
  take_while (λ e, bool_decide (key_network e.1 = network))
    (List.filter (λ e, walk_from network after e.1) (btree_iter (aj_attachments j))) =
  List.filter (λ e, bool_decide (key_network e.1 = network))
    (List.filter (λ e, walk_from network after e.1) (btree_iter (aj_attachments j))).
Proof.
  apply (take_while_filter (λ a b, ltb a.1 b.1 = true)); [apply filter_sorted, btree_iter_sorted|].
  intros x y [_ Hx]%elem_of_list_filter _ Hlt Hy%bool_decide_eq_true.
  apply bool_decide_eq_true, leb_antisym; [|by eapply walk_from_network].
  rewrite <-Hy. by apply key_le_network, ltb_leb.
Qed.

Lemma list_records_page j network after limit :
  (∀ key r, aj_attachments j !! key = Some r → att_key r = key) →
  valid_identifier network MAX_IDENTIFIER_BYTES = true →
  (∀ cursor, after = Some cursor → validate_key cursor = Ok ()) →
  1 ≤ limit ≤ MAX_ATTACHMENT_LIST_RECORDS →
  list_records j network after limit = Ok (take (Z.to_nat limit) (network_records j network after)).
Proof.
  intros Hkeyed Hnet Hafter Hlimit. unfold list_records. rewrite Hnet. simpl.
  replace (match after with Some a => validate_key a | None => Ok () end)
    with (@Ok JournalError () ()) by (destruct after; [by rewrite Hafter|done]).
  destruct (Z.leb_spec 1 limit), (Z.leb_spec limit MAX_ATTACHMENT_LIST_RECORDS); try lia. simpl.
  f_equal. change (map snd (take (Z.to_nat limit)
    (take_while (λ e, bool_decide (key_network e.1 = network))
      (List.filter (λ e, walk_from network after e.1) (btree_iter (aj_attachments j))))) =
    take (Z.to_nat limit) (network_records j network after)).
  rewrite walk_prefix. change (map snd ?l) with (snd <$> l). rewrite fmap_take. f_equal.
  unfold network_records, aj_records, btree_values. rewrite <-map_filter_comm.
  change (map snd ?l) with (snd <$> l). f_equal.
  assert (Hin : ∀ e, e ∈ btree_iter (aj_attachments j) → att_key e.2 = e.1).
  { intros [k r] Hkr%elem_of_btree_iter. by apply Hkeyed. }
  revert Hin. induction (btree_iter (aj_attachments j)) as [|e l IH]; intros Hin; simpl; [done|].
  rewrite (Hin e) by (by left). specialize (IH ltac:(intros; apply Hin; by right)).
  case_bool_decide as Hn; simpl; [rewrite <-Hn, walk_from_after, Hn|].
  - destruct (is_none_or _ _); simpl; [|done]. rewrite bool_decide_eq_true_2 by done. by f_equal.
  - destruct (walk_from _ _ _); simpl; [|done]. by rewrite bool_decide_eq_false_2.
Qed.

(** A page that was listed. *)
Lemma list_records_Ok j network after limit records :
  (∀ key r, aj_attachments j !! key = Some r → att_key r = key) →
  list_records j network after limit = Ok records →
  records = take (Z.to_nat limit) (network_records j network after).
Proof.
  intros Hkeyed Hlist. pose proof Hlist as Hguards. unfold list_records in Hguards.
  destruct (valid_identifier network _) eqn:Enet; [|done]. simpl in Hguards.
  destruct (match after with Some a => validate_key a | None => Ok () end) as [[]|] eqn:Eafter; [|done].
  destruct (negb _) eqn:Elimit in Hguards; [done|].
  apply negb_false_iff, andb_true_iff in Elimit as [?%Z.leb_le ?%Z.leb_le].
  rewrite list_records_page in Hlist; try done; [by injection Hlist|]. by intros cursor ->.
Qed.

Lemma elem_of_network_records j network after r :
  (∀ key r, aj_attachments j !! key = Some r → att_key r = key) →
  r ∈ network_records j network after ↔
  aj_attachments j !! att_key r = Some r ∧ key_network (att_key r) = network ∧
  ∀ cursor, after = Some cursor → ltb cursor (att_key r) = true.
Proof.
  intros Hkeyed. unfold network_records, aj_records. elems.
  rewrite elem_of_btree_values, andb_true_iff, bool_decide_eq_true. split.
  - intros [(key & Hr) [Hnet Hafter]]. pose proof (Hkeyed _ _ Hr) as <-.
    split_and!; [done..|]. by intros cursor ->.
  - intros (Hr & Hnet & Hafter). split_and!; [by eauto|done|]. destruct after; simpl; auto.
Qed.

(** ** What a page is *)

Definition key_before (a b : AttachmentRecord) : Prop := ltb (att_key a) (att_key b) = true.

Definition past_cursor (after : option AttachmentKey) (key : AttachmentKey) : Prop :=
  ∀ cursor, after = Some cursor → ltb cursor key = true.

(** The first [limit] records of a network after a cursor. *)
Record page (m : gmap AttachmentKey AttachmentRecord) (network : string)
    (after : option AttachmentKey) (limit : Z) (records : list AttachmentRecord) : Prop := {
  page_sorted : StronglySorted key_before records;
  page_sound r : r ∈ records →
    m !! att_key r = Some r ∧ key_network (att_key r) = network ∧ past_cursor after (att_key r);
  page_complete key r : m !! key = Some r → key_network key = network → past_cursor after key →
    r ∈ records ∨ Z.of_nat (length records) = limit ∧ ∀ r', r' ∈ records → key_before r' r;
}.

Lemma network_records_sorted j network after :
  (∀ key r, aj_attachments j !! key = Some r → att_key r = key) →
  StronglySorted key_before (network_records j network after).
Proof.
  intros Hkeyed. apply filter_sorted. unfold aj_records, btree_values.
  assert (Hin : ∀ e, e ∈ btree_iter (aj_attachments j) → att_key e.2 = e.1).
  { intros [k r] Hkr%elem_of_btree_iter. by apply Hkeyed. }
  induction (btree_iter_sorted (aj_attachments j)) as [|e l Hs IH He]; simpl; constructor.
  - apply IH. intros e' He'. apply Hin. by right.
  - apply Forall_map. eapply Forall_impl; [apply Forall_and; split; [exact He|apply Forall_forall; exact
      (λ e' He', Hin e' (list_elem_of_further _ _ _ He'))]|].
    intros e' [Hlt Hkey]. unfold key_before. by rewrite Hkey, (Hin e) by (by left).
Qed.

Lemma sorted_take_drop {A} (R : A → A → Prop) n l x y :
  StronglySorted R l → x ∈ take n l → y ∈ drop n l → R x y.
Proof.
  intros Hs. revert n. induction Hs as [|z l Hs IH Hz]; intros n; [by rewrite take_nil; inversion 1|].
  destruct n as [|n]; [by inversion 1|]. simpl. intros Hx Hy. apply elem_of_cons in Hx as [->|Hx]; [|by eapply IH].
  rewrite Forall_forall in Hz. apply Hz. rewrite <-(take_drop n l). apply elem_of_app. by right.
Qed.

Lemma list_records_is_page j network after limit records :
  (∀ key r, aj_attachments j !! key = Some r → att_key r = key) →
  list_records j network after limit = Ok records →
  page (aj_attachments j) network after limit records.
Proof.
  intros Hkeyed Hlist. assert (Hlimit : 1 ≤ limit).
  { unfold list_records in Hlist. split_ok Hlist. lia. }
  rewrite (list_records_Ok _ _ _ _ _ Hkeyed Hlist).
  pose proof (network_records_sorted j network after Hkeyed) as Hsorted. split.
  - rewrite <-(take_drop (Z.to_nat limit) (network_records j network after)) in Hsorted.
    by apply StronglySorted_app_1_l in Hsorted.
  - intros r Hr. apply elem_of_network_records; [done|].
    rewrite <-(take_drop (Z.to_nat limit)). apply elem_of_app. by left.
  - intros key r Hr Hnet Hafter. pose proof (Hkeyed _ _ Hr) as <-.
    assert (r ∈ network_records j network after) as Hin by (by apply elem_of_network_records).
    pose proof Hin as Hin'. rewrite <-(take_drop (Z.to_nat limit)) in Hin'. apply elem_of_app in Hin' as [?|Hdrop]; [by left|].
    right. split; [|intros r' Hr'; by eapply sorted_take_drop].
    rewrite length_take. assert (length (drop (Z.to_nat limit) (network_records j network after)) ≠ 0%nat) as Hlen.
    { by destruct (drop _ _); [inversion Hdrop|]. }
    rewrite length_drop in Hlen. lia.
Qed.
