(* ===== verification/CniJournalDemo.v ===== *)
(** * A run of the attachment journal

    A codec that satisfies the laws asked of [serde_json], and a concrete run of the machine:
    an empty disk is opened, a required retirement hook is installed, an attachment is
    prepared and committed, and its deletion begins.  Every hypothesis of the theorems on the
    journal holds of it. *)

From S2P Require Import Prelude Common NetAddr Ipam Bytes CniAttachment CniJournal CniJournalFacts CniJournalCrash CniJournalSafety.

(** ** A codec *)

#[export] Instance record_typed_dec r : Decision (record_typed r).
Proof.
  unfold record_typed, in_width. destruct (att_creation_token r) as [token|] eqn:E.
  - destruct (decide (length token = 32%nat ∧ Forall (λ b, 0 ≤ b < 2 ^ 8) token)) as [Hyes|Hno].
    + destruct (decide (0 ≤ aspec_mtu (att_spec r) < 2 ^ 32 ∧
        0 ≤ lease_a4 (att_lease r) < 2 ^ 32 ∧ 0 ≤ lease_a6 (att_lease r) < 2 ^ 128)) as [H|H].
      * left. destruct H as (? & ? & ?). split_and!; try tauto. by intros ? [= <-].
      * right. intros (? & ? & ? & _). tauto.
    + right. intros (_ & _ & _ & Ht). by apply Hno, Ht.
  - destruct (decide (0 ≤ aspec_mtu (att_spec r) < 2 ^ 32 ∧
      0 ≤ lease_a4 (att_lease r) < 2 ^ 32 ∧ 0 ≤ lease_a6 (att_lease r) < 2 ^ 128)) as [H|H].
    + left. destruct H as (? & ? & ?). split_and!; try tauto. done.
    + right. intros (? & ? & ? & _). tauto.
Defined.

#[export] Instance AttachmentSpec_countable : Countable AttachmentSpec.
Proof.
  apply (inj_countable' (λ s, (aspec_key s, aspec_netns s, aspec_mtu s, aspec_workload_uid s))
    (λ '(k, n, m, u), {| aspec_key := k; aspec_netns := n; aspec_mtu := m;
                         aspec_workload_uid := u |})).
  by intros [].
Defined.
Definition phase_code (p : AttachmentPhase) : Z :=
  match p with Preparing => 0 | Ready => 1 | Aborting => 2 | Deleting => 3 end.
Definition phase_of_code (z : Z) : AttachmentPhase :=
  if z =? 0 then Preparing else if z =? 1 then Ready else if z =? 2 then Aborting else Deleting.
#[export] Instance AttachmentPhase_countable : Countable AttachmentPhase.
Proof. apply (inj_countable' phase_code phase_of_code). by intros []. Defined.
#[export] Instance AttachmentRecord_countable : Countable AttachmentRecord.
Proof.
  apply (inj_countable' (λ r, (att_spec r, att_host_interface r, att_lease r, att_phase r,
      att_creation_token r))
    (λ '(s, h, l, p, t), {| att_spec := s; att_host_interface := h; att_lease := l;
                            att_phase := p; att_creation_token := t |})).
  by intros [].
Defined.
#[export] Instance JournalDocument_eq_dec : EqDecision JournalDocument.
Proof. solve_decision. Defined.
#[export] Instance JournalDocument_countable : Countable JournalDocument.
Proof.
  apply (inj_countable' (λ d, (doc_schema_version d,
      (b4_network (ipv4_block (doc_provider d)), b4_prefix_len (ipv4_block (doc_provider d))),
      (b6_network (ipv6_block (doc_provider d)), b6_prefix_len (ipv6_block (doc_provider d))),
      doc_attachments d))
    (λ '(v, (n4, p4), (n6, p6), l), {| doc_schema_version := v;
       doc_provider := {| ipv4_block := {| b4_network := n4; b4_prefix_len := p4 |};
                          ipv6_block := {| b6_network := n6; b6_prefix_len := p6 |} |};
       doc_attachments := l |})).
  by intros [? [[] []] ?].
Defined.

(** Documents as numbers; a value is a document. *)
#[export] Instance demo_json : JournalJson := {|
  json_value := JournalDocument;
  to_vec_pretty document := [Z.pos (encode document)];
  from_slice content := match content with [Z.pos p; 10] => decode p | _ => None end;
  value_schema_version document := Some (doc_schema_version document);
  document_from_value document :=
    if bool_decide (Forall record_typed (doc_attachments document)) then Some document else None;
  legacy_from_value _ := None;
|}.

#[export] Instance demo_json_laws : JournalJsonLaws demo_json.
Proof.
  split; simpl.
  - intros document (_ & _ & Htyped). exists document. rewrite decode_encode.
    by rewrite bool_decide_eq_true_2.
  - intros value document. by case_bool_decide; intros [= <-].
  - done.
Qed.

(** ** A run *)

Definition demo_env : JournalEnv :=
  {| env_fails _ := false; env_written _ := 0%nat; env_exists_fails _ := false;
     env_random n := replicate 32 (Z.of_nat n mod 255 + 1) |}.

Lemma demo_env_wf : env_wf demo_env.
Proof.
  intros n. split; [apply length_replicate|]. apply Forall_replicate.
  pose proof (Z.mod_pos_bound (Z.of_nat n) 255 ltac:(lia)). unfold in_width. lia.
Qed.

Lemma demo_env_reliable : env_reliable demo_env.
Proof. done. Qed.

Definition demo_down : JournalWorld :=
  {| jw_disk := {| disk_journal := {| entry_latest := None; entry_pending := [] |};
                   disk_temporary := None |};
     jw_calls := 0%nat; jw_retired := []; jw_instances := 0%nat; jw_history := [] |}.

Lemma demo_down_holds : disk_holds demo_provider ∅ (jw_disk demo_down).
Proof. intros e. simpl. by intros [->|[]%not_elem_of_nil]%elem_of_cons. Qed.

Definition demo_opened : JournalState :=
  match AttachmentJournal_open demo_env demo_provider demo_down with
  | (Ok j, w) => {| js_journal := j; js_world := w |}
  | (Err _, w) =>
      {| js_journal := {| aj_provider := demo_provider; aj_attachments := ∅; aj_instance := None;
                          aj_revision := 0; aj_retirement := None;
                          aj_retirement_required := false |};
         js_world := w |}
  end.

Definition demo_key : AttachmentKey :=
  {| key_network := "unf"; key_container_id := "container-1"; key_ifname := "eth0" |}.
Definition demo_spec : AttachmentSpec :=
  {| aspec_key := demo_key; aspec_netns := "/run/netns/pod-1"; aspec_mtu := 1400;
     aspec_workload_uid := Some "pod-uid-1"%string |}.

Definition demo_request (operation : TransactionOperation) : TransactionRequest :=
  TransactionRequest_new CNI_TRANSACTION_SCHEMA_VERSION operation.

Definition demo_call (s : JournalState) (call : JournalCall) : JournalState :=
  (run_call demo_env call s).2.

Definition demo_hooked : JournalState := demo_call demo_opened CallInstallRequired.
Definition demo_prepared : JournalState :=
  demo_call demo_hooked (CallApply (demo_request (OpPrepare demo_spec))).
Definition demo_ready : JournalState :=
  demo_call demo_prepared (CallApply (demo_request (OpCommit demo_key))).
Definition demo_delete : TransactionRequest := demo_request (OpBeginDelete demo_key).
Definition demo_deleting : JournalState := (apply demo_env demo_delete demo_ready).2.
Definition demo_answer : result JournalError TransactionResponse :=
  (apply demo_env demo_delete demo_ready).1.

Lemma demo_call_step s call :
  machine_step demo_provider (Running s) (Running (demo_call s call)).
Proof. eapply machine_call; [apply demo_env_wf|apply surjective_pairing]. Qed.

Lemma demo_reachable : rtc (machine_step demo_provider) (Down demo_down) (Running demo_ready).
Proof.
  apply rtc_l with (Running demo_opened);
    [|apply rtc_l with (Running demo_hooked); [apply demo_call_step|];
      apply rtc_l with (Running demo_prepared); [apply demo_call_step|];
      apply rtc_once, demo_call_step].
  unfold demo_opened. destruct (AttachmentJournal_open _ _ _) as [[j|e] w] eqn:E.
  - eapply machine_open; [apply demo_env_reliable|exact E].
  - by vm_compute in E.
Qed.

Lemma demo_delete_runs : apply demo_env demo_delete demo_ready = (demo_answer, demo_deleting).
Proof. apply surjective_pairing. Qed.

Definition demo_cut : AttachmentJournalCut := {| cut_instance := 2%nat; cut_revision := 2 |}.

Lemma demo_ready_cut : aj_cut (js_journal demo_ready) = Some demo_cut.
Proof. vm_compute. reflexivity. Qed.

Definition demo_record : AttachmentRecord :=
  {| att_spec := demo_spec; att_host_interface := deterministic_host_interface demo_key;
     att_lease := demo_lease 0; att_phase := Ready;
     att_creation_token := Some (replicate 32 17) |}.

Lemma demo_ready_record : aj_attachments (js_journal demo_ready) !! demo_key = Some demo_record.
Proof. vm_compute. reflexivity. Qed.

(** The disk of a state after a crash that keeps what lookups saw and loses the rest. *)
Definition demo_crashed (s : JournalState) : Disk :=
  {| disk_journal := {| entry_latest := entry_latest (disk_journal (jw_disk (js_world s)));
                        entry_pending := [] |};
     disk_temporary := None |}.

Lemma demo_crash s :
  match entry_latest (disk_journal (jw_disk (js_world s))) with
  | Some f => file_synced f = true
  | None => True
  end → crash (jw_disk (js_world s)) (demo_crashed s).
Proof.
  intros Hsynced. eapply crash_settles; [by left|].
  destruct (entry_latest _) as [[content synced]|]; simpl in *; [subst synced|]; by constructor.
Qed.

Lemma demo_ready_crash : crash (jw_disk (js_world demo_ready)) (demo_crashed demo_ready).
Proof. apply demo_crash. vm_compute. reflexivity. Qed.

Lemma demo_deleting_crash : crash (jw_disk (js_world demo_deleting)) (demo_crashed demo_deleting).
Proof. apply demo_crash. vm_compute. reflexivity. Qed.

Lemma demo_deleting_passes :
  passes_through (js_world demo_ready) (js_world demo_deleting)
    (jw_disk (js_world demo_deleting), jw_retired (js_world demo_deleting)).
Proof. right. by left. Qed.

(** ** Witnesses *)

Lemma journal_attachments_exclusive_witness :
  NodeBlockProvider_validate demo_provider (att_lease demo_record) = Ok () ∧
  att_host_interface demo_record = deterministic_host_interface demo_key.
Proof.
  destruct (journal_attachments_exclusive demo_provider demo_down ∅ demo_ready demo_key demo_record
    demo_provider_wf demo_down_holds demo_reachable demo_ready_record) as [(Hlease & _ & Hhost) _].
  exact (conj Hlease Hhost).
Defined.

Lemma journal_crash_safe_witness :
  reopens demo_provider (demo_crashed demo_ready) (λ m,
    (∃ key o, m = with_record (aj_attachments (js_journal demo_ready)) key o) ∧
    (aj_cut (js_journal demo_ready) ≠ None → m = aj_attachments (js_journal demo_ready))).
Proof.
  exact (journal_crash_safe demo_provider demo_down ∅ demo_ready (demo_crashed demo_ready)
    demo_provider_wf demo_down_holds demo_reachable demo_ready_crash).
Defined.

Lemma transaction_atomic_witness :
  ∃ m', attempted (into_operation demo_delete) (aj_attachments (js_journal demo_ready)) m' ∧
    reopens demo_provider (demo_crashed demo_deleting) (λ m, m = m').
Proof.
  destruct (transaction_atomic demo_provider demo_down ∅ demo_ready demo_cut demo_env demo_delete
    demo_answer demo_deleting demo_provider_wf demo_down_holds demo_reachable demo_ready_cut
    demo_env_wf demo_delete_runs) as (m' & Hattempted & _ & _ & Hdurable).
  exists m'. split; [exact Hattempted|]. apply Hdurable; [|apply demo_deleting_crash].
  vm_compute. reflexivity.
Defined.

Lemma retirement_before_removal_witness :
  reopens demo_provider (demo_crashed demo_deleting)
    (λ m, m !! demo_key = Some demo_record ∨
          replicate 32 17 ∈ jw_retired (js_world demo_deleting)).
Proof.
  refine (retirement_before_removal demo_provider demo_down ∅ demo_ready demo_cut demo_env
    demo_delete demo_answer demo_deleting demo_key demo_record (replicate 32 17) demo_provider_wf
    demo_down_holds demo_reachable demo_ready_cut _ demo_ready_record eq_refl eq_refl demo_env_wf
    demo_delete_runs (jw_disk (js_world demo_deleting)) (jw_retired (js_world demo_deleting))
    (demo_crashed demo_deleting) demo_deleting_passes demo_deleting_crash).
  exists 1%nat. vm_compute. reflexivity.
Defined.

Lemma demo_ready_wf : journal_wf (js_journal demo_ready).
Proof.
  apply (run_wf demo_provider demo_ready).
  apply (reachable_ok demo_provider demo_provider_wf (Down demo_down) (Running demo_ready)
    (ex_intro (λ m, disk_holds demo_provider m (jw_disk demo_down)) ∅ demo_down_holds)
    demo_reachable).
Qed.

Definition demo_checked : JournalState :=
  demo_call demo_ready (CallApply (demo_request (OpCheck demo_spec))).

Lemma demo_checked_call : agent_call demo_ready demo_checked.
Proof.
  exists demo_env, (CallApply (demo_request (OpCheck demo_spec))),
    (run_call demo_env (CallApply (demo_request (OpCheck demo_spec))) demo_ready).1.
  split; [apply demo_env_wf|]. apply surjective_pairing.
Qed.

Lemma demo_checked_current : is_current (js_journal demo_checked) demo_cut = true.
Proof. vm_compute. reflexivity. Qed.

Lemma cut_fences_inventory_witness :
  aj_attachments (js_journal demo_checked) = aj_attachments (js_journal demo_ready).
Proof.
  exact (proj2 (cut_fences_inventory demo_ready demo_ready demo_checked demo_cut demo_ready_wf
    demo_ready_cut (rtc_refl _ _) (rtc_once _ _ demo_checked_call) demo_checked_current)).
Defined.

Definition demo_persisted : JournalWorld :=
  (persist demo_env (js_journal demo_ready) (js_world demo_ready)).2.

Lemma demo_persist_runs :
  persist demo_env (js_journal demo_ready) (js_world demo_ready) = (Ok (), demo_persisted).
Proof.
  assert ((persist demo_env (js_journal demo_ready) (js_world demo_ready)).1 = Ok ()) as Hok
    by (vm_compute; reflexivity).
  unfold demo_persisted. rewrite <-Hok. apply surjective_pairing.
Qed.

Lemma persist_load_round_trip_witness :
  ∃ w, load_document demo_env (aj_provider (js_journal demo_ready)) demo_persisted =
    (Ok {| loaded_attachments := aj_attachments (js_journal demo_ready);
           loaded_migrated := false;
           loaded_retirement_required := aj_retirement_required (js_journal demo_ready) |}, w).
Proof.
  exact (persist_load_round_trip demo_env demo_env (js_journal demo_ready)
    (js_world demo_ready) demo_persisted demo_ready_wf demo_persist_runs demo_env_reliable).
Defined.
