(* ===== verification/Runs.v ===== *)
(** * Runs that keep a history

    Plugins and kernels are driven by routines whose states remember what they went through.
    [runs I c Q s] is the weakest precondition of a routine started in [s]: every state it
    passes through satisfies [I], and [Q] holds of its result.  A process that is killed
    leaves one of the states of its history behind, so [I] is what a kill preserves. *)

From S2P Require Import Prelude.

(** A state whose observable part is [X], with the observations made so far, latest first. *)
Class Traced (S X : Type) := {
  now : S → X;
  past : S → list X;
}.

Definition runs {S X E A} `{Traced S X} (I : X → Prop) (c : Routine S E A)
    (Q : result E A → S → Prop) (s : S) : Prop :=
  I (now (c s).2) ∧ (∃ new, past (c s).2 = new ++ past s ∧ Forall I new) ∧ Q (c s).1 (c s).2.

(** What a bind continues with. *)
Definition and_then {S E A B} (k : A → S → Prop) (Q : result E B → S → Prop)
    (r : result E A) (s : S) : Prop :=
  match r with Ok a => k a s | Err e => Q (Err e) s end.

(** Postconditions that only speak of success. *)
Definition on_ok {S E A} (Q : A → S → Prop) (r : result E A) (s : S) : Prop :=
  match r with Ok a => Q a s | Err _ => True end.

(** Hands the result on, whatever it is. *)
Definition attempt {S E F A} (c : Routine S E A) : Routine S F (result E A) := λ s,
  (Ok (c s).1, (c s).2).

Section Runs.
Context {S X : Type} `{Traced S X} {E : Type} (I : X → Prop).

Lemma runs_ret {A} (a : A) (Q : result E A → S → Prop) s :
  I (now s) → Q (Ok a) s → runs I (op_ret a) Q s.
Proof. intros HI HQ. split_and!; [done|by exists []|done]. Qed.

Lemma runs_fail {A} (e : E) (Q : result E A → S → Prop) s :
  I (now s) → Q (Err e) s → runs I (op_fail e) Q s.
Proof. intros HI HQ. split_and!; [done|by exists []|done]. Qed.

Lemma runs_lift {A} (r : result E A) (Q : result E A → S → Prop) s :
  I (now s) → Q r s → runs I (op_lift r) Q s.
Proof. intros HI HQ. split_and!; [done|by exists []|done]. Qed.

Lemma runs_bind {A B} (c : Routine S E A) (k : A → Routine S E B) Q s :
  runs I c (and_then (λ a, runs I (k a) Q) Q) s → runs I (op_bind c k) Q s.
Proof.
  unfold runs at 1 3, op_bind. destruct (c s) as [[a|e] s1]; simpl.
  - intros (_ & (new1 & Hp1 & Hn1) & HI & (new2 & Hp2 & Hn2) & HQ).
    split_and!; [done| |done]. exists (new2 ++ new1). rewrite Hp2, Hp1, (assoc_L (++)).
    split; [done|]. by apply Forall_app.
  - done.
Qed.

Lemma runs_conseq {A} (c : Routine S E A) (Q Q' : result E A → S → Prop) s :
  runs I c Q s → (∀ r s', I (now s') → Q r s' → Q' r s') → runs I c Q' s.
Proof. intros (? & ? & ?) HQ. split_and!; auto. Qed.

(** The history only grows. *)
Lemma runs_grows {A} (c : Routine S E A) (Q Q' : result E A → S → Prop) s :
  runs I c Q s →
  (∀ r s', I (now s') → (∀ x, x ∈ past s → x ∈ past s') → Q r s' → Q' r s') → runs I c Q' s.
Proof.
  intros (HI & (new & Hp & Hn) & HQ) Himp. split_and!; [done|by exists new|]. apply Himp; [done| |done].
  intros x Hx. rewrite Hp. apply elem_of_app. by right.
Qed.

Lemma runs_and {A} (c : Routine S E A) (Q Q' : result E A → S → Prop) s :
  runs I c Q s → Q' (c s).1 (c s).2 → runs I c (λ r s', Q r s' ∧ Q' r s') s.
Proof. intros (? & ? & ?) ?. by split_and!. Qed.

Lemma runs_step {A} (c : Routine S E A) (Q : result E A → S → Prop) s x :
  past (c s).2 = x :: past s → now (c s).2 = x → I x → Q (c s).1 (c s).2 → runs I c Q s.
Proof.
  intros Hp Hn HI HQ. split_and!; [by rewrite Hn| |done]. exists [x].
  split; [done|by apply Forall_singleton].
Qed.

Lemma runs_attempt {F A} (c : Routine S F A) (Q : result E (result F A) → S → Prop) s :
  runs I c (λ r, Q (Ok r)) s → runs I (attempt c) Q s.
Proof. intros (? & ? & ?). by split_and!. Qed.

Lemma runs_if {A} (b : bool) (c1 c2 : Routine S E A) Q s :
  (b = true → runs I c1 Q s) → (b = false → runs I c2 Q s) →
  runs I (if b then c1 else c2) Q s.
Proof. destruct b; auto. Qed.

End Runs.

(** Strengthening what a run keeps. *)
Lemma runs_weaken {S X E A} `{Traced S X} (I J : X → Prop) (c : Routine S E A) Q s :
  (∀ x, I x → J x) → runs I c Q s → runs J c Q s.
Proof.
  intros HIJ (HI & (new & Hp & Hn) & HQ). split_and!; [auto| |done]. exists new.
  split; [done|]. by eapply Forall_impl.
Qed.

(** Every state of a run satisfies what it keeps. *)
Lemma runs_visited {S X E A} `{Traced S X} (I : X → Prop) (c : Routine S E A) Q s x :
  runs I c Q s → (∀ y, y ∈ past s → I y) → x ∈ past (c s).2 → I x.
Proof.
  intros (_ & (new & Hp & Hn) & _) Hpast. rewrite Hp, elem_of_app. intros [Hx|Hx]; [|auto].
  by eapply Forall_forall in Hn.
Qed.

(** ** Invariants

    [keeps I c]: started in a state that satisfies [I], every state of the run does. *)
Definition keeps {S X E A} `{Traced S X} (I : X → Prop) (c : Routine S E A) : Prop :=
  ∀ s, I (now s) → runs I c (λ _ _, True) s.

Section Keeps.
Context {S X : Type} `{Traced S X} {E : Type} (I : X → Prop).

Lemma keeps_ret {A} (a : A) : keeps (E := E) I (op_ret a).
Proof. intros s HI. by apply runs_ret. Qed.

Lemma keeps_fail {A} (e : E) : keeps (A := A) I (op_fail e).
Proof. intros s HI. by apply runs_fail. Qed.

Lemma keeps_lift {A} (r : result E A) : keeps I (op_lift r).
Proof. intros s HI. by apply runs_lift. Qed.

Lemma keeps_bind {A B} (c : Routine S E A) (k : A → Routine S E B) :
  keeps I c → (∀ a, keeps I (k a)) → keeps I (op_bind c k).
Proof.
  intros Hc Hk s HI. apply runs_bind. eapply runs_conseq; [by apply Hc|].
  intros [a|e] s' HI' _; [by apply Hk|done].
Qed.

(** When the continuation relies on what the first part returned. *)
Lemma keeps_bind_with {A B} (P : A → Prop) (c : Routine S E A) (k : A → Routine S E B) :
  (∀ s, I (now s) → runs I c (on_ok (λ a _, P a)) s) → (∀ a, P a → keeps I (k a)) →
  keeps I (op_bind c k).
Proof.
  intros Hc Hk s HI. apply runs_bind. eapply runs_conseq; [by apply Hc|].
  intros [a|e] s' HI' HP; [by apply Hk|done].
Qed.

Lemma keeps_attempt {F A} (c : Routine S F A) : keeps I c → keeps (E := E) I (attempt c).
Proof. intros Hc s HI. by apply runs_attempt, Hc. Qed.

Lemma keeps_for_each {A} (f : A → Routine S E ()) l :
  (∀ a, keeps I (f a)) → keeps I (for_each f l).
Proof.
  intros Hf. induction l; simpl; [apply keeps_ret|]. apply keeps_bind; [apply Hf|]. done.
Qed.

End Keeps.

Create HintDb keeps.
#[export] Hint Resolve keeps_ret keeps_fail keeps_lift keeps_bind keeps_attempt
  keeps_for_each : keeps.
#[export] Hint Extern 3 (keeps _ (match ?x with _ => _ end)) => destruct x : keeps.
#[export] Hint Extern 2 (∀ _, keeps _ _) => intros ? : keeps.

(** ** Inverting successful runs

    [bind_ok H as a w Hc] splits [H : (let* a := c in k) s = (Ok _, _)] into the run [Hc] of
    [c] and the rest. *)
Tactic Notation "bind_ok" hyp(H) "as" simple_intropattern(a) simple_intropattern(w)
    simple_intropattern(Hc) :=
  apply op_bind_Ok in H as (a & w & Hc & H).

Lemma op_lift_Ok {S E A} (r : result E A) (s s' : S) a :
  op_lift r s = (Ok a, s') → r = Ok a ∧ s' = s.
Proof. by intros [= -> ->]. Qed.

Lemma attempt_Ok {S E F A} (c : Routine S E A) (s s' : S) r :
  attempt (F := F) c s = (Ok r, s') → c s = (r, s').
Proof. unfold attempt. destruct (c s). by intros [= -> ->]. Qed.
