(* ===== verification/Netlink.v ===== *)
(** * The kernel's network state ([rtnetlink])

    [crates/unf-link] and [crates/unf-route] change the kernel through [rtnetlink]: the
    messages they read and write, the calls they make, and what they rely on.  The kernel and
    the crate are not part of the repository, so the calls are an interface ([Netlink]) and
    their documented behaviour a class of laws ([NetlinkLaws]) about what a call may change. *)

From S2P Require Import Prelude Common NetAddr Bytes Runs.

(** ** Messages *)

Inductive LinkInfo := InfoKindVeth | InfoOther.

Inductive LinkAttribute :=
| IfName (name : string)
| IfAlias (alias : string)
| IfMtu (mtu : Z)
| IfAddress (address : bytes)
| IfLinkInfo (infos : list LinkInfo)
| IfLink (index : Z)
| IfLinkNetNsId (id : Z)
| IfOther.

Record LinkMessage := {
  link_index : Z;
  link_up : bool;
  link_attributes : list LinkAttribute;
}.

Inductive AddressAttribute :=
| AddressLocal (address : IpAddr) | AddressAddress (address : IpAddr) | AddressOther.

Record AddressMessage := {
  addr_index : Z;
  addr_prefix_len : Z;
  addr_attributes : list AddressAttribute;
}.

Inductive MessageFamily := FamilyInet | FamilyInet6 | FamilyOther.
Inductive RouteAddress := RouteInet (address : Z) | RouteInet6 (address : Z) | RouteAddressOther.
Inductive RouteAttribute :=
| RtaDestination (address : RouteAddress)
| RtaGateway (address : RouteAddress)
| RtaOif (index : Z)
| RtaTable (table : Z)
| RtaOther.
Inductive KernelRouteScope := ScopeUniverse | ScopeLink | ScopeOther.
Inductive RouteType := RouteUnicast | RouteTypeOther.

Record RouteMessage := {
  rtm_family : MessageFamily;
  rtm_prefix_len : Z;
  rtm_table : Z;
  rtm_protocol : Z;
  rtm_scope : KernelRouteScope;
  rtm_kind : RouteType;
  rtm_onlink : bool;
  rtm_attributes : list RouteAttribute;
}.

Inductive NeighbourState := NeighbourPermanent | NeighbourOther.
Inductive NeighbourAttribute :=
| NdaInet (address : Z) | NdaInet6 (address : Z)
| NdaLinkLayerAddress (address : bytes)
| NdaOther.

Record NeighbourMessage := {
  ndm_ifindex : Z;
  ndm_state : NeighbourState;
  ndm_attributes : list NeighbourAttribute;
}.

(** The messages that answer a request for a namespace ID. *)
Inductive NsidAttribute := NsidId (id : Z) | NsidOther.
Inductive NsidResponse := NewNsId (attributes : list NsidAttribute) | NsidAck | NsidError | NsidUnexpected.

#[export] Instance LinkInfo_eq_dec : EqDecision LinkInfo.
Proof. solve_decision. Defined.
#[export] Instance LinkAttribute_eq_dec : EqDecision LinkAttribute.
Proof. solve_decision. Defined.
#[export] Instance RouteAddress_eq_dec : EqDecision RouteAddress.
Proof. solve_decision. Defined.
#[export] Instance RouteAttribute_eq_dec : EqDecision RouteAttribute.
Proof. solve_decision. Defined.
#[export] Instance MessageFamily_eq_dec : EqDecision MessageFamily.
Proof. solve_decision. Defined.
#[export] Instance KernelRouteScope_eq_dec : EqDecision KernelRouteScope.
Proof. solve_decision. Defined.
#[export] Instance RouteType_eq_dec : EqDecision RouteType.
Proof. solve_decision. Defined.
#[export] Instance RouteMessage_eq_dec : EqDecision RouteMessage.
Proof. solve_decision. Defined.
#[export] Instance NeighbourState_eq_dec : EqDecision NeighbourState.
Proof. solve_decision. Defined.
#[export] Instance NeighbourAttribute_eq_dec : EqDecision NeighbourAttribute.
Proof. solve_decision. Defined.
#[export] Instance NeighbourMessage_eq_dec : EqDecision NeighbourMessage.
Proof. solve_decision. Defined.

(** ** Requests *)

Record VethRequest := {
  veth_name : string;
  veth_alias : string;
  veth_address : bytes;
  veth_mtu : Z;
  veth_peer_name : string;
  veth_peer_alias : string;
  veth_peer_address : bytes;
}.

Record RouteRequest := {
  rr_destination : IpAddr;
  rr_prefix_len : Z;
  rr_gateway : option IpAddr;
  rr_output_interface : Z;
  rr_table : Z;
  rr_protocol : Z;
  rr_scope : KernelRouteScope;
  rr_onlink : bool;
}.

Inductive OpenFailure := OpenNotFound | OpenSymbolicLink | OpenOther.

(** ** The interface *)

(** The state of one network namespace. *)
Record NetState := {
  net_links : list LinkMessage;
  net_addresses : list AddressMessage;
  net_routes : list RouteMessage;
  net_neighbours : list NeighbourMessage;
}.

(** What [link().set] changes of the link with [change_index]. *)
Record LinkChange (namespace : Type) := {
  change_index : Z;
  change_name : option string;
  change_mtu : option Z;
  change_alias : option string;
  change_up : bool;
  change_namespace : option namespace;
}.
Arguments change_index {namespace} _.
Arguments change_name {namespace} _.
Arguments change_mtu {namespace} _.
Arguments change_alias {namespace} _.
Arguments change_up {namespace} _.
Arguments change_namespace {namespace} _.

Class Netlink := {
  kernel : Type;
  namespace : Type;
  (** The namespace the plugin runs in. *)
  host_namespace : namespace;
  (** Opening a connection, duplicating or entering a namespace. *)
  system_call : Routine kernel () ();
  open_path : string → Routine kernel OpenFailure namespace;
  link_get : namespace → Routine kernel () (list LinkMessage);
  link_add : namespace → VethRequest → Routine kernel () ();
  link_set : namespace → LinkChange namespace → Routine kernel () ();
  link_del : namespace → Z → Routine kernel () ();
  address_get : namespace → Z → Routine kernel () (list AddressMessage);
  address_replace : namespace → Z → IpAddr → Z → Routine kernel () ();
  (** The ID of the second namespace, asked for in the first. *)
  nsid_get : namespace → namespace → Routine kernel () (list NsidResponse);
  route_get : namespace → MessageFamily → Routine kernel () (list RouteMessage);
  route_add : namespace → RouteRequest → Routine kernel () ();
  route_del : namespace → RouteMessage → Routine kernel () ();
  neighbour_get : namespace → Routine kernel () (list NeighbourMessage);
  neighbour_add : namespace → Z → IpAddr → bytes → Routine kernel () ();
  neighbour_del : namespace → NeighbourMessage → Routine kernel () ();
}.

(** A kernel with the states it went through. *)
Record NetWorld `{Netlink} := { nw_kernel : kernel; nw_history : list kernel }.

#[export] Instance NetWorld_traced `{Netlink} : Traced NetWorld kernel :=
  {| now := nw_kernel; past := nw_history |}.

(** One call; a failure of the kernel becomes [error]. *)
Definition netlink `{Netlink} {F E A} (error : F → E) (c : Routine kernel F A) :
    Routine NetWorld E A := λ w,
  let k' := (c (nw_kernel w)).2 in
  (match (c (nw_kernel w)).1 with Ok a => Ok a | Err e => Err (error e) end,
   {| nw_kernel := k'; nw_history := k' :: nw_history w |}).

(** ** Reading attributes *)

(** [Iterator::find_map]. *)
Fixpoint find_map {A B} (f : A → option B) (l : list A) : option B :=
  match l with
  | [] => None
  | x :: l => match f x with Some y => Some y | None => find_map f l end
  end.

Definition link_name (link : LinkMessage) : option string :=
  find_map (λ a, match a with IfName value => Some value | _ => None end) (link_attributes link).
Definition link_alias (link : LinkMessage) : option string :=
  find_map (λ a, match a with IfAlias value => Some value | _ => None end) (link_attributes link).
Definition link_mtu (link : LinkMessage) : option Z :=
  find_map (λ a, match a with IfMtu value => Some value | _ => None end) (link_attributes link).
Definition link_address (link : LinkMessage) : option bytes :=
  find_map (λ a, match a with IfAddress value => Some value | _ => None end) (link_attributes link).

(** ** What the calls are relied on for *)

(** The links, addresses, routes and neighbours a kernel has, and the namespace a path of a
    sandbox leads to. *)
Class NetView `{Netlink} := {
  net_view : kernel → namespace → NetState;
  sandbox_at : string → namespace;
}.

Section View.
Context `{NetView}.

Definition same_view (k k' : kernel) : Prop := ∀ ns, net_view k' ns = net_view k ns.

(** The same links and addresses. *)
Definition same_links (k k' : kernel) : Prop :=
  ∀ ns, net_links (net_view k' ns) = net_links (net_view k ns) ∧
    net_addresses (net_view k' ns) = net_addresses (net_view k ns).

(** [k'] differs from [k] in the routes and neighbours of [ns] at most. *)
Definition same_but_routing (ns : namespace) (k k' : kernel) : Prop :=
  same_links k k' ∧ ∀ ns', ns' ≠ ns → net_view k' ns' = net_view k ns'.

#[export] Instance same_view_equivalence : Equivalence same_view.
Proof.
  split; [done|by intros k k' Hv ns|]. intros k1 k2 k3 H12 H23 ns. by rewrite H23.
Qed.

#[export] Instance same_links_equivalence : Equivalence same_links.
Proof.
  split; [done|by intros k k' Hl ns; destruct (Hl ns)|]. intros k1 k2 k3 H12 H23 ns.
  destruct (H12 ns), (H23 ns). split; congruence.
Qed.

Lemma same_view_links k k' : same_view k k' → same_links k k'.
Proof. intros Hv ns. by rewrite Hv. Qed.

(** A link of that name is in the namespace. *)
Definition named (k : kernel) (ns : namespace) (name : string) : Prop :=
  ∃ link, link ∈ net_links (net_view k ns) ∧ link_name link = Some name.

End View.

Class NetlinkLaws `{NetView} : Prop := {
  (** Queries change nothing and report the state. *)
  system_call_view k : same_view k (system_call k).2;
  open_path_view path k : same_view k (open_path path k).2;
  link_get_view ns k : same_view k (link_get ns k).2;
  link_get_reports ns k links k' : link_get ns k = (Ok links, k') →
    links = net_links (net_view k ns);
  address_get_view ns index k : same_view k (address_get ns index k).2;
  address_get_reports ns index k messages k' : address_get ns index k = (Ok messages, k') →
    messages = List.filter (λ m, addr_index m =? index) (net_addresses (net_view k ns));
  nsid_get_view ns target k : same_view k (nsid_get ns target k).2;
  route_get_view ns family k : same_view k (route_get ns family k).2;
  route_get_reports ns family k messages k' : route_get ns family k = (Ok messages, k') →
    messages = List.filter (λ m, bool_decide (rtm_family m = family)) (net_routes (net_view k ns));
  neighbour_get_view ns k : same_view k (neighbour_get ns k).2;
  neighbour_get_reports ns k messages k' : neighbour_get ns k = (Ok messages, k') →
    messages = net_neighbours (net_view k ns);
  (** A name belongs to one link of a namespace. *)
  link_name_unique k ns link link' name :
    link ∈ net_links (net_view k ns) → link' ∈ net_links (net_view k ns) →
    link_name link = Some name → link_name link' = Some name → link = link';
  (** A path leads to one namespace, which is not that of the host. *)
  open_path_sandbox path k ns k' : open_path path k = (Ok ns, k') → ns = sandbox_at path;
  sandbox_apart path : sandbox_at path ≠ host_namespace;
  (** Creating a pair brings its two names, changing a link its new name or namespace,
      deleting one nothing. *)
  link_add_named ns request k ns' name :
    named (link_add ns request k).2 ns' name →
    named k ns' name ∨ (ns' = ns ∧ (name = veth_name request ∨ name = veth_peer_name request));
  link_set_named ns change k ns' name :
    named (link_set ns change k).2 ns' name →
    named k ns' name ∨ (ns' = ns ∧ change_name change = Some name) ∨
    change_namespace change = Some ns';
  link_set_routes ns change k ns' :
    change_up change = false → change_namespace change = None →
    net_routes (net_view (link_set ns change k).2 ns') = net_routes (net_view k ns');
  link_del_rest ns index k ns' link :
    link ∈ net_links (net_view (link_del ns index k).2 ns') →
    ∃ before, before ∈ net_links (net_view k ns') ∧ link_index before = link_index link ∧
      link_name before = link_name link;
  link_del_routes ns index k ns' message :
    message ∈ net_routes (net_view (link_del ns index k).2 ns') →
    message ∈ net_routes (net_view k ns');
  link_del_gone ns index k k' link : link_del ns index k = (Ok (), k') →
    link ∈ net_links (net_view k' ns) → link_index link ≠ index;
  (** Addresses, routes and neighbours leave the links alone. *)
  address_replace_links ns index address prefix_len k ns' :
    net_links (net_view (address_replace ns index address prefix_len k).2 ns') =
    net_links (net_view k ns');
  route_add_rest ns request k : same_but_routing ns k (route_add ns request k).2;
  route_del_rest ns message k : same_but_routing ns k (route_del ns message k).2;
  neighbour_add_rest ns index address link_address k :
    same_but_routing ns k (neighbour_add ns index address link_address k).2;
  neighbour_del_rest ns message k : same_but_routing ns k (neighbour_del ns message k).2;
  (** A deleted route is gone, and no other comes. *)
  route_del_gone ns message k k' other : route_del ns message k = (Ok (), k') →
    other ∈ net_routes (net_view k' ns) → other ∈ net_routes (net_view k ns) ∧ other ≠ message;
  neighbour_del_routes ns message k :
    net_routes (net_view (neighbour_del ns message k).2 ns) = net_routes (net_view k ns);
}.
