(* ===== verification/VethPlan.v ===== *)
(** * The veth pair of an attachment ([crates/unf-link])

    The plan a record determines: names, ownership aliases, hardware addresses; and its
    lifecycle in the kernel: create or resume the pair, move the peer into the sandbox, read
    both ends back, and delete the pair, refusing at every step a link that does not carry the
    marks of the plan.  SHA-256 is a parameter ([Digest]), netlink an interface ([Netlink]).
    Errors keep their constructor; their texts are not modelled. *)

From Stdlib Require Import Ascii.
From coqutil Require Import Datatypes.RecordSetters.
From S2P Require Import Prelude Common NetAddr Ipam Bytes Runs Netlink CniAttachment.
Import DoubleBraceUpdate.

Definition LINUX_INTERFACE_NAME_MAX : Z := 15.
Definition OWNER_PREFIX : string := "unf:cni:v1:".

(** [sha2::Sha256] of a message: 32 bytes. *)
Class Digest := {
  sha256 : bytes → bytes;
  sha256_length : ∀ message, length (sha256 message) = 32%nat;
  sha256_bytes : ∀ message, byte_string (sha256 message);
}.

Record AssignedAddress := { assigned_address : IpAddr; assigned_prefix_len : Z }.
#[export] Instance AssignedAddress_eq_dec : EqDecision AssignedAddress.
Proof. solve_decision. Defined.
#[export] Instance AssignedAddress_countable : Countable AssignedAddress.
Proof.
  apply (inj_countable' (λ a, (assigned_address a, assigned_prefix_len a))
    (λ '(a, p), {| assigned_address := a; assigned_prefix_len := p |})). by intros [].
Defined.

Record VethPlan := {
  plan_host_name : string;
  plan_temporary_peer_name : string;
  plan_container_name : string;
  plan_host_alias : string;
  plan_peer_alias : string;
  plan_host_address : bytes;
  plan_peer_address : bytes;
  plan_netns : string;
  plan_mtu : Z;
  plan_addresses : list AssignedAddress;
  plan_recover_pending_creation : bool;
}.

Record LinkReadback := {
  rb_host_index : Z;
  rb_peer_index : Z;
  rb_host_name : string;
  rb_peer_name : string;
  rb_host_address : bytes;
  rb_peer_address : bytes;
  rb_mtu : Z;
  rb_addresses : gset AssignedAddress;
}.

Inductive DeleteOutcome := Deleted | AlreadyAbsent.

Inductive LinkError :=
| LinkInvalidPlan
| LinkOpenNamespace (not_found : bool)
| LinkSymbolicLinkNamespace
| LinkNetlink
| LinkConflict
| LinkReadbackFailed
| LinkNamespaceWorker.

(** ** Plans *)

Definition is_ascii_whitespace (b : Z) : bool :=
  bool_decide (b ∈ [9; 10; 12; 13; 32]).

Definition validate_interface_name (name : string) : result LinkError () :=
  let n := Z.of_nat (String.length name) in
  if (n =? 0) || (LINUX_INTERFACE_NAME_MAX <? n) then Err LinkInvalidPlan
  else if existsb (λ b, 127 <? b) (string_bytes name)
          || bool_decide (name = "."%string) || bool_decide (name = ".."%string)
          || existsb (λ b, bool_decide (b ∈ [0; 47; 58]) || is_ascii_whitespace b)
               (string_bytes name)
  then Err LinkInvalidPlan
  else Ok ().

Definition validate_addresses_step (counts : Z * Z) (assigned : AssignedAddress) :
    result LinkError (Z * Z) :=
  let '(ipv4, ipv6) := counts in
  match assigned_address assigned with
  | V4 _ => if assigned_prefix_len assigned <=? 32 then Ok (ipv4 + 1, ipv6) else Err LinkInvalidPlan
  | V6 _ => if assigned_prefix_len assigned <=? 128 then Ok (ipv4, ipv6 + 1) else Err LinkInvalidPlan
  end.

Definition validate_addresses (addresses : list AssignedAddress) : result LinkError () :=
  let? counts := try_fold validate_addresses_step (0, 0) addresses in
  let '(ipv4, ipv6) := counts in
  if negb (ipv4 =? 1) || negb (ipv6 =? 1) then Err LinkInvalidPlan else Ok ().

(** [str::strip_prefix]. *)
Definition strip_prefix (prefix s : string) : option string :=
  if String.prefix prefix s
  then Some (String.substring (String.length prefix) (String.length s - String.length prefix) s)
  else None.

Definition ownership_addresses (host_name : string) : bytes * bytes :=
  let hash := fold_left fnv64_step (string_bytes host_name) FNV_OFFSET in
  let tail := drop 3 (be_bytes 8 hash) in
  (0x02 :: tail, 0x06 :: tail).

Definition VethPlan_new (host_name container_name netns : string) (mtu : Z)
    (addresses : list AssignedAddress) : result LinkError VethPlan :=
  let? _ := validate_interface_name host_name in
  let? _ := validate_interface_name container_name in
  if bool_decide (host_name = container_name) then Err LinkInvalidPlan
  else if negb (String.prefix "/" netns) then Err LinkInvalidPlan
  else if negb ((MIN_DUAL_STACK_MTU <=? mtu) && (mtu <=? MAX_MTU)) then Err LinkInvalidPlan
  else
    let? _ := validate_addresses addresses in
    let suffix := default host_name (strip_prefix "unf" host_name) in
    let suffix := String.substring 0 (Nat.min (String.length suffix) 11) suffix in
    let temporary_peer_name := String.append "unfp" suffix in
    let? _ := validate_interface_name temporary_peer_name in
    if bool_decide (temporary_peer_name = host_name)
       || bool_decide (temporary_peer_name = container_name)
    then Err LinkInvalidPlan
    else
      let '(host_address, peer_address) := ownership_addresses host_name in
      Ok {| plan_host_name := host_name;
            plan_temporary_peer_name := temporary_peer_name;
            plan_container_name := container_name;
            plan_host_alias := String.append OWNER_PREFIX (String.append host_name ":host");
            plan_peer_alias := String.append OWNER_PREFIX (String.append host_name ":peer");
            plan_host_address := host_address;
            plan_peer_address := peer_address;
            plan_netns := netns;
            plan_mtu := mtu;
            plan_addresses := addresses;
            plan_recover_pending_creation := false |}.

(** The addresses a lease gives to the container endpoint. *)
Definition lease_addresses (lease : DualStackLease) : list AssignedAddress :=
  [{| assigned_address := V4 (v4_address (lease_ipv4 lease)); assigned_prefix_len := 32 |};
   {| assigned_address := V6 (v6_address (lease_ipv6 lease)); assigned_prefix_len := 128 |}].

(** The owner cookie: the sandbox key and the incarnation of the pod, and the creation nonce
    when there is one. *)
Definition owner_cookie_input (record : AttachmentRecord) (uid : string) : bytes :=
  match att_creation_token record with
  | Some token => string_bytes "unf.cni-workload-owner.v3" ++ [0] ++ token
  | None => string_bytes "unf.cni-workload-owner.v2" ++ [0]
  end ++
  flat_map (λ value, string_bytes value ++ [0])
    [key_network (att_key record); key_container_id (att_key record); key_ifname (att_key record); uid].

(** [{:x}] of a digest. *)
Definition hex_bytes (b : bytes) : string :=
  fold_right (λ byte s, String.append (hex_digits 2 byte) s) EmptyString b.

Definition owner_alias (version host_name cookie role : string) : string :=
  String.append "unf:cni:v" (String.append version (String.append ":" (String.append host_name
    (String.append ":" (String.append cookie (String.append ":" role)))))).

(** The first byte of a marker: locally administered, unicast, with the role in its bits. *)
Definition marker_address (marker : bytes) (role : Z) : bytes :=
  match marker with
  | first :: rest => Z.lor (Z.land first 0xf8) role :: rest
  | [] => []
  end.

Definition from_attachment `{Digest} (record : AttachmentRecord) : result LinkError VethPlan :=
  let? plan := VethPlan_new (att_host_interface record) (key_ifname (att_key record))
    (aspec_netns (att_spec record)) (aspec_mtu (att_spec record))
    (lease_addresses (att_lease record)) in
  match aspec_workload_uid (att_spec record) with
  | None => if bool_decide (is_Some (att_creation_token record)) then Err LinkInvalidPlan else Ok plan
  | Some uid =>
      if negb (valid_workload_uid uid) then Err LinkInvalidPlan
      else
        let cookie := sha256 (owner_cookie_input record uid) in
        let hex := hex_bytes cookie in
        let alias version role := owner_alias version (plan_host_name plan) hex role in
        match att_creation_token record with
        | None =>
            Ok plan {{ plan_host_alias := alias "2"%string "host"%string;
                       plan_peer_alias := alias "2"%string "peer"%string }}
        | Some token =>
            if bool_decide (token = zeroes 32) then Err LinkInvalidPlan
            else
              let temporary_peer_name := String.append "unp" (String.substring 24 12 hex) in
              if bool_decide (temporary_peer_name = plan_host_name plan)
                 || bool_decide (temporary_peer_name = plan_container_name plan)
              then Err LinkInvalidPlan
              else
                Ok plan {{ plan_host_alias := alias "3"%string "host"%string;
                           plan_peer_alias := alias "3"%string "peer"%string;
                           plan_host_address := marker_address (take 6 cookie) 0x02;
                           plan_peer_address := marker_address (take 6 (drop 6 cookie)) 0x06;
                           plan_temporary_peer_name := temporary_peer_name;
                           plan_recover_pending_creation :=
                             negb (bool_decide (att_phase record = Ready)) }}
        end
  end.

(** ** Validation of what the kernel reports *)

Definition validate_veth_kind (link : LinkMessage) : result LinkError () :=
  if existsb (λ a, match a with
                   | IfLinkInfo infos => existsb (λ i, bool_decide (i = InfoKindVeth)) infos
                   | _ => false
                   end) (link_attributes link)
  then Ok () else Err LinkConflict.

Definition validate_owned_link (link : LinkMessage) (expected_name expected_alias : string)
    (expected_mtu : Z) (expected_address : bytes) : result LinkError () :=
  let? _ := validate_veth_kind link in
  if negb (bool_decide (link_name link = Some expected_name)) then Err LinkConflict
  else if negb (bool_decide (link_alias link = Some expected_alias)) then Err LinkConflict
  else if negb (bool_decide (link_mtu link = Some expected_mtu)) then Err LinkConflict
  else if negb (bool_decide (link_address link = Some expected_address)) then Err LinkConflict
  else Ok ().

(** One endpoint of a pair that was just created. *)
Definition validate_created_endpoint (plan : VethPlan) (link : LinkMessage) (name alias : string)
    (address : bytes) : result LinkError () :=
  let? _ := validate_veth_kind link in
  if negb (bool_decide (link_name link = Some name))
     || negb (bool_decide (link_mtu link = Some (plan_mtu plan)))
     || negb (bool_decide (link_address link = Some address))
     || link_up link
     || is_some_and (link_alias link) (λ actual, negb (bool_decide (actual = alias)))
  then Err LinkConflict else Ok ().

Definition validate_created_pair (plan : VethPlan) (host peer : LinkMessage) :
    result LinkError () :=
  if (link_index host =? 0) || (link_index peer =? 0) || (link_index host =? link_index peer)
     || negb (bool_decide (IfLink (link_index peer) ∈ link_attributes host))
     || negb (bool_decide (IfLink (link_index host) ∈ link_attributes peer))
  then Err LinkConflict
  else
    let? _ := validate_created_endpoint plan host (plan_host_name plan) (plan_host_alias plan)
      (plan_host_address plan) in
    validate_created_endpoint plan peer (plan_temporary_peer_name plan) (plan_peer_alias plan)
      (plan_peer_address plan).

Definition validate_recoverable_link (link : LinkMessage) (expected_name expected_alias : string)
    (expected_mtu : Z) (expected_address : bytes) : result LinkError () :=
  let? _ := validate_veth_kind link in
  if negb (bool_decide (link_name link = Some expected_name))
     || negb (bool_decide (link_mtu link = Some expected_mtu))
     || negb (bool_decide (link_address link = Some expected_address))
  then Err LinkConflict
  else if is_some_and (link_alias link) (λ alias, negb (bool_decide (alias = expected_alias)))
          || (negb (String.prefix OWNER_PREFIX expected_alias)
              && bool_decide (link_alias link = None))
  then Err LinkConflict
  else Ok ().

Definition validate_ready_link (link : LinkMessage) (expected_name expected_alias : string)
    (expected_mtu : Z) (expected_address : bytes) : result LinkError () :=
  let? _ := validate_owned_link link expected_name expected_alias expected_mtu expected_address in
  if negb (link_up link) then Err LinkConflict else Ok ().

(** ** The identity of the peer ([peer_identity.rs]) *)

Definition parse_namespace_id (attributes : list NsidAttribute) : result LinkError Z :=
  match omap (λ a, match a with NsidId id => Some id | NsidOther => None end) attributes with
  | [id] => if 0 <=? id then Ok id else Err LinkReadbackFailed
  | _ => Err LinkReadbackFailed
  end.

Definition namespace_id_step (state : Z * option Z) (response : NsidResponse) :
    result LinkError (Z * option Z) :=
  let '(messages, found) := state in
  let messages := messages + 1 in
  if 4 <? messages then Err LinkReadbackFailed
  else match response with
       | NewNsId attributes =>
           let? id := parse_namespace_id attributes in
           if bool_decide (is_Some found) then Err LinkReadbackFailed else Ok (messages, Some id)
       | NsidAck => Ok (messages, found)
       | NsidError => Err LinkNetlink
       | NsidUnexpected => Err LinkReadbackFailed
       end.

Definition validate_reference (link : LinkMessage) (index ns_id : Z) : result LinkError () :=
  let indexes := omap (λ a, match a with IfLink index => Some index | _ => None end)
    (link_attributes link) in
  let ids := omap (λ a, match a with IfLinkNetNsId id => Some id | _ => None end)
    (link_attributes link) in
  if (link_index link =? 0) || (index =? 0) || (ns_id <? 0)
     || negb (bool_decide (indexes = [index]))
     || negb (bool_decide (ids = [ns_id]))
  then Err LinkReadbackFailed else Ok ().

Definition validate_pair (host peer : LinkMessage) (peer_namespace_id host_namespace_id : Z) :
    result LinkError () :=
  let? _ := validate_reference host (link_index peer) peer_namespace_id in
  validate_reference peer (link_index host) host_namespace_id.

(** ** The lifecycle *)

Section Lifecycle.
Context `{Netlink}.

Abbreviation Link := (Routine NetWorld LinkError).

(** A netlink request, and a call that changes no network state. *)
Definition link_request {A} (c : Routine kernel () A) : Link A := netlink (λ _, LinkNetlink) c.
Definition link_call (error : LinkError) : Link () := netlink (λ _, error) system_call.

Definition open_namespace (path : string) : Link namespace :=
  netlink (λ failure, match failure with
                      | OpenSymbolicLink => LinkSymbolicLinkNamespace
                      | OpenNotFound => LinkOpenNamespace true
                      | OpenOther => LinkOpenNamespace false
                      end) (open_path path).

Definition open_current_namespace : Link () := link_call (LinkOpenNamespace false).
Definition clone_namespace : Link () := link_call (LinkOpenNamespace false).
Definition new_connection : Link () := link_call LinkNetlink.
Definition run_in_namespace {A} (operation : Link A) : Link A :=
  let* _ := link_call LinkNamespaceWorker in operation.

Definition find_link (ns : namespace) (name : string) : Link (option LinkMessage) :=
  let* links := link_request (link_get ns) in
  op_ret (List.find (λ link, bool_decide (link_name link = Some name)) links).

Definition require_link (ns : namespace) (name : string) : Link LinkMessage :=
  let* found := find_link ns name in
  op_lift (ok_or found LinkReadbackFailed).

Definition namespace_id (ns target : namespace) : Link Z :=
  let* responses := link_request (nsid_get ns target) in
  op_lift (let? state := try_fold namespace_id_step (0, None) responses in
           ok_or state.2 LinkReadbackFailed).

(** The changes [link().set] is asked for. *)
Definition set_alias (index : Z) (alias : string) : LinkChange namespace :=
  {| change_index := index; change_name := None; change_mtu := None;
     change_alias := Some alias; change_up := false; change_namespace := None |}.
Definition set_host (plan : VethPlan) (index : Z) : LinkChange namespace :=
  {| change_index := index; change_name := None; change_mtu := Some (plan_mtu plan);
     change_alias := Some (plan_host_alias plan); change_up := true; change_namespace := None |}.
Definition set_moved (plan : VethPlan) (index : Z) (ns : namespace) : LinkChange namespace :=
  {| change_index := index; change_name := None; change_mtu := Some (plan_mtu plan);
     change_alias := Some (plan_peer_alias plan); change_up := false;
     change_namespace := Some ns |}.
Definition set_container (plan : VethPlan) (index : Z) : LinkChange namespace :=
  {| change_index := index; change_name := Some (plan_container_name plan);
     change_mtu := Some (plan_mtu plan); change_alias := Some (plan_peer_alias plan);
     change_up := true; change_namespace := None |}.

Definition validate_host (plan : VethPlan) (host : LinkMessage) : Link () :=
  op_lift (validate_recoverable_link host (plan_host_name plan) (plan_host_alias plan)
             (plan_mtu plan) (plan_host_address plan)).
Definition validate_ready_host (plan : VethPlan) (host : LinkMessage) : Link () :=
  op_lift (validate_ready_link host (plan_host_name plan) (plan_host_alias plan)
             (plan_mtu plan) (plan_host_address plan)).
(** The peer under its temporary or its final name. *)
Definition validate_peer (plan : VethPlan) (peer : LinkMessage) (name : string) : Link () :=
  op_lift (validate_recoverable_link peer name (plan_peer_alias plan)
             (plan_mtu plan) (plan_peer_address plan)).

Definition seal_just_created_pair (plan : VethPlan) : Link () :=
  let* host := require_link host_namespace (plan_host_name plan) in
  let* peer := require_link host_namespace (plan_temporary_peer_name plan) in
  let* _ := op_lift (validate_created_pair plan host peer) in
  let* _ := for_each (λ '(index, alias), link_request (link_set host_namespace (set_alias index alias)))
    [(link_index peer, plan_peer_alias plan); (link_index host, plan_host_alias plan)] in
  let* sealed_host := require_link host_namespace (plan_host_name plan) in
  let* sealed_peer := require_link host_namespace (plan_temporary_peer_name plan) in
  if negb (link_index sealed_host =? link_index host)
     || negb (link_index sealed_peer =? link_index peer)
  then op_fail LinkConflict
  else
    let* _ := op_lift (validate_created_pair plan sealed_host sealed_peer) in
    let* _ := op_lift (validate_owned_link sealed_host (plan_host_name plan)
      (plan_host_alias plan) (plan_mtu plan) (plan_host_address plan)) in
    op_lift (validate_owned_link sealed_peer (plan_temporary_peer_name plan)
      (plan_peer_alias plan) (plan_mtu plan) (plan_peer_address plan)).

Definition seal_pending_creation (plan : VethPlan) : Link () :=
  if negb (plan_recover_pending_creation plan) then op_ret ()
  else
    let* host := find_link host_namespace (plan_host_name plan) in
    match host with
    | None => op_ret ()
    | Some host =>
        let* peer := find_link host_namespace (plan_temporary_peer_name plan) in
        match peer with
        | None => op_ret ()
        | Some peer =>
            if bool_decide (link_alias host = Some (plan_host_alias plan))
               && bool_decide (link_alias peer = Some (plan_peer_alias plan))
            then op_ret ()
            else
              let* _ := op_lift (validate_created_pair plan host peer) in
              seal_just_created_pair plan
        end
    end.

Definition ensure_host (plan : VethPlan) : Link () :=
  let* host := find_link host_namespace (plan_host_name plan) in
  let* _ :=
    match host with
    | Some _ =>
        let* _ := seal_pending_creation plan in
        let* link := require_link host_namespace (plan_host_name plan) in
        validate_host plan link
    | None =>
        let* temporary := find_link host_namespace (plan_temporary_peer_name plan) in
        if bool_decide (is_Some temporary) then op_fail LinkConflict
        else
          let* _ := link_request (link_add host_namespace
            {| veth_name := plan_host_name plan; veth_alias := plan_host_alias plan;
               veth_address := plan_host_address plan; veth_mtu := plan_mtu plan;
               veth_peer_name := plan_temporary_peer_name plan;
               veth_peer_alias := plan_peer_alias plan;
               veth_peer_address := plan_peer_address plan |}) in
          if negb (String.prefix OWNER_PREFIX (plan_host_alias plan))
          then seal_just_created_pair plan else op_ret ()
    end in
  let* host := require_link host_namespace (plan_host_name plan) in
  let* _ := validate_host plan host in
  link_request (link_set host_namespace (set_host plan (link_index host))).

Definition move_temporary_peer (plan : VethPlan) (ns : namespace) : Link () :=
  let* peer := find_link host_namespace (plan_temporary_peer_name plan) in
  match peer with
  | None => op_ret ()
  | Some peer =>
      let* _ := validate_peer plan peer (plan_temporary_peer_name plan) in
      link_request (link_set host_namespace (set_moved plan (link_index peer) ns))
  end.

Record PeerReadback := {
  peer_index : Z;
  peer_link : LinkMessage;
  peer_host_namespace_id : Z;
  peer_addresses : gset AssignedAddress;
}.

(** The address of a message, with its prefix. *)
Definition assigned_of (message : AddressMessage) : option AssignedAddress :=
  option_map (λ address, {| assigned_address := address;
                            assigned_prefix_len := addr_prefix_len message |})
    (find_map (λ a, match a with
                    | AddressLocal address | AddressAddress address => Some address
                    | AddressOther => None
                    end) (addr_attributes message)).

Definition read_peer (ns : namespace) (plan : VethPlan) : Link PeerReadback :=
  let* peer := require_link ns (plan_container_name plan) in
  let* _ := op_lift (validate_ready_link peer (plan_container_name plan) (plan_peer_alias plan)
    (plan_mtu plan) (plan_peer_address plan)) in
  let* messages := link_request (address_get ns (link_index peer)) in
  let addresses : gset AssignedAddress := list_to_set (omap assigned_of messages) in
  let expected : gset AssignedAddress := list_to_set (plan_addresses plan) in
  if negb (bool_decide (expected ⊆ addresses)) then op_fail LinkReadbackFailed
  else
    let* id := namespace_id ns host_namespace in
    op_ret {| peer_index := link_index peer; peer_link := peer;
              peer_host_namespace_id := id; peer_addresses := expected |}.

Definition configure_and_read_peer (plan : VethPlan) (ns : namespace) : Link PeerReadback :=
  run_in_namespace (
    let* _ := new_connection in
    let* found := find_link ns (plan_container_name plan) in
    let* peer :=
      match found with
      | Some peer =>
          let* _ := validate_peer plan peer (plan_container_name plan) in
          op_ret peer
      | None =>
          let* peer := require_link ns (plan_temporary_peer_name plan) in
          let* _ := validate_peer plan peer (plan_temporary_peer_name plan) in
          op_ret peer
      end in
    let* _ := link_request (link_set ns (set_container plan (link_index peer))) in
    let* peer := require_link ns (plan_container_name plan) in
    let* _ := for_each (λ assigned, link_request (address_replace ns (link_index peer)
      (assigned_address assigned) (assigned_prefix_len assigned))) (plan_addresses plan) in
    read_peer ns plan).

(** What a plan and its two ends report. *)
Definition readback_of (plan : VethPlan) (host_index index : Z) (addresses : gset AssignedAddress) :
    LinkReadback :=
  {| rb_host_index := host_index; rb_peer_index := index;
     rb_host_name := plan_host_name plan; rb_peer_name := plan_container_name plan;
     rb_host_address := plan_host_address plan; rb_peer_address := plan_peer_address plan;
     rb_mtu := plan_mtu plan; rb_addresses := addresses |}.

(** Reads the host's end and compares the two. *)
Definition read_host (plan : VethPlan) (ns : namespace) (peer : PeerReadback) : Link LinkReadback :=
  let* host := require_link host_namespace (plan_host_name plan) in
  let* _ := validate_ready_host plan host in
  let* id := namespace_id host_namespace ns in
  let* _ := op_lift (validate_pair host (peer_link peer) id (peer_host_namespace_id peer)) in
  op_ret (readback_of plan (link_index host) (peer_index peer) (peer_addresses peer)).

Definition veth_apply (plan : VethPlan) : Link LinkReadback :=
  let* ns := open_namespace (plan_netns plan) in
  let* _ := open_current_namespace in
  let* _ := new_connection in
  let* _ := ensure_host plan in
  let* _ := move_temporary_peer plan ns in
  let* _ := clone_namespace in
  let* peer := configure_and_read_peer plan ns in
  read_host plan ns peer.

(** [readback], without the namespace cookies of an observation. *)
Definition veth_readback (plan : VethPlan) : Link LinkReadback :=
  let* ns := open_namespace (plan_netns plan) in
  let* _ := open_current_namespace in
  let* _ := new_connection in
  let* _ := clone_namespace in
  let* _ := clone_namespace in
  let* peer := run_in_namespace (let* _ := new_connection in read_peer ns plan) in
  read_host plan ns peer.

(** The sandbox of a plan; [None] when its path is gone. *)
Definition sandbox (plan : VethPlan) : Link (option namespace) :=
  let* opened := attempt (open_namespace (plan_netns plan)) in
  match opened with
  | Ok ns => op_ret (Some ns)
  | Err (LinkOpenNamespace true) => op_ret None
  | Err error => op_fail error
  end.

Definition cleanup_readback (plan : VethPlan) : Link LinkReadback :=
  let* _ := new_connection in
  let* _ := seal_pending_creation plan in
  let* host := find_link host_namespace (plan_host_name plan) in
  let* host_index :=
    match host with
    | Some host => let* _ := validate_host plan host in op_ret (link_index host)
    | None => op_ret 0
    end in
  let* ns := sandbox plan in
  let* index :=
    match ns with
    | None => op_ret 0
    | Some ns =>
        run_in_namespace (
          let* _ := new_connection in
          let* peer := find_link ns (plan_container_name plan) in
          match peer with
          | None => op_ret 0
          | Some peer =>
              let* _ := validate_peer plan peer (plan_container_name plan) in
              op_ret (link_index peer)
          end)
    end in
  op_ret (readback_of plan host_index index (list_to_set (plan_addresses plan))).

(** The container's end of a pair whose host end is gone. *)
Definition delete_orphan (plan : VethPlan) : Link DeleteOutcome :=
  let* ns := sandbox plan in
  match ns with
  | None => op_ret AlreadyAbsent
  | Some ns =>
      run_in_namespace (
        let* _ := new_connection in
        let* peer := find_link ns (plan_container_name plan) in
        match peer with
        | None => op_ret AlreadyAbsent
        | Some peer =>
            let* _ := validate_peer plan peer (plan_container_name plan) in
            let* _ := link_request (link_del ns (link_index peer)) in
            op_ret Deleted
        end)
  end.

Definition veth_delete (plan : VethPlan) : Link DeleteOutcome :=
  let* _ := new_connection in
  let* _ := seal_pending_creation plan in
  let* host := find_link host_namespace (plan_host_name plan) in
  match host with
  | Some host =>
      let* _ := validate_host plan host in
      let* _ := link_request (link_del host_namespace (link_index host)) in
      op_ret Deleted
  | None => delete_orphan plan
  end.

End Lifecycle.
