(* ===== verification/VethFacts.v ===== *)
(** * The veth pair in the kernel

    What the lifecycle of a plan does to the links of the host: it creates no name but its
    own two, it reads back what it says, and a deletion leaves no link of the plan's name. *)

From Stdlib Require Import Ascii.
From S2P Require Import Prelude Common NetAddr Ipam Bytes Runs Netlink CniAttachment VethPlan.

(** ** The names of a plan *)

Lemma hex_digit_not_p d : 0 ≤ d < 16 → hex_digit d ≠ "p"%char.
Proof.
  unfold hex_digit. intros Hd Heq%(f_equal nat_of_ascii). change (nat_of_ascii "p") with 112%nat in Heq.
  destruct (Z.ltb_spec d 10); rewrite nat_ascii_embedding in Heq by lia; lia.
Qed.

(** A temporary peer never has the name of a host interface. *)
Lemma temporary_not_host suffix key :
  String.append "unfp" suffix ≠ deterministic_host_interface key ∧
  String.append "unp" suffix ≠ deterministic_host_interface key.
Proof.
  unfold deterministic_host_interface. generalize (Z.land (key_hash key) 0x7ffffffffff). intros v.
  split; [|by intros [=]].
  change (String "u" (String "n" (String "f" (String "p" suffix))) ≠
    String "u" (String "n" (String "f"
      (String (hex_digit (Z.land (Z.shiftr v (4 * Z.of_nat 10)) 15)) (hex_digits 10 v))))).
  intros [= Heq _]. symmetry in Heq. revert Heq. apply hex_digit_not_p. rewrite nibble.
  by apply Z.mod_pos_bound.
Qed.

Lemma VethPlan_new_Ok host_name container_name netns mtu addresses plan :
  VethPlan_new host_name container_name netns mtu addresses = Ok plan →
  plan_host_name plan = host_name ∧ plan_container_name plan = container_name ∧
  plan_netns plan = netns ∧ plan_mtu plan = mtu ∧ plan_addresses plan = addresses ∧
  ∃ suffix, plan_temporary_peer_name plan = String.append "unfp" suffix.
Proof.
  unfold VethPlan_new. intros Hnew. split_ok Hnew. destruct (ownership_addresses host_name).
  injection Hnew as <-. cbn. split_and!; [done..|]. by eexists.
Qed.

Lemma from_attachment_Ok `{Digest} record plan :
  from_attachment record = Ok plan →
  plan_host_name plan = att_host_interface record ∧
  plan_container_name plan = key_ifname (att_key record) ∧
  plan_netns plan = aspec_netns (att_spec record) ∧
  plan_mtu plan = aspec_mtu (att_spec record) ∧
  plan_addresses plan = lease_addresses (att_lease record) ∧
  ∀ key, plan_temporary_peer_name plan ≠ deterministic_host_interface key.
Proof.
  unfold from_attachment. destruct (VethPlan_new _ _ _ _ _) as [p|] eqn:Enew; [|done].
  apply VethPlan_new_Ok in Enew as (Hhost & Hcontainer & Hnetns & Hmtu & Haddr & suffix & Htemp).
  destruct p. cbn in Hhost, Hcontainer, Hnetns, Hmtu, Haddr, Htemp. subst.
  intros Hrun. destruct (aspec_workload_uid _) as [uid|]; split_ok Hrun.
  2: { injection Hrun as <-. split_and!; [done..|]. intros key. apply temporary_not_host. }
  destruct (att_creation_token record) as [token|]; split_ok Hrun; injection Hrun as <-;
    (split_and!; [done..|]; intros key; apply temporary_not_host).
Qed.

Section Facts.
Context `{NetlinkLaws}.

(** Every link of the host has a name in [P]. *)
Definition host_names (P : string → Prop) (k : kernel) : Prop :=
  ∀ name, named k host_namespace name → P name.

Lemma named_same k k' ns name :
  net_links (net_view k' ns) = net_links (net_view k ns) → named k' ns name ↔ named k ns name.
Proof. unfold named. by intros ->. Qed.

Lemma host_names_same P k k' :
  net_links (net_view k' host_namespace) = net_links (net_view k host_namespace) →
  host_names P k → host_names P k'.
Proof. intros Hl HP name. rewrite (named_same k) by done. apply HP. Qed.

#[export] Instance host_names_proper P : Proper (same_view ==> impl) (host_names P).
Proof. intros k k' Hv HP. eapply host_names_same; [|done]. by rewrite Hv. Qed.

Lemma keeps_netlink I {F E A} (error : F → E) (c : Routine kernel F A) :
  (∀ k, I k → I (c k).2) → keeps I (netlink error c).
Proof. intros Hc w HI. eapply runs_step; [done|done| |done]. by apply Hc. Qed.

(** Queries keep every property of the view. *)
Section Queries.
Context (I : kernel → Prop) `{!Proper (same_view ==> impl) I}.

Lemma keeps_query {F E A} (error : F → E) (c : Routine kernel F A) :
  (∀ k, same_view k (c k).2) → keeps I (netlink error c).
Proof. intros Hc. apply keeps_netlink. intros k. by apply (Proper0 k). Qed.

Lemma keeps_link_call error : keeps I (link_call error).
Proof. apply keeps_query, system_call_view. Qed.
Lemma keeps_link_get ns : keeps I (link_request (link_get ns)).
Proof. apply keeps_query, link_get_view. Qed.
Lemma keeps_address_get ns index : keeps I (link_request (address_get ns index)).
Proof. apply keeps_query, address_get_view. Qed.
Lemma keeps_nsid_get ns target : keeps I (link_request (nsid_get ns target)).
Proof. apply keeps_query, nsid_get_view. Qed.
Lemma keeps_open_namespace path : keeps I (open_namespace path).
Proof. apply keeps_query, open_path_view. Qed.

End Queries.

Section Names.
Context (P : string → Prop).

Lemma keeps_link_del ns index : keeps (host_names P) (link_request (link_del ns index)).
Proof.
  apply keeps_netlink. intros k HP name (link & (before & Hin & _ & Hn)%link_del_rest & Hname).
  apply HP. exists before. by rewrite Hn.
Qed.

Lemma keeps_address_replace ns index address prefix_len :
  keeps (host_names P) (link_request (address_replace ns index address prefix_len)).
Proof. apply keeps_netlink. intros k. apply host_names_same, address_replace_links. Qed.

Lemma keeps_link_set ns change :
  (ns = host_namespace → change_name change = None) →
  change_namespace change ≠ Some host_namespace →
  keeps (host_names P) (link_request (link_set ns change)).
Proof.
  intros Hname Hns. apply keeps_netlink. intros k HP name [Hk|[[<- Hn]|Hm]]%link_set_named;
    [by apply HP| |done]. by rewrite Hname in Hn.
Qed.

Lemma keeps_link_add request :
  P (veth_name request) → P (veth_peer_name request) →
  keeps (host_names P) (link_request (link_add host_namespace request)).
Proof.
  intros Hn Hp. apply keeps_netlink. intros k HP name [Hk|[_ [->| ->]]]%link_add_named; [|done..].
  by apply HP.
Qed.

End Names.

#[local] Hint Resolve keeps_link_call keeps_link_get keeps_address_get keeps_nsid_get
  keeps_open_namespace keeps_link_del keeps_address_replace : keeps.
#[local] Hint Extern 0 (Proper _ _) => typeclasses eauto : keeps.
#[local] Hint Extern 1 (keeps _ (link_request (link_set _ _))) =>
  apply keeps_link_set; [by intros|done] : keeps.

Section Plan.
Context (P : string → Prop) (plan : VethPlan).

Lemma keeps_find_link ns name : keeps (host_names P) (find_link ns name).
Proof. unfold find_link. auto with keeps. Qed.
Lemma keeps_require_link ns name : keeps (host_names P) (require_link ns name).
Proof. unfold require_link. auto using keeps_find_link with keeps. Qed.
Lemma keeps_namespace_id ns target : keeps (host_names P) (namespace_id ns target).
Proof. unfold namespace_id. auto with keeps. Qed.
#[local] Hint Resolve keeps_find_link keeps_require_link keeps_namespace_id : keeps.

Lemma keeps_seal_just_created : keeps (host_names P) (seal_just_created_pair plan).
Proof. unfold seal_just_created_pair. auto 20 with keeps. Qed.
#[local] Hint Resolve keeps_seal_just_created : keeps.
Lemma keeps_seal_pending : keeps (host_names P) (seal_pending_creation plan).
Proof. unfold seal_pending_creation. auto 20 with keeps. Qed.
#[local] Hint Resolve keeps_seal_pending : keeps.

(** Only here a name may be created: the two of the plan. *)
Lemma keeps_ensure_host :
  P (plan_host_name plan) → P (plan_temporary_peer_name plan) →
  keeps (host_names P) (ensure_host plan).
Proof. unfold ensure_host, validate_host. auto 20 using keeps_link_add with keeps. Qed.

Lemma keeps_move_temporary_peer ns :
  ns ≠ host_namespace → keeps (host_names P) (move_temporary_peer plan ns).
Proof.
  intros Hns. unfold move_temporary_peer, validate_peer.
  assert (∀ index, keeps (host_names P) (link_request (link_set host_namespace (set_moved plan index ns)))).
  { intros index. apply keeps_link_set; [done|]. by intros [= ->]. }
  auto 20 with keeps.
Qed.

Lemma keeps_read_peer ns : keeps (host_names P) (read_peer ns plan).
Proof. unfold read_peer. auto 20 with keeps. Qed.
#[local] Hint Resolve keeps_read_peer : keeps.

Lemma keeps_configure_peer ns :
  ns ≠ host_namespace → keeps (host_names P) (configure_and_read_peer plan ns).
Proof.
  intros Hns. unfold configure_and_read_peer, run_in_namespace, new_connection, validate_peer.
  assert (∀ index, keeps (host_names P) (link_request (link_set ns (set_container plan index)))).
  { intros index. by apply keeps_link_set. }
  auto 30 with keeps.
Qed.

Lemma keeps_read_host ns peer : keeps (host_names P) (read_host plan ns peer).
Proof. unfold read_host, validate_ready_host. auto 20 with keeps. Qed.
#[local] Hint Resolve keeps_read_host : keeps.

Lemma open_namespace_sandbox path w :
  host_names P (now w) →
  runs (host_names P) (open_namespace path) (on_ok (λ ns _, ns ≠ host_namespace)) w.
Proof.
  intros HI. destruct (keeps_open_namespace (host_names P) path w HI) as (? & ? & _).
  split_and!; [done..|].
  simpl. destruct (open_path path _) as [[ns|e] k] eqn:Eopen; simpl; [|done].
  rewrite (open_path_sandbox _ _ _ _ Eopen). apply sandbox_apart.
Qed.

Lemma keeps_veth_apply :
  P (plan_host_name plan) → P (plan_temporary_peer_name plan) →
  keeps (host_names P) (veth_apply plan).
Proof.
  intros Hhost Htemp. unfold veth_apply, open_current_namespace, new_connection, clone_namespace.
  eapply keeps_bind_with; [by apply open_namespace_sandbox|]. intros ns Hns.
  auto 20 using keeps_ensure_host, keeps_move_temporary_peer, keeps_configure_peer with keeps.
Qed.

Lemma keeps_veth_readback : keeps (host_names P) (veth_readback plan).
Proof.
  unfold veth_readback, open_current_namespace, new_connection, clone_namespace, run_in_namespace,
    new_connection. auto 20 with keeps.
Qed.

Lemma keeps_sandbox : keeps (host_names P) (sandbox plan).
Proof. unfold sandbox. auto 20 with keeps. Qed.
#[local] Hint Resolve keeps_sandbox : keeps.

Lemma keeps_cleanup_readback : keeps (host_names P) (cleanup_readback plan).
Proof.
  unfold cleanup_readback, new_connection, run_in_namespace, validate_host, validate_peer, new_connection.
  auto 30 with keeps.
Qed.

Lemma keeps_delete_orphan : keeps (host_names P) (delete_orphan plan).
Proof.
  unfold delete_orphan, run_in_namespace, validate_peer, new_connection. auto 30 with keeps.
Qed.
#[local] Hint Resolve keeps_delete_orphan : keeps.

Lemma keeps_veth_delete : keeps (host_names P) (veth_delete plan).
Proof. unfold veth_delete, validate_host, new_connection. auto 30 with keeps. Qed.

End Plan.

(** ** What a successful run tells *)

Lemma netlink_Ok {F E A} (error : F → E) (c : Routine kernel F A) w a w' :
  netlink error c w = (Ok a, w') → c (nw_kernel w) = (Ok a, nw_kernel w').
Proof.
  unfold netlink. destruct (c (nw_kernel w)) as [[x|x] k]; simpl; [|done].
  by intros [= -> <-].
Qed.

Lemma query_Ok {F E A} (error : F → E) (c : Routine kernel F A) w a w' :
  (∀ k, same_view k (c k).2) → netlink error c w = (Ok a, w') →
  same_view (nw_kernel w) (nw_kernel w') ∧ c (nw_kernel w) = (Ok a, nw_kernel w').
Proof.
  intros Hq Hrun%netlink_Ok. split; [|done]. specialize (Hq (nw_kernel w)). by rewrite Hrun in Hq.
Qed.

Lemma link_call_Ok error w a w' :
  link_call error w = (Ok a, w') → same_view (nw_kernel w) (nw_kernel w').
Proof. intros Hrun. by apply query_Ok in Hrun as [? _]; [|apply system_call_view]. Qed.

Lemma find_link_Ok ns name w found w' :
  find_link ns name w = (Ok found, w') →
  same_view (nw_kernel w) (nw_kernel w') ∧
  match found with
  | Some link => link ∈ net_links (net_view (nw_kernel w) ns) ∧ link_name link = Some name
  | None => ¬ named (nw_kernel w) ns name
  end.
Proof.
  unfold find_link. intros Hrun. bind_ok Hrun as links w1 Hget. injection Hrun as <- <-.
  apply query_Ok in Hget as [Hv Hget]; [|apply link_get_view]. split; [done|].
  apply link_get_reports in Hget as ->. destruct (List.find _ _) as [link|] eqn:Efind.
  - apply find_some in Efind as [Hin Hname%bool_decide_eq_true]. by rewrite list_elem_of_In.
  - intros (link & Hin & Hname). apply list_elem_of_In in Hin.
    by apply (find_none _ _ Efind), bool_decide_eq_false in Hin.
Qed.

Lemma require_link_Ok ns name w link w' :
  require_link ns name w = (Ok link, w') →
  same_view (nw_kernel w) (nw_kernel w') ∧
  link ∈ net_links (net_view (nw_kernel w) ns) ∧ link_name link = Some name.
Proof.
  unfold require_link. intros Hrun. bind_ok Hrun as found w1 Hfind.
  apply find_link_Ok in Hfind as [Hv Hfound]. apply op_lift_Ok in Hrun as [Hsome ->].
  destruct found; [|done]. by injection Hsome as ->.
Qed.

Lemma namespace_id_Ok ns target w id w' :
  namespace_id ns target w = (Ok id, w') → same_view (nw_kernel w) (nw_kernel w').
Proof.
  unfold namespace_id. intros Hrun. bind_ok Hrun as responses w1 Hget.
  apply op_lift_Ok in Hrun as [_ ->]. by apply query_Ok in Hget as [? _]; [|apply nsid_get_view].
Qed.

(** The two ends of a plan, up, marked, joined, and with the addresses of the plan. *)
Record pair_ready (plan : VethPlan) (rb : LinkReadback) (k : kernel) : Prop := {
  pair_host : ∃ host peer peer_id host_id,
    host ∈ net_links (net_view k host_namespace) ∧
    validate_ready_link host (plan_host_name plan) (plan_host_alias plan) (plan_mtu plan)
      (plan_host_address plan) = Ok () ∧
    peer ∈ net_links (net_view k (sandbox_at (plan_netns plan))) ∧
    validate_ready_link peer (plan_container_name plan) (plan_peer_alias plan) (plan_mtu plan)
      (plan_peer_address plan) = Ok () ∧
    validate_pair host peer peer_id host_id = Ok () ∧
    rb = readback_of plan (link_index host) (link_index peer) (list_to_set (plan_addresses plan)) ∧
    ∀ assigned, assigned ∈ plan_addresses plan →
      ∃ message, message ∈ net_addresses (net_view k (sandbox_at (plan_netns plan))) ∧
        addr_index message = link_index peer ∧ assigned_of message = Some assigned;
}.

#[export] Instance host_names_links P : Proper (same_links ==> impl) (host_names P).
Proof. intros k k' Hl HP. eapply host_names_same; [|done]. apply Hl. Qed.

(** It speaks of the links and the addresses only. *)
Lemma pair_ready_same plan rb k k' : same_links k k' → pair_ready plan rb k → pair_ready plan rb k'.
Proof.
  intros Hl [(host & peer & peer_id & host_id & ? & ? & ? & ? & ? & ? & Haddr)].
  split. exists host, peer, peer_id, host_id.
  rewrite !(proj1 (Hl _)), (proj2 (Hl _)). by split_and!.
Qed.

Lemma read_peer_Ok ns plan w peer w' :
  read_peer ns plan w = (Ok peer, w') →
  same_view (nw_kernel w) (nw_kernel w') ∧ peer_index peer = link_index (peer_link peer) ∧
  peer_addresses peer = list_to_set (plan_addresses plan) ∧
  peer_link peer ∈ net_links (net_view (nw_kernel w) ns) ∧
  validate_ready_link (peer_link peer) (plan_container_name plan) (plan_peer_alias plan)
    (plan_mtu plan) (plan_peer_address plan) = Ok () ∧
  ∀ assigned, assigned ∈ plan_addresses plan →
    ∃ message, message ∈ net_addresses (net_view (nw_kernel w) ns) ∧
      addr_index message = link_index (peer_link peer) ∧ assigned_of message = Some assigned.
Proof.
  unfold read_peer. intros Hrun. bind_ok Hrun as link w1 Hlink. bind_ok Hrun as [] w2 Hready.
  apply require_link_Ok in Hlink as (Hv1 & Hin & _). apply op_lift_Ok in Hready as [Hready ->].
  bind_ok Hrun as messages w3 Hget. apply query_Ok in Hget as [Hv2 Hget]; [|apply address_get_view].
  apply address_get_reports in Hget as ->. rewrite (Hv1 ns) in Hrun.
  destruct (negb _) eqn:Esub in Hrun; [done|]. apply negb_false_iff, bool_decide_eq_true in Esub.
  bind_ok Hrun as id w4 Hid. apply namespace_id_Ok in Hid as Hv3. injection Hrun as <- <-. simpl.
  split_and!; [by rewrite Hv1, Hv2, Hv3|done..|].
  intros assigned Ha. apply (elem_of_list_to_set (C := gset _)), Esub, elem_of_list_to_set,
    list_elem_of_omap in Ha as (message & Hm & Hassigned).
  elems in Hm. destruct Hm as [Hm Hindex]. exists message. by apply Z.eqb_eq in Hindex.
Qed.

Lemma open_namespace_Ok path w ns w' :
  open_namespace path w = (Ok ns, w') →
  same_view (nw_kernel w) (nw_kernel w') ∧ ns = sandbox_at path.
Proof.
  intros Hrun. apply query_Ok in Hrun as [Hv Hrun]; [|apply open_path_view].
  split; [done|]. by eapply open_path_sandbox.
Qed.

(** Both reads from one kernel state. *)
Lemma read_host_Ok plan w w1 w' peer rb :
  read_peer (sandbox_at (plan_netns plan)) plan w = (Ok peer, w1) →
  read_host plan (sandbox_at (plan_netns plan)) peer w1 = (Ok rb, w') →
  pair_ready plan rb (nw_kernel w') ∧ same_view (nw_kernel w) (nw_kernel w').
Proof.
  intros (Hv & Hindex & Haddrs & Hpeer & Hready & Hassigned)%read_peer_Ok Hrun.
  unfold read_host in Hrun. bind_ok Hrun as host w2 Hhost. bind_ok Hrun as [] w3 Hhost_ready.
  apply require_link_Ok in Hhost as (Hv2 & Hin & _). apply op_lift_Ok in Hhost_ready as [? ->].
  bind_ok Hrun as id w4 Hid. bind_ok Hrun as [] w5 Hpair. apply namespace_id_Ok in Hid.
  apply op_lift_Ok in Hpair as [? ->]. injection Hrun as <- <-.
  assert (Hv' : same_view (nw_kernel w) (nw_kernel w4)) by (by rewrite Hv, Hv2, Hid).
  split; [|done]. rewrite Hindex, Haddrs. rewrite (Hv host_namespace) in Hin.
  split. exists host, (peer_link peer), id, (peer_host_namespace_id peer).
  rewrite !Hv'. by split_and!.
Qed.

Lemma configure_peer_Ok plan ns w peer w' :
  configure_and_read_peer plan ns w = (Ok peer, w') →
  ∃ w1, read_peer ns plan w1 = (Ok peer, w').
Proof.
  unfold configure_and_read_peer, run_in_namespace. intros Hrun.
  do 7 bind_ok Hrun as ? ? _. by eexists.
Qed.

(** A plan that was applied is there. *)
Lemma veth_apply_Ok plan w rb w' :
  veth_apply plan w = (Ok rb, w') → pair_ready plan rb (nw_kernel w').
Proof.
  unfold veth_apply. intros Hrun. bind_ok Hrun as ns w1 Hopen.
  apply open_namespace_Ok in Hopen as [_ ->]. do 5 bind_ok Hrun as ? ? _.
  bind_ok Hrun as peer w2 Hpeer. apply configure_peer_Ok in Hpeer as [w3 Hpeer].
  by eapply read_host_Ok in Hrun as [? _].
Qed.

Lemma veth_readback_Ok plan w rb w' :
  veth_readback plan w = (Ok rb, w') →
  pair_ready plan rb (nw_kernel w') ∧ same_view (nw_kernel w) (nw_kernel w').
Proof.
  unfold veth_readback, run_in_namespace. intros Hrun. bind_ok Hrun as ns w1 Hopen.
  apply open_namespace_Ok in Hopen as [Hv ->]. do 4 (bind_ok Hrun as [] ? Hcall;
    apply link_call_Ok in Hcall; rewrite Hcall in Hv; clear Hcall).
  bind_ok Hrun as peer w2 Hpeer. do 2 (bind_ok Hpeer as [] ? Hcall;
    apply link_call_Ok in Hcall; rewrite Hcall in Hv; clear Hcall).
  eapply read_host_Ok in Hrun as [? Hv']; [|done]. split; [done|]. by rewrite Hv.
Qed.

(** The routes a kernel may have. *)
Definition routes_within (R : namespace → RouteMessage → Prop) (k : kernel) : Prop :=
  ∀ ns message, message ∈ net_routes (net_view k ns) → R ns message.

#[export] Instance routes_within_proper R : Proper (same_view ==> impl) (routes_within R).
Proof. intros k1 k2 Hv Hr ns message. rewrite Hv. apply Hr. Qed.

Lemma keeps_routes_seal R plan : keeps (routes_within R) (seal_pending_creation plan).
Proof.
  assert (Hset : ∀ index alias, keeps (routes_within R)
    (link_request (link_set host_namespace (set_alias index alias)))).
  { intros index alias. apply keeps_netlink. intros k HR ns message.
    rewrite link_set_routes by done. apply HR. }
  unfold seal_pending_creation, seal_just_created_pair, require_link, find_link.
  auto 40 with keeps.
Qed.

Lemma keeps_routes_del R ns index : keeps (routes_within R) (link_request (link_del ns index)).
Proof.
  apply keeps_netlink. intros k HR ns' message Hm%link_del_routes. by apply HR.
Qed.

Lemma keeps_routes_delete R plan : keeps (routes_within R) (veth_delete plan).
Proof.
  unfold veth_delete, delete_orphan, new_connection, run_in_namespace, validate_host,
    validate_peer, new_connection, sandbox, find_link.
  auto 40 using keeps_routes_seal, keeps_routes_del with keeps.
Qed.

(** A successful deletion leaves no link of the plan's name on the host. *)
Lemma veth_delete_Ok plan w outcome w' :
  veth_delete plan w = (Ok outcome, w') → ¬ named (nw_kernel w') host_namespace (plan_host_name plan).
Proof.
  unfold veth_delete. intros Hrun. do 2 bind_ok Hrun as ? ? _. bind_ok Hrun as found w1 Hfind.
  apply find_link_Ok in Hfind as [Hv Hfound]. destruct found as [host|].
  - bind_ok Hrun as [] w2 Hvalid. apply op_lift_Ok in Hvalid as [_ ->].
    bind_ok Hrun as [] w3 Hdel. injection Hrun as _ <-. apply netlink_Ok in Hdel.
    intros (link & Hin & Hname). pose proof Hin as Hgone. eapply link_del_gone in Hgone; [|done].
    replace (nw_kernel w3) with (link_del host_namespace (link_index host) (nw_kernel w1)).2 in Hin
      by (by rewrite Hdel).
    apply link_del_rest in Hin as (before & Hbefore & Hindex & Hsame). destruct Hfound as [Hhost Hn].
    rewrite <-Hv in Hhost. rewrite Hname in Hsame.
    by rewrite (link_name_unique _ _ _ _ _ Hbefore Hhost Hsame Hn) in Hindex.
  - assert (Hnone : ¬ named (nw_kernel w1) host_namespace (plan_host_name plan)).
    { intros Hnamed. apply Hfound. revert Hnamed. apply named_same. by rewrite Hv. }
    clear Hv Hfound. set (P name := named (nw_kernel w1) host_namespace name).
    assert (Hkeeps : keeps (host_names P) (delete_orphan plan)) by apply keeps_delete_orphan.
    destruct (Hkeeps w1) as (HP & _); [by intros name|]. rewrite Hrun in HP. intros Hn%HP. done.
Qed.

End Facts.

#[export] Hint Resolve keeps_link_call keeps_link_get keeps_address_get keeps_nsid_get
  keeps_open_namespace : keeps.
#[export] Hint Extern 0 (Proper _ _) => typeclasses eauto : keeps.
