(* ===== verification/NativeRoutes.v ===== *)
(** * The routes of an attachment ([crates/unf-route])

    The native routing plan of a record whose veth pair was read back: a host route to each
    leased address, the gateway and default routes of the sandbox, and permanent neighbours
    on both sides; and its lifecycle: a preflight that refuses foreign state under a key of the
    plan, apply with rollback, strict readback, and exact deletion.  The same local operations
    serve the plan of the routes to remote nodes. *)

From S2P Require Import Prelude Common NetAddr Ipam Bytes Runs Netlink CniAttachment VethPlan.

Definition MAX_WORKLOAD_MTU : Z := 65535.
Definition ROUTE_MIN_DUAL_STACK_MTU : Z := 1280.
Definition MAIN_ROUTE_TABLE : Z := 254.
Definition UNF_ROUTE_PROTOCOL : Z := 196.

Inductive NetworkNamespace := NsHost | NsContainer.
Inductive RouteScope := Universe | ScopedLink.

Record RouteSpec := {
  rs_namespace : NetworkNamespace;
  rs_destination : IpAddr;
  rs_prefix_len : Z;
  rs_gateway : option IpAddr;
  rs_output_interface : Z;
  rs_onlink : bool;
  rs_protocol : Z;
  rs_table : Z;
  rs_scope : RouteScope;
}.

Record NeighborSpec := {
  nb_namespace : NetworkNamespace;
  nb_destination : IpAddr;
  nb_output_interface : Z;
  nb_link_address : bytes;
}.

#[export] Instance NetworkNamespace_eq_dec : EqDecision NetworkNamespace.
Proof. solve_decision. Defined.
#[export] Instance RouteScope_eq_dec : EqDecision RouteScope.
Proof. solve_decision. Defined.
#[export] Instance RouteSpec_eq_dec : EqDecision RouteSpec.
Proof. solve_decision. Defined.
#[export] Instance NeighborSpec_eq_dec : EqDecision NeighborSpec.
Proof. solve_decision. Defined.

Inductive RouteError :=
| RouteInvalidMtu (underlay overhead : Z)
| RouteAttachmentMtuMismatch (attachment provider : Z)
| RouteLinkMismatch
| RouteInvalidLease
| RouteOpenNamespace (not_found : bool)
| RouteSymbolicLinkNamespace
| RouteNetlink
| RouteConflict (ns : NetworkNamespace)
| RouteReadbackFailed
| RouteNamespaceWorker
| RouteRollback.

(** ** Plans *)

Record MtuProfile := { underlay_mtu : Z; encapsulation_overhead : Z }.

Definition workload_mtu (profile : MtuProfile) : result RouteError Z :=
  let error := RouteInvalidMtu (underlay_mtu profile) (encapsulation_overhead profile) in
  if underlay_mtu profile <? encapsulation_overhead profile then Err error
  else
    let mtu := underlay_mtu profile - encapsulation_overhead profile in
    if negb ((ROUTE_MIN_DUAL_STACK_MTU <=? mtu) && (mtu <=? MAX_WORKLOAD_MTU)) then Err error
    else Ok mtu.

(** [NativeRoutingProvider::new]. *)
Definition native_provider (mtu : Z) : MtuProfile :=
  {| underlay_mtu := mtu; encapsulation_overhead := 0 |}.

Definition validate_links (attachment : AttachmentRecord) (links : LinkReadback) (mtu : Z)
    (allow_absent_indexes : bool) : result RouteError () :=
  if negb (bool_decide (rb_host_name links = att_host_interface attachment))
  then Err RouteLinkMismatch
  else if negb (bool_decide (rb_peer_name links = key_ifname (att_key attachment)))
  then Err RouteLinkMismatch
  else if negb (rb_mtu links =? mtu) then Err RouteLinkMismatch
  else if negb allow_absent_indexes && ((rb_host_index links =? 0) || (rb_peer_index links =? 0))
  then Err RouteLinkMismatch
  else if existsb (λ address, negb (bool_decide (address ∈ rb_addresses links)))
            (lease_addresses (att_lease attachment))
  then Err RouteLinkMismatch
  else Ok ().

Definition is_unspecified (address : IpAddr) : bool :=
  match address with V4 a | V6 a => a =? 0 end.

Definition validate_family (workload gateway : IpAddr) : result RouteError () :=
  if bool_decide (workload = gateway) || is_unspecified workload || is_unspecified gateway
  then Err RouteInvalidLease else Ok ().

Definition full_prefix (address : IpAddr) : Z := match address with V4 _ => 32 | V6 _ => 128 end.
Definition direct_scope (address : IpAddr) : RouteScope :=
  match address with V4 _ => ScopedLink | V6 _ => Universe end.

Definition host_route (workload : IpAddr) (output_interface : Z) : RouteSpec :=
  {| rs_namespace := NsHost; rs_destination := workload; rs_prefix_len := full_prefix workload;
     rs_gateway := None; rs_output_interface := output_interface; rs_onlink := false;
     rs_protocol := UNF_ROUTE_PROTOCOL; rs_table := MAIN_ROUTE_TABLE;
     rs_scope := direct_scope workload |}.

Definition gateway_route (gateway : IpAddr) (output_interface : Z) : RouteSpec :=
  {| rs_namespace := NsContainer; rs_destination := gateway; rs_prefix_len := full_prefix gateway;
     rs_gateway := None; rs_output_interface := output_interface; rs_onlink := false;
     rs_protocol := UNF_ROUTE_PROTOCOL; rs_table := MAIN_ROUTE_TABLE;
     rs_scope := direct_scope gateway |}.

Definition default_route (gateway : IpAddr) (output_interface : Z) : RouteSpec :=
  {| rs_namespace := NsContainer;
     rs_destination := match gateway with V4 _ => V4 0 | V6 _ => V6 0 end;
     rs_prefix_len := 0; rs_gateway := Some gateway; rs_output_interface := output_interface;
     rs_onlink := true; rs_protocol := UNF_ROUTE_PROTOCOL; rs_table := MAIN_ROUTE_TABLE;
     rs_scope := Universe |}.

Definition neighbor (ns : NetworkNamespace) (destination : IpAddr) (output_interface : Z)
    (link_address : bytes) : NeighborSpec :=
  {| nb_namespace := ns; nb_destination := destination;
     nb_output_interface := output_interface; nb_link_address := link_address |}.

Record NativeRoutePlan := {
  rp_host_name : string;
  rp_container_name : string;
  rp_netns : string;
  rp_mtu : Z;
  rp_host_routes : list RouteSpec;
  rp_container_routes : list RouteSpec;
  rp_host_neighbors : list NeighborSpec;
  rp_container_neighbors : list NeighborSpec;
}.

Definition build_plan (profile : MtuProfile) (attachment : AttachmentRecord)
    (links : LinkReadback) (allow_absent_indexes : bool) : result RouteError NativeRoutePlan :=
  let? mtu := workload_mtu profile in
  if negb (aspec_mtu (att_spec attachment) =? mtu)
  then Err (RouteAttachmentMtuMismatch (aspec_mtu (att_spec attachment)) mtu)
  else
    let? _ := validate_links attachment links mtu allow_absent_indexes in
    let workload_v4 := V4 (v4_address (lease_ipv4 (att_lease attachment))) in
    let gateway_v4 := V4 (v4_gateway (lease_ipv4 (att_lease attachment))) in
    let workload_v6 := V6 (v6_address (lease_ipv6 (att_lease attachment))) in
    let gateway_v6 := V6 (v6_gateway (lease_ipv6 (att_lease attachment))) in
    let? _ := validate_family workload_v4 gateway_v4 in
    let? _ := validate_family workload_v6 gateway_v6 in
    Ok {| rp_host_name := att_host_interface attachment;
          rp_container_name := key_ifname (att_key attachment);
          rp_netns := aspec_netns (att_spec attachment);
          rp_mtu := mtu;
          rp_host_routes := [host_route workload_v4 (rb_host_index links);
                             host_route workload_v6 (rb_host_index links)];
          rp_container_routes := [gateway_route gateway_v4 (rb_peer_index links);
                                  default_route gateway_v4 (rb_peer_index links);
                                  gateway_route gateway_v6 (rb_peer_index links);
                                  default_route gateway_v6 (rb_peer_index links)];
          rp_host_neighbors :=
            [neighbor NsHost workload_v4 (rb_host_index links) (rb_peer_address links);
             neighbor NsHost workload_v6 (rb_host_index links) (rb_peer_address links)];
          rp_container_neighbors :=
            [neighbor NsContainer gateway_v4 (rb_peer_index links) (rb_host_address links);
             neighbor NsContainer gateway_v6 (rb_peer_index links) (rb_host_address links)] |}.

(** [RoutingProvider::plan] and [cleanup_plan]. *)
Definition native_plan (attachment : AttachmentRecord) (links : LinkReadback) :
    result RouteError NativeRoutePlan :=
  build_plan (native_provider (aspec_mtu (att_spec attachment))) attachment links false.
Definition native_cleanup_plan (attachment : AttachmentRecord) (links : LinkReadback) :
    result RouteError NativeRoutePlan :=
  build_plan (native_provider (aspec_mtu (att_spec attachment))) attachment links true.

(** ** Reading messages *)

Definition route_address (address : RouteAddress) : option IpAddr :=
  match address with
  | RouteInet a => Some (V4 a)
  | RouteInet6 a => Some (V6 a)
  | RouteAddressOther => None
  end.

Definition route_destination (message : RouteMessage) : IpAddr :=
  default (match rtm_family message with FamilyInet6 => V6 0 | _ => V4 0 end)
    (find_map (λ a, match a with RtaDestination address => route_address address | _ => None end)
       (rtm_attributes message)).
Definition route_gateway (message : RouteMessage) : option IpAddr :=
  find_map (λ a, match a with RtaGateway address => route_address address | _ => None end)
    (rtm_attributes message).
Definition route_output_interface (message : RouteMessage) : option Z :=
  find_map (λ a, match a with RtaOif index => Some index | _ => None end) (rtm_attributes message).
Definition route_table (message : RouteMessage) : Z :=
  default (rtm_table message)
    (find_map (λ a, match a with RtaTable table => Some table | _ => None end)
       (rtm_attributes message)).

Definition kernel_scope (scope : RouteScope) : KernelRouteScope :=
  match scope with Universe => ScopeUniverse | ScopedLink => ScopeLink end.

Definition route_key_matches (message : RouteMessage) (spec : RouteSpec) : bool :=
  bool_decide (route_destination message = rs_destination spec)
  && (rtm_prefix_len message =? rs_prefix_len spec)
  && (route_table message =? rs_table spec).

Definition route_exact (message : RouteMessage) (spec : RouteSpec) : bool :=
  route_key_matches message spec
  && bool_decide (route_output_interface message = Some (rs_output_interface spec))
  && bool_decide (route_gateway message = rs_gateway spec)
  && (rtm_protocol message =? rs_protocol spec)
  && bool_decide (rtm_scope message = kernel_scope (rs_scope spec))
  && bool_decide (rtm_kind message = RouteUnicast)
  && Bool.eqb (rtm_onlink message) (rs_onlink spec).

Definition neighbor_destination (message : NeighbourMessage) : option IpAddr :=
  find_map (λ a, match a with
                 | NdaInet address => Some (V4 address)
                 | NdaInet6 address => Some (V6 address)
                 | _ => None
                 end) (ndm_attributes message).
Definition neighbor_link_address (message : NeighbourMessage) : option bytes :=
  find_map (λ a, match a with NdaLinkLayerAddress address => Some address | _ => None end)
    (ndm_attributes message).

Definition neighbor_key_matches (message : NeighbourMessage) (spec : NeighborSpec) : bool :=
  (ndm_ifindex message =? nb_output_interface spec)
  && bool_decide (neighbor_destination message = Some (nb_destination spec)).
Definition neighbor_exact (message : NeighbourMessage) (spec : NeighborSpec) : bool :=
  neighbor_key_matches message spec
  && bool_decide (ndm_state message = NeighbourPermanent)
  && bool_decide (neighbor_link_address message = Some (nb_link_address spec)).

(** ** Local operations *)

Record ObservedState := {
  observed_routes : list (option RouteMessage);
  observed_neighbors : list (option NeighbourMessage);
}.

Definition is_absent (state : ObservedState) : bool :=
  forallb (λ m, bool_decide (m = None)) (observed_routes state)
  && forallb (λ m, bool_decide (m = None)) (observed_neighbors state).
Definition is_complete (state : ObservedState) : bool :=
  forallb (λ m, bool_decide (is_Some m)) (observed_routes state)
  && forallb (λ m, bool_decide (is_Some m)) (observed_neighbors state).

Record AppliedState := {
  applied_routes : list RouteSpec;
  applied_neighbors : list NeighborSpec;
}.

Definition build_route (spec : RouteSpec) : RouteRequest :=
  {| rr_destination := rs_destination spec;
     rr_prefix_len := rs_prefix_len spec;
     rr_gateway := match rs_destination spec, rs_gateway spec with
                   | V4 _, Some (V4 gateway) => Some (V4 gateway)
                   | V6 _, Some (V6 gateway) => Some (V6 gateway)
                   | _, _ => None
                   end;
     rr_output_interface := rs_output_interface spec;
     rr_table := rs_table spec;
     rr_protocol := rs_protocol spec;
     rr_scope := kernel_scope (rs_scope spec);
     rr_onlink := rs_onlink spec |}.

(** The state under the key of a specification: absent, exact, or foreign. *)
Definition observe_route (messages : list RouteMessage) (spec : RouteSpec) :
    result RouteError (option RouteMessage) :=
  match List.filter (λ m, route_key_matches m spec) messages with
  | [] => Ok None
  | [message] => if route_exact message spec then Ok (Some message)
                 else Err (RouteConflict (rs_namespace spec))
  | _ => Err (RouteConflict (rs_namespace spec))
  end.
Definition observe_neighbor (messages : list NeighbourMessage) (spec : NeighborSpec) :
    result RouteError (option NeighbourMessage) :=
  match List.filter (λ m, neighbor_key_matches m spec) messages with
  | [] => Ok None
  | [message] => if neighbor_exact message spec then Ok (Some message)
                 else Err (RouteConflict (nb_namespace spec))
  | _ => Err (RouteConflict (nb_namespace spec))
  end.

(** The original error when every rollback succeeded. *)
Definition with_rollback (cause : RouteError) (rollbacks : list (result RouteError bool)) :
    RouteError :=
  if forallb is_ok rollbacks then cause else RouteRollback.

Definition require_complete (state : ObservedState) : result RouteError () :=
  if is_complete state then Ok () else Err RouteReadbackFailed.

Section Local.
Context `{Netlink}.

Abbreviation Net := (Routine NetWorld RouteError).

Definition route_request {A} (c : Routine kernel () A) : Net A := netlink (λ _, RouteNetlink) c.
Definition route_call (error : RouteError) : Net () := netlink (λ _, error) system_call.
Definition route_connect : Net () := route_call RouteNetlink.

Definition route_open_namespace (path : string) : Net namespace :=
  netlink (λ failure, match failure with
                      | OpenSymbolicLink => RouteSymbolicLinkNamespace
                      | OpenNotFound => RouteOpenNamespace true
                      | OpenOther => RouteOpenNamespace false
                      end) (open_path path).
Definition route_clone_namespace : Net () := route_call (RouteOpenNamespace false).
Definition route_run_in_namespace {A} (operation : Net A) : Net A :=
  let* _ := route_call RouteNamespaceWorker in operation.

Definition list_routes (ns : namespace) : Net (list RouteMessage) :=
  let* ipv4 := route_request (route_get ns FamilyInet) in
  let* ipv6 := route_request (route_get ns FamilyInet6) in
  op_ret (ipv4 ++ ipv6).

Definition list_neighbors (ns : namespace) : Net (list NeighbourMessage) :=
  route_request (neighbour_get ns).

Definition inspect_local (ns : namespace) (routes : list RouteSpec)
    (neighbors : list NeighborSpec) : Net ObservedState :=
  let* route_messages := list_routes ns in
  let* neighbor_messages := list_neighbors ns in
  op_lift (let? observed := try_map (observe_route route_messages) routes in
           let? neighbours := try_map (observe_neighbor neighbor_messages) neighbors in
           Ok {| observed_routes := observed; observed_neighbors := neighbours |}).

Definition delete_local (ns : namespace) (routes : list RouteSpec)
    (neighbors : list NeighborSpec) : Net bool :=
  let* observed := inspect_local ns routes neighbors in
  let* _ := for_each (λ message, route_request (route_del ns message))
    (omap id (rev (observed_routes observed))) in
  let* _ := for_each (λ message, route_request (neighbour_del ns message))
    (omap id (rev (observed_neighbors observed))) in
  op_ret (negb (is_absent observed)).

Definition rollback_local (ns : namespace) (changes : AppliedState) : Net bool :=
  delete_local ns (applied_routes changes) (applied_neighbors changes).

(** A failed addition undoes what this call added before it. *)
Definition undo {A} (ns : namespace) (changes : AppliedState) (cause : RouteError) : Net A :=
  let* rollback := attempt (rollback_local ns changes) in
  op_fail (with_rollback cause [rollback]).

Fixpoint apply_neighbors (ns : namespace) (l : list (NeighborSpec * option NeighbourMessage))
    (changes : AppliedState) : Net AppliedState :=
  match l with
  | [] => op_ret changes
  | (_, Some _) :: l => apply_neighbors ns l changes
  | (spec, None) :: l =>
      let* added := attempt (route_request (neighbour_add ns (nb_output_interface spec)
        (nb_destination spec) (nb_link_address spec))) in
      match added with
      | Err cause => undo ns changes cause
      | Ok _ => apply_neighbors ns l
          {| applied_routes := applied_routes changes;
             applied_neighbors := applied_neighbors changes ++ [spec] |}
      end
  end.

Fixpoint apply_routes (ns : namespace) (l : list (RouteSpec * option RouteMessage))
    (changes : AppliedState) : Net AppliedState :=
  match l with
  | [] => op_ret changes
  | (_, Some _) :: l => apply_routes ns l changes
  | (spec, None) :: l =>
      let* added := attempt (route_request (route_add ns (build_route spec))) in
      match added with
      | Err cause => undo ns changes cause
      | Ok _ => apply_routes ns l
          {| applied_routes := applied_routes changes ++ [spec];
             applied_neighbors := applied_neighbors changes |}
      end
  end.

Definition apply_local (ns : namespace) (routes : list RouteSpec)
    (neighbors : list NeighborSpec) : Net AppliedState :=
  let* observed := inspect_local ns routes neighbors in
  let* changes := apply_neighbors ns (zip neighbors (observed_neighbors observed))
    {| applied_routes := []; applied_neighbors := [] |} in
  apply_routes ns (zip routes (observed_routes observed)) changes.

(** ** The plan of an attachment *)

Definition rollback_container_changes (ns : namespace) (changes : AppliedState) : Net bool :=
  let* _ := route_clone_namespace in
  route_run_in_namespace (let* _ := route_connect in rollback_local ns changes).

(** The states of both namespaces, complete. *)
Definition native_readback (plan : NativeRoutePlan) : Net () :=
  let* ns := route_open_namespace (rp_netns plan) in
  let* _ := route_connect in
  let* host_state := inspect_local host_namespace (rp_host_routes plan) (rp_host_neighbors plan) in
  let* _ := op_lift (require_complete host_state) in
  let* container_state := route_run_in_namespace (
    let* _ := route_connect in
    inspect_local ns (rp_container_routes plan) (rp_container_neighbors plan)) in
  op_lift (require_complete container_state).

Definition native_apply (plan : NativeRoutePlan) : Net () :=
  let* ns := route_open_namespace (rp_netns plan) in
  let* _ := route_connect in
  let* _ := inspect_local host_namespace (rp_host_routes plan) (rp_host_neighbors plan) in
  let* _ := route_clone_namespace in
  let* _ := route_run_in_namespace (
    let* _ := route_connect in
    inspect_local ns (rp_container_routes plan) (rp_container_neighbors plan)) in
  let* _ := route_clone_namespace in
  let* container_changes := route_run_in_namespace (
    let* _ := route_connect in
    apply_local ns (rp_container_routes plan) (rp_container_neighbors plan)) in
  let* host_changes := attempt (E := RouteError)
    (apply_local host_namespace (rp_host_routes plan) (rp_host_neighbors plan)) in
  match host_changes with
  | Err cause =>
      let* container_rollback := attempt (E := RouteError)
        (rollback_container_changes ns container_changes) in
      op_fail (with_rollback cause [container_rollback])
  | Ok host_changes =>
      let* read := attempt (E := RouteError) (native_readback plan) in
      match read with
      | Ok _ => op_ret ()
      | Err cause =>
          let* host_rollback := attempt (E := RouteError)
            (rollback_local host_namespace host_changes) in
          let* container_rollback := attempt (E := RouteError)
            (rollback_container_changes ns container_changes) in
          op_fail (with_rollback cause [host_rollback; container_rollback])
      end
  end.

Inductive RouteDeleteOutcome := RoutesDeleted | RoutesAlreadyAbsent.

Definition native_delete (plan : NativeRoutePlan) : Net RouteDeleteOutcome :=
  let* _ := route_connect in
  let* host_state := inspect_local host_namespace (rp_host_routes plan) (rp_host_neighbors plan) in
  let* opened := attempt (E := RouteError) (route_open_namespace (rp_netns plan)) in
  let* ns := match opened with
             | Ok ns => op_ret (Some ns)
             | Err (RouteOpenNamespace true) => op_ret None
             | Err error => op_fail error
             end in
  let* container_state :=
    match ns with
    | Some ns =>
        let* _ := route_clone_namespace in
        let* state := route_run_in_namespace (
          let* _ := route_connect in
          inspect_local ns (rp_container_routes plan) (rp_container_neighbors plan)) in
        op_ret (Some state)
    | None => op_ret None
    end in
  let any_present := negb (is_absent host_state)
    || is_some_and container_state (λ state, negb (is_absent state)) in
  let* _ :=
    match ns with
    | Some ns =>
        let* _ := route_run_in_namespace (
          let* _ := route_connect in
          delete_local ns (rp_container_routes plan) (rp_container_neighbors plan)) in
        op_ret ()
    | None => op_ret ()
    end in
  let* _ := delete_local host_namespace (rp_host_routes plan) (rp_host_neighbors plan) in
  op_ret (if any_present then RoutesDeleted else RoutesAlreadyAbsent).

End Local.
