(* ===== verification/RouteFacts.v ===== *)
(** * Routes in the kernel

    What the lifecycle of a routing plan does: it leaves links and addresses alone, a plan
    that was applied or read back is installed, and a deletion leaves no route under a key of
    the plan. *)

From S2P Require Import Prelude Common NetAddr Ipam Bytes Runs Netlink CniAttachment VethPlan VethFacts NativeRoutes.

Section Facts.
Context `{NetlinkLaws}.

(** ** The links are left alone *)

Section Links.
Context (I : kernel → Prop) `{!Proper (same_links ==> impl) I}.

Lemma keeps_links {F E A} (error : F → E) (c : Routine kernel F A) :
  (∀ k, same_links k (c k).2) → keeps I (netlink error c).
Proof. intros Hc. apply keeps_netlink. intros k. by apply (Proper0 k). Qed.

Lemma keeps_route_query {F E A} (error : F → E) (c : Routine kernel F A) :
  (∀ k, same_view k (c k).2) → keeps I (netlink error c).
Proof. intros Hc. apply keeps_links. auto using same_view_links. Qed.

Lemma keeps_route_call error : keeps I (route_call error).
Proof. apply keeps_route_query, system_call_view. Qed.
Lemma keeps_route_open path : keeps I (route_open_namespace path).
Proof. apply keeps_route_query, open_path_view. Qed.
Lemma keeps_route_get ns family : keeps I (route_request (route_get ns family)).
Proof. apply keeps_route_query, route_get_view. Qed.
Lemma keeps_neighbour_get ns : keeps I (route_request (neighbour_get ns)).
Proof. apply keeps_route_query, neighbour_get_view. Qed.
Lemma keeps_route_add ns request : keeps I (route_request (route_add ns request)).
Proof. apply keeps_links. intros k. apply route_add_rest. Qed.
Lemma keeps_route_del ns message : keeps I (route_request (route_del ns message)).
Proof. apply keeps_links. intros k. apply route_del_rest. Qed.
Lemma keeps_neighbour_add ns index address link_address :
  keeps I (route_request (neighbour_add ns index address link_address)).
Proof. apply keeps_links. intros k. apply neighbour_add_rest. Qed.
Lemma keeps_neighbour_del ns message : keeps I (route_request (neighbour_del ns message)).
Proof. apply keeps_links. intros k. apply neighbour_del_rest. Qed.
#[local] Hint Resolve keeps_route_call keeps_route_open keeps_route_get keeps_neighbour_get
  keeps_route_add keeps_route_del keeps_neighbour_add keeps_neighbour_del : keeps.

Lemma keeps_inspect ns routes neighbors : keeps I (inspect_local ns routes neighbors).
Proof. unfold inspect_local, list_routes, list_neighbors. auto 10 with keeps. Qed.
#[local] Hint Resolve keeps_inspect : keeps.

Lemma keeps_delete_local ns routes neighbors : keeps I (delete_local ns routes neighbors).
Proof. unfold delete_local. auto 10 with keeps. Qed.
#[local] Hint Resolve keeps_delete_local : keeps.

Lemma keeps_undo {A} ns changes cause : keeps I (undo (A := A) ns changes cause).
Proof. unfold undo, rollback_local. auto 10 with keeps. Qed.
#[local] Hint Resolve keeps_undo : keeps.

Lemma keeps_apply_neighbors ns l changes : keeps I (apply_neighbors ns l changes).
Proof.
  revert changes. induction l as [|[spec [m|]] l IH]; intros changes; simpl; auto 10 with keeps.
Qed.
Lemma keeps_apply_routes ns l changes : keeps I (apply_routes ns l changes).
Proof.
  revert changes. induction l as [|[spec [m|]] l IH]; intros changes; simpl; auto 10 with keeps.
Qed.
#[local] Hint Resolve keeps_apply_neighbors keeps_apply_routes : keeps.

Lemma keeps_apply_local ns routes neighbors : keeps I (apply_local ns routes neighbors).
Proof. unfold apply_local. auto 10 with keeps. Qed.
#[local] Hint Resolve keeps_apply_local : keeps.

Lemma keeps_native_readback plan : keeps I (native_readback plan).
Proof. unfold native_readback, route_run_in_namespace, route_connect. auto 20 with keeps. Qed.
#[local] Hint Resolve keeps_native_readback : keeps.

Lemma keeps_native_apply plan : keeps I (native_apply plan).
Proof.
  unfold native_apply, rollback_container_changes, rollback_local, route_run_in_namespace,
    route_clone_namespace, route_connect. auto 40 with keeps.
Qed.

Lemma keeps_native_delete plan : keeps I (native_delete plan).
Proof.
  unfold native_delete, route_run_in_namespace, route_clone_namespace, route_connect.
  auto 40 with keeps.
Qed.

End Links.

(** ** What a successful run tells *)

(** The IP routes of a namespace, as they are listed. *)
Definition listing (k : kernel) (ns : namespace) : list RouteMessage :=
  let routes := net_routes (net_view k ns) in
  List.filter (λ m, bool_decide (rtm_family m = FamilyInet)) routes ++
  List.filter (λ m, bool_decide (rtm_family m = FamilyInet6)) routes.

Lemma elem_of_listing k ns m :
  m ∈ listing k ns ↔ m ∈ net_routes (net_view k ns) ∧ rtm_family m ≠ FamilyOther.
Proof.
  unfold listing. elems. rewrite !bool_decide_eq_true.
  destruct (rtm_family m) eqn:E; naive_solver.
Qed.

(** The specifications of a plan are in the kernel, each alone under its key. *)
Record installed (ns : namespace) (routes : list RouteSpec) (neighbors : list NeighborSpec)
    (k : kernel) : Prop := {
  installed_route spec : spec ∈ routes →
    ∃ message, route_exact message spec = true ∧
      ∀ m, m ∈ listing k ns ∧ route_key_matches m spec = true ↔ m = message;
  installed_neighbor spec : spec ∈ neighbors →
    ∃ message, neighbor_exact message spec = true ∧
      ∀ m, m ∈ net_neighbours (net_view k ns) ∧ neighbor_key_matches m spec = true ↔ m = message;
}.

#[export] Instance installed_proper ns routes neighbors :
  Proper (same_view ==> impl) (installed ns routes neighbors).
Proof.
  intros k k' Hv [Hr Hn]. unfold listing in Hr. split; unfold listing; rewrite Hv; done.
Qed.

Lemma route_call_Ok error w a w' :
  route_call error w = (Ok a, w') → same_view (nw_kernel w) (nw_kernel w').
Proof. intros Hrun. by apply query_Ok in Hrun as [? _]; [|apply system_call_view]. Qed.

Lemma route_open_Ok path w ns w' :
  route_open_namespace path w = (Ok ns, w') →
  same_view (nw_kernel w) (nw_kernel w') ∧ ns = sandbox_at path.
Proof.
  intros Hrun. apply query_Ok in Hrun as [Hv Hrun]; [|apply open_path_view].
  split; [done|]. by eapply open_path_sandbox.
Qed.

Lemma inspect_local_Ok ns routes neighbors w observed w' :
  inspect_local ns routes neighbors w = (Ok observed, w') →
  same_view (nw_kernel w) (nw_kernel w') ∧
  Forall2 (λ spec o, observe_route (listing (nw_kernel w) ns) spec = Ok o)
    routes (observed_routes observed) ∧
  Forall2 (λ spec o, observe_neighbor (net_neighbours (net_view (nw_kernel w) ns)) spec = Ok o)
    neighbors (observed_neighbors observed).
Proof.
  unfold inspect_local, list_routes, list_neighbors. intros Hrun.
  bind_ok Hrun as messages w1 Hlist. bind_ok Hlist as ipv4 w2 H4. bind_ok Hlist as ipv6 w3 H6.
  injection Hlist as <- <-. bind_ok Hrun as neighbours w4 Hneighbours.
  apply op_lift_Ok in Hrun as [Hrun ->].
  apply query_Ok in H4 as [Hv1 ->%route_get_reports]; [|apply route_get_view].
  apply query_Ok in H6 as [Hv2 ->%route_get_reports]; [|apply route_get_view].
  apply query_Ok in Hneighbours as [Hv3 ->%neighbour_get_reports]; [|apply neighbour_get_view].
  split; [by rewrite Hv1, Hv2, Hv3|]. rewrite Hv2, Hv1 in Hrun.
  destruct (try_map _ routes) as [rs|] eqn:Er; [|done].
  destruct (try_map _ neighbors) as [ns'|] eqn:En; [|done]. injection Hrun as <-.
  by apply try_map_Forall2 in Er, En.
Qed.

Lemma observe_route_Some messages spec message :
  observe_route messages spec = Ok (Some message) →
  route_exact message spec = true ∧
  ∀ m, m ∈ messages ∧ route_key_matches m spec = true ↔ m = message.
Proof.
  unfold observe_route. intros Hobs.
  assert (Hin : ∀ m, m ∈ messages ∧ route_key_matches m spec = true ↔
    m ∈ List.filter (λ m, route_key_matches m spec) messages) by (intros; elems; naive_solver).
  destruct (List.filter _ _) as [|x [|y l]]; [done| |done].
  destruct (route_exact x spec) eqn:Eexact; [|done]. injection Hobs as ->.
  split; [done|]. intros m. rewrite Hin. elems. naive_solver.
Qed.

Lemma observe_route_None messages spec m :
  observe_route messages spec = Ok None → m ∈ messages → route_key_matches m spec = false.
Proof.
  unfold observe_route. intros Hobs Hm. apply not_true_is_false. intros Hkey.
  assert (Hin : m ∈ List.filter (λ m, route_key_matches m spec) messages) by (by elems).
  destruct (List.filter _ _) as [|x [|y l]]; [by elems in Hin| |done].
  by destruct (route_exact x spec).
Qed.

Lemma observe_neighbor_Some messages spec message :
  observe_neighbor messages spec = Ok (Some message) →
  neighbor_exact message spec = true ∧
  ∀ m, m ∈ messages ∧ neighbor_key_matches m spec = true ↔ m = message.
Proof.
  unfold observe_neighbor. intros Hobs.
  assert (Hin : ∀ m, m ∈ messages ∧ neighbor_key_matches m spec = true ↔
    m ∈ List.filter (λ m, neighbor_key_matches m spec) messages) by (intros; elems; naive_solver).
  destruct (List.filter _ _) as [|x [|y l]]; [done| |done].
  destruct (neighbor_exact x spec) eqn:Eexact; [|done]. injection Hobs as ->.
  split; [done|]. intros m. rewrite Hin. elems. naive_solver.
Qed.

Lemma inspect_complete ns routes neighbors w observed w' :
  inspect_local ns routes neighbors w = (Ok observed, w') →
  require_complete observed = Ok () →
  installed ns routes neighbors (nw_kernel w') ∧ same_view (nw_kernel w) (nw_kernel w').
Proof.
  intros (Hv & Hr & Hn)%inspect_local_Ok. unfold require_complete, is_complete.
  destruct (_ && _) eqn:E; [|done]. intros _. split; [|done]. apply andb_true_iff in E as [Er En].
  rewrite forallb_forall in Er, En. rewrite <-Hv.
  split; intros spec Hspec; apply list_elem_of_lookup in Hspec as [i Hi].
  - destruct (Forall2_lookup_l _ _ _ _ _ Hr Hi) as (o & Ho & Hobs).
    apply list_elem_of_lookup_2, list_elem_of_In, Er, bool_decide_eq_true in Ho as [m ->].
    exists m. by apply observe_route_Some.
  - destruct (Forall2_lookup_l _ _ _ _ _ Hn Hi) as (o & Ho & Hobs).
    apply list_elem_of_lookup_2, list_elem_of_In, En, bool_decide_eq_true in Ho as [m ->].
    exists m. by apply observe_neighbor_Some.
Qed.

(** A plan that was read back is installed in both namespaces. *)
Record plan_installed (plan : NativeRoutePlan) (k : kernel) : Prop := {
  plan_host : installed host_namespace (rp_host_routes plan) (rp_host_neighbors plan) k;
  plan_container : installed (sandbox_at (rp_netns plan)) (rp_container_routes plan)
    (rp_container_neighbors plan) k;
}.

Lemma native_readback_Ok plan w w' :
  native_readback plan w = (Ok (), w') →
  plan_installed plan (nw_kernel w') ∧ same_view (nw_kernel w) (nw_kernel w').
Proof.
  unfold native_readback, route_run_in_namespace, route_connect. intros Hrun.
  bind_ok Hrun as ns w1 Hopen. apply route_open_Ok in Hopen as [Hv1 ->].
  bind_ok Hrun as [] w2 Hcall. apply route_call_Ok in Hcall as Hv2.
  bind_ok Hrun as host_state w3 Hhost. bind_ok Hrun as [] w4 Hcomplete.
  apply op_lift_Ok in Hcomplete as [Hcomplete ->].
  apply (inspect_complete _ _ _ _ _ _ Hhost) in Hcomplete as [Hinstalled Hv3].
  bind_ok Hrun as container_state w5 Hcontainer. apply op_lift_Ok in Hrun as [Hcomplete ->].
  bind_ok Hcontainer as [] w6 Hcall4. apply route_call_Ok in Hcall4 as Hv4.
  bind_ok Hcontainer as [] w7 Hcall5. apply route_call_Ok in Hcall5 as Hv5.
  apply (inspect_complete _ _ _ _ _ _ Hcontainer) in Hcomplete as [Hinstalled' Hv6].
  split; [split; [|done]|by rewrite Hv1, Hv2, Hv3, Hv4, Hv5, Hv6].
  by rewrite <-Hv6, <-Hv5, <-Hv4.
Qed.

Lemma native_apply_Ok plan w w' :
  native_apply plan w = (Ok (), w') →
  plan_installed plan (nw_kernel w') ∧ same_links (nw_kernel w) (nw_kernel w').
Proof.
  intros Hrun. split.
  - unfold native_apply in Hrun. do 7 bind_ok Hrun as ? ? _. bind_ok Hrun as [changes|e] w1 _.
    + bind_ok Hrun as [[]|e] w2 Hread.
      * injection Hrun as <-. apply attempt_Ok, native_readback_Ok in Hread. apply Hread.
      * do 2 bind_ok Hrun as ? ? _. done.
    + bind_ok Hrun as ? ? _. done.
  - destruct (keeps_native_apply (same_links (nw_kernel w)) plan w) as (Hsame & _); [done|].
    by rewrite Hrun in Hsame.
Qed.

(** No IP route under a key of [routes]. *)
Definition vacated (ns : namespace) (routes : list RouteSpec) (k : kernel) : Prop :=
  ∀ spec m, spec ∈ routes → m ∈ listing k ns → route_key_matches m spec = false.

Lemma delete_routes_Ok ns l w w' :
  for_each (λ message, route_request (route_del ns message)) l w = (Ok (), w') →
  ∀ m, m ∈ net_routes (net_view (nw_kernel w') ns) →
    m ∈ net_routes (net_view (nw_kernel w) ns) ∧ m ∉ l.
Proof.
  revert w. induction l as [|x l IH]; simpl; intros w Hrun m Hm.
  - injection Hrun as <-. split; [done|by apply not_elem_of_nil].
  - bind_ok Hrun as [] w1 Hdel. apply netlink_Ok in Hdel.
    destruct (IH _ Hrun m Hm) as [Hm1 Hnot]. eapply route_del_gone in Hm1 as [? ?]; [|done].
    split; [done|]. by apply not_elem_of_cons.
Qed.

Lemma delete_neighbors_Ok ns l w w' :
  for_each (λ message, route_request (neighbour_del ns message)) l w = (Ok (), w') →
  net_routes (net_view (nw_kernel w') ns) = net_routes (net_view (nw_kernel w) ns).
Proof.
  revert w. induction l as [|x l IH]; simpl; intros w Hrun; [by injection Hrun as <-|].
  bind_ok Hrun as [] w1 Hdel. apply netlink_Ok in Hdel. rewrite (IH _ Hrun).
  pose proof (neighbour_del_routes ns x (nw_kernel w)) as Hr. by rewrite Hdel in Hr.
Qed.

Lemma delete_local_Ok ns routes neighbors w existed w' :
  delete_local ns routes neighbors w = (Ok existed, w') → vacated ns routes (nw_kernel w').
Proof.
  unfold delete_local. intros Hrun. bind_ok Hrun as observed w1 Hinspect.
  apply inspect_local_Ok in Hinspect as (Hv & Hr & _). bind_ok Hrun as [] w2 Hroutes.
  bind_ok Hrun as [] w3 Hneighbors. injection Hrun as _ <-.
  apply delete_neighbors_Ok in Hneighbors. intros spec m Hspec [Hm Hfamily]%elem_of_listing.
  rewrite Hneighbors in Hm. destruct (delete_routes_Ok _ _ _ _ Hroutes m Hm) as [Hm1 Hnot].
  rewrite Hv in Hm1. assert (Hlisted : m ∈ listing (nw_kernel w) ns) by (by apply elem_of_listing).
  apply list_elem_of_lookup in Hspec as [i Hi].
  destruct (Forall2_lookup_l _ _ _ _ _ Hr Hi) as ([message|] & Ho & Hobs).
  - apply not_true_is_false. intros Hkey. apply observe_route_Some in Hobs as [_ Hunique].
    assert (m = message) as -> by (by apply Hunique). apply Hnot, list_elem_of_omap.
    exists (Some message). split; [|done]. apply list_elem_of_In, in_rev. rewrite rev_involutive.
    apply list_elem_of_In. by eapply list_elem_of_lookup_2.
  - by eapply observe_route_None.
Qed.

Lemma native_delete_Ok plan w outcome w' :
  native_delete plan w = (Ok outcome, w') →
  vacated host_namespace (rp_host_routes plan) (nw_kernel w').
Proof.
  unfold native_delete. intros Hrun. do 6 bind_ok Hrun as ? ? _. bind_ok Hrun as ? w1 Hdelete.
  injection Hrun as _ <-. by eapply delete_local_Ok.
Qed.

(** Deleting the pair afterwards brings no route back. *)
Lemma vacated_deleted ns routes plan w r w' :
  vacated ns routes (nw_kernel w) → veth_delete plan w = (r, w') →
  vacated ns routes (nw_kernel w').
Proof.
  intros Hvac Hrun.
  destruct (keeps_routes_delete (λ ns' m, ns' = ns → rtm_family m ≠ FamilyOther →
    ∀ spec, spec ∈ routes → route_key_matches m spec = false) plan w) as (Hwithin & _).
  { intros ns' m Hm -> Hfamily spec Hspec. apply Hvac; [done|]. by apply elem_of_listing. }
  rewrite Hrun in Hwithin. intros spec m Hspec [Hm Hfamily]%elem_of_listing.
  by eapply (Hwithin ns m).
Qed.

(** No IP route of the host leads to the addresses of a lease. *)
Definition unrouted (lease : DualStackLease) (k : kernel) : Prop :=
  vacated host_namespace [host_route (V4 (lease_a4 lease)) 0; host_route (V6 (lease_a6 lease)) 0] k.

Lemma build_plan_Ok profile attachment links absent plan :
  build_plan profile attachment links absent = Ok plan →
  rp_host_routes plan = [host_route (V4 (lease_a4 (att_lease attachment))) (rb_host_index links);
                         host_route (V6 (lease_a6 (att_lease attachment))) (rb_host_index links)] ∧
  rp_netns plan = aspec_netns (att_spec attachment).
Proof. unfold build_plan. intros Hplan. split_ok Hplan. by injection Hplan as <-. Qed.

Lemma vacated_unrouted attachment links absent profile plan k :
  build_plan profile attachment links absent = Ok plan →
  vacated host_namespace (rp_host_routes plan) k → unrouted (att_lease attachment) k.
Proof.
  intros [Hroutes _]%build_plan_Ok Hvac spec m Hspec Hm. rewrite Hroutes in Hvac.
  elems in Hspec. destruct Hspec as [->|[->|[]]].
  - apply (Hvac (host_route (V4 (lease_a4 (att_lease attachment))) (rb_host_index links))); [by left|done].
  - apply (Hvac (host_route (V6 (lease_a6 (att_lease attachment))) (rb_host_index links))); [|done].
    right. by left.
Qed.

End Facts.
