(* ===== verification/CniAgent.v ===== *)
(** * What the agent promises to the plugin

    The journal behind the agent's socket, seen from an invocation of the plugin: an answer
    reports the record the journal now has, and whatever the agent does on its own (install
    its hook, lose power, restart) or while it serves a request, a journaled attachment stays
    journaled until the completion of its abort or of its deletion. *)

From S2P Require Import Prelude Common NetAddr Ipam Bytes Runs CniAttachment CniJournal CniJournalFacts CniJournalCrash CniJournalSafety.

(** ** Answers *)

(** The key whose record an operation answers with. *)
Definition operation_key (operation : TransactionOperation) : option AttachmentKey :=
  match operation with
  | OpStatus | OpList _ _ _ => None
  | OpInspect key | OpCommit key | OpBeginAbort key | OpCompleteAbort key
  | OpBeginDelete key | OpCompleteDelete key => Some key
  | OpPrepare spec | OpCheck spec => Some (aspec_key spec)
  end.

(** What the phase of the answered record is, and which specification it accepts. *)
Definition answer_fits (operation : TransactionOperation) (answer : option AttachmentRecord) : Prop :=
  match operation with
  | OpStatus | OpList _ _ _ | OpInspect _ => True
  | OpPrepare spec => ∃ r, answer = Some r ∧ att_phase r = Preparing ∧
      accepts_replay (att_spec r) spec = true
  | OpCheck spec => ∃ r, answer = Some r ∧ att_phase r = Ready ∧
      accepts_replay (att_spec r) spec = true
  | OpCommit _ => ∃ r, answer = Some r ∧ att_phase r = Ready
  | OpBeginAbort _ => ∀ r, answer = Some r → att_phase r = Aborting
  | OpBeginDelete key => validate_key key = Ok () ∧ ∀ r, answer = Some r → att_phase r = Deleting
  | OpCompleteAbort _ | OpCompleteDelete _ => answer = None
  end.

Lemma accepts_replay_refl spec : accepts_replay spec spec = true.
Proof.
  unfold accepts_replay. rewrite !bool_decide_eq_true_2, Z.eqb_refl by done. simpl.
  destruct (aspec_workload_uid spec); simpl; [by apply bool_decide_eq_true|done].
Qed.

(** Splits a run of an operation on a record by what it finds. *)
Ltac record_cases Hrun :=
  unfold op_bind, get_journal, op_ret, op_fail, put_record, put_journal, remove_record in Hrun;
  simpl in Hrun;
  destruct (aj_get _ _) as [record|] eqn:Hget; [destruct (att_phase record) eqn:Hphase|];
  simpl in Hrun; simplify_eq.

Section Answers.
Context (env : JournalEnv) (s : JournalState).
Local Abbreviation j := (js_journal s).

Lemma prepare_answer spec version r s' :
  prepare env spec version s = (Ok r, s') →
  aj_get (js_journal s') (aspec_key spec) = Some r ∧ att_phase r = Preparing ∧
  accepts_replay (att_spec r) spec = true.
Proof.
  unfold prepare. unfold op_bind at 1, get_journal; simpl.
  destruct (aj_get _ _) as [existing|] eqn:Hget.
  - destruct (accepts_replay _ _) eqn:Ereplay; [|done]. simpl.
    case_bool_decide; [|done]. by intros [= <- <-].
  - destruct (existsb _ _); [done|]. intros Hrun.
    do 3 (apply op_bind_Ok in Hrun as (? & ? & _ & Hrun)).
    unfold op_bind, put_record, put_journal, op_ret in Hrun. simplify_eq/=.
    split_and!; [|done|apply accepts_replay_refl]. by apply lookup_insert_eq.
Qed.

Lemma commit_answer key r s' :
  commit key s = (Ok r, s') → aj_get (js_journal s') key = Some r ∧ att_phase r = Ready.
Proof.
  intros Hrun. unfold commit in Hrun. record_cases Hrun; [|done].
  split; [by apply lookup_insert_eq|done].
Qed.

Lemma begin_abort_answer key r s' :
  begin_abort key s = (Ok r, s') →
  aj_get (js_journal s') key = r ∧ ∀ x, r = Some x → att_phase x = Aborting.
Proof.
  intros Hrun. unfold begin_abort in Hrun. record_cases Hrun; [..|done];
    (split; [by apply lookup_insert_eq|by intros ? [= <-]]).
Qed.

Lemma begin_delete_answer key r s' :
  begin_delete key s = (Ok r, s') →
  aj_get (js_journal s') key = r ∧ ∀ x, r = Some x → att_phase x = Deleting.
Proof.
  intros Hrun. unfold begin_delete in Hrun. record_cases Hrun; [..|done].
  3: split; [done|by intros ? [= <-]].
  all: split; [by apply lookup_insert_eq|by intros ? [= <-]].
Qed.

Lemma complete_abort_answer key r s' :
  complete_abort key s = (Ok r, s') → aj_get (js_journal s') key = None ∧ r = None.
Proof.
  intros Hrun. unfold complete_abort in Hrun. record_cases Hrun; [|done].
  split; [by apply lookup_delete_eq|done].
Qed.

Lemma complete_delete_answer key r s' :
  complete_delete key s = (Ok r, s') → aj_get (js_journal s') key = None ∧ r = None.
Proof.
  intros Hrun. unfold complete_delete in Hrun. record_cases Hrun; [|done].
  split; [by apply lookup_delete_eq|done].
Qed.

Lemma check_answer spec r s' :
  check spec s = (Ok r, s') →
  aj_get (js_journal s') (aspec_key spec) = Some r ∧ att_phase r = Ready ∧
  accepts_replay (att_spec r) spec = true.
Proof.
  unfold check, op_bind, get_journal; simpl. destruct (aj_get _ _) as [record|] eqn:Hget; [|done].
  destruct (accepts_replay _ _) eqn:Ereplay; [|done]. simpl.
  case_bool_decide; [|done]. by intros [= <- <-].
Qed.

(** An operation answers with the record it leaves under its key. *)
Lemma apply_operation_answer operation version answer listed s' key :
  apply_operation env operation version s = (Ok (answer, listed), s') →
  operation_key operation = Some key →
  answer = aj_attachments (js_journal s') !! key ∧ answer_fits operation answer.
Proof.
  intros Hrun Hkey. destruct operation; simplify_eq/=;
    apply op_bind_Ok in Hrun as ([] & s1 & [Hvalid ->]%op_lift_Ok & Hrun);
    apply op_bind_Ok in Hrun as (x & s2 & Hop & [= <- _ <-]).
  - by injection Hop as <- <-.
  - apply prepare_answer in Hop as (? & ? & ?). eauto.
  - apply commit_answer in Hop as (? & ?). eauto.
  - apply begin_abort_answer in Hop as (? & ?). eauto.
  - apply complete_abort_answer in Hop as (? & ->). eauto.
  - apply check_answer in Hop as (? & ? & ?). eauto.
  - apply begin_delete_answer in Hop as (? & ?). eauto.
  - apply complete_delete_answer in Hop as (? & ->). eauto.
Qed.

End Answers.

(** ** Journaled attachments *)

(** What the agent does on its own: everything but serving requests. *)
Definition alone (call : JournalCall) : Prop :=
  match call with CallApply _ => False | CallInstall | CallInstallRequired => True end.

Definition is_down (x : Machine) : Prop := match x with Running _ => False | Down _ => True end.

Inductive agent_step `{JournalJson} (provider : NodeBlockProvider) : Machine → Machine → Prop :=
| agent_call env call s ok s' :
    env_wf env → alone call → run_call env call s = (ok, s') →
    agent_step provider (Running s) (Running s')
| agent_crash env call s ok s' d retired w :
    env_wf env → alone call → run_call env call s = (ok, s') →
    passes_through (js_world s) (js_world s') (d, retired) → crash d (jw_disk w) →
    agent_step provider (Running s) (Down w)
| agent_restart x y : is_down x → machine_step provider x y → agent_step provider x y.

(** The agent died while it served a request. *)
Definition died (env : JournalEnv) `{JournalJson} (request : TransactionRequest) (s : JournalState)
    (w : JournalWorld) : Prop :=
  ∃ d retired, passes_through (js_world s) (js_world (apply env request s).2) (d, retired) ∧
    crash d (jw_disk w).

(** Two records of one attachment: they differ in their phase at most. *)
Definition same_attachment (r r' : AttachmentRecord) : Prop :=
  set_phase r Preparing = set_phase r' Preparing.

#[export] Instance same_attachment_equivalence : Equivalence same_attachment.
Proof. unfold same_attachment. split; [done|by intros ?|by intros ??? ->]. Qed.

Lemma set_phase_set_phase r p q : set_phase (set_phase r p) q = set_phase r q.
Proof. by destruct r. Qed.

Section Journaled.
Context `{JournalJsonLaws} (provider : NodeBlockProvider).
Context (Hprovider : NodeBlockProvider_wf provider).

(** Every entry the directory may hold stands for attachments that satisfy [Φ]. *)
Definition disk_all (Φ : gmap AttachmentKey AttachmentRecord → Prop) (d : Disk) : Prop :=
  ∀ e, e ∈ entry_possible (disk_journal d) →
    ∃ m, entry_attachments provider e = Some m ∧ Φ m.

(** [Φ] holds of the journal and will after any crash. *)
Definition everywhere (Φ : gmap AttachmentKey AttachmentRecord → Prop) (x : Machine) : Prop :=
  match x with
  | Running s => Φ (aj_attachments (js_journal s)) ∧ disk_all Φ (jw_disk (js_world s))
  | Down w => disk_all Φ (jw_disk w)
  end.

(** The attachments have a record of the key that differs from [r] in its phase at most. *)
Definition has_record (key : AttachmentKey) (r : AttachmentRecord)
    (m : gmap AttachmentKey AttachmentRecord) : Prop :=
  ∃ r', m !! key = Some r' ∧ same_attachment r r'.

(** The attachment is in the journal and will be after any crash. *)
Definition journaled (x : Machine) (key : AttachmentKey) (r : AttachmentRecord) : Prop :=
  everywhere (has_record key r) x.

(** Records in preparation or ready are on every possible disk. *)
Definition covers (s : JournalState) : Prop :=
  ∀ key r, aj_attachments (js_journal s) !! key = Some r →
    att_phase r = Preparing ∨ att_phase r = Ready → disk_all (has_record key r) (jw_disk (js_world s)).

Definition agent_ok (x : Machine) : Prop :=
  machine_ok provider x ∧ match x with Running s => covers s | Down _ => True end.

Lemma disk_all_holds Φ m d : disk_holds provider m d → Φ m → disk_all Φ d.
Proof. intros Hd Hm e He. exists m. split; [by apply Hd|done]. Qed.

Lemma holds_disk_all Φ m d : disk_holds provider m d → disk_all Φ d → Φ m.
Proof.
  intros Hd Hall. destruct (Hall (entry_latest (disk_journal d))) as (m' & Hm' & HΦ); [by left|].
  rewrite (Hd (entry_latest (disk_journal d))) in Hm' by (by left). by injection Hm' as ->.
Qed.

(** At a point of a transaction towards [m']. *)
Lemma point_disk_all Φ s m' d retired :
  point provider s m' d retired → disk_all Φ (jw_disk (js_world s)) → Φ m' → disk_all Φ d.
Proof. intros Hpoint Hall Hm e [Hold|[Hnew _]]%Hpoint; [by apply Hall|eauto]. Qed.

(** Every step but a removal keeps what a record owns. *)
Lemma lifecycle_same operation r o :
  lifecycle operation (Some r) o →
  (∃ r', o = Some r' ∧ same_attachment r r') ∨
  (∃ key, operation = OpCompleteAbort key ∧ att_phase r = Aborting) ∨
  (∃ key, operation = OpCompleteDelete key ∧ att_phase r = Deleting).
Proof.
  inversion 1; subst; [by left; exists r| |..|by right; left; eauto|by right; right; eauto].
  all: left; eexists; split; [done|]; unfold same_attachment; by rewrite ?set_phase_set_phase.
Qed.

Lemma has_record_trans key r r' m : same_attachment r r' → has_record key r' m → has_record key r m.
Proof. intros Hs (r1 & Hr1 & Hs1). exists r1. split; [done|]. by transitivity r'. Qed.

Lemma attempted_keeps operation m m' key r :
  attempted operation m m' → has_record key r m →
  operation ≠ OpCompleteAbort key → operation ≠ OpCompleteDelete key → has_record key r m'.
Proof.
  intros [->|(k & o & Hk & -> & Hlife)] Hkey Hna Hnd; [done|]. unfold has_record.
  rewrite lookup_with_record. case_decide; [subst k|done]. destruct Hkey as (r1 & Hr1 & Hs).
  rewrite Hr1 in Hlife.
  destruct (lifecycle_same _ _ _ Hlife) as [(r2 & -> & Hs2)|[(k & -> & _)|(k & -> & _)]];
    [|by injection Hk as ->..]. exists r2. split; [done|]. by transitivity r1.
Qed.

Lemma attempted_keeps_active operation m m' key r :
  attempted operation m m' → m !! key = Some r → att_phase r = Preparing ∨ att_phase r = Ready →
  has_record key r m'.
Proof.
  intros [->|(k & o & Hk & -> & Hlife)] Hr Hphase; [by exists r|]. unfold has_record.
  rewrite lookup_with_record. case_decide; [subst k|by exists r]. rewrite Hr in Hlife.
  destruct (lifecycle_same _ _ _ Hlife) as [?|[(k & -> & Hp)|(k & -> & Hp)]]; [done|..];
    destruct Hphase; congruence.
Qed.

Lemma call_attempted_active call m m' key r :
  call_attempted call m m' → m !! key = Some r → att_phase r = Preparing ∨ att_phase r = Ready →
  has_record key r m'.
Proof.
  destruct call; simpl; [apply attempted_keeps_active|..]; intros -> Hr _; by exists r.
Qed.

(** A call of the agent towards [m'], over a crash too. *)
Lemma call_everywhere Φ s m' ok s' :
  running_ok provider s → transaction_spec s m' ok s' → Φ m' → everywhere Φ (Running s) →
  everywhere Φ (Running s') ∧
  ∀ d retired w, passes_through (js_world s) (js_world s') (d, retired) → crash d (jw_disk w) →
    everywhere Φ (Down w).
Proof.
  intros Hok Hspec Hm [Hmem Hall]. split.
  - split; [rewrite (ts_result _ _ _ _ Hspec); by destruct ok|].
    apply (point_disk_all Φ s m' _ (jw_retired (js_world s'))); [|done..].
    rewrite <-(run_provider _ _ Hok). apply (ts_points _ _ _ _ Hspec).
  - intros d retired w Hpass Hcrash. pose proof (passes_point _ _ _ _ _ _ _ Hok Hspec Hpass) as Hpoint.
    apply (crash_holds provider) in Hcrash as (e & He & Hcrash).
    destruct (point_disk_all _ _ _ _ _ Hpoint Hall Hm e He) as (m & Hm' & HΦ).
    eapply disk_all_holds; [by apply Hcrash|done].
Qed.

Lemma call_covers env call s ok s' :
  env_wf env → agent_ok (Running s) → run_call env call s = (ok, s') → agent_ok (Running s').
Proof.
  intros Henv [Hok Hcovers] Hrun. split; [by eapply running_call|].
  destruct (run_call_spec _ _ _ _ _ Henv (run_wf _ _ Hok) Hrun) as (m' & Hatt & Hspec).
  intros key r Hr Hphase. rewrite (ts_result _ _ _ _ Hspec) in Hr.
  destruct (decide (ok = true ∧ m' ≠ aj_attachments (js_journal s))) as [[-> Hne]|Hno].
  - destruct (ts_committed _ _ _ _ Hspec eq_refl Hne) as [Hholds _].
    rewrite (run_provider _ _ Hok) in Hholds. eapply disk_all_holds; [done|by exists r].
  - assert (Hmem : aj_attachments (js_journal s) !! key = Some r).
    { destruct ok; [|done]. destruct (decide (m' = aj_attachments (js_journal s))) as [<-|];
        [done|naive_solver]. }
    apply (point_disk_all _ s m' _ (jw_retired (js_world s')));
      [|by eapply Hcovers|by eapply call_attempted_active].
    rewrite <-(run_provider _ _ Hok). apply (ts_points _ _ _ _ Hspec).
Qed.

(** Starting again loads what the disk has. *)
Lemma restart_everywhere w y :
  machine_ok provider (Down w) → machine_step provider (Down w) y →
  agent_ok y ∧ ∀ Φ, everywhere Φ (Down w) → everywhere Φ y.
Proof.
  intros Hw Hstep. pose proof (machine_step_ok _ Hprovider _ _ Hw Hstep) as Hy.
  destruct Hw as [m Hm]. inversion Hstep as [| |env w0 j w' Henv Hrun|env w0 e w' Henv Hrun|
    env w0 r w' d retired w1 Henv Hrun Hpass Hcrash]; subst.
  - destruct (open_triple env provider Hprovider Henv m _ _ _ Hm I Hrun)
      as (Hend & _ & (_ & _ & Ha & _)). split; [split; [done|]|].
    + intros key r Hr _. eapply disk_all_holds; [exact Hend|]. simpl in Hr. rewrite <-Ha. by exists r.
    + intros Φ HΦ. apply (holds_disk_all Φ m) in HΦ; [|done].
      split; simpl; [by rewrite Ha|by eapply disk_all_holds].
  - destruct (open_triple env provider Hprovider Henv m _ _ _ Hm I Hrun) as (Hend & _).
    split; [done|]. intros Φ HΦ. apply (holds_disk_all Φ m) in HΦ; [|done]. by eapply disk_all_holds.
  - split; [done|]. intros Φ HΦ. apply (holds_disk_all Φ m) in HΦ; [|done].
    eapply disk_all_holds; [|done]. eapply crash_settled; [|done]. by eapply passes_holds.
Qed.

(** Left to itself the agent changes nothing of the attachments. *)
Lemma agent_step_everywhere x y :
  agent_ok x → agent_step provider x y → agent_ok y ∧ ∀ Φ, everywhere Φ x → everywhere Φ y.
Proof.
  intros Hx Hstep. destruct Hstep as [env call s ok s' Henv Halone Hrun|
    env call s ok s' d retired w Henv Halone Hrun Hpass Hcrash|[s|w] y' Hdown Hstep];
    [..|done|by apply restart_everywhere; [apply Hx|]].
  all: destruct (run_call_spec _ _ _ _ _ Henv (run_wf _ _ (proj1 Hx)) Hrun) as (m' & Hatt & Hspec).
  all: assert (m' = aj_attachments (js_journal s)) as -> by (by destruct call).
  - split; [by eapply call_covers|]. intros Φ HΦ.
    apply (call_everywhere Φ s (aj_attachments (js_journal s)) ok s'); try done; [apply Hx|apply HΦ].
  - split.
    + split; [|done]. eapply machine_step_ok; [done|apply Hx|]. by eapply machine_crash.
    + intros Φ HΦ. eapply (call_everywhere Φ s (aj_attachments (js_journal s)) ok s'); try done; [apply Hx|apply HΦ].
Qed.

Lemma agent_alone x y :
  agent_ok x → rtc (agent_step provider) x y →
  agent_ok y ∧ ∀ Φ, everywhere Φ x → everywhere Φ y.
Proof.
  intros Hx Hsteps. induction Hsteps as [x|x y z Hstep _ IH]; [done|].
  destruct (agent_step_everywhere _ _ Hx Hstep) as [Hy Hxy]. destruct (IH Hy). split; [done|]. auto.
Qed.

(** What a transaction cannot change. *)
Definition stable (operation : TransactionOperation)
    (Φ : gmap AttachmentKey AttachmentRecord → Prop) : Prop :=
  ∀ m m', attempted operation m m' → Φ m → Φ m'.

(** Serving a request, or dying over it, the agent keeps what the request cannot change. *)
Lemma serve_everywhere env request s :
  env_wf env → agent_ok (Running s) →
  agent_ok (Running (apply env request s).2) ∧
  (∀ Φ, stable (into_operation request) Φ → everywhere Φ (Running s) →
    everywhere Φ (Running (apply env request s).2)) ∧
  ∀ w, died env request s w → agent_ok (Down w) ∧
    ∀ Φ, stable (into_operation request) Φ → everywhere Φ (Running s) → everywhere Φ (Down w).
Proof.
  intros Henv Hx. destruct (apply env request s) as [r s'] eqn:Happly.
  assert (Hrun : run_call env (CallApply request) s = (is_ok r, s')) by (simpl; by rewrite Happly).
  destruct (run_call_spec _ _ _ _ _ Henv (run_wf _ _ (proj1 Hx)) Hrun) as (m' & Hatt & Hspec).
  assert (Hkept : ∀ Φ, stable (into_operation request) Φ → everywhere Φ (Running s) → Φ m').
  { intros Φ Hstable [Hmem _]. by eapply Hstable. }
  split; [by eapply call_covers|]. split.
  - intros Φ Hstable HΦ. apply (call_everywhere Φ s m' (is_ok r) s'); [apply Hx|done|by apply Hkept|done].
  - intros w (d & retired & Hpass & Hcrash). rewrite Happly in Hpass. split.
    + split; [|done]. eapply machine_step_ok; [done|apply Hx|]. by eapply machine_crash.
    + intros Φ Hstable HΦ. eapply (call_everywhere Φ s m' (is_ok r) s'); [apply Hx|done|by apply Hkept|done..].
Qed.

(** Only a completion forgets a record. *)
Definition completes (operation : TransactionOperation) (key : AttachmentKey) : Prop :=
  operation = OpCompleteAbort key ∨ operation = OpCompleteDelete key.

Lemma stable_record operation key r : ¬ completes operation key → stable operation (has_record key r).
Proof.
  intros Hnot m m' Hatt Hr. eapply attempted_keeps; [done..| |]; intros ->; apply Hnot; [by left|by right].
Qed.

(** A transaction leaves the records of other keys alone. *)
Lemma stable_other operation key (o : option AttachmentRecord) :
  mutated_key operation ≠ Some key → stable operation (λ m, m !! key = o).
Proof.
  intros Hop m m' [->|(k & o' & Hk & -> & _)] Hm; [done|]. rewrite lookup_with_record.
  by case_decide; [congruence|].
Qed.

(** Only a preparation adds a key. *)
Definition keys_in (K : AttachmentKey → Prop) (m : gmap AttachmentKey AttachmentRecord) : Prop :=
  ∀ key, is_Some (m !! key) → K key.

Lemma stable_keys operation K :
  (∀ spec, operation ≠ OpPrepare spec) → stable operation (keys_in K).
Proof.
  intros Hop m m' [->|(k & o & Hk & -> & Hlife)] Hm key; [apply Hm|].
  rewrite lookup_with_record. case_decide; [subst k|apply Hm]. intros [r ->]. apply Hm.
  inversion Hlife; subst; eauto. by destruct (Hop spec).
Qed.

(** What may happen to the attachments while requests for these operations are served. *)
Definition moves (ops : TransactionOperation → Prop) (x y : Machine) : Prop :=
  ∀ Φ, (∀ operation, ops operation → stable operation Φ) → everywhere Φ x → everywhere Φ y.

#[export] Instance moves_preorder ops : PreOrder (moves ops).
Proof. split; [by intros x Φ|]. intros x y z Hxy Hyz Φ Hstable HΦ. by apply Hyz, Hxy. Qed.

#[export] Instance moves_Proper : Proper (pointwise_relation _ impl ==> eq ==> eq ==> impl) moves.
Proof. intros ops ops' Hops x ? <- y ? <- Hxy Φ Hstable. apply Hxy. intros op Hop%Hops. auto. Qed.

(** The agent left to itself. *)
Definition quiet : Machine → Machine → Prop := moves (λ _, False).

Lemma quiet_moves ops x y : quiet x y → moves ops x y.
Proof. intros Hxy Φ _. by apply Hxy. Qed.

Definition forgets_nothing (x y : Machine) : Prop :=
  ∀ key r, journaled x key r → journaled y key r.

#[export] Instance forgets_nothing_preorder : PreOrder forgets_nothing.
Proof. split; [by intros x key r|]. intros x y z Hxy Hyz key r Hr. by apply Hyz, Hxy. Qed.

Lemma moves_record ops x y key r :
  moves ops x y → (∀ operation, ops operation → ¬ completes operation key) →
  journaled x key r → journaled y key r.
Proof. intros Hxy Hops. apply Hxy. intros op Hop. by apply stable_record, Hops. Qed.

Lemma quiet_forgets x y : quiet x y → forgets_nothing x y.
Proof. intros Hxy key r. by eapply moves_record. Qed.

(** A request that took a key out of the journal took it off every possible disk. *)
Lemma serve_removes env request s response s' key :
  env_wf env → agent_ok (Running s) → apply env request s = (Ok response, s') →
  is_Some (aj_attachments (js_journal s) !! key) → aj_attachments (js_journal s') !! key = None →
  everywhere (keys_in (λ k, k ≠ key)) (Running s').
Proof.
  intros Henv [Hok _] Happly Hsome Hnone.
  destruct (journal_apply_spec env request s _ _ Henv (run_wf _ _ Hok) Happly) as (m' & _ & Hspec & _).
  pose proof (ts_result _ _ _ _ Hspec) as Hm'. simpl in Hm'. subst m'.
  assert (Hkeys : keys_in (λ k, k ≠ key) (aj_attachments (js_journal s'))).
  { intros k Hk ->. rewrite Hnone in Hk. by destruct Hk. }
  split; [done|]. destruct (ts_committed _ _ _ _ Hspec eq_refl) as [Hdisk _].
  { intros Heq. rewrite <-Heq, Hnone in Hsome. by destruct Hsome. }
  rewrite (run_provider _ _ Hok) in Hdisk. by eapply disk_all_holds.
Qed.

(** ** What is journaled *)

Lemma record_facts s key r :
  agent_ok (Running s) → aj_attachments (js_journal s) !! key = Some r →
  att_key r = key ∧ att_host_interface r = deterministic_host_interface key.
Proof.
  intros [Hok _] Hr. destruct (run_wf _ _ Hok) as [_ [Hrecords _] _].
  by destruct (Hrecords key r Hr).
Qed.

Lemma journaled_active s key r :
  agent_ok (Running s) → aj_attachments (js_journal s) !! key = Some r →
  att_phase r = Preparing ∨ att_phase r = Ready → journaled (Running s) key r.
Proof. intros [_ Hcovers] Hr Hphase. split; [by exists r|by eapply Hcovers]. Qed.

(** Some well-formed attachments have everything that is journaled. *)
Lemma journaled_together x :
  agent_ok x →
  ∃ m, attachments_wf provider m ∧ ∀ key r, journaled x key r → has_record key r m.
Proof.
  destruct x as [s|w]; intros [Hok _].
  - exists (aj_attachments (js_journal s)). destruct (run_wf _ _ Hok) as [_ Hwf _].
    rewrite (run_provider _ _ Hok) in Hwf. split; [done|]. by intros key r [? _].
  - destruct Hok as [m Hm]. exists m. split.
    + eapply entry_attachments_wf; [done|]. apply (Hm (entry_latest (disk_journal (jw_disk w)))). by left.
    + intros key r Hkey. exact (holds_disk_all _ m _ Hm Hkey).
Qed.

(** One host interface belongs to one attachment. *)
Lemma journaled_unique x key key' r r' :
  agent_ok x → journaled x key r → journaled x key' r' →
  deterministic_host_interface key = deterministic_host_interface key' →
  key = key' ∧ same_attachment r r'.
Proof.
  intros (m & [Hrecords Hdistinct] & Hm)%journaled_together (r1 & H1 & Hs1)%Hm (r2 & H2 & Hs2)%Hm Heq.
  assert (key = key') as ->.
  { apply (Hdistinct _ _ _ _ H1 H2). left.
    by rewrite (record_interface _ _ _ (Hrecords _ _ H1)), (record_interface _ _ _ (Hrecords _ _ H2)). }
  split; [done|]. rewrite H1 in H2. injection H2 as ->. by rewrite Hs1, Hs2.
Qed.

End Journaled.
