(* ===== verification/CniLifecycle.v ===== *)
(** * The lifecycle of the CNI plugin ([bins/unf-cni], [bins/unf-agent])

    One invocation of the plugin drives the journal of the agent through its socket and the
    kernel through [unf-link] and [unf-route]: ADD records the attachment before it creates
    anything, DEL and GC remove the record only after the kernel is clean.  A request or its
    answer may be lost, the agent may die while it serves a request and restart at any call,
    and the plugin may be killed between two calls: the states of the node are kept.

    The JSON of a CNI result is a parameter ([ResultJson]); the addresses in a result are kept
    as addresses, their text is not modelled.  Error values keep their code. *)

From Stdlib Require Import Ascii.
From S2P Require Import Prelude Common NetAddr Ipam Bytes Runs Netlink CniAttachment VethPlan NativeRoutes CniJournal CniJournalFacts CniJournalCrash CniJournalSafety.

Definition DEFAULT_MTU : Z := 1500.
Definition MAX_TRANSACTION_MESSAGE_BYTES : Z := 65536.

(** ** The agent's socket *)

Definition journal_error_code (error : JournalError) : TransactionErrorCode :=
  match error with
  | JInvalid | JJson => TxInvalidRequest
  | JNotFound => TxNotFound
  | JInvalidTransition => TxInvalidTransition
  | JIncompatibleSchema _ _ => TxIncompatibleSchema
  | JIo | JRetirement => TxPersistenceFailure
  | JIpam (Exhausted _ _) => TxExhausted
  | JConflict | JIpam _ => TxConflict
  end.

Definition journal_error_response (error : JournalError) : TransactionResponse :=
  TransactionResponse_error (journal_error_code error).

(** [handle_request] on a request that decodes. *)
Definition handle_request (env : JournalEnv) `{JournalJson} (request : TransactionRequest)
    (s : JournalState) : TransactionResponse * JournalState :=
  let schema_version := request_schema_version request in
  match apply env request s with
  | (Ok response, s) => (response, s)
  | (Err error, s) =>
      (if (schema_version =? LEGACY_CNI_TRANSACTION_SCHEMA_VERSION)
          || (schema_version =? UID_CNI_TRANSACTION_SCHEMA_VERSION)
          || (schema_version =? CNI_TRANSACTION_SCHEMA_VERSION)
       then {| response_schema_version := schema_version;
               response_outcome := response_outcome (journal_error_response error) |}
       else journal_error_response error, s)
  end.

(** What becomes of a request: it is answered, it or its answer is lost, or the agent dies
    while it serves it and leaves a disk behind. *)
Inductive Delivery :=
| Delivered
| RequestLost
| ResponseLost
| AgentDies (dies : TransactionRequest → JournalState → JournalWorld).

(** ** Errors and inputs of an invocation *)

Record CniError := { cni_code : Z; agent_transport_failure : bool }.

Definition cni_error (code : Z) : CniError :=
  {| cni_code := code; agent_transport_failure := false |}.
Definition invalid_environment : CniError := cni_error 4.
Definition invalid_config : CniError := cni_error 7.
Definition retry_with_details : CniError := cni_error 11.
Definition transport_failure : CniError :=
  {| cni_code := 11; agent_transport_failure := true |}.
Definition plugin_unavailable_transport : CniError :=
  {| cni_code := 50; agent_transport_failure := true |}.

Definition transaction_error (code : TransactionErrorCode) : CniError :=
  match code with
  | TxInvalidRequest => invalid_config
  | TxIncompatibleSchema => cni_error 1
  | TxUnauthorized => cni_error 50
  | TxNotFound | TxConflict | TxInvalidTransition | TxPersistenceFailure | TxExhausted =>
      retry_with_details
  end.

Inductive Command := CmdAdd | CmdDelete | CmdCheck | CmdStatus | CmdGarbageCollect | CmdVersion.
#[export] Instance Command_eq_dec : EqDecision Command.
Proof. solve_decision. Defined.

Record InvocationEnvironment := {
  inv_command : option string;
  inv_container_id : option string;
  inv_netns : option string;
  inv_ifname : option string;
  inv_args : option string;
  inv_path : option string;
}.

Record ValidAttachment := { valid_container_id : string; valid_ifname : string }.

(** ** Results *)

Record ResultInterface := {
  interface_name : string;
  interface_mac : string;
  interface_sandbox : option string;
}.
Record ResultIp := { ip_interface : Z; ip_address : IpAddr; ip_prefix_len : Z; ip_gateway : IpAddr }.
Record ResultRoute := { route_dst : IpAddr; route_dst_prefix_len : Z; route_gw : IpAddr }.

Record AddResult := {
  result_interfaces : list ResultInterface;
  result_ips : list ResultIp;
  result_routes : list ResultRoute;
}.

Definition format_mac (address : bytes) : string :=
  String.concat ":" (map (hex_digits 2) address).

Definition add_result (record : AttachmentRecord) (links : LinkReadback) : AddResult :=
  let lease := att_lease record in
  {| result_interfaces :=
       [{| interface_name := rb_host_name links;
           interface_mac := format_mac (rb_host_address links);
           interface_sandbox := None |};
        {| interface_name := rb_peer_name links;
           interface_mac := format_mac (rb_peer_address links);
           interface_sandbox := Some (aspec_netns (att_spec record)) |}];
     result_ips :=
       [{| ip_interface := 1; ip_address := V4 (v4_address (lease_ipv4 lease));
           ip_prefix_len := 32; ip_gateway := V4 (v4_gateway (lease_ipv4 lease)) |};
        {| ip_interface := 1; ip_address := V6 (v6_address (lease_ipv6 lease));
           ip_prefix_len := 128; ip_gateway := V6 (v6_gateway (lease_ipv6 lease)) |}];
     result_routes :=
       [{| route_dst := V4 0; route_dst_prefix_len := 0;
           route_gw := V4 (v4_gateway (lease_ipv4 lease)) |};
        {| route_dst := V6 0; route_dst_prefix_len := 0;
           route_gw := V6 (v6_gateway (lease_ipv6 lease)) |}] |}.

(** [serde_json] on results: the encoding, whether a value is an object whose [dns] member is
    an empty object, and removing that member. *)
Class ResultJson := {
  result_json : Type;
  result_json_eq_dec :: EqDecision result_json;
  to_value : AddResult → result_json;
  has_empty_dns : result_json → bool;
  remove_dns : result_json → result_json;
}.

Definition normalize_empty_dns `{ResultJson} (value : result_json) : result_json :=
  if has_empty_dns value then remove_dns value else value.

Record NetworkConfig `{ResultJson} := {
  config_cni_version : string;
  config_name : string;
  config_plugin_type : string;
  config_mode : option string;
  config_dataplane : option string;
  config_agent_socket : option string;
  config_deferred_delete_directory : option string;
  config_status_lease_path : option string;
  config_status_grace_period_seconds : Z;
  config_mtu : option Z;
  config_ipam_plugin_type : string;
  config_prev_result : option result_json;
  config_valid_attachments : list ValidAttachment;
}.

(** The node the plugin runs on, with the states it went through. *)
Record Node `{Netlink} := {
  node_agent : Machine;
  node_kernel : kernel;
  node_calls : nat;
  node_trace : list (Machine * kernel);
}.

(** What the node does around the calls of an invocation: what the agent does on its own
    before a call (it may restart), with which random bytes and failing system calls it
    serves a request, and what becomes of the request. *)
Record NodeEnv := {
  agent_before : nat → Machine → Machine;
  call_agent : nat → JournalEnv;
  call_delivery : nat → Delivery;
}.

(** [str::split]. *)
Fixpoint split_on (sep : ascii) (s : string) : list string :=
  match s with
  | EmptyString => [EmptyString]
  | String c s =>
      if bool_decide (c = sep) then EmptyString :: split_on sep s
      else match split_on sep s with
           | [] => [String c EmptyString]
           | part :: parts => String c part :: parts
           end
  end.

#[export] Instance Node_traced `{Netlink} : Traced Node (Machine * kernel) :=
  {| now n := (node_agent n, node_kernel n); past := node_trace |}.

Section Plugin.
Context (env : NodeEnv) `{JournalJson} `{Netlink} `{Digest} `{ResultJson}.

Abbreviation Plugin := (Routine Node CniError).

(** The agent moved to [x] on its own, and then to [x']. *)
Definition node_log (n : Node) (x x' : Machine) : Node :=
  {| node_agent := x'; node_kernel := node_kernel n; node_calls := S (node_calls n);
     node_trace := (x', node_kernel n) :: (x, node_kernel n) :: node_trace n |}.

(** [TransactionApi::transact]; connecting to an agent that is down fails. *)
Definition transact (request : TransactionRequest) : Routine Node () TransactionResponse := λ n,
  let x := agent_before env (node_calls n) (node_agent n) in
  match x with
  | Down _ => (Err (), node_log n x x)
  | Running s =>
      let answered := handle_request (call_agent env (node_calls n)) request s in
      match call_delivery env (node_calls n) with
      | Delivered => (Ok answered.1, node_log n x (Running answered.2))
      | RequestLost => (Err (), node_log n x x)
      | ResponseLost => (Err (), node_log n x (Running answered.2))
      | AgentDies dies => (Err (), node_log n x (Down (dies request s)))
      end
  end.

(** A call of [unf-link] or [unf-route]; every failure becomes a retry. *)
Definition on_kernel {E A} (c : Routine NetWorld E A) : Plugin A := λ n,
  let x := agent_before env (node_calls n) (node_agent n) in
  let ran := c {| nw_kernel := node_kernel n; nw_history := [] |} in
  (match ran.1 with Ok a => Ok a | Err _ => Err retry_with_details end,
   {| node_agent := x; node_kernel := nw_kernel ran.2; node_calls := S (node_calls n);
      node_trace := map (pair x) (nw_history ran.2 ++ [node_kernel n]) ++ node_trace n |}).

Definition guard (b : bool) (error : CniError) : Plugin () :=
  if b then op_ret () else op_fail error.

(** A plan that cannot be built is a retry. *)
Definition planned {E A} (plan : result E A) : Plugin A :=
  match plan with Ok plan => op_ret plan | Err _ => op_fail retry_with_details end.

(** Every failure of [c] becomes a retry ([combined_rollback]). *)
Definition or_retry {A} (c : Plugin A) : Plugin A := λ n,
  match c n with (Ok a, n) => (Ok a, n) | (Err _, n) => (Err retry_with_details, n) end.

(** ** Transactions *)

Definition operation_result (operation : TransactionOperation) :
    Plugin (option AttachmentRecord * list AttachmentRecord) := λ n,
  match transact (TransactionRequest_new CNI_TRANSACTION_SCHEMA_VERSION operation) n with
  | (Err _, n) => (Err transport_failure, n)
  | (Ok response, n) =>
      if negb (response_schema_version response =? CNI_TRANSACTION_SCHEMA_VERSION)
      then (Err retry_with_details, n)
      else match response_outcome response with
           | OutcomeOk attachment attachments _ => (Ok (attachment, attachments), n)
           | OutcomeError code => (Err (transaction_error code), n)
           end
  end.

Definition operation (operation : TransactionOperation) : Plugin (option AttachmentRecord) :=
  let* (attachment, _) := operation_result operation in
  op_ret attachment.

Definition list_attachments (network : string) (after : option AttachmentKey) :
    Plugin (list AttachmentRecord) :=
  let* (_, attachments) := operation_result (OpList network after MAX_ATTACHMENT_LIST_RECORDS) in
  op_ret attachments.

Definition require_attachment (record : option AttachmentRecord) : Plugin AttachmentRecord :=
  match record with Some record => op_ret record | None => op_fail retry_with_details end.

Definition ensure_spec (record : AttachmentRecord) (spec : AttachmentSpec) : Plugin () :=
  guard (accepts_replay (att_spec record) spec) retry_with_details.

(** ** The attachment of an invocation *)

Definition attachment_key (environment : InvocationEnvironment) (config : NetworkConfig) :
    result CniError AttachmentKey :=
  let? container_id := ok_or (inv_container_id environment) invalid_environment in
  let? ifname := ok_or (inv_ifname environment) invalid_environment in
  Ok {| key_network := config_name config; key_container_id := container_id;
        key_ifname := ifname |}.

Definition workload_uid_step (uid : option string) (arg : string) :
    result CniError (option string) :=
  let '(key, value) := default (arg, EmptyString) (split_once arg "="%char) in
  if negb (bool_decide (key = "K8S_POD_UID"%string)) then Ok uid
  else if bool_decide (is_Some uid) || negb (valid_workload_uid value)
  then Err invalid_environment
  else Ok (Some value).

Definition workload_uid (args : option string) : result CniError (option string) :=
  match args with
  | None => Ok None
  | Some args =>
      if MAX_TRANSACTION_MESSAGE_BYTES <? Z.of_nat (String.length args)
      then Err invalid_environment
      else try_fold workload_uid_step None (split_on ";"%char args)
  end.

Definition attachment_spec (environment : InvocationEnvironment) (config : NetworkConfig) :
    result CniError AttachmentSpec :=
  let? key := attachment_key environment config in
  let? netns := ok_or (inv_netns environment) invalid_environment in
  let? uid := workload_uid (inv_args environment) in
  Ok {| aspec_key := key; aspec_netns := netns;
        aspec_mtu := default DEFAULT_MTU (config_mtu config);
        aspec_workload_uid := uid |}.

(** ** Tearing down *)

Definition cleanup_record (record : AttachmentRecord) : Plugin () :=
  let* links := planned (from_attachment record) in
  let* link_state := on_kernel (cleanup_readback links) in
  let* routes := planned (native_cleanup_plan record link_state) in
  let* _ := on_kernel (native_delete routes) in
  let* _ := on_kernel (veth_delete links) in
  op_ret ().

Definition plugin_begin_abort (record : AttachmentRecord) : Plugin () :=
  let* _ := operation (OpBeginAbort (att_key record)) in op_ret ().
Definition plugin_complete_abort (record : AttachmentRecord) : Plugin () :=
  let* _ := operation (OpCompleteAbort (att_key record)) in op_ret ().

Definition recover_abort (record : AttachmentRecord) : Plugin () :=
  let* _ := cleanup_record record in
  plugin_complete_abort record.

(** The three rollbacks of a failed ADD; what they answer is always an error. *)
Definition abort_without_resources {A} (record : AttachmentRecord) : Plugin A :=
  let* _ := or_retry (plugin_begin_abort record) in
  let* _ := or_retry (plugin_complete_abort record) in
  op_fail retry_with_details.

Definition abort_after_link_failure {A} (record : AttachmentRecord) (links : VethPlan) : Plugin A :=
  let* _ := or_retry (plugin_begin_abort record) in
  let* _ := on_kernel (veth_delete links) in
  let* _ := or_retry (plugin_complete_abort record) in
  op_fail retry_with_details.

Definition abort_with_resources {A} (record : AttachmentRecord) (links : VethPlan)
    (routes : NativeRoutePlan) : Plugin A :=
  let* _ := or_retry (plugin_begin_abort record) in
  let* _ := on_kernel (native_delete routes) in
  let* _ := on_kernel (veth_delete links) in
  let* _ := or_retry (plugin_complete_abort record) in
  op_fail retry_with_details.

(** ** The commands *)

Definition verify_ready (record : AttachmentRecord) : Plugin AddResult :=
  let* links := planned (from_attachment record) in
  let* link_state := on_kernel (veth_readback links) in
  let* routes := planned (native_plan record link_state) in
  let* _ := on_kernel (native_readback routes) in
  op_ret (add_result record link_state).

(** The end of an ADD, once its routes are applied. *)
Definition commit_add (record : AttachmentRecord) (links : VethPlan) (link_state : LinkReadback)
    (routes : NativeRoutePlan) : Plugin AddResult :=
  let* committed := attempt (operation (OpCommit (att_key record))) in
  match committed with
  | Err _ | Ok None => abort_with_resources record links routes
  | Ok (Some committed) =>
      let* _ := guard (bool_decide (att_phase committed = Ready)) retry_with_details in
      op_ret (add_result committed link_state)
  end.

Definition finish_add (record : AttachmentRecord) : Plugin AddResult :=
  match from_attachment record with
  | Err _ => abort_without_resources record
  | Ok links =>
      let* applied := attempt (on_kernel (veth_apply links)) in
      match applied with
      | Err _ => abort_after_link_failure record links
      | Ok link_state =>
          match native_plan record link_state with
          | Err _ => abort_after_link_failure record links
          | Ok routes =>
              let* routed := attempt (on_kernel (native_apply routes)) in
              match routed with
              | Err _ => abort_with_resources record links routes
              | Ok _ => commit_add record links link_state routes
              end
          end
      end
  end.

Definition prepare_and_finish (spec : AttachmentSpec) : Plugin AddResult :=
  let* prepared := operation (OpPrepare spec) in
  let* record := require_attachment prepared in
  finish_add record.

Definition add (environment : InvocationEnvironment) (config : NetworkConfig) :
    Plugin AddResult :=
  let* spec := op_lift (attachment_spec environment config) in
  let* found := operation (OpInspect (aspec_key spec)) in
  match found with
  | None => prepare_and_finish spec
  | Some record =>
      let* _ := ensure_spec record spec in
      match att_phase record with
      | Ready => verify_ready record
      | Preparing => finish_add record
      | Aborting =>
          let* _ := recover_abort record in
          prepare_and_finish spec
      | Deleting => op_fail retry_with_details
      end
  end.

Definition cni_check (environment : InvocationEnvironment) (config : NetworkConfig) : Plugin () :=
  let* spec := op_lift (attachment_spec environment config) in
  let* found := operation (OpCheck spec) in
  let* record := require_attachment found in
  let* actual := verify_ready record in
  let* supplied := op_lift (ok_or (config_prev_result config) invalid_config) in
  guard (bool_decide (normalize_empty_dns supplied = normalize_empty_dns (to_value actual)))
    retry_with_details.

Definition cni_delete (environment : InvocationEnvironment) (config : NetworkConfig) : Plugin () :=
  let* key := op_lift (attachment_key environment config) in
  let* found := operation (OpBeginDelete key) in
  match found with
  | None => op_ret ()
  | Some record =>
      let* _ := cleanup_record record in
      let* _ := operation (OpCompleteDelete key) in
      op_ret ()
  end.

(** ** Garbage collection *)

Definition garbage_collect_record (record : AttachmentRecord) : Plugin () :=
  match att_phase record with
  | Aborting =>
      let* _ := cleanup_record record in
      let* _ := operation (OpCompleteAbort (att_key record)) in
      op_ret ()
  | Preparing | Ready | Deleting =>
      let* found := operation (OpBeginDelete (att_key record)) in
      match found with
      | None => op_ret ()
      | Some deleting =>
          let* _ := cleanup_record deleting in
          let* _ := operation (OpCompleteDelete (att_key record)) in
          op_ret ()
      end
  end.

(** The attachments the runtime still knows. *)
Definition valid_pairs (config : NetworkConfig) : gset (string * string) :=
  list_to_set (map (λ a, (valid_container_id a, valid_ifname a)) (config_valid_attachments config)).

Definition still_valid (config : NetworkConfig) (record : AttachmentRecord) : bool :=
  bool_decide ((key_container_id (att_key record), key_ifname (att_key record))
               ∈ valid_pairs config).

(** The inner loop over a page; returns the number of failures. *)
Fixpoint collect_page (config : NetworkConfig) (records : list AttachmentRecord)
    (failure_count : Z) : Plugin Z :=
  match records with
  | [] => op_ret failure_count
  | record :: records =>
      if still_valid config record then collect_page config records failure_count
      else
        let* collected := attempt (garbage_collect_record record) in
        collect_page config records
          (match collected with Ok _ => failure_count | Err _ => failure_count + 1 end)
  end.

(** The outer loop over the pages, with [fuel] pages at most; [None] when it runs out. *)
Fixpoint collect_pages (fuel : nat) (config : NetworkConfig) (after : option AttachmentKey)
    (failure_count : Z) : Plugin (option Z) :=
  match fuel with
  | O => op_ret None
  | S fuel =>
      let* listed := attempt (list_attachments (config_name config) after) in
      match listed with
      | Err _ => op_ret (Some (failure_count + 1))
      | Ok records =>
          match last records with
          | None => op_ret (Some failure_count)
          | Some final =>
              let page_full := Z.of_nat (length records) =? MAX_ATTACHMENT_LIST_RECORDS in
              let* failure_count := collect_page config records failure_count in
              if page_full
              then collect_pages fuel config (Some (att_key final)) failure_count
              else op_ret (Some failure_count)
          end
      end
  end.

Definition garbage_collect (fuel : nat) (config : NetworkConfig) : Plugin (option ()) :=
  let* failure_count := collect_pages fuel config None 0 in
  match failure_count with
  | None => op_ret None
  | Some count => if count =? 0 then op_ret (Some ()) else op_fail retry_with_details
  end.

(** ** One invocation *)

Record VersionResponse := { version_cni_version : string; version_supported : list string }.

Inductive Success :=
| SuccessEmpty
| SuccessAdd (result : AddResult)
| SuccessVersion (response : VersionResponse).

(** [None] when garbage collection needs more fuel. *)
Definition execute_validated (fuel : nat) (environment : InvocationEnvironment)
    (config : NetworkConfig) (command : Command) : Plugin (option Success) :=
  match command with
  | CmdAdd => let* result := add environment config in op_ret (Some (SuccessAdd result))
  | CmdCheck => let* _ := cni_check environment config in op_ret (Some SuccessEmpty)
  | CmdDelete => let* _ := cni_delete environment config in op_ret (Some SuccessEmpty)
  | CmdStatus => λ n,
      match operation OpStatus n with
      | (Ok _, n) => (Ok (Some SuccessEmpty), n)
      | (Err error, n) =>
          (Err (if agent_transport_failure error then plugin_unavailable_transport
                else cni_error 50), n)
      end
  | CmdGarbageCollect =>
      let* done := garbage_collect fuel config in
      op_ret (option_map (λ _, SuccessEmpty) done)
  (* [unreachable!]: VERSION is answered before *)
  | CmdVersion => op_fail (cni_error 0)
  end.

End Plugin.
