(* ===== verification/CniPluginSafety.v ===== *)
(** * The plugin keeps the kernel and the journal together

    Every state an invocation passes through, with messages lost, the agent failing and
    restarting at any call and netlink requests failing anywhere, keeps a host interface of
    the plugin journaled: it exists in the kernel only while the journal has its record, in
    memory and on whatever the disk may hold.  What a successful ADD or DEL leaves follows
    from the same proofs. *)

From S2P Require Import Prelude Common NetAddr Ipam Bytes Runs Netlink CniAttachment VethPlan VethFacts NativeRoutes RouteFacts CniJournal CniJournalFacts CniJournalCrash CniJournalSafety CniJournalList CniAgent CniLifecycle.

(** ** One attachment, whatever its phase *)

Lemma same_attachment_fields r r' :
  same_attachment r r' →
  att_spec r = att_spec r' ∧ att_host_interface r = att_host_interface r' ∧
  att_lease r = att_lease r' ∧ att_creation_token r = att_creation_token r'.
Proof. destruct r, r'. unfold same_attachment, set_phase. simpl. by intros [= -> -> -> ->]. Qed.

(** Two plans that differ in whether they recover a pending creation. *)
Definition same_plan (p q : VethPlan) : Prop :=
  plan_host_name p = plan_host_name q ∧
  plan_temporary_peer_name p = plan_temporary_peer_name q ∧
  plan_container_name p = plan_container_name q ∧
  plan_host_alias p = plan_host_alias q ∧ plan_peer_alias p = plan_peer_alias q ∧
  plan_host_address p = plan_host_address q ∧ plan_peer_address p = plan_peer_address q ∧
  plan_netns p = plan_netns q ∧ plan_mtu p = plan_mtu q ∧ plan_addresses p = plan_addresses q.

Lemma from_attachment_same `{Digest} r r' p :
  same_attachment r r' → from_attachment r = Ok p →
  ∃ q, from_attachment r' = Ok q ∧ same_plan p q.
Proof.
  intros (Hspec & Hhost & Hlease & Htoken)%same_attachment_fields.
  unfold from_attachment, owner_cookie_input, att_key. rewrite Hspec, Hhost, Hlease, Htoken.
  destruct (VethPlan_new _ _ _ _ _) as [[]|]; [|done]. intros Hrun.
  destruct (aspec_workload_uid _) as [uid|]; split_ok Hrun.
  2: { injection Hrun as <-. by eexists. }
  destruct (att_creation_token r') as [token|]; split_ok Hrun; injection Hrun as <-; by eexists.
Qed.

Lemma native_plan_same r r' links :
  same_attachment r r' → native_plan r links = native_plan r' links.
Proof.
  intros (Hspec & Hhost & Hlease & _)%same_attachment_fields.
  unfold native_plan, build_plan, validate_links, att_key. by rewrite Hspec, Hhost, Hlease.
Qed.

Lemma add_result_same r r' links : same_attachment r r' → add_result r links = add_result r' links.
Proof.
  intros (Hspec & _ & Hlease & _)%same_attachment_fields. unfold add_result. by rewrite Hspec, Hlease.
Qed.

Lemma pair_ready_plan `{NetlinkLaws} p q rb k :
  same_plan p q → pair_ready p rb k → pair_ready q rb k.
Proof.
  intros (? & ? & ? & ? & ? & ? & ? & ? & ? & ?) [Hready]. split. unfold readback_of in *.
  destruct p, q; simpl in *; subst. done.
Qed.

(** ** The invariant of the node *)

Section Plugin.
Context (env : NodeEnv) `{HJ : JournalJsonLaws} `{HN : NetlinkLaws} `{HD : Digest} `{HR : ResultJson}.
Context (provider : NodeBlockProvider) (Hprovider : NodeBlockProvider_wf provider).

(** What the node does around an invocation is what an agent may do. *)
Record node_env_ok : Prop := {
  env_alone i x : rtc (agent_step provider) x (agent_before env i x);
  env_bytes i : env_wf (call_agent env i);
  env_dies i dies request s : call_delivery env i = AgentDies dies →
    died (call_agent env i) request s (dies request s);
}.
Context (Henv : node_env_ok).

Local Abbreviation quiet := (quiet provider).
Local Abbreviation moves := (moves provider).
Local Abbreviation forgets_nothing := (forgets_nothing provider).

(** A host interface of the plugin belongs to a journaled attachment whose plan exists. *)
Definition allowed (x : Machine) (name : string) : Prop :=
  ∀ key, name = deterministic_host_interface key →
    ∃ owner r, deterministic_host_interface owner = name ∧ journaled provider x owner r ∧
      is_ok (from_attachment r) = true.

Definition node_ok (s : Machine * kernel) : Prop :=
  agent_ok provider s.1 ∧ host_names (allowed s.1) s.2.

Lemma allowed_mono x y name : forgets_nothing x y → allowed x name → allowed y name.
Proof. intros Hxy Hx key Hkey. destruct (Hx key Hkey) as (owner & r & ? & ? & ?). eauto 10. Qed.

Lemma node_ok_moves x y k : forgets_nothing x y → agent_ok provider y → node_ok (x, k) → node_ok (y, k).
Proof. intros Hxy Hy [_ Hk]. split; [done|]. intros name Hn. eapply allowed_mono; [done|by apply Hk]. Qed.

Lemma agent_moves i x k :
  node_ok (x, k) →
  node_ok (agent_before env i x, k) ∧ quiet x (agent_before env i x).
Proof.
  intros Hx. destruct (agent_alone provider Hprovider x (agent_before env i x)) as [Hy Hxy];
    [apply Hx|apply Henv|].
  assert (quiet x (agent_before env i x)) by (intros Φ _; apply Hxy).
  split; [|done]. eapply node_ok_moves; [by apply quiet_forgets|done..].
Qed.

(** ** Requests *)

(** A completion finds the interface of its key gone. *)
Definition may_complete (request : TransactionRequest) (n : Node) : Prop :=
  ∀ key x, completes (into_operation request) key → node_ok (x, node_kernel n) → forgets_nothing (node_agent n) x →
    ¬ named (node_kernel n) host_namespace (deterministic_host_interface key).

Record transact_post (request : TransactionRequest) (n : Node)
    (r : result () TransactionResponse) (n' : Node) : Prop := {
  tp_kernel : node_kernel n' = node_kernel n;
  tp_moves : moves (eq (into_operation request)) (node_agent n) (node_agent n');
  tp_answer response : r = Ok response →
    now n' ∈ past n' ∧
    ∃ i s s', agent_ok provider (Running s) ∧ quiet (node_agent n) (Running s) ∧
      node_agent n' = Running s' ∧ handle_request (call_agent env i) request s = (response, s');
}.

Lemma handle_request_state i request s :
  (handle_request (call_agent env i) request s).2 = (apply (call_agent env i) request s).2.
Proof. unfold handle_request. by destruct (apply _ request s) as [[] ?]. Qed.

(** The agent that served a request, or died over it, still has every interface journaled. *)
Lemma served_ok request x y k :
  node_ok (x, k) → agent_ok provider y →
  moves (eq (into_operation request)) x y →
  (∀ key, completes (into_operation request) key → ¬ named k host_namespace (deterministic_host_interface key)) →
  node_ok (y, k).
Proof.
  intros [_ Hk] Hy Hxy Hgone. split; [done|]. intros name Hname key Hkey.
  destruct (Hk name Hname key Hkey) as (owner & r & Howner & Hr & Hplan). exists owner, r.
  split_and!; [done| |done]. eapply moves_record; [done| |done]. intros op <- Hc%Hgone.
  by rewrite Howner in Hc.
Qed.

Lemma runs_transact request n :
  node_ok (now n) → may_complete request n →
  runs node_ok (transact env request) (transact_post request n) n.
Proof.
  intros Hn Hcomplete. destruct (agent_moves (node_calls n) _ _ Hn) as [Hx Hmoves].
  assert (Hgone : ∀ key, completes (into_operation request) key →
    ¬ named (node_kernel n) host_namespace (deterministic_host_interface key)).
  { intros key Hc. eapply Hcomplete; [done..|by apply quiet_forgets]. }
  unfold runs, transact. set (x := agent_before env (node_calls n) (node_agent n)) in *.
  assert (Hsteps : ∀ y, node_ok (y, node_kernel n) →
    ∃ new, (y, node_kernel n) :: (x, node_kernel n) :: node_trace n = new ++ node_trace n ∧
      Forall node_ok new).
  { intros y Hy. exists [(y, node_kernel n); (x, node_kernel n)]. by rewrite !Forall_cons. }
  assert (Hmoved : ∀ y, moves (eq (into_operation request)) x y →
    moves (eq (into_operation request)) (node_agent n) y).
  { intros y Hy. etransitivity; [by apply quiet_moves|done]. }
  assert (Hidle : transact_post request n (Err ()) (node_log n x x)) by (split; [done|by apply Hmoved|done]).
  destruct x as [s|w] eqn:Ex; [|by split_and!; [|apply Hsteps|]].
  destruct (serve_everywhere provider Hprovider (call_agent env (node_calls n)) request s)
    as (Hserved & Hkept & Hdied); [apply Henv|apply Hx|].
  assert (Hafter : moves (eq (into_operation request)) (Running s)
    (Running (apply (call_agent env (node_calls n)) request s).2)) by (intros Φ HΦ; by apply Hkept, HΦ).
  destruct (call_delivery env (node_calls n)) as [| | |dies] eqn:Edelivery; simpl;
    rewrite ?handle_request_state.
  all: try (assert (Hok : node_ok (Running (apply (call_agent env (node_calls n)) request s).2,
    node_kernel n)) by (by eapply served_ok)).
  - split_and!; [done|by apply Hsteps|]. split; simpl; rewrite ?handle_request_state;
      [done|by apply Hmoved|].
    intros response [= <-]. split; [by left|]. exists (node_calls n), s, (apply (call_agent env (node_calls n)) request s).2.
    split_and!; [apply Hx|done|done|]. rewrite <-handle_request_state. by apply surjective_pairing.
  - by split_and!; [|apply Hsteps|].
  - split_and!; [done|by apply Hsteps|]. split; simpl; rewrite ?handle_request_state;
      [done|by apply Hmoved|done].
  - destruct (Hdied (dies request s)) as [Hdown Hdown_kept]; [by apply Henv|].
    assert (moves (eq (into_operation request)) (Running s) (Down (dies request s)))
      by (intros Φ HΦ; by apply Hdown_kept, HΦ).
    assert (node_ok (Down (dies request s), node_kernel n)).
    { by apply (served_ok request (Running s)). }
    split_and!; [done|by apply Hsteps|]. split; simpl; [done|by apply Hmoved|done].
Qed.

(** What a response that reports success says of the journal. *)
Lemma handle_request_Ok i request s response s' answer listed count :
  agent_ok provider (Running s) →
  handle_request (call_agent env i) request s = (response, s') →
  response_outcome response = OutcomeOk answer listed count →
  ∃ st, apply_operation (call_agent env i) (into_operation request)
      (request_schema_version request) s = (Ok (answer, listed), st) ∧
    aj_attachments (js_journal st) = aj_attachments (js_journal s') ∧
    apply (call_agent env i) request s = (Ok response, s').
Proof.
  intros [Hok _] Hrun Hout. unfold handle_request in Hrun.
  destruct (apply _ request s) as [[response0|error] s0] eqn:Eapply.
  - injection Hrun as -> ->.
    destruct (journal_apply_spec (call_agent env i) request s _ _ (env_bytes Henv i) (run_wf _ _ Hok)
      Eapply) as (m' & _ & Hspec & Hanswers).
    destruct (Hanswers _ eq_refl) as (a & l & w & Hop & _ & count' & Hout').
    rewrite Hout in Hout'. injection Hout' as -> -> _. eexists. split; [exact Hop|].
    by rewrite (ts_result _ _ _ _ Hspec).
  - exfalso. destruct (_ || _) in Hrun; injection Hrun as <- _; done.
Qed.

Definition request_of (operation : TransactionOperation) : TransactionRequest :=
  TransactionRequest_new CNI_TRANSACTION_SCHEMA_VERSION operation.

Record operation_post (operation : TransactionOperation) (n : Node)
    (r : result CniError (option AttachmentRecord * list AttachmentRecord)) (n' : Node) : Prop := {
  op_kernel : node_kernel n' = node_kernel n;
  op_moves : moves (eq operation) (node_agent n) (node_agent n');
  op_answer answer listed : r = Ok (answer, listed) →
    now n' ∈ past n' ∧
    ∃ i s st s' response, quiet (node_agent n) (Running s) ∧ agent_ok provider (Running s) ∧
      node_agent n' = Running s' ∧ agent_ok provider (Running s') ∧
      apply (call_agent env i) (request_of operation) s = (Ok response, s') ∧
      apply_operation (call_agent env i) operation CNI_TRANSACTION_SCHEMA_VERSION s =
        (Ok (answer, listed), st) ∧
      aj_attachments (js_journal st) = aj_attachments (js_journal s');
}.

Lemma runs_operation_result operation n :
  node_ok (now n) → may_complete (request_of operation) n →
  runs node_ok (operation_result env operation) (operation_post operation n) n.
Proof.
  intros Hn Hcomplete. pose proof (runs_transact _ _ Hn Hcomplete) as Hrun. unfold runs in *.
  unfold operation_result. fold (request_of operation).
  destruct (transact env (request_of operation) n) as [[response|[]] n'] eqn:Etransact; simpl in Hrun;
    destruct Hrun as (Hok & Hsteps & [Hk Hj Ha]).
  2: { split_and!; [done..|]. by split. }
  destruct (negb _) eqn:Eversion; [split_and!; [done..|]; by split|].
  destruct (response_outcome response) as [answer listed count|code] eqn:Eout.
  2: { split_and!; [done..|]. by split. }
  split_and!; [done..|]. split; [done..|]. intros ? ? [= <- <-].
  destruct (Ha _ eq_refl) as (Hpast & i & s0 & s' & Hs & Hforgets & Hn' & Hhandle).
  destruct (handle_request_Ok _ _ _ _ _ _ _ _ Hs Hhandle Eout) as (st & Hop & Hst & Happly).
  split; [done|]. exists i, s0, st, s', response. split_and!; try done. simpl in *. rewrite Hn' in Hok. apply Hok.
Qed.

(** The record an operation on a key answers with is the one the agent now has. *)
Record record_post (operation : TransactionOperation) (key : AttachmentKey) (n : Node)
    (r : result CniError (option AttachmentRecord)) (n' : Node) : Prop := {
  rec_kernel : node_kernel n' = node_kernel n;
  rec_moves : moves (eq operation) (node_agent n) (node_agent n');
  rec_answer answer : r = Ok answer →
    now n' ∈ past n' ∧
    ∃ s, node_agent n' = Running s ∧ agent_ok provider (Running s) ∧
      answer = aj_attachments (js_journal s) !! key ∧ answer_fits operation answer;
  rec_removed record : r = Ok None → journaled provider (node_agent n) key record →
    everywhere provider (keys_in (λ k, k ≠ key)) (node_agent n');
}.

Lemma runs_operation op key n :
  operation_key op = Some key → node_ok (now n) → may_complete (request_of op) n →
  runs node_ok (operation env op) (record_post op key n) n.
Proof.
  intros Hkey Hn Hcomplete. apply runs_bind.
  eapply runs_conseq; [by apply runs_operation_result|]. intros [[answer listed]|e] n' Hn' [Hk Hj Ha]; simpl.
  - apply runs_ret; [done|].
    destruct (Ha _ _ eq_refl) as (Hpast & i & s & st & s' & response & Hs & Hbefore & Hrun & Hok & Happly & Hop & Hst).
    destruct (apply_operation_answer _ _ _ _ _ _ _ _ Hop Hkey) as [Hanswer Hfits]. rewrite Hst in Hanswer.
    split; [done|done| |].
    + intros ? [= <-]. eauto 10.
    + intros record [= ->] Hr%(quiet_forgets _ _ _ Hs). destruct Hr as [(r' & Hr' & _) _].
      rewrite Hrun. by apply (serve_removes provider (call_agent env i) (request_of op) s response s'); [apply Henv|done|done|eexists|symmetry].
  - by split.
Qed.

(** ** The kernel *)

Record kernel_post {E A} (c : Routine NetWorld E A) (n : Node) (r : result CniError A) (n' : Node) :
    Prop := {
  kp_moves : quiet (node_agent n) (node_agent n');
  kp_names P : keeps (host_names P) c → host_names P (node_kernel n) → host_names P (node_kernel n');
  kp_run : ∃ rr w, c {| nw_kernel := node_kernel n; nw_history := [] |} = (rr, w) ∧
    node_kernel n' = nw_kernel w ∧ ∀ a, r = Ok a → rr = Ok a;
}.

Lemma runs_on_kernel {E A} (c : Routine NetWorld E A) n :
  node_ok (now n) →
  (∀ x, quiet (node_agent n) x → keeps (host_names (allowed x)) c) →
  runs node_ok (on_kernel env c) (kernel_post c n) n.
Proof.
  intros Hn Hc. destruct (agent_moves (node_calls n) _ _ Hn) as [Hx Hmoves].
  unfold runs, on_kernel. set (x := agent_before env (node_calls n) (node_agent n)) in *.
  destruct (Hc x Hmoves {| nw_kernel := node_kernel n; nw_history := [] |}) as (Hend & (new & Hnew & Hall) & _);
    [apply Hx|].
  destruct (c _) as [rr w] eqn:Ec; simpl in *. rewrite app_nil_r in Hnew. split_and!.
  - by split; [apply Hx|].
  - exists (map (pair x) (nw_history w ++ [node_kernel n])). split; [done|].
    rewrite map_app. apply Forall_app. split; [|by apply Forall_singleton].
    rewrite Hnew. apply Forall_map. eapply Forall_impl; [done|]. intros k Hk. by split; [apply Hx|].
  - split; [done| |].
    + intros P HP HP0. destruct (HP {| nw_kernel := node_kernel n; nw_history := [] |} HP0) as [HP1 _].
      by rewrite Ec in HP1.
    + exists rr, w. split_and!; [done..|]. intros a Ha. by destruct rr; simplify_eq.
Qed.

(** Nothing the plugin does to tear down creates a name. *)
Lemma runs_links_delete links n :
  node_ok (now n) → runs node_ok (on_kernel env (veth_delete links)) (kernel_post (veth_delete links) n) n.
Proof. intros Hn. apply runs_on_kernel; [done|]. intros x _. apply keeps_veth_delete. Qed.

Lemma runs_routes_delete routes n :
  node_ok (now n) →
  runs node_ok (on_kernel env (native_delete routes)) (kernel_post (native_delete routes) n) n.
Proof. intros Hn. apply runs_on_kernel; [done|]. intros x _. apply keeps_native_delete, _. Qed.

(** What removing the resources of an attachment leaves. *)
Record cleanup_post (record : AttachmentRecord) (n : Node) (r : result CniError ()) (n' : Node) :
    Prop := {
  cl_moves : quiet (node_agent n) (node_agent n');
  cl_names P : host_names P (node_kernel n) → host_names P (node_kernel n');
  cl_removed : r = Ok () →
    ¬ named (node_kernel n') host_namespace (att_host_interface record) ∧
    unrouted (att_lease record) (node_kernel n');
}.

Lemma runs_cleanup record n :
  node_ok (now n) → runs node_ok (cleanup_record env record) (cleanup_post record n) n.
Proof.
  intros Hn. unfold cleanup_record, planned. apply runs_bind.
  destruct (from_attachment record) as [links|] eqn:Elinks; [|apply runs_fail; [done|by split]].
  apply runs_ret; [done|]. simpl. apply runs_bind.
  eapply runs_conseq; [apply runs_on_kernel; [done|intros x _; apply keeps_cleanup_readback]|].
  intros [link_state|e] n1 Hn1 [Hj1 Hnames1 _]; simpl;
    (assert (HP1 : ∀ P, host_names P (node_kernel n) → host_names P (node_kernel n1))
      by (intros P; apply Hnames1, keeps_cleanup_readback)); [|by split]. apply runs_bind.
  destruct (native_cleanup_plan record link_state) as [routes|] eqn:Eroutes;
    [|apply runs_fail; [done|by split]].
  apply runs_ret; [done|]. simpl. apply runs_bind.
  eapply runs_conseq; [by apply runs_routes_delete|].
  intros r2 n2 Hn2 [Hj2 Hnames2 (rr2 & w2 & Hrun2 & Hk2 & Hr2)].
  assert (HP2 : ∀ P, host_names P (node_kernel n) → host_names P (node_kernel n2))
    by (intros P HP%HP1; revert HP; apply Hnames2, keeps_native_delete, _).
  destruct r2 as [outcome|e]; simpl; [|by split; [etransitivity|..]].
  apply runs_bind. eapply runs_conseq; [by apply runs_links_delete|].
  intros r n3 Hn3 [Hj3 Hnames3 (rr3 & w3 & Hrun3 & Hk3 & Hr3)].
  assert (Hj : quiet (node_agent n) (node_agent n3)) by (by do 2 (etransitivity; [done|])).
  assert (HP3 : ∀ P, host_names P (node_kernel n) → host_names P (node_kernel n3))
    by (intros P HP%HP2; revert HP; apply Hnames3, keeps_veth_delete).
  destruct r as [outcome3|e]; simpl; [|by split]. apply runs_ret; [done|]. split; [done..|]. intros _.
  rewrite Hk3. rewrite (Hr3 _ eq_refl) in Hrun3. rewrite (Hr2 _ eq_refl) in Hrun2. split.
  - destruct (from_attachment_Ok _ _ Elinks) as [<- _]. by eapply veth_delete_Ok.
  - eapply vacated_unrouted; [exact Eroutes|]. eapply vacated_deleted; [|exact Hrun3]. simpl.
    rewrite Hk2. by eapply native_delete_Ok.
Qed.

(** ** Rolling back *)

(** The agent has the attachment the plugin works on. *)
Record known (n : Node) (record : AttachmentRecord) : Prop := {
  known_journaled : journaled provider (node_agent n) (att_key record) record;
  known_interface : att_host_interface record = deterministic_host_interface (att_key record);
}.

Lemma known_moves n n' record :
  forgets_nothing (node_agent n) (node_agent n') → known n record → known n' record.
Proof. intros Hj [Hr Hi]. split; [by apply Hj|done]. Qed.

Lemma may_complete_other op n :
  (∀ key, op ≠ OpCompleteAbort key ∧ op ≠ OpCompleteDelete key) → may_complete (request_of op) n.
Proof. intros Hop key x [Hc|Hc]; by destruct (Hop key). Qed.

Lemma may_complete_gone op key n :
  mutated_key op = Some key →
  ¬ named (node_kernel n) host_namespace (deterministic_host_interface key) →
  may_complete (request_of op) n.
Proof. intros Hkey Hgone key' x [Hc|Hc] _ _; simpl in Hc; subst op; by injection Hkey as <-. Qed.

Lemma moves_other op x y :
  (∀ key, op ≠ OpCompleteAbort key ∧ op ≠ OpCompleteDelete key) →
  moves (eq op) x y → forgets_nothing x y.
Proof.
  intros Hop Hxy key r. eapply moves_record; [done|]. intros ? <- [Hc|Hc]; by destruct (Hop key).
Qed.

Lemma runs_or_retry {A} (c : Routine Node CniError A) Q n :
  runs node_ok c (λ r n', match r with Ok _ => Q r n' | Err _ => Q (Err retry_with_details) n' end) n →
  runs node_ok (or_retry c) Q n.
Proof. unfold runs, or_retry. by destruct (c n) as [[] ?]. Qed.

Lemma runs_begin_abort record n :
  node_ok (now n) →
  runs node_ok (plugin_begin_abort env record)
    (λ _ n', node_kernel n' = node_kernel n ∧ forgets_nothing (node_agent n) (node_agent n')) n.
Proof.
  intros Hn. apply runs_bind. eapply runs_conseq.
  { apply (runs_operation (OpBeginAbort (att_key record)) (att_key record)); [done..|].
    by apply may_complete_other. }
  intros [answer|e] n' Hn' [Hk Hj%moves_other _ _]; simpl; try done. by apply runs_ret.
Qed.

(** The key is in no journal to come, unless it is prepared again. *)
Definition gone (key : AttachmentKey) (n : Node) : Prop :=
  everywhere provider (keys_in (λ k, k ≠ key)) (node_agent n).

(** Completing, once the interface is gone. *)
Record complete_post (op : TransactionOperation) (key : AttachmentKey) (n : Node)
    (r : result CniError ()) (n' : Node) : Prop := {
  cp_kernel : node_kernel n' = node_kernel n;
  cp_moves : moves (eq op) (node_agent n) (node_agent n');
  cp_removed : r = Ok () → now n' ∈ past n' ∧
    (∃ s, node_agent n' = Running s ∧ aj_attachments (js_journal s) !! key = None) ∧
    ∀ record, journaled provider (node_agent n) key record → gone key n';
}.

Lemma runs_complete op key n :
  completes op key → node_ok (now n) → may_complete (request_of op) n →
  runs node_ok (let* _ := operation env op in op_ret ()) (complete_post op key n) n.
Proof.
  intros Hop Hn Hcomplete. apply runs_bind.
  eapply runs_conseq; [apply (runs_operation op key); [by destruct Hop; subst|done..]|].
  intros [answer|e] n' Hn' [Hk Hj Ha Hgone]; simpl; [|by split]. apply runs_ret; [done|]. split; [done..|].
  intros _. destruct (Ha _ eq_refl) as (Hpast & s & Hs & _ & Hanswer & Hfits).
  assert (answer = None) as -> by (by destruct Hop; subst). split; [done|]. split; [by eauto|].
  intros record. by apply Hgone.
Qed.

Lemma unbuildable_gone record n :
  known n record → is_ok (from_attachment record) = false →
  may_complete (request_of (OpCompleteAbort (att_key record))) n.
Proof.
  intros [Hj _] Hplan key x [Hc|Hc] [Hok Hk] Hforgets Hnamed; [|done]. injection Hc as <-.
  destruct (Hk _ Hnamed _ eq_refl) as (owner & r & Howner & Hr & Hbuild). simpl in *.
  destruct (journaled_unique provider Hprovider x owner (att_key record) r record Hok Hr) as [_ Hsame];
    [by apply Hforgets|done|].
  destruct (from_attachment r) as [p|] eqn:Ep; [|done].
  destruct (from_attachment_same _ _ _ Hsame Ep) as (q & Hq & _). by rewrite Hq in Hplan.
Qed.

Lemma runs_abort_without_resources {A} record n :
  node_ok (now n) → known n record → is_ok (from_attachment record) = false →
  runs node_ok (abort_without_resources (A := A) env record) (λ r _, is_ok r = false) n.
Proof.
  intros Hn Hknown Hplan. apply runs_bind, runs_or_retry.
  eapply runs_conseq; [by apply runs_begin_abort|]. intros [[]|e] n1 Hn1 [Hk1 Hj1]; simpl; [|done].
  apply runs_bind, runs_or_retry. eapply runs_conseq.
  { apply (runs_complete (OpCompleteAbort (att_key record)) (att_key record)); [by left|done|].
    apply unbuildable_gone; [|done]. by eapply known_moves. }
  intros [[]|e] n2 Hn2 _; simpl; [|done]. by apply runs_fail.
Qed.

(** The end of the other two rollbacks: the links, then the record. *)
Lemma runs_drop_links {A} record links n :
  node_ok (now n) → known n record → from_attachment record = Ok links →
  runs node_ok
    (let* _ := on_kernel env (veth_delete links) in
     let* _ := or_retry (plugin_complete_abort env record) in
     op_fail retry_with_details) (λ (r : result CniError A) _, is_ok r = false) n.
Proof.
  intros Hn [_ Hi] Hplan. apply runs_bind. eapply runs_conseq; [by apply runs_links_delete|].
  intros [outcome|e] n1 Hn1 [_ _ (rr & w & Hrun & Hk & Hr)]; simpl; [|done].
  rewrite (Hr _ eq_refl) in Hrun. apply runs_bind, runs_or_retry. eapply runs_conseq.
  { apply (runs_complete (OpCompleteAbort (att_key record)) (att_key record)); [by left|done|].
    apply may_complete_gone with (key := att_key record); [done|].
    rewrite Hk, <-Hi. destruct (from_attachment_Ok _ _ Hplan) as [<- _]. by eapply veth_delete_Ok. }
  intros [[]|e] n2 Hn2 _; simpl; [|done]. by apply runs_fail.
Qed.

Lemma runs_abort_after_link_failure {A} record links n :
  node_ok (now n) → known n record → from_attachment record = Ok links →
  runs node_ok (abort_after_link_failure (A := A) env record links) (λ r _, is_ok r = false) n.
Proof.
  intros Hn Hknown Hplan. apply runs_bind, runs_or_retry.
  eapply runs_conseq; [by apply runs_begin_abort|]. intros [[]|e] n1 Hn1 [_ Hj1]; simpl; [|done].
  apply runs_drop_links; [done| |done]. by eapply known_moves.
Qed.

Lemma runs_abort_with_resources {A} record links routes n :
  node_ok (now n) → known n record → from_attachment record = Ok links →
  runs node_ok (abort_with_resources (A := A) env record links routes) (λ r _, is_ok r = false) n.
Proof.
  intros Hn Hknown Hplan. apply runs_bind, runs_or_retry.
  eapply runs_conseq; [by apply runs_begin_abort|]. intros [[]|e] n1 Hn1 [_ Hj1]; simpl; [|done].
  apply runs_bind. eapply runs_conseq; [by apply runs_routes_delete|].
  intros [outcome|e] n2 Hn2 [Hj2 _ _]; simpl; [|done].
  apply runs_drop_links; [done| |done]. eapply known_moves; [|done].
  transitivity (node_agent n1); [done|by apply quiet_forgets].
Qed.

(** ** ADD *)

(** The pair and the routes of an attachment are in the kernel, as [rb] reports. *)
Definition attached (record : AttachmentRecord) (rb : LinkReadback) (k : kernel) : Prop :=
  ∃ plan routes, from_attachment record = Ok plan ∧ pair_ready plan rb k ∧
    native_plan record rb = Ok routes ∧ plan_installed routes k.

(** The agent was seen to have the attachment ready. *)
Definition was_ready (record : AttachmentRecord) (n : Node) : Prop :=
  ∃ s r k, (Running s, k) ∈ past n ∧ aj_attachments (js_journal s) !! att_key record = Some r ∧
    att_phase r = Ready ∧ same_attachment record r.

Definition add_post (record : AttachmentRecord) (r : result CniError AddResult) (n : Node) : Prop :=
  ∀ result, r = Ok result →
    ∃ rb, known n record ∧ was_ready record n ∧ attached record rb (node_kernel n) ∧
      result = add_result record rb.

Lemma allowed_known x n record links :
  known n record → forgets_nothing (node_agent n) x → from_attachment record = Ok links →
  allowed x (plan_host_name links) ∧ allowed x (plan_temporary_peer_name links).
Proof.
  intros [Hj Hi] Hforgets Hplan.
  destruct (from_attachment_Ok _ _ Hplan) as (Hhost & _ & _ & _ & _ & Htemp). split.
  - intros key Hkey. exists (att_key record), record. rewrite Hhost, Hi, Hplan. by split_and!; [|apply Hforgets|].
  - intros key Hkey. by destruct (Htemp key).
Qed.

Lemma runs_verify_ready record n :
  node_ok (now n) → known n record → was_ready record n →
  runs node_ok (verify_ready env record) (add_post record) n.
Proof.
  intros Hn Hknown (s & r & k & Hpast & Hready). unfold verify_ready, planned. apply runs_bind.
  destruct (from_attachment record) as [links|] eqn:Elinks; [|by apply runs_fail].
  apply runs_ret; [done|]. apply runs_bind. eapply runs_grows.
  { apply runs_on_kernel; [done|]. intros x _. apply keeps_veth_readback. }
  intros [rb|e] n1 Hn1 Hgrow1 [Hj1 _ (rr1 & w1 & Hrun1 & Hk1 & Hr1)]; [|done].
  rewrite (Hr1 _ eq_refl) in Hrun1. apply veth_readback_Ok in Hrun1 as [Hpair _]. rewrite <-Hk1 in Hpair.
  apply runs_bind. destruct (native_plan record rb) as [routes|] eqn:Eroutes; [|by apply runs_fail].
  apply runs_ret; [done|]. apply runs_bind. eapply runs_grows.
  { apply runs_on_kernel; [done|]. intros x _. apply keeps_native_readback, _. }
  intros [[]|e] n2 Hn2 Hgrow2 [Hj2 _ (rr2 & w2 & Hrun2 & Hk2 & Hr2)]; [|done].
  rewrite (Hr2 _ eq_refl) in Hrun2. apply native_readback_Ok in Hrun2 as [Hinstalled Hsame].
  simpl in Hsame. rewrite <-Hk2 in Hinstalled, Hsame. apply runs_ret; [done|].
  intros result [= <-]. exists rb. split_and!; [| |exists links, routes; split_and!|]; try done.
  - eapply known_moves; [|done]. apply quiet_forgets. by transitivity (node_agent n1).
  - exists s, r, k. auto.
  - eapply pair_ready_same; [by apply same_view_links|done].
Qed.

Lemma runs_commit_add record links rb routes n :
  node_ok (now n) → known n record → from_attachment record = Ok links →
  attached record rb (node_kernel n) →
  runs node_ok (commit_add env record links rb routes) (add_post record) n.
Proof.
  intros Hn Hknown Hplan Hattached. apply runs_bind, runs_attempt. eapply runs_conseq.
  { apply (runs_operation (OpCommit (att_key record)) (att_key record)); [done..|].
    by apply may_complete_other. }
  intros r n1 Hn1 [Hk Hj%moves_other Ha _]; [|done]. simpl.
  pose proof (known_moves _ _ _ Hj Hknown) as Hknown1.
  assert (Habort : runs node_ok (abort_with_resources env record links routes) (add_post record) n1).
  { eapply runs_conseq; [by apply runs_abort_with_resources|]. intros [] ? _ ?; done. }
  destruct r as [[committed|]|e]; [|done..]. apply runs_bind.
  destruct (Ha _ eq_refl) as (Hpast & s & Hs & Hok & Hcommitted & _).
  unfold guard. case_bool_decide as Hphase; [|by apply runs_fail]. apply runs_ret; [done|].
  apply runs_ret; [done|]. intros result [= <-]. exists rb. rewrite Hk.
  assert (Hsame : same_attachment record committed).
  { destruct Hknown1 as [Hjournaled _]. rewrite Hs in Hjournaled.
    destruct Hjournaled as [(r' & Hr' & ?) _]. rewrite <-Hcommitted in Hr'. by injection Hr' as ->. }
  split_and!; [done| |done|by rewrite (add_result_same _ _ _ Hsame)].
  exists s, committed, (node_kernel n1). simpl in Hpast. by rewrite <-Hs.
Qed.

Lemma runs_finish_add record n :
  node_ok (now n) → known n record → runs node_ok (finish_add env record) (add_post record) n.
Proof.
  intros Hn Hknown. unfold finish_add.
  assert (Hfailed : ∀ (c : Routine Node CniError AddResult) n',
    runs node_ok c (λ r _, is_ok r = false) n' → runs node_ok c (add_post record) n').
  { intros c n' Hc. eapply runs_conseq; [done|]. intros [] ? _ ?; done. }
  destruct (from_attachment record) as [links|] eqn:Elinks.
  2: { apply Hfailed, runs_abort_without_resources; [done..|]. by rewrite Elinks. }
  apply runs_bind, runs_attempt. eapply runs_conseq.
  { apply runs_on_kernel; [done|]. intros x Hx.
    apply quiet_forgets in Hx. destruct (allowed_known x n record links Hknown Hx Elinks). by apply keeps_veth_apply. }
  intros [rb|e] n1 Hn1 [Hj1 _ (rr1 & w1 & Hrun1 & Hk1 & Hr1)]; simpl;
    apply quiet_forgets in Hj1; apply (known_moves _ n1) in Hknown; [|done| |done].
  2: { by apply Hfailed, runs_abort_after_link_failure. }
  destruct (native_plan record rb) as [routes|] eqn:Eroutes.
  2: { by apply Hfailed, runs_abort_after_link_failure. }
  rewrite (Hr1 _ eq_refl) in Hrun1. apply veth_apply_Ok in Hrun1 as Hpair. rewrite <-Hk1 in Hpair.
  apply runs_bind, runs_attempt. eapply runs_conseq.
  { apply runs_on_kernel; [done|]. intros x _. apply keeps_native_apply, _. }
  intros [[]|e] n2 Hn2 [Hj2 _ (rr2 & w2 & Hrun2 & Hk2 & Hr2)]; simpl;
    apply quiet_forgets in Hj2; apply (known_moves _ n2) in Hknown; [|done| |done].
  2: { by apply Hfailed, runs_abort_with_resources. }
  rewrite (Hr2 _ eq_refl) in Hrun2. apply native_apply_Ok in Hrun2 as [Hinstalled Hsame].
  simpl in Hsame. rewrite <-Hk2 in Hinstalled, Hsame. apply runs_commit_add; [done..|].
  exists links, routes. split_and!; try done. by eapply pair_ready_same.
Qed.

(** The attachment of the answer to a preparation, or of one in use. *)
Lemma known_answer n s key record :
  node_agent n = Running s → agent_ok provider (Running s) →
  aj_attachments (js_journal s) !! key = Some record →
  att_phase record = Preparing ∨ att_phase record = Ready →
  known n record ∧ att_key record = key.
Proof.
  intros Hs Hok Hr Hphase. destruct (record_facts provider s key record Hok Hr) as [Hkey Hi].
  split; [|done]. split; rewrite Hkey; [|done]. rewrite Hs. by apply journaled_active.
Qed.

(** What ADD leaves when it succeeds. *)
Definition add_spec (spec : AttachmentSpec) (r : result CniError AddResult) (n : Node) : Prop :=
  ∀ result, r = Ok result →
    ∃ record, accepts_replay (att_spec record) spec = true ∧ add_post record r n.

Lemma runs_prepare_and_finish spec n :
  node_ok (now n) → runs node_ok (prepare_and_finish env spec) (add_spec spec) n.
Proof.
  intros Hn. apply runs_bind. eapply runs_conseq.
  { apply (runs_operation (OpPrepare spec) (aspec_key spec)); [done..|]. by apply may_complete_other. }
  intros [answer|e] n1 Hn1 [_ _ Ha _]; simpl; [|done].
  destruct (Ha _ eq_refl) as (_ & s & Hs & Hok & Hanswer & record & -> & Hphase & Hreplay).
  apply runs_bind, runs_ret; [done|].
  destruct (known_answer n1 s (aspec_key spec) record) as [Hknown _]; [by auto..|].
  eapply runs_conseq; [by apply runs_finish_add|]. intros r n2 Hn2 Hpost result ->. eauto.
Qed.

Lemma runs_recover_abort record n :
  node_ok (now n) → att_host_interface record = deterministic_host_interface (att_key record) →
  runs node_ok (recover_abort env record) (λ _ _, True) n.
Proof.
  intros Hn Hi. apply runs_bind. eapply runs_conseq; [by apply runs_cleanup|].
  intros [[]|e] n1 Hn1 [_ _ Hdone]; simpl; [|done]. destruct (Hdone eq_refl) as [Hgone _].
  eapply runs_conseq; [|done].
  apply (runs_complete (OpCompleteAbort (att_key record)) (att_key record)); [by left|done|].
  eapply may_complete_gone; [done|]. by rewrite <-Hi.
Qed.

Lemma runs_add environment config n :
  node_ok (now n) →
  runs node_ok (add env environment config)
    (λ r n', ∀ spec, attachment_spec environment config = Ok spec → add_spec spec r n') n.
Proof.
  intros Hn. apply runs_bind, runs_lift; [done|].
  destruct (attachment_spec environment config) as [spec|] eqn:Espec; [|done]. simpl.
  apply runs_bind. eapply runs_conseq.
  { apply (runs_operation (OpInspect (aspec_key spec)) (aspec_key spec)); [done..|].
    by apply may_complete_other. }
  intros [answer|e] n1 Hn1 [_ _ Ha _]; simpl; [|done].
  assert (Hprepare : ∀ n', node_ok (now n') → runs node_ok (prepare_and_finish env spec)
    (λ r n', ∀ spec', Ok (E := CniError) spec = Ok spec' → add_spec spec' r n') n').
  { intros n' Hn'. eapply runs_conseq; [by apply runs_prepare_and_finish|]. by intros r n2 _ ? ? [= <-]. }
  destruct answer as [record|]; [|by apply Hprepare].
  destruct (Ha _ eq_refl) as (Hpast & s & Hs & Hok & Hanswer & _). symmetry in Hanswer.
  apply runs_bind. unfold ensure_spec, guard. destruct (accepts_replay _ _) eqn:Ereplay;
    [|by apply runs_fail]. apply runs_ret; [done|]. simpl.
  assert (Hspec : ∀ r n', add_post record r n' → ∀ spec', Ok (E := CniError) spec = Ok spec' → add_spec spec' r n').
  { intros r n' Hpost spec' [= <-] result ->. eauto. }
  destruct (att_phase record) eqn:Ephase.
  - destruct (known_answer n1 s (aspec_key spec) record) as [Hknown _]; [by auto..|].
    eapply runs_conseq; [by apply runs_finish_add|]. auto.
  - destruct (known_answer n1 s (aspec_key spec) record) as [Hknown Hkey]; [by auto..|].
    eapply runs_conseq; [apply runs_verify_ready; [done..|]|by auto].
    exists s, record, (node_kernel n1). rewrite Hkey. simpl in Hpast. by rewrite <-Hs.
  - destruct (record_facts provider s _ _ Hok Hanswer) as [Hkey Hi].
    apply runs_bind. eapply runs_conseq; [apply runs_recover_abort; [done|by rewrite Hkey]|].
    intros [[]|e] n2 Hn2 _; simpl; [by apply Hprepare|done].
  - by apply runs_fail.
Qed.

(** ** CHECK and DEL *)

Lemma runs_check environment config n :
  node_ok (now n) →
  runs node_ok (cni_check env environment config)
    (λ r n', r = Ok () → ∀ spec, attachment_spec environment config = Ok spec →
      ∃ record rb supplied, accepts_replay (att_spec record) spec = true ∧ known n' record ∧
        was_ready record n' ∧ attached record rb (node_kernel n') ∧
        config_prev_result config = Some supplied ∧
        normalize_empty_dns supplied = normalize_empty_dns (to_value (add_result record rb))) n.
Proof.
  intros Hn. apply runs_bind, runs_lift; [done|].
  destruct (attachment_spec environment config) as [spec|] eqn:Espec; [|done]. simpl.
  apply runs_bind. eapply runs_conseq.
  { apply (runs_operation (OpCheck spec) (aspec_key spec)); [done..|]. by apply may_complete_other. }
  intros [answer|e] n1 Hn1 [_ _ Ha _]; simpl; [|done].
  destruct (Ha _ eq_refl) as (Hpast & s & Hs & Hok & Hanswer & record & -> & Hphase & Hreplay).
  symmetry in Hanswer. destruct (known_answer n1 s (aspec_key spec) record) as [Hknown Hkey]; [by auto..|].
  apply runs_bind, runs_ret; [done|]. apply runs_bind.
  eapply runs_conseq; [apply runs_verify_ready; [done..|]|].
  { exists s, record, (node_kernel n1). rewrite Hkey. simpl in Hpast. by rewrite <-Hs. }
  intros [actual|e] n2 Hn2 Hpost; [|done]. destruct (Hpost _ eq_refl) as (rb & ? & ? & ? & ->).
  apply runs_bind, runs_lift; [done|]. destruct (config_prev_result config) as [supplied|]; [|done]. simpl.
  unfold guard. case_bool_decide; [|by apply runs_fail]. apply runs_ret; [done|].
  intros _ spec' [= <-]. by exists record, rb, supplied.
Qed.

(** A key whose record was torn down. *)
Definition torn_down (key : AttachmentKey) (r : AttachmentRecord) (n : Node) : Prop :=
  ¬ named (node_kernel n) host_namespace (deterministic_host_interface key) ∧
  unrouted (att_lease r) (node_kernel n).

(** The requests that take a key out of the journal. *)
Definition tears_down (key : AttachmentKey) (op : TransactionOperation) : Prop :=
  op = OpBeginDelete key ∨ completes op key.

(** What a deletion does, and what it leaves when it succeeds. *)
Record delete_post (key : AttachmentKey) (n : Node) (r : result CniError ()) (n' : Node) : Prop := {
  del_moves : moves (tears_down key) (node_agent n) (node_agent n');
  del_names P : host_names P (node_kernel n) → host_names P (node_kernel n');
  del_done : r = Ok () → now n' ∈ past n' ∧ validate_key key = Ok () ∧
    (∃ s, node_agent n' = Running s ∧ aj_attachments (js_journal s) !! key = None) ∧
    ∀ record, journaled provider (node_agent n) key record → torn_down key record n' ∧ gone key n';
}.

(** What tearing down the attachment [found] does. *)
Record teardown_post (found : AttachmentRecord) (n : Node) (r : result CniError ()) (n' : Node) :
    Prop := {
  td_moves : moves (tears_down (att_key found)) (node_agent n) (node_agent n');
  td_names P : host_names P (node_kernel n) → host_names P (node_kernel n');
  td_done record : r = Ok () → journaled provider (node_agent n) (att_key found) record →
    same_attachment record found → torn_down (att_key found) record n' ∧ gone (att_key found) n';
  td_answered : r = Ok () → now n' ∈ past n' ∧
    ∃ s, node_agent n' = Running s ∧ aj_attachments (js_journal s) !! att_key found = None;
}.

(** The resources of an attachment, then its record. *)
Lemma runs_teardown op record n :
  completes op (att_key record) → node_ok (now n) →
  att_host_interface record = deterministic_host_interface (att_key record) →
  runs node_ok
    (let* _ := cleanup_record env record in
     let* _ := operation env op in
     op_ret ()) (teardown_post record n) n.
Proof.
  intros Hop Hn Hi. apply runs_bind. eapply runs_conseq; [by apply runs_cleanup|].
  intros r1 n1 Hn1 [Hj1 Hnames Hdone]. destruct r1 as [[]|e]; simpl; [|by split; [apply quiet_moves|..]].
  destruct (Hdone eq_refl) as [Hgone Hroutes]. rewrite Hi in Hgone. eapply runs_conseq.
  { apply (runs_complete op (att_key record)); [done..|].
    eapply may_complete_gone; [|exact Hgone]. by destruct Hop; subst. }
  intros r n2 Hn2 [Hk Hj2 Hremoved]. split.
  - etransitivity; [by apply quiet_moves|]. intros Φ HΦ. apply Hj2. intros ? <-. apply HΦ. by right.
  - intros P HP%Hnames. by rewrite Hk.
  - intros r' Hr Hr' (_ & _ & Hlease & _)%same_attachment_fields. destruct (Hremoved Hr) as (_ & _ & Hkey).
    split; [|apply (Hkey r'); by apply (quiet_forgets _ _ _ Hj1)].
    unfold torn_down. by rewrite Hk, Hlease.
  - intros Hr. by destruct (Hremoved Hr) as (? & ? & _).
Qed.

Lemma runs_delete_key key n :
  node_ok (now n) →
  runs node_ok
    (let* found := operation env (OpBeginDelete key) in
     match found with
     | None => op_ret ()
     | Some record =>
         let* _ := cleanup_record env record in
         let* _ := operation env (OpCompleteDelete key) in
         op_ret ()
     end) (delete_post key n) n.
Proof.
  intros Hn. apply runs_bind. eapply runs_conseq.
  { apply (runs_operation (OpBeginDelete key) key); [done..|]. by apply may_complete_other. }
  intros r1 n1 Hn1 [Hk1 Hj1 Ha _].
  assert (Hmoves : moves (tears_down key) (node_agent n) (node_agent n1)).
  { intros Φ HΦ. apply Hj1. intros ? <-. apply HΦ. by left. }
  destruct r1 as [answer|e]; simpl; [|by split; rewrite ?Hk1].
  destruct (Ha _ eq_refl) as (Hpast & s & Hs & Hok & Hanswer & Hvalid & _). symmetry in Hanswer.
  apply moves_other in Hj1; [|done].
  assert (Hsame : ∀ record, journaled provider (node_agent n) key record →
    has_record key record (aj_attachments (js_journal s))).
  { intros record Hr%Hj1. rewrite Hs in Hr. apply Hr. }
  destruct answer as [deleting|].
  2: { apply runs_ret; [done|]. split; [done|by rewrite Hk1|]. intros _. split; [done|].
       split; [done|]. split; [by eauto|]. intros record (r' & Hr' & _)%Hsame. congruence. }
  destruct (record_facts provider s _ _ Hok Hanswer) as [<- Hi].
  eapply runs_conseq; [by apply runs_teardown; [right|..]|].
  intros r n2 Hn2 [Hj2 Hnames Hdone Hanswered]. split; [by etransitivity|by rewrite <-Hk1|].
  intros Hr. destruct (Hanswered Hr). split; [done|]. split; [done|]. split; [done|].
  intros record Hrecord.
  apply Hdone; [done|by apply Hj1|]. apply Hsame in Hrecord as (r' & Hr' & ?).
  rewrite Hanswer in Hr'. by injection Hr' as ->.
Qed.

Lemma runs_delete environment config n :
  node_ok (now n) →
  runs node_ok (cni_delete env environment config)
    (λ r n', ∀ key, attachment_key environment config = Ok key → delete_post key n r n') n.
Proof.
  intros Hn. apply runs_bind, runs_lift; [done|].
  destruct (attachment_key environment config) as [key|] eqn:Ekey; [|done]. simpl.
  eapply runs_conseq; [by apply runs_delete_key|]. by intros r n' _ Hpost ? [= <-].
Qed.

End Plugin.
