(* ===== verification/CniCollect.v ===== *)
(** * Garbage collection

    The loop of GC over the pages of the journal ends after a number of pages that the
    journal bounds, touches nothing the runtime still knows, and, when it reports success,
    has taken every other attachment of the network out of the kernel and off the disk. *)

From S2P Require Import Prelude Common NetAddr Ipam Bytes Runs Netlink CniAttachment VethPlan VethFacts NativeRoutes RouteFacts CniJournal CniJournalFacts CniJournalCrash CniJournalSafety CniJournalList CniAgent CniLifecycle CniPluginSafety.

Section Collect.
Context (env : NodeEnv) `{HJ : JournalJsonLaws} `{HN : NetlinkLaws} `{HD : Digest} `{HR : ResultJson}.
Context (provider : NodeBlockProvider) (Hprovider : NodeBlockProvider_wf provider).
Context (Henv : node_env_ok env provider) (config : NetworkConfig).

Local Abbreviation node_ok := (node_ok provider).
Local Abbreviation quiet := (quiet provider).
Local Abbreviation moves := (moves provider).
Local Abbreviation journaled := (journaled provider).
Local Abbreviation gone := (gone provider).

(** ** One record *)

Lemma runs_collect_record record n :
  node_ok (now n) → att_host_interface record = deterministic_host_interface (att_key record) →
  runs node_ok (garbage_collect_record env record) (teardown_post provider record n) n.
Proof.
  intros Hn Hi. unfold garbage_collect_record.
  assert (Hdelete : ∀ r n', delete_post provider (att_key record) n r n' →
    teardown_post provider record n r n').
  { intros r n' [Hmoves Hnames Hdone]. split; [done..| |].
    - intros record' Hr Hj _. destruct (Hdone Hr) as (_ & _ & _ & Hrecords). by apply Hrecords.
    - intros Hr. destruct (Hdone Hr) as (? & _ & ? & _). done. }
  destruct (att_phase record).
  3: { by eapply runs_teardown; [..|left|done|done]. }
  all: eapply runs_conseq; [by apply runs_delete_key|by auto].
Qed.

(** ** One page *)

(** The requests that collect one of the records. *)
Definition collects (records : list AttachmentRecord) (op : TransactionOperation) : Prop :=
  ∃ record, record ∈ records ∧ still_valid config record = false ∧ tears_down (att_key record) op.

(** The key is gone from the journal and its interface from the kernel. *)
Definition collected (key : AttachmentKey) (n : Node) : Prop :=
  gone key n ∧ ¬ named (node_kernel n) host_namespace (deterministic_host_interface key).

Record collect_post (ops : TransactionOperation → Prop) (n n' : Node) : Prop := {
  co_moves : moves ops (node_agent n) (node_agent n');
  co_names P : host_names P (node_kernel n) → host_names P (node_kernel n');
}.

Lemma collect_post_trans ops n1 n2 n3 :
  collect_post ops n1 n2 → collect_post ops n2 n3 → collect_post ops n1 n3.
Proof. intros [Hm1 Hn1] [Hm2 Hn2]. split; [by etransitivity|by auto]. Qed.

Lemma collect_post_weaken (ops ops' : TransactionOperation → Prop) n n' :
  (∀ op, ops op → ops' op) → collect_post ops n n' → collect_post ops' n n'.
Proof. intros Hops [Hm Hn]. split; [|done]. intros Φ HΦ. apply Hm. auto. Qed.

Lemma collect_post_quiet ops n n' :
  node_kernel n' = node_kernel n → quiet (node_agent n) (node_agent n') → collect_post ops n n'.
Proof. intros Hk Hq. split; [by apply quiet_moves|by rewrite Hk]. Qed.

(** No request of a collection prepares a key. *)
Definition never_prepares (ops : TransactionOperation → Prop) : Prop :=
  ∀ op spec, ops op → op ≠ OpPrepare spec.

Lemma tears_down_key key key' op :
  tears_down key op → mutated_key op = Some key' → key' = key.
Proof. by intros [->|[->| ->]] [= <-]. Qed.

Lemma tears_down_never_prepares key : never_prepares (tears_down key).
Proof. by intros op spec [->|[->| ->]]. Qed.

(** What was collected stays so. *)
Lemma collected_stays ops n n' key :
  never_prepares ops → collect_post ops n n' → collected key n → collected key n'.
Proof.
  intros Hops [Hm Hnames] [Hgone Hnamed]. split.
  - apply Hm; [|done]. intros op Hop. apply stable_keys. intros spec. by apply Hops.
  - intros Hnamed'. eapply (Hnames (λ name, name ≠ deterministic_host_interface key)); [|done|done].
    by intros name Hname ->.
Qed.

Lemma runs_collect_page records count n :
  node_ok (now n) → StronglySorted key_before records →
  (∀ r, r ∈ records → att_host_interface r = deterministic_host_interface (att_key r)) →
  runs node_ok (collect_page env config records count)
    (λ res n', collect_post (collects records) n n' ∧ ∃ count', res = Ok count' ∧ count ≤ count' ∧
      (count' = count → ∀ found record, found ∈ records → still_valid config found = false →
        journaled (node_agent n) (att_key found) record → same_attachment record found →
        collected (att_key found) n')) n.
Proof.
  revert count n. induction records as [|r records IH]; intros count n Hn Hsorted Hinterface; simpl.
  { apply runs_ret; [done|]. split; [by split|]. exists count. split_and!; [done|lia|]. by inversion 2. }
  apply StronglySorted_inv in Hsorted as [Hsorted Hr].
  assert (Hincl : ∀ op, collects records op → collects (r :: records) op).
  { intros op (r' & ? & ?). exists r'. by split; [right|]. }
  destruct (still_valid config r) eqn:Evalid.
  { eapply runs_conseq; [apply IH; [done..|]; intros; apply Hinterface; by right|].
    intros res n' Hn' (Hpost & count' & -> & Hle & Hdone). split; [by eapply collect_post_weaken|].
    exists count'. split_and!; [done..|]. intros Hcount found record [->|Hfound]%elem_of_cons; [congruence|].
    by apply Hdone. }
  apply runs_bind, runs_attempt. eapply runs_conseq.
  { apply runs_collect_record; [done|]. apply Hinterface. by left. }
  intros res1 n1 Hn1 [Hmoves Hnames Hdone1 _]. simpl.
  assert (Hpost1 : collect_post (tears_down (att_key r)) n n1) by (by split).
  eapply runs_conseq; [apply IH; [done..|]; intros; apply Hinterface; by right|].
  intros res n' Hn' (Hpost & count' & -> & Hle & Hdone). split.
  { eapply collect_post_trans; [|by eapply collect_post_weaken].
    eapply collect_post_weaken; [|done]. intros op Hop. exists r. by split; [left|]. }
  exists count'. split_and!; [done|destruct res1; lia|]. intros -> found record Hfound Hinvalid Hrecord Hsame.
  destruct res1 as [[]|]; [|lia]. apply elem_of_cons in Hfound as [->|Hfound].
  - destruct (Hdone1 record eq_refl Hrecord Hsame) as [[Hnamed _] Hgone].
    eapply collected_stays; [|exact Hpost|by split].
    intros op spec (r' & _ & _ & Hop). by eapply tears_down_never_prepares.
  - apply (Hdone eq_refl found record Hfound Hinvalid); [|done].
    eapply moves_record; [exact Hmoves| |done]. intros op Hop Hc.
    assert (att_key found = att_key r) as Heq by (destruct Hop as [->|[->| ->]], Hc as [Hc|Hc]; congruence).
    rewrite Forall_forall in Hr. pose proof (Hr found Hfound) as Hlt. unfold key_before in Hlt.
    by rewrite Heq, ltb_irrefl in Hlt.
Qed.

(** ** The listing *)

Lemma stable_read op Φ : mutated_key op = None → stable op Φ.
Proof. by intros Hop m m' [->|(k & o & Hk & _)]; [|congruence]. Qed.

Lemma runs_list after n :
  node_ok (now n) →
  runs node_ok (list_attachments env (config_name config) after)
    (λ r n', node_kernel n' = node_kernel n ∧ quiet (node_agent n) (node_agent n') ∧
      ∀ records, r = Ok records → ∃ s, node_agent n' = Running s ∧ agent_ok provider (Running s) ∧
        page (aj_attachments (js_journal s)) (config_name config) after MAX_ATTACHMENT_LIST_RECORDS
          records) n.
Proof.
  intros Hn. apply runs_bind. eapply runs_conseq.
  { apply runs_operation_result; [done..|]. by apply may_complete_other. }
  intros r n' Hn' [Hk Hmoves Ha].
  assert (Hq : quiet (node_agent n) (node_agent n')).
  { intros Φ _. apply Hmoves. intros ? <-. by apply stable_read. }
  destruct r as [[answer listed]|e]; simpl; [|done]. apply runs_ret; [done|]. split_and!; [done..|].
  intros ? [= <-]. destruct (Ha _ _ eq_refl) as (_ & i & s & st & s' & _ & _ & Hok & Hs' & Hok' & _ & Hop & Hst).
  exists s'. split_and!; [done..|]. simpl in Hop. unfold op_bind at 1, get_journal in Hop.
  apply op_bind_Ok in Hop as (records & st' & [Hlist ->]%op_lift_Ok & [= _ <- <-]).
  rewrite <-Hst. apply list_records_is_page; [|done]. intros key r Hr.
  by destruct (record_facts provider _ _ _ Hok Hr).
Qed.

(** ** The loop *)

(** The keys the loop still has before it. *)
Definition remaining (after : option AttachmentKey) (K : gset AttachmentKey) : gset AttachmentKey :=
  filter (λ key, key_network key = config_name config ∧
    is_none_or after (λ cursor, ltb cursor key) = true) K.

Lemma is_none_or_past after key :
  is_none_or after (λ cursor, ltb cursor key) = true ↔ past_cursor after key.
Proof.
  unfold past_cursor. destruct after; simpl; [|by split].
  split; [by intros ? ? [= <-]|by intros Hp; apply Hp].
Qed.

Lemma sorted_keys_NoDup records : StronglySorted key_before records → NoDup (att_key <$> records).
Proof.
  induction 1 as [|r records Hs IH Hr]; simpl; constructor; [|done].
  intros (r' & Heq & Hin)%list_elem_of_fmap. rewrite Forall_forall in Hr.
  specialize (Hr _ Hin). unfold key_before in Hr. by rewrite Heq, ltb_irrefl in Hr.
Qed.

Lemma sorted_last records final :
  StronglySorted key_before records → last records = Some final →
  ∀ r, r ∈ records → r = final ∨ key_before r final.
Proof.
  intros Hs [records' ->]%last_Some r [Hr|Hr%list_elem_of_singleton]%elem_of_app; [right|by left].
  by eapply (StronglySorted_app_1_elem_of key_before records' [final]); [| |left].
Qed.

(** A full page uses up as many keys. *)
Lemma remaining_page m after limit records final K :
  page m (config_name config) after limit records → keys_in (.∈ K) m → last records = Some final →
  (length records + size (remaining (Some (att_key final)) K) ≤ size (remaining after K))%nat.
Proof.
  intros [Hsorted Hsound _] HK Hlast. pose proof (sorted_last _ _ Hsorted Hlast) as Hle.
  set (here := list_to_set (att_key <$> records) : gset AttachmentKey).
  assert (Hhere : ∀ key, key ∈ here → ∃ r, key = att_key r ∧ r ∈ records).
  { intros key (r & -> & Hr)%elem_of_list_to_set%list_elem_of_fmap. eauto. }
  replace (length records) with (size here).
  2: { unfold here. rewrite size_list_to_set by (by apply sorted_keys_NoDup). by rewrite length_fmap. }
  rewrite <-size_union.
  - apply subseteq_size. intros key [(r & -> & Hr)%Hhere|Hkey]%elem_of_union; apply elem_of_filter.
    + destruct (Hsound r Hr) as (Hm & Hnet & Hpast). split; [|apply HK; eauto].
      by rewrite is_none_or_past.
    + apply elem_of_filter in Hkey as [[Hnet Hlt] HinK]. split; [|done]. split; [done|].
      apply is_none_or_past. intros cursor ->. simpl in Hlt. eapply ltb_trans; [|exact Hlt].
      apply (Hsound final); [|done]. by eapply last_Some_elem_of.
  - intros key (r & -> & Hr)%Hhere [[_ Hlt] _]%elem_of_filter. simpl in Hlt.
    destruct (Hle r Hr) as [->|Hbefore]; [by rewrite ltb_irrefl in Hlt|].
    pose proof (ltb_trans _ _ _ Hlt Hbefore) as Hcycle. by rewrite ltb_irrefl in Hcycle.
Qed.

(** A key of the network that the runtime does not know any more. *)
Definition stale (key : AttachmentKey) : Prop :=
  key_network key = config_name config ∧
  (key_container_id key, key_ifname key) ∉ valid_pairs config.

Definition collecting (op : TransactionOperation) : Prop := ∃ key, stale key ∧ tears_down key op.

Lemma collecting_never_prepares : never_prepares collecting.
Proof. intros op spec (key & _ & Hop). by eapply tears_down_never_prepares. Qed.

Lemma collects_stale m after limit records op :
  page m (config_name config) after limit records → collects records op → collecting op.
Proof.
  intros Hpage (r & Hr & Hvalid & Hop). exists (att_key r). split; [|done].
  destruct (page_sound _ _ _ _ _ Hpage r Hr) as (_ & Hnet & _). split; [done|].
  exact (proj1 (bool_decide_eq_false _) Hvalid).
Qed.

(** What the loop from a cursor does. *)
Record pages_post (fuel : nat) (after : option AttachmentKey) (count : Z) (n : Node)
    (r : result CniError (option Z)) (n' : Node) : Prop := {
  pp_collect : collect_post collecting n n';
  pp_done count' : r = Ok (Some count') → count ≤ count' ∧ (count' = count →
    ∀ key record, stale key → past_cursor after key → journaled (node_agent n) key record →
      collected key n');
  pp_ends K : everywhere provider (keys_in (.∈ K)) (node_agent n) →
    Z.of_nat (size (remaining after K)) < MAX_ATTACHMENT_LIST_RECORDS * Z.of_nat fuel → r ≠ Ok None;
}.

(** The keys a page leaves to the next one. *)
Lemma page_next m after limit records final key r :
  page m (config_name config) after limit records → last records = Some final →
  m !! key = Some r → att_key r = key → key_network key = config_name config → past_cursor after key →
  r ∉ records → Z.of_nat (length records) = limit ∧ past_cursor (Some (att_key final)) key.
Proof.
  intros Hpage Hlast Hr Hkey Hnet Hpast Hnot.
  destruct (page_complete _ _ _ _ _ Hpage key r Hr Hnet Hpast) as [?|[Hlen Hbefore]]; [done|].
  split; [done|]. intros cursor [= <-]. rewrite <-Hkey. apply Hbefore. by eapply last_Some_elem_of.
Qed.

(** What listing a page out of [m] and collecting it does. *)
Record page_step (m : gmap AttachmentKey AttachmentRecord) (after : option AttachmentKey)
    (records : list AttachmentRecord) (count : Z) (n : Node) (count' : Z) (n' : Node) : Prop := {
  st_collect : collect_post collecting n n';
  st_count : count ≤ count';
  st_page : page m (config_name config) after MAX_ATTACHMENT_LIST_RECORDS records;
  st_listed key record : journaled (node_agent n) key record →
    ∃ r, m !! key = Some r ∧ att_key r = key;
  st_keys K : everywhere provider (keys_in K) (node_agent n) → keys_in K m;
  st_done key record r : count' = count → stale key → journaled (node_agent n) key record →
    m !! key = Some r → r ∈ records → collected key n';
  st_kept key record r : journaled (node_agent n) key record → m !! key = Some r → r ∉ records →
    journaled (node_agent n') key record;
}.

Lemma runs_page_step s after records count n n1 :
  quiet (node_agent n) (node_agent n1) → node_kernel n1 = node_kernel n → node_ok (now n1) →
  node_agent n1 = Running s → agent_ok provider (Running s) →
  page (aj_attachments (js_journal s)) (config_name config) after MAX_ATTACHMENT_LIST_RECORDS records →
  runs node_ok (collect_page env config records count) (λ r n', ∃ count', r = Ok count' ∧
    page_step (aj_attachments (js_journal s)) after records count n count' n') n1.
Proof.
  intros Hq Hk Hn1 Hs Hok Hpage. eapply runs_conseq.
  { apply runs_collect_page; [done|apply Hpage|]. intros r Hr.
    destruct (page_sound _ _ _ _ _ Hpage r Hr) as (Hr' & _).
    by destruct (record_facts provider _ _ _ Hok Hr'). }
  intros res n2 Hn2 (Hpost & count' & -> & Hle & Hdone). exists count'. split; [done|].
  assert (Hlisted : ∀ key record, journaled (node_agent n) key record → ∃ r,
    aj_attachments (js_journal s) !! key = Some r ∧ att_key r = key ∧ same_attachment record r).
  { intros key record Hr%(quiet_forgets _ _ _ Hq). rewrite Hs in Hr. destruct Hr as [(r & Hr & ?) _].
    exists r. split_and!; [done| |done]. by destruct (record_facts provider _ _ _ Hok Hr). }
  split; [|done|done| | | |].
  - eapply collect_post_trans; [by apply collect_post_quiet|].
    eapply collect_post_weaken; [|done]. intros op. by eapply collects_stale.
  - intros key record (r & ? & ? & _)%Hlisted. eauto.
  - intros K HK. eapply Hq in HK; [|done]. rewrite Hs in HK. apply HK.
  - intros key record r Hcount [_ Hstale] Hr Hmr Hin. destruct (Hlisted _ _ Hr) as (r' & Hr' & <- & Hsame).
    rewrite Hmr in Hr'. injection Hr' as ->. apply (Hdone Hcount r' record); [done| | |done].
    + by apply bool_decide_eq_false.
    + by apply (quiet_forgets _ _ _ Hq).
  - intros key record r Hr%(quiet_forgets _ _ _ Hq) Hmr Hnot.
    eapply moves_record; [apply (co_moves _ _ _ Hpost)| |exact Hr].
    intros op (r' & Hr' & _ & Hop) Hc. destruct (page_sound _ _ _ _ _ Hpage r' Hr') as (Hm & _).
    assert (att_key r' = key) as Hkey by (destruct Hop as [->|[->| ->]], Hc as [Hc|Hc]; congruence).
    rewrite Hkey, Hmr in Hm. by injection Hm as ->.
Qed.

(** A page that is not full is the last one. *)
Lemma pages_end fuel m after records final count n count' n' :
  page_step m after records count n count' n' → last records = Some final →
  Z.of_nat (length records) ≠ MAX_ATTACHMENT_LIST_RECORDS →
  pages_post (S fuel) after count n (Ok (Some count')) n'.
Proof.
  intros [Hcollect Hle Hpage Hlisted _ Hdone _] Hlast Hlen. split; [done| |done].
  intros ? [= <-]. split; [done|]. intros Hcount key record Hstale Hpast Hr.
  destruct (Hlisted _ _ Hr) as (r & Hmr & Hkey). destruct (decide (r ∈ records)) as [|Hnot]; [by eapply Hdone|].
  destruct (page_next _ _ _ _ _ key r Hpage Hlast Hmr Hkey) as [? _]; [apply Hstale|done..].
Qed.

Lemma pages_more fuel m after records final count n count1 n1 r n' :
  page_step m after records count n count1 n1 → last records = Some final →
  Z.of_nat (length records) = MAX_ATTACHMENT_LIST_RECORDS →
  pages_post fuel (Some (att_key final)) count1 n1 r n' → pages_post (S fuel) after count n r n'.
Proof.
  intros [Hcollect Hle Hpage Hlisted Hkeys Hdone Hkept] Hlast Hlen [Hcollect' Hdone' Hends]. split.
  - by eapply collect_post_trans.
  - intros count' ->. destruct (Hdone' _ eq_refl) as [Hle' Hlater]. split; [lia|].
    intros -> key record Hstale Hpast Hr. assert (count1 = count) as -> by lia.
    destruct (Hlisted _ _ Hr) as (r & Hmr & Hkey).
    destruct (decide (r ∈ records)) as [|Hnot].
    { eapply collected_stays; [apply collecting_never_prepares|done|by eapply Hdone]. }
    destruct (page_next _ _ _ _ _ key r Hpage Hlast Hmr Hkey) as [_ Hnext]; [apply Hstale|done..|].
    apply (Hlater eq_refl key record); [done..|]. by eapply Hkept.
  - intros K HK Hsize. pose proof (remaining_page _ _ _ _ _ _ Hpage (Hkeys _ HK) Hlast) as Hused.
    apply (Hends K); [|unfold MAX_ATTACHMENT_LIST_RECORDS in *; lia].
    apply (co_moves _ _ _ Hcollect); [|done]. intros op Hop. apply stable_keys.
    intros spec. by apply collecting_never_prepares.
Qed.

Lemma runs_collect_pages fuel after count n :
  node_ok (now n) →
  runs node_ok (collect_pages env fuel config after count) (pages_post fuel after count n) n.
Proof.
  revert after count n. induction fuel as [|fuel IH]; intros after count n Hn; simpl.
  { apply runs_ret; [done|]. split; [by split|done|]. intros K _ Hsize. lia. }
  apply runs_bind, runs_attempt. eapply runs_conseq; [by apply runs_list|].
  intros listed n1 Hn1 (Hk & Hq & Hpage). simpl.
  assert (Hquiet : collect_post collecting n n1) by (by apply collect_post_quiet).
  destruct listed as [records|e].
  2: { apply runs_ret; [done|]. split; [done| |done]. intros count' [= <-]. split; lia. }
  destruct (Hpage _ eq_refl) as (s & Hs & Hok & Hrecords). clear Hpage.
  destruct (last records) as [final|] eqn:Elast.
  - apply runs_bind. eapply runs_conseq; [by apply runs_page_step|].
    intros res n2 Hn2 (count2 & -> & Hstep). simpl.
    destruct (Z.eqb_spec (Z.of_nat (length records)) MAX_ATTACHMENT_LIST_RECORDS).
    + eapply runs_conseq; [by apply IH|]. intros r n3 _ Hpost. by eapply pages_more.
    + apply runs_ret; [done|]. by eapply pages_end.
  - apply last_None in Elast as ->. apply runs_ret; [done|]. split; [done| |done].
    intros count' [= <-]. split; [lia|]. intros _ key record [Hnet _] Hpast Hr%(quiet_forgets _ _ _ Hq).
    rewrite Hs in Hr. destruct Hr as [(r & Hr & _) _].
    by destruct (page_complete _ _ _ _ _ Hrecords key r Hr Hnet Hpast) as [?%not_elem_of_nil|[? _]].
Qed.

(** ** The command *)

Record gc_post (fuel : nat) (n : Node) (r : result CniError (option ())) (n' : Node) : Prop := {
  gc_collect : collect_post collecting n n';
  gc_done key record : r = Ok (Some ()) → stale key → journaled (node_agent n) key record →
    collected key n';
  gc_ends (K : gset AttachmentKey) : everywhere provider (keys_in (.∈ K)) (node_agent n) →
    Z.of_nat (size K) < MAX_ATTACHMENT_LIST_RECORDS * Z.of_nat fuel → r ≠ Ok None;
}.

Lemma runs_garbage_collect fuel n :
  node_ok (now n) → runs node_ok (garbage_collect env fuel config) (gc_post fuel n) n.
Proof.
  intros Hn. apply runs_bind. eapply runs_conseq; [by apply runs_collect_pages|].
  intros r n' Hn' [Hcollect Hdone Hends].
  assert (Hfew : ∀ K : gset AttachmentKey, everywhere provider (keys_in (.∈ K)) (node_agent n) →
    Z.of_nat (size K) < MAX_ATTACHMENT_LIST_RECORDS * Z.of_nat fuel → r ≠ Ok None).
  { intros K HK Hsize. apply (Hends K HK). pose proof (subseteq_size (remaining None K) K) as Hle.
    lapply Hle; [lia|]. intros key [_ ?]%elem_of_filter. done. }
  destruct r as [[count|]|e]; simpl; [|apply runs_ret; [done|]; split; [done|done|]|by split].
  2: { intros K HK Hsize. by destruct (Hfew K HK Hsize). }
  destruct (Z.eqb_spec count 0) as [->|]; [|by apply runs_fail; [|split]].
  apply runs_ret; [done|]. split; [done| |done]. intros key record _ Hstale Hr.
  destruct (Hdone _ eq_refl) as [_ Hall]. by apply (Hall eq_refl key record).
Qed.

End Collect.
