(* ===== verification/CniNode.v ===== *)
(** * The node under invocations of the plugin

    The agent, the kernel and a sequence of invocations, each of which may be killed at any
    point: no host interface of the plugin is ever left that the journal does not know, a
    successful ADD leaves what it reports, a successful DEL nothing, and GC ends and removes
    what the runtime forgot.  Invocations follow one another, as the CNI specification asks
    of a runtime for one container; the messages of other processes are not modelled. *)

From S2P Require Import Prelude Common NetAddr Ipam Bytes Runs Netlink CniAttachment VethPlan VethFacts NativeRoutes RouteFacts CniJournal CniJournalFacts CniJournalCrash CniJournalSafety CniJournalList CniAgent CniLifecycle CniPluginSafety CniCollect.

(** ** Invocations *)

Section Execute.
Context (env : NodeEnv) `{HJ : JournalJsonLaws} `{HN : NetlinkLaws} `{HD : Digest} `{HR : ResultJson}.
Context (provider : NodeBlockProvider) (Hprovider : NodeBlockProvider_wf provider).
Context (Henv : node_env_ok env provider).

Lemma runs_status n :
  node_ok provider (now n) →
  runs (node_ok provider) (operation env OpStatus) (λ _ _, True) n.
Proof.
  intros Hn. apply runs_bind. eapply runs_conseq.
  { apply runs_operation_result; [done..|]. by apply may_complete_other. }
  intros [[answer listed]|e] n' Hn' _; [by apply runs_ret|done].
Qed.

(** Whatever the command, every state of an invocation keeps the invariant. *)
Lemma runs_execute fuel environment config command n :
  node_ok provider (now n) →
  runs (node_ok provider) (execute_validated env fuel environment config command) (λ _ _, True) n.
Proof.
  intros Hn. destruct command; simpl; [| | | | |by apply runs_fail].
  - apply runs_bind. eapply runs_conseq; [by apply runs_add|].
    intros [result|e] n' Hn' _; [by apply runs_ret|done].
  - apply runs_bind. eapply runs_conseq; [by apply runs_delete|].
    intros [result|e] n' Hn' _; [by apply runs_ret|done].
  - apply runs_bind. eapply runs_conseq; [by apply runs_check|].
    intros [result|e] n' Hn' _; [by apply runs_ret|done].
  - destruct (runs_status n Hn) as (Hok & Hpast & _). unfold runs.
    by destruct (operation env OpStatus n) as [[] n'].
  - apply runs_bind. eapply runs_conseq; [by apply runs_garbage_collect|].
    intros [result|e] n' Hn' _; [by apply runs_ret|done].
Qed.

End Execute.

(** ** The node *)

Section Node.
Context `{HJ : JournalJsonLaws} `{HN : NetlinkLaws} `{HD : Digest} `{HR : ResultJson}.
Context (provider : NodeBlockProvider) (Hprovider : NodeBlockProvider_wf provider).

(** A node before an invocation. *)
Definition fresh (n : Node) : Prop := node_trace n = [].

(** The agent moves on its own, other processes change the kernel without creating
    interfaces of the plugin's names, and invocations run and are killed anywhere. *)
Inductive node_step : Machine * kernel → Machine * kernel → Prop :=
| node_step_agent x y k : agent_step provider x y → node_step (x, k) (y, k)
| node_step_kernel x k k' :
    (∀ key, named k' host_namespace (deterministic_host_interface key) →
      named k host_namespace (deterministic_host_interface key)) →
    node_step (x, k) (x, k')
| node_step_plugin env fuel environment config command n n' s :
    node_env_ok env provider → fresh n →
    (execute_validated env fuel environment config command n).2 = n' → s ∈ now n' :: past n' →
    node_step (now n) s.

(** A node that started with no interface of the plugin and a journal on its disk. *)
Definition node_reachable (s : Machine * kernel) : Prop :=
  ∃ w m k, disk_holds provider m (jw_disk w) ∧
    (∀ key, ¬ named k host_namespace (deterministic_host_interface key)) ∧
    rtc node_step (Down w, k) s.

Lemma node_step_ok s s' : node_ok provider s → node_step s s' → node_ok provider s'.
Proof.
  intros Hs Hstep. destruct Hstep as [x y k Hstep|x k k' Hnames|env fuel environment config command n n' s Henv Hfresh <- Hvisited].
  - destruct (agent_step_everywhere provider Hprovider x y) as [Hy Hxy]; [apply Hs|done|].
    eapply node_ok_moves; [|done..]. apply quiet_forgets. intros Φ _. apply Hxy.
  - destruct Hs as [Hx Hk]. split; [done|]. intros name Hname key ->.
    exact (Hk _ (Hnames key Hname) key eq_refl).
  - pose proof (runs_execute env provider Hprovider Henv fuel environment config command n Hs) as Hruns.
    apply elem_of_cons in Hvisited as [->|Hvisited]; [apply Hruns|].
    eapply runs_visited; [exact Hruns| |done]. simpl. rewrite Hfresh. by inversion 1.
Qed.

Lemma node_reachable_ok s : node_reachable s → node_ok provider s.
Proof.
  intros (w & m & k & Hw & Hk & Hsteps). assert (Hinit : node_ok provider (Down w, k)).
  { split; [split; [by exists m|done]|]. intros name Hname key ->. by destruct (Hk key). }
  clear Hw Hk. by induction Hsteps as [|? ? ? Hstep _ IH]; eauto using node_step_ok.
Qed.

(** ** What holds of every reachable node *)

(** C6. No leaked interfaces.  Whatever invocations ran, wherever they were killed, whichever
    messages were lost and whenever the agent died and restarted: a host interface with the
    name of an attachment belongs to a journaled attachment, in the memory of the agent and
    on every disk a crash may leave, from which DEL and GC rebuild the plan that owns it; and
    no other journaled attachment has that interface. *)
Theorem plugin_links_journaled x k key :
  node_reachable (x, k) → named k host_namespace (deterministic_host_interface key) →
  ∃ owner record, deterministic_host_interface owner = deterministic_host_interface key ∧
    journaled provider x owner record ∧ is_ok (from_attachment record) = true ∧
    ∀ owner' record', journaled provider x owner' record' →
      deterministic_host_interface owner' = deterministic_host_interface key →
      owner' = owner ∧ same_attachment record record'.
Proof.
  intros Hreach Hnamed. destruct (node_reachable_ok _ Hreach) as [Hok Hk].
  destruct (Hk _ Hnamed key eq_refl) as (owner & r & Howner & Hr & Hplan).
  exists owner, r. split_and!; [done..|]. intros owner' r' Hr' Howner'.
  destruct (journaled_unique provider Hprovider x owner owner' r r') as [-> ?]; try done. congruence.
Qed.

Section Commands.
Context (env : NodeEnv) (Henv : node_env_ok env provider) (config : NetworkConfig).

(** C9. A successful ADD.  When ADD reports a result, the attachment it asked for is journaled,
    the agent was seen to have it ready, the veth pair and the routes of its lease are in
    the kernel with the marks of its plan, and the result is the one that the journaled
    lease and the read back pair determine; even when the agent died and restarted on the
    way or a lost answer made an earlier ADD fail. *)
Theorem plugin_add_attached environment n spec result n' :
  node_reachable (now n) → attachment_spec environment config = Ok spec →
  add env environment config n = (Ok result, n') →
  ∃ record rb, accepts_replay (att_spec record) spec = true ∧
    journaled provider (node_agent n') (att_key record) record ∧ was_ready record n' ∧
    attached record rb (node_kernel n') ∧ result = add_result record rb.
Proof.
  intros Hreach Hspec Hrun.
  destruct (runs_add env provider Hprovider Henv environment config n) as (_ & _ & Hpost);
    [by apply node_reachable_ok|].
  rewrite Hrun in Hpost. destruct (Hpost _ Hspec _ eq_refl) as (record & Hreplay & Hadd).
  destruct (Hadd _ eq_refl) as (rb & [Hr _] & Hready & Hattached & Hresult).
  by exists record, rb.
Qed.

(** C10. A successful DEL.  When DEL succeeds the agent has no record of the attachment; and if
    it was journaled before, its host interface is gone, no host route leads to its lease any
    more, and no disk a crash may leave has the record: the addresses can be leased again. *)
Theorem plugin_delete_clean environment n key n' :
  node_reachable (now n) → attachment_key environment config = Ok key →
  cni_delete env environment config n = (Ok (), n') →
  (∃ s, node_agent n' = Running s ∧ aj_attachments (js_journal s) !! key = None) ∧
  ∀ record, journaled provider (node_agent n) key record →
    ¬ named (node_kernel n') host_namespace (deterministic_host_interface key) ∧
    unrouted (att_lease record) (node_kernel n') ∧
    everywhere provider (keys_in (λ k, k ≠ key)) (node_agent n').
Proof.
  intros Hreach Hkey Hrun.
  destruct (runs_delete env provider Hprovider Henv environment config n) as (_ & _ & Hpost);
    [by apply node_reachable_ok|].
  rewrite Hrun in Hpost. destruct (Hpost _ Hkey) as [_ _ Hdone].
  destruct (Hdone eq_refl) as (_ & _ & Hs & Hrecords). split; [done|].
  intros record Hr. by destruct (Hrecords _ Hr) as [[? ?] ?].
Qed.


(** C11. What GC collects.  When GC succeeds, every journaled attachment of the network that the
    runtime does not list any more is out of the journal for good and its host interface
    out of the kernel; and whether it succeeds or not, the record of every attachment that
    the runtime lists, or that is of another network, is exactly what it was. *)
Theorem garbage_collection_exact n fuel r n' :
  node_reachable (now n) → garbage_collect env fuel config n = (r, n') →
  (r = Ok (Some ()) → ∀ key record, stale config key → journaled provider (node_agent n) key record →
    everywhere provider (keys_in (λ k, k ≠ key)) (node_agent n') ∧
    ¬ named (node_kernel n') host_namespace (deterministic_host_interface key)) ∧
  ∀ key o, ¬ stale config key → everywhere provider (λ m, m !! key = o) (node_agent n) →
    everywhere provider (λ m, m !! key = o) (node_agent n').
Proof.
  intros Hreach Hrun.
  destruct (runs_garbage_collect env provider Hprovider Henv config fuel n) as (_ & _ & Hpost);
    [by apply node_reachable_ok|]. rewrite Hrun in Hpost. destruct Hpost as [[Hmoves _] Hdone _]. split.
  - intros -> key record Hstale Hr. by apply (Hdone key record).
  - intros key o Hkept. apply Hmoves. intros op (key' & Hstale & Hop). apply stable_other.
    intros Hkey. apply Hkept. by rewrite (tears_down_key _ _ _ Hop Hkey).
Qed.

End Commands.

End Node.
