(* ===== verification/NetlinkDemo.v ===== *)
(** * A kernel

    A simulated kernel with the namespace of the host and one sandbox: links in pairs,
    addresses, routes and neighbours as lists, every request answered.  It satisfies the laws
    the plugin relies on, and the commands of the plugin run on it. *)

From S2P Require Import Prelude Common NetAddr Bytes Runs Netlink.

(** [true] is the namespace of the host. *)
Record SimLink := {
  sim_ns : bool;
  sim_index : Z;
  sim_name : string;
  sim_alias : option string;
  sim_mtu : Z;
  sim_mac : bytes;
  sim_up : bool;
  sim_peer : Z;
}.

Record SimKernel := {
  sim_links : list SimLink;
  sim_addresses : list (bool * AddressMessage);
  sim_routes : list (bool * RouteMessage);
  sim_neighbours : list (bool * NeighbourMessage);
}.

Definition sim_boot : SimKernel :=
  {| sim_links := []; sim_addresses := []; sim_routes := []; sim_neighbours := [] |}.

#[export] Instance AddressAttribute_eq_dec : EqDecision AddressAttribute.
Proof. solve_decision. Defined.
#[export] Instance AddressMessage_eq_dec : EqDecision AddressMessage.
Proof. solve_decision. Defined.

(** ** Reading *)

Definition sim_apart (k : SimKernel) (l : SimLink) : bool :=
  existsb (λ p, (sim_index p =? sim_peer l) && negb (Bool.eqb (sim_ns p) (sim_ns l))) (sim_links k).

Definition sim_message (k : SimKernel) (l : SimLink) : LinkMessage :=
  {| link_index := sim_index l; link_up := sim_up l;
     link_attributes :=
       [IfName (sim_name l); IfMtu (sim_mtu l); IfAddress (sim_mac l);
        IfLinkInfo [InfoKindVeth]; IfLink (sim_peer l)]
       ++ match sim_alias l with Some alias => [IfAlias alias] | None => [] end
       ++ if sim_apart k l then [IfLinkNetNsId 7] else [] |}.

Definition in_ns {A} (ns : bool) (l : list (bool * A)) : list A :=
  map snd (List.filter (λ e, Bool.eqb e.1 ns) l).

(** Names are unique in a namespace. *)
Definition sim_wf (k : SimKernel) : bool :=
  bool_decide (NoDup (map (λ l, (sim_ns l, sim_name l)) (sim_links k))).

Definition sim_view (k : SimKernel) (ns : bool) : NetState :=
  if sim_wf k then
    {| net_links := map (sim_message k) (List.filter (λ l, Bool.eqb (sim_ns l) ns) (sim_links k));
       net_addresses := in_ns ns (sim_addresses k);
       net_routes := in_ns ns (sim_routes k);
       net_neighbours := in_ns ns (sim_neighbours k) |}
  else {| net_links := []; net_addresses := []; net_routes := []; net_neighbours := [] |}.

(** ** Writing *)

Definition sim_read {A} (f : SimKernel → A) : Routine SimKernel () A := λ k, (Ok (f k), k).

(** A change that is refused when it would break the kernel. *)
Definition sim_write (f : SimKernel → option SimKernel) : Routine SimKernel () () := λ k,
  match f k with
  | Some k' => if sim_wf k && sim_wf k' then (Ok (), k') else (Err (), k)
  | None => (Err (), k)
  end.

Definition sim_with_links (k : SimKernel) (links : list SimLink) : SimKernel :=
  {| sim_links := links; sim_addresses := sim_addresses k; sim_routes := sim_routes k;
     sim_neighbours := sim_neighbours k |}.
Definition sim_with_addresses (k : SimKernel) (addresses : list (bool * AddressMessage)) : SimKernel :=
  {| sim_links := sim_links k; sim_addresses := addresses; sim_routes := sim_routes k;
     sim_neighbours := sim_neighbours k |}.
Definition sim_with_routes (k : SimKernel) (routes : list (bool * RouteMessage)) : SimKernel :=
  {| sim_links := sim_links k; sim_addresses := sim_addresses k; sim_routes := routes;
     sim_neighbours := sim_neighbours k |}.
Definition sim_with_neighbours (k : SimKernel) (neighbours : list (bool * NeighbourMessage)) : SimKernel :=
  {| sim_links := sim_links k; sim_addresses := sim_addresses k; sim_routes := sim_routes k;
     sim_neighbours := neighbours |}.

Definition sim_link_add (ns : bool) (request : VethRequest) (k : SimKernel) : option SimKernel :=
  let index := fold_right Z.max 0 (map sim_index (sim_links k)) + 1 in
  Some (sim_with_links k
    ([{| sim_ns := ns; sim_index := index; sim_name := veth_name request; sim_alias := None;
         sim_mtu := veth_mtu request; sim_mac := veth_address request; sim_up := false;
         sim_peer := index + 1 |};
      {| sim_ns := ns; sim_index := index + 1; sim_name := veth_peer_name request;
         sim_alias := None; sim_mtu := veth_mtu request; sim_mac := veth_peer_address request;
         sim_up := false; sim_peer := index |}] ++ sim_links k)).

Definition sim_is (ns : bool) (index : Z) (l : SimLink) : bool :=
  Bool.eqb (sim_ns l) ns && (sim_index l =? index).

Definition sim_update (change : LinkChange bool) (l : SimLink) : SimLink :=
  {| sim_ns := default (sim_ns l) (change_namespace change);
     sim_index := sim_index l;
     sim_name := default (sim_name l) (change_name change);
     sim_alias := match change_alias change with Some alias => Some alias | None => sim_alias l end;
     sim_mtu := default (sim_mtu l) (change_mtu change);
     sim_mac := sim_mac l;
     sim_up := match change_namespace change with
               | Some _ => false | None => sim_up l || change_up change end;
     sim_peer := sim_peer l |}.

Definition sim_link_set (ns : bool) (change : LinkChange bool) (k : SimKernel) : option SimKernel :=
  if existsb (sim_is ns (change_index change)) (sim_links k)
  then Some (sim_with_links k (map (λ l,
    if sim_is ns (change_index change) l then sim_update change l else l) (sim_links k)))
  else None.

(** The other end goes too, and the routes through the link. *)
Definition sim_link_del (ns : bool) (index : Z) (k : SimKernel) : option SimKernel :=
  if existsb (sim_is ns index) (sim_links k)
  then Some {| sim_links := List.filter (λ l, negb (sim_is ns index l) && negb (sim_peer l =? index))
                 (sim_links k);
               sim_addresses := sim_addresses k;
               sim_routes := List.filter (λ e, negb (existsb (λ a, bool_decide (a = RtaOif index))
                 (rtm_attributes e.2))) (sim_routes k);
               sim_neighbours := sim_neighbours k |}
  else None.

Definition sim_address_replace (ns : bool) (index : Z) (address : IpAddr) (prefix_len : Z)
    (k : SimKernel) : option SimKernel :=
  let message := {| addr_index := index; addr_prefix_len := prefix_len;
                    addr_attributes := [AddressLocal address] |} in
  Some (if bool_decide ((ns, message) ∈ sim_addresses k) then k
        else sim_with_addresses k ((ns, message) :: sim_addresses k)).

Definition sim_route_address (address : IpAddr) : RouteAddress :=
  match address with V4 a => RouteInet a | V6 a => RouteInet6 a end.
Definition sim_route_message (request : RouteRequest) : RouteMessage :=
  {| rtm_family := match rr_destination request with V4 _ => FamilyInet | V6 _ => FamilyInet6 end;
     rtm_prefix_len := rr_prefix_len request;
     rtm_table := rr_table request;
     rtm_protocol := rr_protocol request;
     rtm_scope := rr_scope request;
     rtm_kind := RouteUnicast;
     rtm_onlink := rr_onlink request;
     rtm_attributes :=
       [RtaDestination (sim_route_address (rr_destination request)); RtaOif (rr_output_interface request)]
       ++ match rr_gateway request with
          | Some gateway => [RtaGateway (sim_route_address gateway)] | None => [] end |}.

Definition sim_neighbour_message (index : Z) (address : IpAddr) (mac : bytes) : NeighbourMessage :=
  {| ndm_ifindex := index; ndm_state := NeighbourPermanent;
     ndm_attributes := [match address with V4 a => NdaInet a | V6 a => NdaInet6 a end;
                        NdaLinkLayerAddress mac] |}.

#[export] Instance sim_netlink : Netlink := {|
  kernel := SimKernel;
  namespace := bool;
  host_namespace := true;
  system_call := sim_read (λ _, ());
  open_path _ := λ k, (Ok false, k);
  link_get ns := sim_read (λ k, net_links (sim_view k ns));
  link_add ns request := sim_write (sim_link_add ns request);
  link_set ns change := sim_write (sim_link_set ns change);
  link_del ns index := sim_write (sim_link_del ns index);
  address_get ns index :=
    sim_read (λ k, List.filter (λ m, addr_index m =? index) (net_addresses (sim_view k ns)));
  address_replace ns index address prefix_len :=
    sim_write (sim_address_replace ns index address prefix_len);
  nsid_get _ _ := sim_read (λ _, [NewNsId [NsidId 7]; NsidAck]);
  route_get ns family :=
    sim_read (λ k, List.filter (λ m, bool_decide (rtm_family m = family)) (net_routes (sim_view k ns)));
  route_add ns request :=
    sim_write (λ k, Some (sim_with_routes k ((ns, sim_route_message request) :: sim_routes k)));
  route_del ns message :=
    sim_write (λ k, Some (sim_with_routes k
      (List.filter (λ e, negb (bool_decide (e = (ns, message)))) (sim_routes k))));
  neighbour_get ns := sim_read (λ k, net_neighbours (sim_view k ns));
  neighbour_add ns index address mac :=
    sim_write (λ k, Some (sim_with_neighbours k
      ((ns, sim_neighbour_message index address mac) :: sim_neighbours k)));
  neighbour_del ns message :=
    sim_write (λ k, Some (sim_with_neighbours k
      (List.filter (λ e, negb (bool_decide (e = (ns, message)))) (sim_neighbours k))));
|}.

#[export] Instance sim_netview : NetView := {|
  net_view := sim_view;
  sandbox_at _ := false;
|}.

(** ** Laws *)

Lemma sim_write_cases f k :
  (sim_write f k = (Err (), k)) ∨
  ∃ k', f k = Some k' ∧ sim_wf k = true ∧ sim_wf k' = true ∧ sim_write f k = (Ok (), k').
Proof.
  unfold sim_write. destruct (f k) as [k'|]; [|by left].
  destruct (sim_wf k) eqn:E, (sim_wf k') eqn:E'; simpl; eauto 10.
Qed.

(** Splits on whether a write was refused. *)
Ltac write_cases k := match goal with
  | Hrun : sim_write ?f k = _ |- _ =>
      destruct (sim_write_cases f k) as [Hw|(k1 & Hf & Hwf & Hwf1 & Hw)]; rewrite Hw in Hrun; simplify_eq
  | |- context [sim_write ?f k] =>
      destruct (sim_write_cases f k) as [Hw|(k1 & Hf & Hwf & Hwf1 & Hw)]; rewrite Hw; simpl in *; simplify_eq
  end.

Lemma elem_of_in_ns {A} ns (l : list (bool * A)) x : x ∈ in_ns ns l ↔ (ns, x) ∈ l.
Proof.
  unfold in_ns. elems. split.
  - intros ([ns' y] & [Hin Heq]%elem_of_list_filter & ->). by apply eqb_prop in Heq as <-.
  - intros Hin. exists (ns, x). split; [|done]. apply elem_of_list_filter. split; [done|]. apply eqb_reflx.
Qed.

Lemma elem_of_sim_links k ns message :
  message ∈ net_links (sim_view k ns) ↔
  sim_wf k = true ∧ ∃ l, message = sim_message k l ∧ l ∈ sim_links k ∧ sim_ns l = ns.
Proof.
  unfold sim_view. destruct (sim_wf k); simpl; [|split; [by inversion 1|by intros [? _]]].
  elems. split.
  - intros (l & [Hl ?%eqb_prop]%elem_of_list_filter & ->). eauto.
  - intros (_ & l & -> & Hl & <-). exists l. split; [|done]. apply elem_of_list_filter. split; [done|].
    apply eqb_reflx.
Qed.

Lemma named_sim (k : SimKernel) ns name :
  named k ns name ↔ sim_wf k = true ∧ ∃ l, l ∈ sim_links k ∧ sim_ns l = ns ∧ sim_name l = name.
Proof.
  unfold named. simpl. split.
  - intros (message & (Hwf & l & -> & Hl & Hns)%elem_of_sim_links & [= Hname]). eauto.
  - intros (Hwf & l & Hl & Hns & Hname). exists (sim_message k l). rewrite elem_of_sim_links.
    split; [eauto|]. simpl. by rewrite <-Hname.
Qed.

(** A write to the addresses, routes or neighbours. *)
Lemma sim_links_kept k k' : sim_links k' = sim_links k → sim_wf k' = sim_wf k.
Proof. unfold sim_wf. by intros ->. Qed.

Lemma sim_view_links_kept k k' ns :
  sim_links k' = sim_links k → net_links (sim_view k' ns) = net_links (sim_view k ns).
Proof.
  intros Hl. unfold sim_view. rewrite (sim_links_kept _ _ Hl), Hl. destruct (sim_wf k); [|done]. simpl.
  apply map_ext. intros l. unfold sim_message, sim_apart. by rewrite Hl.
Qed.

Lemma in_ns_other {A} ns ns' (l : list (bool * A)) x :
  ns' ≠ ns → in_ns ns' ((ns, x) :: l) = in_ns ns' l.
Proof. intros Hns. unfold in_ns. simpl. by destruct (eqb_spec ns ns'). Qed.

Lemma in_ns_filter_other {A} `{EqDecision A} ns ns' (l : list (bool * A)) x :
  ns' ≠ ns → in_ns ns' (List.filter (λ e, negb (bool_decide (e = (ns, x)))) l) = in_ns ns' l.
Proof.
  intros Hns. unfold in_ns. induction l as [|[ns1 y] l IH]; [done|]. simpl.
  case_bool_decide as Heq; simpl; [|by destruct (eqb ns1 ns'); simpl; rewrite IH].
  simplify_eq. by destruct (eqb_spec ns ns').
Qed.

Lemma sim_routing_kept ns k k' :
  sim_links k' = sim_links k → sim_addresses k' = sim_addresses k →
  (∀ ns', ns' ≠ ns → in_ns ns' (sim_routes k') = in_ns ns' (sim_routes k)) →
  (∀ ns', ns' ≠ ns → in_ns ns' (sim_neighbours k') = in_ns ns' (sim_neighbours k)) →
  same_but_routing (H0 := sim_netview) ns k k'.
Proof.
  intros Hl Ha Hr Hn. pose proof (sim_links_kept _ _ Hl) as Hwf. split.
  - intros ns'. split; [by apply sim_view_links_kept|]. simpl. unfold sim_view. rewrite Hwf.
    destruct (sim_wf k); [|done]. simpl. by rewrite Ha.
  - intros ns' Hns. pose proof (sim_view_links_kept k k' ns' Hl) as Hlinks. simpl. unfold sim_view in *.
    rewrite Hwf in *. destruct (sim_wf k); [|done]. simpl in *. by rewrite Hlinks, Ha, Hr, Hn.
Qed.

Lemma sim_link_add_named ns request k ns' name :
  named (link_add ns request k).2 ns' name →
  named k ns' name ∨ (ns' = ns ∧ (name = veth_name request ∨ name = veth_peer_name request)).
Proof.
  simpl. write_cases k; [by left|]. injection Hf as <-.
  intros (_ & l & Hl & <- & <-)%named_sim. simpl in Hl.
  apply elem_of_cons in Hl as [->|Hl]; [by right; split; [|left]|].
  apply elem_of_cons in Hl as [->|Hl]; [by right; split; [|right]|].
  left. apply named_sim. eauto.
Qed.

Lemma sim_link_set_named (ns : bool) change (k : SimKernel) ns' name :
  named (link_set ns change k).2 ns' name →
  named k ns' name ∨ (ns' = ns ∧ change_name change = Some name) ∨ change_namespace change = Some ns'.
Proof.
  simpl. write_cases k; [by left|]. unfold sim_link_set in Hf.
  destruct (existsb _ _); simplify_eq. intros (_ & l & Hl & Hns & Hname)%named_sim. simpl in Hl.
  apply list_elem_of_fmap in Hl as (l0 & -> & Hl0). destruct (sim_is ns (change_index change) l0) eqn:Eis.
  2: { left. apply named_sim. eauto. }
  apply andb_true_iff in Eis as [?%eqb_prop _]. simpl in *.
  destruct (change_namespace change) as [target|]; simpl in *; [subst; by right; right|].
  destruct (change_name change) as [new|]; simpl in *; [subst; by right; left|].
  left. apply named_sim. eauto.
Qed.

Lemma NoDup_map_inj {A B} (f : A → B) l x y :
  NoDup (map f l) → x ∈ l → y ∈ l → f x = f y → x = y.
Proof.
  induction l as [|z l IH]; [by inversion 2|]. simpl.
  intros [Hz Hl]%NoDup_cons Hx Hy Heq. apply elem_of_cons in Hx as [->|Hx], Hy as [->|Hy]; [done| | |by auto].
  - destruct Hz. rewrite Heq. by apply list_elem_of_fmap_2.
  - destruct Hz. rewrite <-Heq. by apply list_elem_of_fmap_2.
Qed.

Lemma sim_unique k ns link link' name :
  link ∈ net_links (sim_view k ns) → link' ∈ net_links (sim_view k ns) →
  link_name link = Some name → link_name link' = Some name → link = link'.
Proof.
  intros (Hwf & l & -> & Hl & Hns)%elem_of_sim_links (_ & l' & -> & Hl' & Hns')%elem_of_sim_links
    [= Hname] [= Hname'].
  apply bool_decide_eq_true in Hwf. by rewrite (NoDup_map_inj _ _ l l' Hwf) by (done || congruence).
Qed.

Lemma sim_link_del_cases (ns : bool) index k :
  (sim_write (sim_link_del ns index) k).2 = k ∧ (sim_write (sim_link_del ns index) k).1 = Err () ∨
  ∃ k', (sim_write (sim_link_del ns index) k).2 = k' ∧ sim_wf k = true ∧ sim_wf k' = true ∧
    (∀ l, l ∈ sim_links k' → l ∈ sim_links k ∧ sim_is ns index l = false) ∧
    (∀ e, e ∈ sim_routes k' → e ∈ sim_routes k).
Proof.
  write_cases k; [by left|]. right. unfold sim_link_del in Hf. destruct (existsb _ _); simplify_eq.
  eexists. split_and!; [done..| |]; simpl.
  - intros l [Hl [Hno _]%andb_true_iff]%elem_of_list_filter. split; [done|]. by apply negb_true_iff.
  - by intros e [He _]%elem_of_list_filter.
Qed.

#[export] Instance sim_laws : NetlinkLaws.
Proof.
  split; simpl; unfold sim_read; try done; try (intros; by simplify_eq/=).
  - apply sim_unique.
  - intros ns request k. apply (sim_link_add_named ns request k).
  - intros ns change k. apply (sim_link_set_named ns change k).
  - intros ns change k ns' _ _. write_cases k; [done|]. unfold sim_link_set in Hf.
    destruct (existsb _ _); simplify_eq. unfold sim_view. by rewrite Hwf, Hwf1.
  - intros ns index k ns' link.
    destruct (sim_link_del_cases ns index k) as [[-> _]|(k' & -> & Hwf & Hwf' & Hlinks & _)]; [by eauto|].
    intros (_ & l & -> & Hl & Hns)%elem_of_sim_links. exists (sim_message k l).
    split; [|done]. apply elem_of_sim_links. split; [done|]. exists l. split_and!; [done| |done]. by apply Hlinks.
  - intros ns index k ns' message.
    destruct (sim_link_del_cases ns index k) as [[-> _]|(k' & -> & Hwf & Hwf' & _ & Hroutes)]; [done|].
    unfold sim_view. rewrite Hwf, Hwf'. simpl. rewrite !elem_of_in_ns. apply Hroutes.
  - intros ns index k k' link Hrun Hlink Hindex.
    destruct (sim_link_del_cases ns index k) as [[_ Hno]|(k1 & Hk1 & _ & _ & Hlinks & _)].
    { by rewrite Hrun in Hno. }
    rewrite Hrun in Hk1. simpl in Hk1. subst k1.
    apply elem_of_sim_links in Hlink as (_ & l & -> & Hl & Hns). apply Hlinks in Hl as [_ Hno].
    unfold sim_is in Hno. simpl in Hindex. by rewrite Hns, Hindex, eqb_reflx, Z.eqb_refl in Hno.
  - intros ns index address prefix_len k ns'. write_cases k; [done|]. apply sim_view_links_kept.
    injection Hf as <-. by case_bool_decide.
  - intros ns request k. write_cases k; [by split|].
    apply sim_routing_kept; [done..| |done]. intros ns' Hns. by apply in_ns_other.
  - intros ns message k. write_cases k; [by split|].
    apply sim_routing_kept; [done..| |done]. intros ns' Hns. by apply in_ns_filter_other.
  - intros ns index address mac k. write_cases k; [by split|].
    apply sim_routing_kept; [done..|]. intros ns' Hns. by apply in_ns_other.
  - intros ns message k. write_cases k; [by split|].
    apply sim_routing_kept; [done..|]. intros ns' Hns. by apply in_ns_filter_other.
  - intros ns message k k' other Hrun. write_cases k.
    unfold sim_view. rewrite Hwf, Hwf1. simpl. rewrite !elem_of_in_ns.
    intros [Hin Hne%negb_true_iff%bool_decide_eq_false]%elem_of_list_filter. split; [done|]. congruence.
  - intros ns message k. write_cases k; [done|].
    unfold sim_view. by rewrite Hwf, Hwf1.
Qed.
