(* ===== verification/CniNodeDemo.v ===== *)
(** * Invocations on a node

    ADD, DEL and GC run on the simulated kernel and the journal of [CniJournalDemo]; the
    hypotheses of the theorems on the node hold of the runs. *)

From S2P Require Import Prelude Common NetAddr Ipam Bytes Runs Netlink NetlinkDemo CniAttachment VethPlan VethFacts NativeRoutes RouteFacts CniJournal CniJournalFacts CniJournalCrash CniJournalSafety CniJournalList CniJournalDemo CniAgent CniLifecycle CniPluginSafety CniCollect CniNode.

(** ** Parameters *)

(** A digest: the message cut and padded to 32 bytes, each reduced to a byte. *)
Definition demo_digest_bytes (message : bytes) : bytes :=
  map (λ b, b mod 256) (take 32 (message ++ replicate 32 0)).

#[export, program] Instance demo_digest : Digest := {| sha256 := demo_digest_bytes |}.
Next Obligation. intros message. unfold demo_digest_bytes. rewrite length_map, length_take, length_app, length_replicate. lia. Qed.
Next Obligation.
  intros message. unfold demo_digest_bytes. apply Forall_map, Forall_true. intros b.
  unfold in_width. pose proof (Z.mod_pos_bound b 256). lia.
Qed.

#[export] Instance ResultInterface_eq_dec : EqDecision ResultInterface.
Proof. solve_decision. Defined.
#[export] Instance ResultIp_eq_dec : EqDecision ResultIp.
Proof. solve_decision. Defined.
#[export] Instance ResultRoute_eq_dec : EqDecision ResultRoute.
Proof. solve_decision. Defined.
#[export] Instance AddResult_eq_dec : EqDecision AddResult.
Proof. solve_decision. Defined.

(** Results as their own JSON, which never has a [dns] member. *)
#[export] Instance demo_result_json : ResultJson := {|
  result_json := AddResult;
  to_value result := result;
  has_empty_dns _ := false;
  remove_dns value := value;
|}.

(** ** The node *)

Definition demo_environment : InvocationEnvironment :=
  {| inv_command := Some "ADD"; inv_container_id := Some "container-1";
     inv_netns := Some "/run/netns/pod-1"; inv_ifname := Some "eth0";
     inv_args := Some "IgnoreUnknown=1;K8S_POD_UID=pod-uid-1"; inv_path := None |}.
Definition demo_config : NetworkConfig :=
  {| config_cni_version := "1.1.0"; config_name := "unf"; config_plugin_type := "unf";
     config_mode := None; config_dataplane := None; config_agent_socket := None;
     config_deferred_delete_directory := None; config_status_lease_path := None;
     config_status_grace_period_seconds := 120; config_mtu := Some 1400;
     config_ipam_plugin_type := "unf"; config_prev_result := None;
     config_valid_attachments := [] |}.

Definition demo_node_env : NodeEnv :=
  {| agent_before _ x := x; call_agent _ := demo_env; call_delivery _ := Delivered |}.

Definition demo_node (x : Machine) (k : SimKernel) : Node :=
  {| node_agent := x; node_kernel := k; node_calls := 0; node_trace := [] |}.

Definition demo_booted : Node := demo_node (Running demo_hooked) sim_boot.
Definition demo_added : result CniError AddResult * Node :=
  add demo_node_env demo_environment demo_config demo_booted.

Lemma execute_add_state env fuel environment config n :
  (execute_validated env fuel environment config CmdAdd n).2 = (add env environment config n).2.
Proof. simpl. unfold op_bind, op_ret. by destruct (add _ _ _ _) as [[] ?]. Qed.

Lemma demo_node_env_ok : node_env_ok demo_node_env demo_provider.
Proof. split; [by intros|by intros; apply demo_env_wf|done]. Qed.

Lemma demo_booted_reachable : node_reachable demo_provider (now demo_booted).
Proof.
  exists demo_down, ∅, sim_boot. split_and!; [apply demo_down_holds| |].
  { intros key (_ & l & Hl & _)%named_sim. by apply not_elem_of_nil in Hl. }
  eapply (rtc_l _ _ (Running demo_opened, sim_boot : @kernel sim_netlink)).
  - apply (node_step_agent demo_provider (Down demo_down) (Running demo_opened)), agent_restart; [done|]. unfold demo_opened.
    destruct (AttachmentJournal_open _ _ _) as [[j|e] w] eqn:E; [|by vm_compute in E].
    eapply machine_open; [apply demo_env_reliable|exact E].
  - apply rtc_once, (node_step_agent demo_provider (Running demo_opened) (Running demo_hooked)).
    eapply (agent_call _ demo_env CallInstallRequired);
      [apply demo_env_wf|done|apply surjective_pairing].
Qed.

Lemma demo_added_reachable : node_reachable demo_provider (now demo_added.2).
Proof.
  destruct demo_booted_reachable as (w & m & k & Hw & Hk & Hsteps). exists w, m, k. split_and!; [done..|].
  eapply rtc_r; [exact Hsteps|].
  apply (node_step_plugin _ demo_node_env 1 demo_environment demo_config CmdAdd demo_booted demo_added.2);
    [apply demo_node_env_ok|done|apply execute_add_state|by left].
Qed.

Definition demo_added_state : JournalState :=
  match node_agent demo_added.2 with Running s => s | Down _ => demo_hooked end.

Lemma demo_added_running : node_agent demo_added.2 = Running demo_added_state.
Proof.
  assert (Hup : match node_agent demo_added.2 with Running _ => true | Down _ => false end = true)
    by (vm_compute; reflexivity).
  unfold demo_added_state. by destruct (node_agent demo_added.2).
Qed.

Lemma demo_added_ok : agent_ok demo_provider (Running demo_added_state).
Proof.
  rewrite <-demo_added_running.
  apply (node_reachable_ok demo_provider demo_provider_wf _ demo_added_reachable).
Qed.

Lemma demo_added_record :
  aj_attachments (js_journal demo_added_state) !! demo_key = Some demo_record.
Proof. vm_compute. reflexivity. Qed.

Lemma demo_added_journaled : journaled demo_provider (node_agent demo_added.2) demo_key demo_record.
Proof.
  rewrite demo_added_running. apply journaled_active; [apply demo_added_ok|apply demo_added_record|].
  by right.
Qed.

Definition demo_keys : gset AttachmentKey := {[demo_key]}.

Lemma demo_added_keys : everywhere demo_provider (keys_in (.∈ demo_keys)) (node_agent demo_added.2).
Proof.
  rewrite demo_added_running. destruct demo_added_ok as [Hok _].
  assert (Hkeys : keys_in (.∈ demo_keys) (aj_attachments (js_journal demo_added_state))).
  { assert (Hall : forallb (λ e, bool_decide (e.1 ∈ demo_keys))
      (map_to_list (aj_attachments (js_journal demo_added_state))) = true) by (vm_compute; reflexivity).
    intros key [r Hr%elem_of_map_to_list]. rewrite forallb_forall in Hall.
    apply list_elem_of_In, Hall in Hr. by apply bool_decide_eq_true in Hr. }
  split; [done|]. eapply disk_all_holds; [|exact Hkeys]. apply (run_fenced _ _ Hok).
  exists 2%nat. vm_compute. reflexivity.
Qed.

Lemma run_pair {A B} (p : A * B) a : p.1 = a → p = (a, p.2).
Proof. by destruct p; intros <-. Qed.

Lemma demo_added_named :
  named (node_kernel demo_added.2) host_namespace (deterministic_host_interface demo_key).
Proof.
  assert (Hhas : existsb (λ l, sim_ns l && bool_decide (sim_name l = deterministic_host_interface demo_key))
    (sim_links (node_kernel demo_added.2)) = true) by (vm_compute; reflexivity).
  apply existsb_exists in Hhas as (l & Hl%list_elem_of_In & [Hns Hname%bool_decide_eq_true]%andb_true_iff).
  apply named_sim. split; [vm_compute; reflexivity|]. by exists l.
Qed.

(** ** Witnesses *)

Definition demo_deleted : Node := (cni_delete demo_node_env demo_environment demo_config demo_added.2).2.

Lemma demo_delete_succeeds :
  cni_delete demo_node_env demo_environment demo_config demo_added.2 = (Ok (), demo_deleted).
Proof.
  assert (Hok : (cni_delete demo_node_env demo_environment demo_config demo_added.2).1 = Ok ())
    by (vm_compute; reflexivity).
  exact (run_pair _ _ Hok).
Qed.

Definition demo_collected : result CniError (option ()) * Node :=
  garbage_collect demo_node_env 1 demo_config demo_added.2.

Lemma plugin_links_journaled_witness :
  ∃ owner record, deterministic_host_interface owner = deterministic_host_interface demo_key ∧
    journaled demo_provider (node_agent demo_added.2) owner record.
Proof.
  destruct (plugin_links_journaled demo_provider demo_provider_wf (node_agent demo_added.2)
    (node_kernel demo_added.2) demo_key demo_added_reachable) as (owner & record & Hname & Hr & _).
  - apply demo_added_named.
  - exact (ex_intro _ owner (ex_intro _ record (conj Hname Hr))).
Defined.

Lemma demo_add_succeeds : ∃ result, demo_added.1 = Ok result.
Proof.
  assert (Hok : is_ok demo_added.1 = true) by (vm_compute; reflexivity).
  destruct demo_added.1 as [result|]; [by exists result|done].
Qed.

Lemma plugin_add_attached_witness :
  ∃ record rb, journaled demo_provider (node_agent demo_added.2) (att_key record) record ∧
    attached record rb (node_kernel demo_added.2).
Proof.
  destruct demo_add_succeeds as [result Eadded].
  destruct (plugin_add_attached demo_provider demo_provider_wf demo_node_env demo_node_env_ok demo_config
    demo_environment demo_booted demo_spec result demo_added.2 demo_booted_reachable)
    as (record & rb & _ & Hr & _ & Hattached & _).
  - vm_compute. reflexivity.
  - exact (run_pair demo_added _ Eadded).
  - exact (ex_intro _ record (ex_intro _ rb (conj Hr Hattached))).
Defined.

Lemma plugin_delete_clean_witness :
  ¬ named (node_kernel demo_deleted) host_namespace (deterministic_host_interface demo_key) ∧
  unrouted (att_lease demo_record) (node_kernel demo_deleted).
Proof.
  destruct (plugin_delete_clean demo_provider demo_provider_wf demo_node_env demo_node_env_ok demo_config
    demo_environment demo_added.2 demo_key demo_deleted demo_added_reachable) as [_ Hclean].
  - vm_compute. reflexivity.
  - apply demo_delete_succeeds.
  - destruct (Hclean demo_record demo_added_journaled) as (Hnamed & Hrouted & _).
    exact (conj Hnamed Hrouted).
Defined.


Lemma garbage_collection_exact_witness :
  ¬ named (node_kernel demo_collected.2) host_namespace (deterministic_host_interface demo_key).
Proof.
  destruct (garbage_collection_exact demo_provider demo_provider_wf demo_node_env demo_node_env_ok
    demo_config demo_added.2 1 demo_collected.1 demo_collected.2 demo_added_reachable
    (surjective_pairing _)) as [Hcollected _].
  refine (proj2 (Hcollected _ demo_key demo_record _ demo_added_journaled)).
  - vm_compute. reflexivity.
  - split; [vm_compute; reflexivity|]. apply not_elem_of_empty.
Defined.
