(* ===== verification/DeferredQueue.v ===== *)
(** * The queue of deferred deletions ([bins/unf-cni/src/deferred.rs])

    A DEL that cannot be completed is written to a directory per network and container, and
    the next invocation for the network drains the directory first.  System calls fail
    anywhere; a process may be killed between two of them, so the states are kept.

    A file holds a document of [serde_json], or bytes that do not decode.  Only the plugin
    writes below the directory: the checks of modes, owners and links are calls that may fail
    and change nothing.  Errors keep no text. *)

From S2P Require Import Prelude Common NetAddr Bytes Runs CniAttachment.

Definition DEFERRED_DELETE_SCHEMA_VERSION : Z := 1.
Definition MAX_PENDING_DELETES : Z := 65536.

Inductive QueueFile :=
| QueueDocument (schema_version : Z) (key : AttachmentKey)
| QueueGarbage.
#[export] Instance QueueFile_eq_dec : EqDecision QueueFile.
Proof. solve_decision. Defined.

(** The files of the containers of a network. *)
Abbreviation Containers := (gmap string (gmap string QueueFile)).

Record Queue := { queue_root : bool; queue_networks : gmap string Containers }.

(** A queued deletion, with the container directory and the name of its file. *)
Record PendingDelete := {
  pending_key : AttachmentKey;
  pending_container : string;
  pending_file : string;
}.

(** Which calls fail, which [Path::exists] answer no although the path is there, and the
    process ID in the name of a temporary file. *)
Record QueueEnv := {
  queue_fails : nat → bool;
  queue_exists_fails : nat → bool;
  process_id : string;
}.

Record QueueWorld := { qw_queue : Queue; qw_calls : nat; qw_history : list Queue }.

#[export] Instance QueueWorld_traced : Traced QueueWorld Queue :=
  {| now := qw_queue; past := qw_history |}.

Definition queue_file (q : Queue) (network container file : string) : option QueueFile :=
  queue_networks q !! network ≫= λ containers, containers !! container ≫= λ files, files !! file.

Definition queue_with (q : Queue) (network : string) (containers : Containers) : Queue :=
  {| queue_root := queue_root q; queue_networks := <[network := containers]> (queue_networks q) |}.

(** The directory of a container, created where it is missing. *)
Definition queue_files (q : Queue) (network container : string) : gmap string QueueFile :=
  default ∅ (queue_networks q !! network ≫= λ containers, containers !! container).

Definition put_files (network container : string) (files : gmap string QueueFile) (q : Queue) : Queue :=
  queue_with q network (<[container := files]> (default ∅ (queue_networks q !! network))).

Definition create_root (q : Queue) : Queue :=
  {| queue_root := true; queue_networks := queue_networks q |}.
Definition create_container (network container : string) (q : Queue) : Queue :=
  put_files network container (queue_files q network container) q.
Definition write_file (network container file : string) (f : QueueFile) (q : Queue) : Queue :=
  put_files network container (<[file := f]> (queue_files q network container)) q.
(** [create_new]: a new, empty file. *)
Definition create_file (network container file : string) (q : Queue) : option Queue :=
  if bool_decide (is_Some (queue_file q network container file)) then None
  else Some (write_file network container file QueueGarbage q).
Definition unlink_file (network container file : string) (q : Queue) : Queue :=
  put_files network container (delete file (queue_files q network container)) q.
Definition rename_file (network container from to : string) (q : Queue) : Queue :=
  match queue_files q network container !! from with
  | Some f => put_files network container
      (<[to := f]> (delete from (queue_files q network container))) q
  | None => q
  end.
(** [remove_dir], which refuses a directory that is not empty. *)
Definition remove_container (network container : string) (q : Queue) : option Queue :=
  if bool_decide ((queue_networks q !! network ≫= λ containers, containers !! container) = Some ∅)
  then Some (queue_with q network (delete container (default ∅ (queue_networks q !! network))))
  else None.
Definition remove_network (network : string) (q : Queue) : option Queue :=
  if bool_decide (queue_networks q !! network = Some ∅)
  then Some {| queue_root := queue_root q; queue_networks := delete network (queue_networks q) |}
  else None.

(** ** Calls *)

Section Queue.
Context (env : QueueEnv).

Abbreviation Deferred := (Routine QueueWorld ()).

Definition queue_log (w : QueueWorld) (q : Queue) : QueueWorld :=
  {| qw_queue := q; qw_calls := S (qw_calls w); qw_history := q :: qw_history w |}.

(** A call that changes the directory, or fails and leaves it. *)
Definition queue_change (f : Queue → Queue) : Deferred () := λ w,
  if queue_fails env (qw_calls w) then (Err (), queue_log w (qw_queue w))
  else (Ok (), queue_log w (f (qw_queue w))).
Definition queue_call : Deferred () := queue_change id.
Definition queue_read {A} (f : Queue → A) : Deferred A := λ w,
  if queue_fails env (qw_calls w) then (Err (), queue_log w (qw_queue w))
  else (Ok (f (qw_queue w)), queue_log w (qw_queue w)).
(** [Path::exists]: a failing call answers no. *)
Definition queue_exists (present : Queue → bool) : Deferred bool := λ w,
  (Ok (present (qw_queue w) && negb (queue_exists_fails env (qw_calls w))),
   queue_log w (qw_queue w)).

(** A call that may find nothing to do, which is no failure; whether it did something. *)
Definition queue_try (f : Queue → option Queue) : Deferred bool := λ w,
  if queue_fails env (qw_calls w) then (Err (), queue_log w (qw_queue w))
  else match f (qw_queue w) with
       | Some q => (Ok true, queue_log w q)
       | None => (Ok false, queue_log w (qw_queue w))
       end.
Definition sync_queue_directory : Deferred () :=
  let* _ := queue_call in queue_call.

Definition reject_queue_symlinks : Deferred () := queue_call.
Definition validate_queue_directory : Deferred () := queue_call.

Definition validate_root (root : string) : Deferred () :=
  if negb (String.prefix "/" root) then op_fail () else reject_queue_symlinks.

(** The lock on the queue; it is held until the file is closed. *)
Definition queue_lock : Deferred () :=
  let* _ := queue_change create_root in
  let* _ := reject_queue_symlinks in
  let* _ := validate_queue_directory in
  let* _ := reject_queue_symlinks in
  let* _ := queue_call in
  let* _ := queue_call in
  queue_call.

Definition load_file (network container file : string) : Deferred AttachmentKey :=
  let* _ := queue_call in
  let* content := queue_read (λ q, queue_file q network container file) in
  match content with
  | None | Some QueueGarbage => op_fail ()
  | Some (QueueDocument schema_version key) =>
      if negb (schema_version =? DEFERRED_DELETE_SCHEMA_VERSION) then op_fail () else op_ret key
  end.

Definition document_file (ifname : string) : string := String.append ifname ".json".

(** The inner loop of [list_unlocked], over the files of a container. *)
Fixpoint list_files (network container : string) (files : list string)
    (pending : list PendingDelete) : Deferred (list PendingDelete) :=
  match files with
  | [] => op_ret pending
  | file :: files =>
      let* key := load_file network container file in
      if negb (bool_decide (key_network key = network))
         || negb (bool_decide (container = key_container_id key))
         || negb (bool_decide (file = document_file (key_ifname key)))
      then op_fail ()
      else
        let pending := pending ++ [{| pending_key := key; pending_container := container;
                                      pending_file := file |}] in
        if MAX_PENDING_DELETES <? Z.of_nat (length pending) then op_fail ()
        else list_files network container files pending
  end.

Fixpoint list_containers (network : string) (containers : list string)
    (pending : list PendingDelete) : Deferred (list PendingDelete) :=
  match containers with
  | [] => op_ret pending
  | container :: containers =>
      let* _ := validate_queue_directory in
      let* files := queue_read (λ q, (btree_iter (queue_files q network container)).*1) in
      let* pending := list_files network container files pending in
      list_containers network containers pending
  end.

Definition list_unlocked (network : string) : Deferred (list PendingDelete) :=
  let* present := queue_exists (λ q, bool_decide (is_Some (queue_networks q !! network))) in
  if negb present then op_ret []
  else
    let* _ := reject_queue_symlinks in
    let* _ := validate_queue_directory in
    let* containers := queue_read (λ q,
      (btree_iter (default ∅ (queue_networks q !! network))).*1) in
    let* pending := list_containers network containers [] in
    op_ret (sort_by_key pending_key pending).

Definition queue_list (root network : string) : Deferred (list PendingDelete) :=
  let* _ := validate_root root in
  let* present := queue_exists queue_root in
  if negb present then op_ret []
  else
    let* _ := queue_lock in
    list_unlocked network.

(** The atomic publication of [enqueue]. *)
Definition publish (key : AttachmentKey) (temporary : string) : Deferred () :=
  let network := key_network key in
  let container := key_container_id key in
  let* created := queue_try (create_file network container temporary) in
  if negb created then op_fail ()
  else
    let* _ := queue_change (write_file network container temporary
      (QueueDocument DEFERRED_DELETE_SCHEMA_VERSION key)) in
    let* _ := queue_call in
    let* _ := queue_change (rename_file network container temporary
      (document_file (key_ifname key))) in
    sync_queue_directory.

Definition temporary_file (key : AttachmentKey) : string :=
  String.append (key_ifname key) (String.append "." (String.append (process_id env) ".tmp")).

Definition enqueue (root : string) (key : AttachmentKey) : Deferred () :=
  let network := key_network key in
  let container := key_container_id key in
  let file := document_file (key_ifname key) in
  let* _ := validate_root root in
  let* _ := queue_lock in
  let* present := queue_exists (λ q, bool_decide (is_Some (queue_file q network container file))) in
  if present : bool then
    let* found := load_file network container file in
    if negb (bool_decide (found = key)) then op_fail () else op_ret ()
  else
    let* pending := list_unlocked network in
    if MAX_PENDING_DELETES <=? Z.of_nat (length pending) then op_fail ()
    else
      let* _ := queue_change (create_container network container) in
      let* _ := reject_queue_symlinks in
      let* _ := validate_queue_directory in
      let* _ := validate_queue_directory in
      let* _ := validate_queue_directory in
      let* written := attempt (publish key (temporary_file key)) in
      match written with
      | Ok _ => op_ret ()
      | Err _ =>
          let* _ := attempt (E := ()) (queue_change (unlink_file network container (temporary_file key))) in
          op_fail ()
      end.

Definition remove_empty_directory (remove : Queue → option Queue) : Deferred () :=
  let* removed := queue_try remove in
  if removed : bool then sync_queue_directory else op_ret ().

Definition complete (network : string) (pending : PendingDelete) : Deferred () :=
  let* key := load_file network (pending_container pending) (pending_file pending) in
  if negb (bool_decide (key = pending_key pending)) then op_fail ()
  else
    let* _ := queue_change (unlink_file network (pending_container pending) (pending_file pending)) in
    let* _ := sync_queue_directory in
    let* _ := remove_empty_directory (remove_container network (pending_container pending)) in
    remove_empty_directory (remove_network network).

End Queue.
