(* ===== verification/DeferredFacts.v ===== *)
(** * What the queue of deferred deletions keeps

    Every state of a listing, a publication or a completion keeps the queued deletions it is
    not about; a listing that succeeds found every file of the network; a publication that
    succeeds left its document. *)

From S2P Require Import Prelude Common NetAddr Bytes Runs CniAttachment DeferredQueue.

(** ** Directories *)

Lemma queue_file_files q network container file :
  queue_file q network container file = queue_files q network container !! file.
Proof.
  unfold queue_file, queue_files. destruct (queue_networks q !! network) as [containers|]; simpl; [|done].
  by destruct (containers !! container).
Qed.

Lemma queue_files_put network container files q network' container' :
  queue_files (put_files network container files q) network' container' =
  if decide (network' = network ∧ container' = container) then files
  else queue_files q network' container'.
Proof.
  unfold queue_files, put_files, queue_with. simpl. destruct (decide (network' = network)) as [->|Hne].
  - rewrite lookup_insert_eq. simpl. destruct (decide (container' = container)) as [->|Hne].
    + rewrite decide_True by done. by rewrite lookup_insert_eq.
    + rewrite decide_False by tauto. rewrite lookup_insert_ne by done.
      by destruct (queue_networks q !! network).
  - rewrite decide_False by tauto. by rewrite lookup_insert_ne.
Qed.

(** The same files, whatever the empty directories. *)
Definition same_files (q q' : Queue) : Prop :=
  ∀ network container, queue_files q' network container = queue_files q network container.

#[export] Instance same_files_equivalence : Equivalence same_files.
Proof.
  split; [done|by intros q q' Hq n c|]. intros q1 q2 q3 H12 H23 n c. by rewrite H23.
Qed.

Lemma create_root_same q : same_files q (create_root q).
Proof. done. Qed.

Lemma create_container_same network container q : same_files q (create_container network container q).
Proof.
  intros n c. unfold create_container. rewrite queue_files_put. by case_decide as Hd; [destruct Hd; subst|].
Qed.

Lemma remove_container_same network container q q' :
  remove_container network container q = Some q' → same_files q q'.
Proof.
  unfold remove_container. case_bool_decide as Hempty; [|done]. intros [= <-] n c.
  unfold queue_files, queue_with. simpl. destruct (decide (n = network)) as [->|]; [|by rewrite lookup_insert_ne].
  rewrite lookup_insert_eq. simpl. destruct (queue_networks q !! network) as [containers|]; simpl in *; [|done].
  destruct (decide (c = container)) as [->|]; [by rewrite lookup_delete_eq, Hempty|by rewrite lookup_delete_ne].
Qed.

Lemma remove_network_same network q q' : remove_network network q = Some q' → same_files q q'.
Proof.
  unfold remove_network. case_bool_decide as Hempty; [|done]. intros [= <-] n c.
  unfold queue_files. simpl. destruct (decide (n = network)) as [->|].
  - rewrite lookup_delete_eq, Hempty. simpl. by rewrite lookup_empty.
  - by rewrite lookup_delete_ne.
Qed.

(** ** Names *)

Lemma append_list s t : String.list_ascii_of_string (String.append s t) =
  String.list_ascii_of_string s ++ String.list_ascii_of_string t.
Proof. induction s as [|c s IH]; simpl; [done|]. by rewrite IH. Qed.

(** A temporary file is no document. *)
Lemma temporary_not_document env key ifname : temporary_file env key ≠ document_file ifname.
Proof.
  intros Heq. apply (f_equal (λ s, last (String.list_ascii_of_string s))) in Heq. revert Heq.
  unfold temporary_file, document_file. rewrite !append_list, !(assoc_L (++)), !last_app. done.
Qed.

Lemma append_inj s s' t : String.append s t = String.append s' t → s = s'.
Proof.
  intros Heq%(f_equal String.list_ascii_of_string). rewrite !append_list in Heq.
  apply app_inv_tail in Heq. apply (f_equal String.string_of_list_ascii) in Heq.
  by rewrite !String.string_of_list_ascii_of_string in Heq.
Qed.

(** ** Queued deletions *)

Definition queued (q : Queue) (key : AttachmentKey) : Prop :=
  queue_file q (key_network key) (key_container_id key) (document_file (key_ifname key)) =
  Some (QueueDocument DEFERRED_DELETE_SCHEMA_VERSION key).

#[export] Instance queued_Proper : Proper (same_files ==> eq ==> impl) queued.
Proof. intros q q' Hq key ? <-. unfold queued. by rewrite !queue_file_files, Hq. Qed.

(** A file that is not the document of a deletion the agent accepts, under its own path. *)
Definition undrainable (network container file : string) (q : Queue) : Prop :=
  ∃ content, queue_file q network container file = Some content ∧
    ∀ key, content = QueueDocument DEFERRED_DELETE_SCHEMA_VERSION key →
      key_network key = network → container = key_container_id key →
      file = document_file (key_ifname key) → validate_key key ≠ Ok ().

#[export] Instance undrainable_Proper network container file :
  Proper (same_files ==> impl) (undrainable network container file).
Proof.
  intros q q' Hq (content & Hc & Hbad). exists content. split; [|done].
  revert Hc. by rewrite !queue_file_files, Hq.
Qed.

(** ** Files *)

Lemma queue_file_put network container files q network' container' file :
  queue_file (put_files network container files q) network' container' file =
  if decide (network' = network ∧ container' = container) then files !! file
  else queue_file q network' container' file.
Proof. rewrite !queue_file_files, queue_files_put. by case_decide. Qed.

Lemma unlink_other network container file q network' container' file' :
  ¬ (network' = network ∧ container' = container ∧ file' = file) →
  queue_file (unlink_file network container file q) network' container' file' =
  queue_file q network' container' file'.
Proof.
  intros Hne. unfold unlink_file. rewrite queue_file_put. case_decide as Hd; [|done].
  destruct Hd; subst. rewrite queue_file_files. apply lookup_delete_ne. naive_solver.
Qed.

Lemma write_other network container file f q network' container' file' :
  ¬ (network' = network ∧ container' = container ∧ file' = file) →
  queue_file (write_file network container file f q) network' container' file' =
  queue_file q network' container' file'.
Proof.
  intros Hne. unfold write_file. rewrite queue_file_put. case_decide as Hd; [|done].
  destruct Hd; subst. rewrite queue_file_files. apply lookup_insert_ne. naive_solver.
Qed.

Lemma write_here network container file f q :
  queue_file (write_file network container file f q) network container file = Some f.
Proof. unfold write_file. rewrite queue_file_put, decide_True by done. apply lookup_insert_eq. Qed.

Lemma rename_other network container from to q network' container' file' :
  ¬ (network' = network ∧ container' = container ∧ (file' = from ∨ file' = to)) →
  queue_file (rename_file network container from to q) network' container' file' =
  queue_file q network' container' file'.
Proof.
  intros Hne. unfold rename_file. destruct (_ !! from); [|done]. rewrite queue_file_put.
  case_decide as Hd; [|done]. destruct Hd; subst. rewrite queue_file_files.
  rewrite lookup_insert_ne, lookup_delete_ne by naive_solver. done.
Qed.

Lemma rename_here network container from to q f :
  queue_file q network container from = Some f →
  queue_file (rename_file network container from to q) network container to = Some f.
Proof.
  rewrite queue_file_files. intros Hf. unfold rename_file. rewrite Hf, queue_file_put, decide_True by done.
  apply lookup_insert_eq.
Qed.

(** The path of a document is that of one key. *)
Lemma document_path key key' :
  key_network key' = key_network key ∧ key_container_id key' = key_container_id key ∧
  document_file (key_ifname key') = document_file (key_ifname key) → key' = key.
Proof. destruct key, key'. simpl. by intros (-> & -> & ->%append_inj). Qed.

(** ** Calls *)

Section Calls.
Context (env : QueueEnv).

Lemma runs_queue_change (I : Queue → Prop) f Q w :
  I (qw_queue w) → I (f (qw_queue w)) →
  Q (Err ()) (queue_log w (qw_queue w)) → Q (Ok ()) (queue_log w (f (qw_queue w))) →
  runs I (queue_change env f) Q w.
Proof.
  intros HI HI' Herr Hok. unfold runs, queue_change.
  destruct (queue_fails _ _); (split_and!; [done| |done]);
    (eexists [_]; split; [done|by apply Forall_singleton]).
Qed.

Section Keeps.
Context (I : Queue → Prop).

Lemma keeps_queue_change f : (∀ q, I q → I (f q)) → keeps I (queue_change env f).
Proof. intros Hf w HI. by apply runs_queue_change; auto. Qed.

Lemma keeps_queue_call : keeps I (queue_call env).
Proof. by apply keeps_queue_change. Qed.

Lemma keeps_queue_read {A} (f : Queue → A) : keeps I (queue_read env f).
Proof.
  intros w HI. unfold runs, queue_read. destruct (queue_fails _ _);
    (split_and!; [done| |done]; eexists [_]; split; [done|by apply Forall_singleton]).
Qed.

Lemma keeps_path_exists present : keeps I (queue_exists env present).
Proof.
  intros w HI. split_and!; [done| |done]. eexists [_]. split; [done|by apply Forall_singleton].
Qed.

Lemma keeps_queue_try f : (∀ q q', f q = Some q' → I q → I q') → keeps I (queue_try env f).
Proof.
  intros Hf w HI. unfold runs, queue_try.
  assert (Hlog : ∀ q, I q → ∃ new, qw_history (queue_log w q) = new ++ qw_history w ∧ Forall I new).
  { intros q Hq. exists [q]. split; [done|by apply Forall_singleton]. }
  destruct (queue_fails _ _); [by split_and!; [|apply Hlog|]|].
  destruct (f (qw_queue w)) as [q'|] eqn:Ef; [|by split_and!; [|apply Hlog|]].
  pose proof (Hf _ _ Ef HI). by split_and!; [|apply Hlog|].
Qed.

End Keeps.

Section Quiet.
Context (I : Queue → Prop) `{HI : !Proper (same_files ==> impl) I}.

Lemma same_files_keeps f : (∀ q, same_files q (f q)) → keeps I (queue_change env f).
Proof. intros Hf. apply keeps_queue_change. intros q. by rewrite <-Hf. Qed.

Lemma same_files_tries f : (∀ q q', f q = Some q' → same_files q q') → keeps I (queue_try env f).
Proof. intros Hf. apply keeps_queue_try. intros q q' Hq. by rewrite (Hf _ _ Hq). Qed.

#[local] Hint Resolve keeps_queue_call keeps_queue_read keeps_path_exists : keeps.
#[local] Hint Extern 1 (keeps _ (queue_change _ _)) => apply same_files_keeps : keeps.

Lemma keeps_queue_lock : keeps I (queue_lock env).
Proof.
  unfold queue_lock, reject_queue_symlinks, validate_queue_directory.
  apply keeps_bind; [by apply same_files_keeps|]. auto 20 with keeps.
Qed.

Lemma keeps_load_file network container file : keeps I (load_file env network container file).
Proof. unfold load_file. auto 10 with keeps. Qed.
#[local] Hint Resolve keeps_load_file keeps_queue_lock : keeps.

Lemma keeps_list_files network container files pending :
  keeps I (list_files env network container files pending).
Proof.
  revert pending. induction files as [|file files IH]; intros pending; simpl; auto 10 with keeps.
Qed.

Lemma keeps_list_containers network containers pending :
  keeps I (list_containers env network containers pending).
Proof.
  revert pending. induction containers as [|container containers IH]; intros pending; simpl;
    [auto with keeps|]. unfold validate_queue_directory.
  apply keeps_bind; [auto with keeps|intros _]. apply keeps_bind; [auto with keeps|intros files].
  apply keeps_bind; [apply keeps_list_files|auto].
Qed.
#[local] Hint Resolve keeps_list_containers : keeps.

Lemma keeps_list_unlocked network : keeps I (list_unlocked env network).
Proof.
  unfold list_unlocked, reject_queue_symlinks, validate_queue_directory. auto 10 with keeps.
Qed.
#[local] Hint Resolve keeps_list_unlocked : keeps.

Lemma keeps_queue_list root network : keeps I (queue_list env root network).
Proof.
  unfold queue_list, validate_root, reject_queue_symlinks.
  apply keeps_bind; [auto with keeps|]. auto 10 with keeps.
Qed.

Lemma keeps_remove_empty f : (∀ q q', f q = Some q' → same_files q q') →
  keeps I (remove_empty_directory env f).
Proof.
  intros Hf. unfold remove_empty_directory, sync_queue_directory.
  apply keeps_bind; [by apply same_files_tries|]. auto 10 with keeps.
Qed.

(** A completion removes its file and nothing else. *)
Lemma keeps_complete network pending :
  (∀ q, I q → I (unlink_file network (pending_container pending) (pending_file pending) q)) →
  keeps I (complete env network pending).
Proof.
  intros Hunlink. unfold complete, sync_queue_directory. apply keeps_bind; [auto with keeps|intros key].
  destruct (negb _); [auto with keeps|].
  apply keeps_bind; [by apply keeps_queue_change|intros _].
  apply keeps_bind; [auto with keeps|intros _].
  apply keeps_bind; [|intros _]; apply keeps_remove_empty.
  - apply remove_container_same.
  - apply remove_network_same.
Qed.

End Quiet.

(** ** Publishing *)

Lemma queue_change_Ok f w w' :
  queue_change env f w = (Ok (), w') → qw_queue w' = f (qw_queue w).
Proof. unfold queue_change. by destruct (queue_fails _ _); intros [= <-]. Qed.

Lemma queue_call_Ok w w' : queue_call env w = (Ok (), w') → qw_queue w' = qw_queue w.
Proof. apply queue_change_Ok. Qed.

Lemma queue_try_Ok f b w w' :
  queue_try env f w = (Ok b, w') →
  match f (qw_queue w) with
  | Some q => b = true ∧ qw_queue w' = q
  | None => b = false ∧ qw_queue w' = qw_queue w
  end.
Proof.
  unfold queue_try. destruct (queue_fails _ _); [done|]. by destruct (f _); intros [= <- <-].
Qed.

Lemma sync_directory_Ok w w' : sync_queue_directory env w = (Ok (), w') → qw_queue w' = qw_queue w.
Proof. intros Hrun. bind_ok Hrun as [] w1 H1%queue_call_Ok. apply queue_call_Ok in Hrun. congruence. Qed.

(** Nothing queued is lost while another deletion is published. *)
Lemma keeps_publish key key' :
  keeps (λ q, queued q key') (publish env key (temporary_file env key)).
Proof.
  set (I := λ q, queued q key'). assert (Proper (same_files ==> impl) I).
  { intros q q' Hq. unfold I. by rewrite Hq. }
  assert (Htemp : ∀ f q, I q → I (write_file (key_network key) (key_container_id key) (temporary_file env key) f q)).
  { intros f q HI. unfold I, queued in *. rewrite write_other; [done|].
    intros (_ & _ & Hname). by destruct (temporary_not_document env key (key_ifname key')). }
  intros w HI. apply runs_bind. unfold publish. eapply runs_conseq.
  { apply keeps_queue_try; [|exact HI]. intros q q'. unfold create_file.
    case_bool_decide; [done|]. intros [= <-]. apply Htemp. }
  intros [created|] w1 HI1 _; simpl; [|done]. destruct created; simpl; [|by apply runs_fail].
  apply runs_bind. apply runs_queue_change; [done|by apply Htemp|done|]. simpl.
  set (w2 := queue_log _ _). assert (HI2 : I (qw_queue w2)) by (by apply Htemp).
  assert (Hdoc : queue_file (qw_queue w2) (key_network key) (key_container_id key) (temporary_file env key) =
    Some (QueueDocument DEFERRED_DELETE_SCHEMA_VERSION key)) by apply write_here.
  clearbody w2. apply runs_bind. apply runs_queue_change; [done..|]. simpl. apply runs_bind.
  assert (Hrename : I (rename_file (key_network key) (key_container_id key) (temporary_file env key)
    (document_file (key_ifname key)) (qw_queue w2))).
  { unfold I, queued. destruct (decide (key' = key)) as [->|Hne]; [by apply rename_here|].
    rewrite rename_other; [done|]. intros (Hn & Hc & [Hf|Hf]).
    - by destruct (temporary_not_document env key (key_ifname key')).
    - apply Hne, document_path. by split_and!. }
  apply runs_queue_change; [done..|]. simpl. unfold sync_queue_directory. apply runs_bind.
  apply runs_queue_change; [done..|]. simpl. by apply runs_queue_change.
Qed.

Lemma keeps_enqueue root key key' : keeps (λ q, queued q key') (enqueue env root key).
Proof.
  assert (HI : Proper (same_files ==> impl) (λ q, queued q key')) by (intros q q' Hq; by rewrite Hq).
  pose proof (keeps_queue_call (λ q, queued q key')) as Hcall. unfold enqueue.
  apply keeps_bind; [unfold validate_root, reject_queue_symlinks; auto with keeps|intros _].
  apply keeps_bind; [by apply keeps_queue_lock|intros _].
  apply keeps_bind; [apply keeps_path_exists|intros present].
  destruct present; [apply keeps_bind; [by apply keeps_load_file|auto with keeps]|].
  apply keeps_bind; [by apply keeps_list_unlocked|intros pending].
  destruct (_ <=? _); [auto with keeps|].
  apply keeps_bind; [apply same_files_keeps; [done|]; apply create_container_same|intros _].
  unfold reject_queue_symlinks, validate_queue_directory. do 4 (apply keeps_bind; [done|intros _]).
  apply keeps_bind; [apply keeps_attempt, keeps_publish|intros written].
  destruct written; [auto with keeps|]. apply keeps_bind; [|auto with keeps].
  apply keeps_attempt, keeps_queue_change. intros q Hq. unfold queued in *. rewrite unlink_other; [done|].
  intros (_ & _ & Hname). by destruct (temporary_not_document env key (key_ifname key')).
Qed.

Lemma load_file_Ok network container file w key w' :
  load_file env network container file w = (Ok key, w') →
  queue_file (qw_queue w) network container file =
    Some (QueueDocument DEFERRED_DELETE_SCHEMA_VERSION key) ∧ qw_queue w' = qw_queue w.
Proof.
  intros Hrun. bind_ok Hrun as [] w1 H1%queue_call_Ok. bind_ok Hrun as content w2 Hread.
  unfold queue_read in Hread. destruct (queue_fails _ _); [done|]. injection Hread as <- <-.
  rewrite <-H1. destruct (queue_file _ _ _ _) as [[version found|]|]; [|done..].
  destruct (Z.eqb_spec version DEFERRED_DELETE_SCHEMA_VERSION) as [->|]; [|done].
  simpl in Hrun. by injection Hrun as <- <-.
Qed.

Lemma publish_Ok key w w' : publish env key (temporary_file env key) w = (Ok (), w') → queued (qw_queue w') key.
Proof.
  intros Hrun. bind_ok Hrun as created w1 _. destruct created; [|done]. simpl in Hrun.
  bind_ok Hrun as [] w2 H2%queue_change_Ok. bind_ok Hrun as [] w3 H3%queue_call_Ok.
  bind_ok Hrun as [] w4 H4%queue_change_Ok. apply sync_directory_Ok in Hrun.
  unfold queued. rewrite Hrun, H4, H3, H2. apply rename_here, write_here.
Qed.

(** A publication that succeeded, or found its document. *)
Lemma enqueue_Ok root key w w' : enqueue env root key w = (Ok (), w') → queued (qw_queue w') key.
Proof.
  intros Hrun. bind_ok Hrun as [] w1 _. bind_ok Hrun as [] w2 _. bind_ok Hrun as present w3 _.
  destruct present.
  - bind_ok Hrun as found w4 Hload. apply load_file_Ok in Hload as [Hfile Hsame].
    case_bool_decide as Heq; [subst found|done]. simpl in Hrun. injection Hrun as <-.
    unfold queued. by rewrite Hsame.
  - bind_ok Hrun as pending w4 _. destruct (_ <=? _); [done|]. do 5 (bind_ok Hrun as [] ? _).
    bind_ok Hrun as written w6 Hpublish%attempt_Ok. destruct written as [[]|]; [|by bind_ok Hrun as ? ? _].
    injection Hrun as <-. by apply publish_Ok in Hpublish.
Qed.

(** ** Listing *)

(** A file of the queue and the deletion it stands for. *)
Definition entry_of (q : Queue) (network : string) (p : PendingDelete) : Prop :=
  queue_file q network (pending_container p) (pending_file p) =
    Some (QueueDocument DEFERRED_DELETE_SCHEMA_VERSION (pending_key p)) ∧
  key_network (pending_key p) = network ∧ pending_container p = key_container_id (pending_key p) ∧
  pending_file p = document_file (key_ifname (pending_key p)).

Lemma list_files_Ok network container files pending w out w' :
  list_files env network container files pending w = (Ok out, w') →
  qw_queue w' = qw_queue w ∧ (∀ p, p ∈ pending → p ∈ out) ∧
  (∀ p, p ∈ out → p ∈ pending ∨ entry_of (qw_queue w) network p) ∧
  ∀ file, file ∈ files → ∃ p, p ∈ out ∧ pending_container p = container ∧ pending_file p = file.
Proof.
  revert pending w. induction files as [|file files IH]; intros pending w Hrun; simpl in Hrun.
  { injection Hrun as <- <-. split_and!; [done|done|by left|by inversion 1]. }
  bind_ok Hrun as key w1 Hload. apply load_file_Ok in Hload as [Hfile Hw1].
  destruct (_ || _) eqn:Echeck; [done|].
  rewrite !orb_false_iff, !negb_false_iff, !bool_decide_eq_true in Echeck.
  destruct Echeck as [[Hnet Hcontainer] Hname]. destruct (_ <? _); [done|].
  set (entry := {| pending_key := key; pending_container := container; pending_file := file |}) in *.
  destruct (IH _ _ Hrun) as (Hw' & Hkept & Hsound & Hall). rewrite Hw1 in *. split_and!; [done|..].
  - intros p Hp. apply Hkept, elem_of_app. by left.
  - intros p [[Hp|Hp%list_elem_of_singleton]%elem_of_app|Hp]%Hsound; [by left| |by right].
    right. subst p. by split.
  - intros f [->|Hf]%elem_of_cons; [|by apply Hall]. exists entry. split; [|done].
    apply Hkept, elem_of_app. right. by apply list_elem_of_singleton.
Qed.

Lemma queue_read_Ok {A} (f : Queue → A) w a w' :
  queue_read env f w = (Ok a, w') → a = f (qw_queue w) ∧ qw_queue w' = qw_queue w.
Proof. unfold queue_read. by destruct (queue_fails _ _); intros [= <- <-]. Qed.

Lemma elem_of_directory {V} (m : gmap string V) key : key ∈ (btree_iter m).*1 ↔ is_Some (m !! key).
Proof.
  split.
  - intros ([k v] & -> & Hin%elem_of_btree_iter)%list_elem_of_fmap. eauto.
  - intros [v Hv]. apply list_elem_of_fmap. exists (key, v). by rewrite elem_of_btree_iter.
Qed.

Lemma list_containers_Ok network containers pending w out w' :
  list_containers env network containers pending w = (Ok out, w') →
  qw_queue w' = qw_queue w ∧ (∀ p, p ∈ pending → p ∈ out) ∧
  (∀ p, p ∈ out → p ∈ pending ∨ entry_of (qw_queue w) network p) ∧
  ∀ container file, container ∈ containers →
    is_Some (queue_file (qw_queue w) network container file) →
    ∃ p, p ∈ out ∧ pending_container p = container ∧ pending_file p = file.
Proof.
  revert pending w. induction containers as [|container containers IH]; intros pending w Hrun; simpl in Hrun.
  { injection Hrun as <- <-. split_and!; [done|done|by left|by inversion 1]. }
  bind_ok Hrun as [] w1 H1%queue_call_Ok. bind_ok Hrun as files w2 H2.
  apply queue_read_Ok in H2 as [-> H2]. bind_ok Hrun as pending1 w3 H3.
  apply list_files_Ok in H3 as (H3 & Hkept1 & Hsound1 & Hall1).
  destruct (IH _ _ Hrun) as (H4 & Hkept & Hsound & Hall).
  rewrite H3, H2, H1 in *. split_and!; [done|by auto| |].
  - intros p [[Hp|Hp]%Hsound1|Hp]%Hsound; auto.
  - intros c file [->|Hc]%elem_of_cons Hfile; [|by eapply Hall].
    destruct (Hall1 file) as (p & Hp & Hpc & Hpf); [|by eauto].
    apply elem_of_directory. by rewrite <-queue_file_files.
Qed.

Lemma queue_lock_Ok w w' : queue_lock env w = (Ok (), w') → same_files (qw_queue w) (qw_queue w').
Proof.
  intros Hrun. bind_ok Hrun as [] w1 H1%queue_change_Ok. bind_ok Hrun as [] w2 H2%queue_call_Ok.
  bind_ok Hrun as [] w3 H3%queue_call_Ok. bind_ok Hrun as [] w4 H4%queue_call_Ok.
  bind_ok Hrun as [] w5 H5%queue_call_Ok. bind_ok Hrun as [] w6 H6%queue_call_Ok.
  apply queue_call_Ok in Hrun. rewrite Hrun, H6, H5, H4, H3, H2, H1. apply create_root_same.
Qed.

(** Every look at a path answers. *)
Definition exists_answers : Prop := ∀ n, queue_exists_fails env n = false.

(** A listing that succeeded lists queued deletions, and every file when its looks answer. *)
Record queue_listing (network : string) (q : Queue) (pending : list PendingDelete) : Prop := {
  listing_sound p : p ∈ pending → entry_of q network p;
  listing_complete container file : exists_answers → queue_root q = true →
    is_Some (queue_file q network container file) →
    ∃ p, p ∈ pending ∧ pending_container p = container ∧ pending_file p = file;
}.

Lemma entry_of_same q q' network p : same_files q q' → entry_of q network p → entry_of q' network p.
Proof. intros Hq (Hfile & ?). split; [|done]. revert Hfile. by rewrite !queue_file_files, Hq. Qed.

Lemma list_unlocked_Ok network w out w' :
  list_unlocked env network w = (Ok out, w') →
  qw_queue w' = qw_queue w ∧ (∀ p, p ∈ out → entry_of (qw_queue w) network p) ∧
  (exists_answers → ∀ container file, is_Some (queue_file (qw_queue w) network container file) →
    ∃ p, p ∈ out ∧ pending_container p = container ∧ pending_file p = file).
Proof.
  intros Hrun. bind_ok Hrun as present w1 Hpresent. injection Hpresent as <- <-.
  destruct (negb _) eqn:Eabsent in Hrun.
  { injection Hrun as <- <-. split_and!; [done|by inversion 1|]. intros Hanswers container file Hfile.
    rewrite (Hanswers (qw_calls w)), andb_true_r, negb_true_iff, bool_decide_eq_false in Eabsent.
    destruct Eabsent. unfold queue_file in Hfile. simpl in *.
    destruct (queue_networks (qw_queue w) !! network); [done|by destruct Hfile]. }
  bind_ok Hrun as [] w2 H2%queue_call_Ok. bind_ok Hrun as [] w3 H3%queue_call_Ok.
  bind_ok Hrun as containers w4 H4. apply queue_read_Ok in H4 as [-> H4].
  bind_ok Hrun as pending w5 H5. apply list_containers_Ok in H5 as (H5 & _ & Hsound & Hall).
  injection Hrun as <- <-. simpl in H2. rewrite H4, H3, H2 in *. split_and!; [done|..].
  - intros p [[]%not_elem_of_nil|Hp]%sort_by_elem%Hsound. done.
  - intros _ container file Hfile. destruct (Hall container file) as (p & Hp & ?); [|done|].
    + apply elem_of_directory. unfold queue_file in Hfile.
      destruct (queue_networks (qw_queue w) !! network); [simpl in *|by destruct Hfile].
      by destruct (_ !! container); [|by destruct Hfile].
    + exists p. split; [|done]. by apply sort_by_elem.
Qed.

Lemma queue_list_Ok root network w out w' :
  queue_list env root network w = (Ok out, w') →
  same_files (qw_queue w) (qw_queue w') ∧ queue_listing network (qw_queue w) out.
Proof.
  intros Hrun. bind_ok Hrun as [] w1 Hroot.
  assert (H1 : qw_queue w1 = qw_queue w).
  { unfold validate_root in Hroot. destruct (negb _); [done|]. by apply queue_call_Ok in Hroot. }
  bind_ok Hrun as present w2 Hpresent. injection Hpresent as <- <-.
  destruct (negb _) eqn:Eabsent in Hrun.
  { injection Hrun as <- <-. simpl. rewrite H1. split; [done|]. split; [by inversion 1|].
    intros container file Hanswers Hq. rewrite (Hanswers (qw_calls w1)), H1, Hq in Eabsent. done. }
  bind_ok Hrun as [] w3 H3%queue_lock_Ok. apply list_unlocked_Ok in Hrun as (H4 & Hsound & Hall).
  simpl in H3. rewrite H1 in H3. rewrite H4. split; [done|]. split.
  - intros p Hp%Hsound. by eapply entry_of_same.
  - intros container file Hanswers _ Hfile. apply (Hall Hanswers). revert Hfile.
    by rewrite !queue_file_files, H3.
Qed.

End Calls.
