(* ===== verification/CniPlugin.v ===== *)
(** * The plugin's entry point ([bins/unf-cni/src/lib.rs])

    One invocation from its environment and its configuration: the bounded decoding, the
    validation, the draining of deferred deletions before a command, the queueing of a DEL
    that cannot be completed, and the grace period of STATUS.  [serde_json] on the
    configuration is a parameter ([ConfigJson]).  A lease file that reads as a time stamp is
    kept as that number; writing it succeeds or leaves the old one. *)

From Stdlib Require Import Ascii.
From S2P Require Import Prelude Common NetAddr Ipam Bytes Runs Netlink CniAttachment VethPlan CniJournal CniJournalSafety CniLifecycle DeferredQueue.

Definition MAX_CONFIG_BYTES : Z := 1048576.
Definition CURRENT_CNI_VERSION : string := "1.1.0".
Definition SUPPORTED_CNI_VERSIONS : list string := ["1.0.0"%string; CURRENT_CNI_VERSION].
Definition DEFAULT_AGENT_SOCKET : string := "/run/unf/cni.sock".
Definition DEFAULT_DEFERRED_DELETE_DIRECTORY : string := "/var/lib/unf/cni/v1/pending-deletes".
Definition MAX_STATUS_GRACE_PERIOD_SECONDS : Z := 300.
Definition MAX_UNIX_SOCKET_PATH_BYTES : Z := 107.
Definition MAX_HOST_PATH_BYTES : Z := 4096.

Definition io_error : CniError := cni_error 5.
Definition decode_error : CniError := cni_error 6.
Definition oversized_config : CniError := cni_error 7.
Definition incompatible_version : CniError := cni_error 1.

Definition Command_parse (value : option string) : result CniError Command :=
  match value with
  | None => Err invalid_environment
  | Some value =>
      if bool_decide (value = "ADD"%string) then Ok CmdAdd
      else if bool_decide (value = "DEL"%string) then Ok CmdDelete
      else if bool_decide (value = "CHECK"%string) then Ok CmdCheck
      else if bool_decide (value = "STATUS"%string) then Ok CmdStatus
      else if bool_decide (value = "GC"%string) then Ok CmdGarbageCollect
      else if bool_decide (value = "VERSION"%string) then Ok CmdVersion
      else Err invalid_environment
  end.

(** ** Validation *)

Definition plugin_valid_identifier (value : string) : bool :=
  match String.list_ascii_of_string value with
  | [] => false
  | first :: rest => is_ascii_alphanumeric first
      && (Z.of_nat (String.length value) <=? 253)
      && forallb identifier_byte rest
  end.

Definition plugin_valid_interface_name (value : string) : bool :=
  negb (bool_decide (value = EmptyString))
  && (Z.of_nat (String.length value) <=? 15)
  && forallb identifier_byte (String.list_ascii_of_string value).

Definition has_nul (value : string) : bool := existsb (λ b, b =? 0) (string_bytes value).
Definition valid_netns (value : string) : bool := String.prefix "/" value && negb (has_nul value).
Definition valid_absolute_path (value : string) : bool :=
  String.prefix "/" value && negb (has_nul value).

Definition bad_host_path (path : option string) : bool :=
  is_some_and path (λ path, negb (valid_absolute_path path)
    || (MAX_HOST_PATH_BYTES <? Z.of_nat (String.length path))).

Section Validation.
Context `{ResultJson}.

Definition validate_status_config (config : NetworkConfig) : result CniError () :=
  if bad_host_path (config_status_lease_path config) then Err invalid_config
  else if MAX_STATUS_GRACE_PERIOD_SECONDS <? config_status_grace_period_seconds config
  then Err invalid_config
  else Ok ().

Definition validate_config (config : NetworkConfig) (command : Command) : result CniError () :=
  if negb (bool_decide (config_cni_version config ∈ SUPPORTED_CNI_VERSIONS))
  then Err incompatible_version
  else if bool_decide (command ∈ [CmdStatus; CmdGarbageCollect])
          && negb (bool_decide (config_cni_version config = CURRENT_CNI_VERSION))
  then Err invalid_config
  else if negb (plugin_valid_identifier (config_name config)) then Err invalid_config
  else if negb (bool_decide (config_plugin_type config = "unf"%string)) then Err invalid_config
  else if negb (bool_decide (default "primary"%string (config_mode config) = "primary"%string))
  then Err invalid_config
  else if negb (bool_decide (default "veth"%string (config_dataplane config) = "veth"%string))
  then Err invalid_config
  else if negb (bool_decide (config_ipam_plugin_type config = "unf"%string))
  then Err invalid_config
  else
    let socket := default DEFAULT_AGENT_SOCKET (config_agent_socket config) in
    if negb (String.prefix "/" socket) || has_nul socket then Err invalid_config
    else if MAX_UNIX_SOCKET_PATH_BYTES <? Z.of_nat (String.length socket) then Err invalid_config
    else if bad_host_path (config_deferred_delete_directory config) then Err invalid_config
    else
      let? _ := validate_status_config config in
      if is_some_and (config_mtu config) (λ mtu, negb ((1280 <=? mtu) && (mtu <=? 65535)))
      then Err invalid_config
      else if bool_decide (command = CmdCheck) && bool_decide (config_prev_result config = None)
      then Err invalid_config
      else if bool_decide (command = CmdGarbageCollect)
              && existsb (λ a, negb (plugin_valid_identifier (valid_container_id a))
                   || negb (plugin_valid_interface_name (valid_ifname a)))
                   (config_valid_attachments config)
      then Err invalid_config
      else Ok ().

Definition validate_environment (environment : InvocationEnvironment) (command : Command) :
    result CniError () :=
  if (bool_decide (command ∈ [CmdAdd; CmdDelete; CmdCheck])
      && negb (is_some_and (inv_container_id environment) plugin_valid_identifier))
     || (bool_decide (command ∈ [CmdAdd; CmdCheck])
         && negb (is_some_and (inv_netns environment) valid_netns))
     || (bool_decide (command ∈ [CmdAdd; CmdDelete; CmdCheck])
         && negb (is_some_and (inv_ifname environment) plugin_valid_interface_name))
     || (bool_decide (command = CmdGarbageCollect)
         && is_none_or (inv_path environment) (λ path, bool_decide (path = EmptyString)))
  then Err (cni_error 4) else Ok ().

End Validation.

(** ** Invocations *)

Class ConfigJson `{ResultJson} := {
  config_from_slice : bytes → option NetworkConfig;
  version_from_slice : bytes → option string;
}.

(** The node with the queue of the plugin and the status lease. *)
Record Host `{Netlink} := {
  host_node : Node;
  host_queue : Queue;
  host_calls : nat;
  host_lease : option Z;
  host_trace : list ((Machine * kernel) * Queue);
}.

#[export] Instance Host_traced `{Netlink} : Traced Host ((Machine * kernel) * Queue) :=
  {| now h := (now (host_node h), host_queue h); past := host_trace |}.

Record HostEnv := {
  host_node_env : NodeEnv;
  host_queue_env : QueueEnv;
  (** The time in seconds, where the clock can be read, and whether the lease is written. *)
  host_clock : option Z;
  lease_written : bool;
}.

Section Execute.
Context (env : HostEnv) `{JournalJson} `{Netlink} `{Digest} `{ResultJson}.

Abbreviation Invocation := (Routine Host CniError).

(** A node that starts a history. *)
Definition fresh_node (n : Node) : Node :=
  {| node_agent := node_agent n; node_kernel := node_kernel n; node_calls := node_calls n;
     node_trace := [] |}.

(** A command of the lifecycle. *)
Definition on_node {A} (c : Routine Node CniError A) : Invocation A := λ h,
  let ran := c (fresh_node (host_node h)) in
  (ran.1, {| host_node := ran.2; host_queue := host_queue h; host_calls := host_calls h;
             host_lease := host_lease h;
             host_trace := map (λ s, (s, host_queue h)) (node_trace ran.2) ++ host_trace h |}).

Definition queue_world (h : Host) : QueueWorld :=
  {| qw_queue := host_queue h; qw_calls := host_calls h; qw_history := [] |}.

(** A function of [deferred.rs]; its failures are I/O failures. *)
Definition on_queue {A} (c : Routine QueueWorld () A) : Invocation A := λ h,
  let ran := c (queue_world h) in
  (match ran.1 with Ok a => Ok a | Err _ => Err io_error end,
   {| host_node := host_node h; host_queue := qw_queue ran.2; host_calls := qw_calls ran.2;
      host_lease := host_lease h;
      host_trace := map (pair (now (host_node h))) (qw_history ran.2) ++ host_trace h |}).

Definition deferred_delete_directory (config : NetworkConfig) : string :=
  default DEFAULT_DEFERRED_DELETE_DIRECTORY (config_deferred_delete_directory config).

(** The environment of a deferred deletion. *)
Definition deferred_environment (entry : PendingDelete) : InvocationEnvironment :=
  {| inv_command := Some "DEL"%string;
     inv_container_id := Some (key_container_id (pending_key entry)); inv_netns := None;
     inv_ifname := Some (key_ifname (pending_key entry)); inv_args := None; inv_path := None |}.

Definition drain_entry (fuel : nat) (config : NetworkConfig) (entry : PendingDelete) :
    Invocation () :=
  let* _ := on_node (execute_validated (host_node_env env) fuel (deferred_environment entry)
    config CmdDelete) in
  on_queue (complete (host_queue_env env) (config_name config) entry).

Definition drain_deferred_deletes (fuel : nat) (config : NetworkConfig) : Invocation () :=
  let* pending := on_queue (queue_list (host_queue_env env) (deferred_delete_directory config)
    (config_name config)) in
  for_each (drain_entry fuel config) pending.

(** A validated DEL has a container ID and an interface name. *)
Definition enqueue_current_delete (config : NetworkConfig) (environment : InvocationEnvironment) :
    Invocation () :=
  match attachment_key environment config with
  | Ok key => on_queue (enqueue (host_queue_env env) (deferred_delete_directory config) key)
  | Err _ => op_fail io_error
  end.

Definition status_lease_is_fresh (lease : option Z) (grace_period_seconds : Z) : bool :=
  if grace_period_seconds =? 0 then false
  else match lease, host_clock env with
       | Some timestamp, Some now =>
           (timestamp <=? now) && (now - timestamp <=? grace_period_seconds)
       | _, _ => false
       end.

Definition persist_status_lease : Invocation () := λ h,
  (Ok (), {| host_node := host_node h; host_queue := host_queue h; host_calls := host_calls h;
             host_lease := match host_clock env with
                           | Some now => if lease_written env then Some now else host_lease h
                           | None => host_lease h
                           end;
             host_trace := host_trace h |}).

Definition status_with_bounded_grace (config : NetworkConfig)
    (result : result CniError (option Success)) : Invocation (option Success) :=
  match result with
  | Ok success => let* _ := persist_status_lease in op_ret success
  | Err error => λ h,
      if agent_transport_failure error
         && status_lease_is_fresh (host_lease h) (config_status_grace_period_seconds config)
      then (Ok (Some SuccessEmpty), h) else (Err error, h)
  end.

(** A DEL that failed: its intent is kept, and the failure of the transport forgiven. *)
Definition defer_delete (config : NetworkConfig) (environment : InvocationEnvironment)
    (error : CniError) : Invocation (option Success) :=
  let* _ := enqueue_current_delete config environment in
  if agent_transport_failure error then op_ret (Some SuccessEmpty) else op_fail error.

(** A command, once the queue is drained. *)
Definition run_command (fuel : nat) (environment : InvocationEnvironment)
    (config : NetworkConfig) (command : Command) : Invocation (option Success) :=
  let* result := attempt (on_node (execute_validated (host_node_env env) fuel environment
    config command)) in
  if bool_decide (command = CmdStatus) then status_with_bounded_grace config result
  else match result with
       | Ok success => op_ret success
       | Err error =>
           if bool_decide (command = CmdDelete) then defer_delete config environment error
           else op_fail error
       end.

(** A validated command. *)
Definition execute_command (fuel : nat) (environment : InvocationEnvironment)
    (config : NetworkConfig) (command : Command) : Invocation (option Success) :=
  let* drained :=
    if bool_decide (command ∈ [CmdAdd; CmdDelete; CmdCheck; CmdGarbageCollect])
    then attempt (drain_deferred_deletes fuel config) else op_ret (Ok ()) in
  match drained with
  | Err error =>
      if bool_decide (command = CmdDelete) then defer_delete config environment error
      else op_fail error
  | Ok _ => run_command fuel environment config command
  end.

(** [None] when garbage collection needs more fuel. *)
Definition execute `{!ConfigJson} (fuel : nat) (environment : InvocationEnvironment)
    (input : bytes) : Invocation (option Success) :=
  if MAX_CONFIG_BYTES <? Z.of_nat (length input) then op_fail oversized_config
  else
    let* command := op_lift (Command_parse (inv_command environment)) in
    if bool_decide (command = CmdVersion) then
      match version_from_slice input with
      | None => op_fail decode_error
      | Some version =>
          op_ret (Some (SuccessVersion {| version_cni_version := version;
                                          version_supported := SUPPORTED_CNI_VERSIONS |}))
      end
    else match config_from_slice input with
         | None => op_fail decode_error
         | Some config =>
             let* _ := op_lift (validate_config config command) in
             let* _ := op_lift (validate_environment environment command) in
             (* the runtime of the lifecycle *)
             let* _ := on_queue (queue_call (host_queue_env env)) in
             execute_command fuel environment config command
         end.

End Execute.
