(* ===== verification/CniPluginFacts.v ===== *)
(** * Deferred deletions are kept

    Invocations of the plugin on a node with its queue: a queued deletion stays queued in
    every state of every invocation until the agent has confirmed that the record is gone,
    ADD, CHECK and GC run only after every queued deletion was confirmed, and a document that
    the agent can never accept stops them all. *)

From S2P Require Import Prelude Common NetAddr Ipam Bytes Runs Netlink CniAttachment VethPlan VethFacts NativeRoutes RouteFacts CniJournal CniJournalFacts CniJournalCrash CniJournalSafety CniAgent CniLifecycle CniPluginSafety CniCollect CniNode DeferredQueue DeferredFacts CniPlugin.

Section Host.
Context (env : HostEnv) `{HJ : JournalJsonLaws} `{HN : NetlinkLaws} `{HD : Digest} `{HR : ResultJson}.
Context (provider : NodeBlockProvider) (Hprovider : NodeBlockProvider_wf provider).
Context (Henv : node_env_ok (host_node_env env) provider).

(** The invariant of the node, whatever the queue. *)
Definition host_ok (x : (Machine * kernel) * Queue) : Prop := node_ok provider x.1.

(** The agent was seen without a record of the key. *)
Definition confirmed (key : AttachmentKey) (x : (Machine * kernel) * Queue) : Prop :=
  ∃ s, x.1.1 = Running s ∧ aj_attachments (js_journal s) !! key = None.

(** ** Lifting *)

Lemma runs_on_node {A} (c : Routine Node CniError A) Q h :
  runs (node_ok provider) c Q (fresh_node (host_node h)) →
  runs host_ok (on_node c) (λ r h', Q r (host_node h') ∧ host_queue h' = host_queue h ∧
    ∃ new, past h' = new ++ past h ∧ Forall (λ x, x.2 = host_queue h) new ∧
      ∀ s, s ∈ past (host_node h') → (s, host_queue h) ∈ new) h.
Proof.
  intros (Hok & (new & Hnew & Hall) & HQ). unfold on_node.
  simpl in Hnew. rewrite app_nil_r in Hnew. split; [done|split]; simpl.
  - eexists. split; [done|]. rewrite Hnew. by apply Forall_map.
  - split; [done|]. split; [done|]. eexists. split; [done|]. split; [by apply Forall_map, Forall_true|].
    intros s Hs. by apply (list_elem_of_fmap_2 (λ s, (s, host_queue h))).
Qed.

(** What a function of the queue did to the host. *)
Record queue_post {A} (c : Routine QueueWorld () A) (h : Host) (r : result CniError A) (h' : Host) :
    Prop := {
  qp_node : host_node h' = host_node h;
  qp_run : c (queue_world h) = (match r with Ok a => Ok a | Err _ => Err () end, (c (queue_world h)).2);
  qp_queue : host_queue h' = qw_queue (c (queue_world h)).2;
  qp_past : past h' = map (pair (now (host_node h))) (qw_history (c (queue_world h)).2) ++ past h;
}.

Lemma runs_on_queue {A} (c : Routine QueueWorld () A) h :
  host_ok (now h) → runs host_ok (on_queue c) (queue_post c h) h.
Proof.
  intros Hok. unfold on_queue. split; [done|split]; simpl.
  - eexists. split; [done|]. by apply Forall_map, Forall_true.
  - split; [done| |done..]. by destruct (c _) as [[|[]] ?].
Qed.

(** ** Intents *)

(** A history, latest state first, in which the intent is queued until the agent confirmed the
    deletion. *)
Fixpoint secured (key : AttachmentKey) (states : list ((Machine * kernel) * Queue)) : Prop :=
  match states with
  | [] => True
  | x :: earlier =>
      (queued x.2 key ∨ Exists (confirmed key) (x :: earlier)) ∧ secured key earlier
  end.

Lemma secured_queued key new : Forall (λ x, queued x.2 key) new → secured key new.
Proof. induction 1; simpl; auto. Qed.

Lemma secured_app key later earlier :
  secured key later → secured key earlier → secured key (later ++ earlier).
Proof.
  intros Hlater Hearlier. induction later as [|x later IH]; simpl in *; [done|].
  destruct Hlater as [Hx Hlater]. split; [|by apply IH]. destruct Hx as [|Hx]; [by left|right].
  rewrite app_comm_cons, Exists_app. by left.
Qed.

Lemma secured_confirmed key later earlier :
  Exists (confirmed key) earlier → secured key earlier → secured key (later ++ earlier).
Proof.
  intros Hc Hearlier. induction later as [|x later IH]; simpl; [done|]. split; [|done].
  right. rewrite app_comm_cons, Exists_app. by right.
Qed.

(** The state at any point of a secured history. *)
Lemma secured_at key later x earlier :
  secured key (later ++ x :: earlier) → queued x.2 key ∨ ∃ y, y ∈ x :: earlier ∧ confirmed key y.
Proof.
  induction later as [|y later IH]; simpl; [|by intros [_ ?%IH]].
  intros [[|Hc%Exists_exists] _]; [by left|by right].
Qed.

(** What an invocation does to an intent. *)
Definition keeps_intent (key : AttachmentKey) (h h' : Host) : Prop :=
  ∃ new, past h' = new ++ past h ∧ (queued (host_queue h) key → secured key new ∧
    (queued (host_queue h') key ∨ Exists (confirmed key) new)).

#[export] Instance keeps_intent_preorder key : PreOrder (keeps_intent key).
Proof.
  split.
  - intros h. exists []. split; [done|]. by split; [|left].
  - intros h1 h2 h3 (new1 & Hp1 & Hk1) (new2 & Hp2 & Hk2). exists (new2 ++ new1).
    rewrite Hp2, Hp1, (assoc_L (++)). split; [done|]. intros Hq. rewrite Exists_app.
    destruct (Hk1 Hq) as [Hs1 [Hq1|Hc1]].
    + destruct (Hk2 Hq1) as [Hs2 Hend]. split; [by apply secured_app|tauto].
    + split; [by apply secured_confirmed|]. by right; right.
Qed.

Lemma runs_node_intent {A} (c : Routine Node CniError A) Q key h :
  runs (node_ok provider) c Q (fresh_node (host_node h)) →
  runs host_ok (on_node c) (λ r h', Q r (host_node h') ∧ keeps_intent key h h') h.
Proof.
  intros Hc. eapply runs_conseq; [by apply runs_on_node|].
  intros r h' _ (HQ & Hq & new & Hp & Hall & _). split; [done|]. exists new. split; [done|].
  intros Hqueued. rewrite Hq. split; [|by left]. eapply secured_queued, Forall_impl; [done|]. by intros x ->.
Qed.

Lemma queue_post_intent {A} (c : Routine QueueWorld () A) key h r h' :
  keeps (λ q, queued q key) c → queue_post c h r h' → keeps_intent key h h'.
Proof.
  intros Hc [_ _ Hq Hp]. eexists. split; [exact Hp|]. intros Hqueued.
  destruct (Hc (queue_world h) Hqueued) as (Hnow & (new & Hnew & Hall) & _).
  simpl in Hnew, Hnow. rewrite app_nil_r in Hnew. rewrite Hq, Hnew. split; [|by left].
  by apply secured_queued, Forall_map.
Qed.

(** ** Draining *)

(** The path of an entry is that of its key. *)
Definition entry_path (network : string) (p : PendingDelete) : Prop :=
  key_network (pending_key p) = network ∧ pending_container p = key_container_id (pending_key p) ∧
  pending_file p = document_file (key_ifname (pending_key p)).

Lemma keeps_complete_other network p key :
  entry_path network p → pending_key p ≠ key →
  keeps (λ q, queued q key) (complete (host_queue_env env) network p).
Proof.
  intros (Hn & Hc & Hf) Hne. apply keeps_complete; [intros q q' Hq; by rewrite Hq|].
  intros q Hq. unfold queued. rewrite unlink_other; [done|].
  rewrite Hc, Hf. intros (Hn' & Hc' & Hf'). apply Hne. symmetry. apply document_path. split_and!; congruence.
Qed.

Lemma deferred_key p config :
  entry_path (config_name config) p →
  attachment_key (deferred_environment p) config = Ok (pending_key p).
Proof. intros (Hn & _). unfold attachment_key. simpl. rewrite <-Hn. by destruct (pending_key p). Qed.

(** A deletion that succeeded was confirmed by the agent, and its key is one the agent
    accepts. *)
Definition deleted (key : AttachmentKey) (n : Node) : Prop :=
  now n ∈ past n ∧ validate_key key = Ok () ∧
  ∃ s, node_agent n = Running s ∧ aj_attachments (js_journal s) !! key = None.

Lemma runs_execute_delete fuel environment config key n :
  attachment_key environment config = Ok key → node_ok provider (now n) →
  runs (node_ok provider) (execute_validated (host_node_env env) fuel environment config CmdDelete)
    (λ r n', is_ok r = true → deleted key n') n.
Proof.
  intros Hkey Hn. simpl. apply runs_bind. eapply runs_conseq; [by apply runs_delete|].
  intros [[]|e] n' Hn' Hpost; [|done]. apply runs_ret; [done|]. intros _.
  destruct (del_done _ _ _ _ _ (Hpost _ Hkey) eq_refl) as (? & ? & ? & _). done.
Qed.

Definition keeps_file (network container file : string) (content : QueueFile) (h h' : Host) : Prop :=
  queue_file (host_queue h) network container file = Some content →
  queue_file (host_queue h') network container file = Some content.

(** What draining an entry does to a queued key and to a file. *)
Record drain_post (p : PendingDelete) (network : string) (h : Host) (r : result CniError ()) (h' : Host) :
    Prop := {
  dp_intent key : keeps_intent key h h';
  dp_file container file content :
    ¬ (container = pending_container p ∧ file = pending_file p) ∨ validate_key (pending_key p) ≠ Ok () →
    keeps_file network container file content h h';
  dp_confirmed : r = Ok () → ∃ x, x ∈ past h' ∧ confirmed (pending_key p) x;
  dp_valid : r = Ok () → validate_key (pending_key p) = Ok ();
  dp_grows x : x ∈ past h → x ∈ past h';
}.

Lemma keeps_intent_grows key h h' x : keeps_intent key h h' → x ∈ past h → x ∈ past h'.
Proof. intros (new & -> & _) Hx. apply elem_of_app. by right. Qed.

(** The node ran a deletion; its states are logged with the queue as it was. *)
Lemma node_intent key h h' new :
  past h' = new ++ past h → Forall (λ x, x.2 = host_queue h) new → host_queue h' = host_queue h →
  keeps_intent key h h'.
Proof.
  intros Hp Hall Hq. exists new. split; [done|]. intros Hqueued. rewrite Hq.
  split; [|by left]. eapply secured_queued, Forall_impl; [done|]. by intros x ->.
Qed.

Lemma confirmed_intent key h h1 h' new new2 x :
  past h1 = new ++ past h → Forall (λ x, x.2 = host_queue h) new → x ∈ new → confirmed key x →
  past h' = new2 ++ past h1 → keeps_intent key h h'.
Proof.
  intros Hp Hall Hx Hc Hp2. exists (new2 ++ new). rewrite Hp2, Hp, (assoc_L (++)).
  split; [done|]. intros Hqueued. assert (Hseen : Exists (confirmed key) new) by (apply Exists_exists; by exists x).
  split; [|right; apply Exists_app; by right]. apply secured_confirmed; [done|].
  eapply secured_queued, Forall_impl; [done|]. by intros y ->.
Qed.

Lemma queue_post_grows {A} (c : Routine QueueWorld () A) h r h' x :
  queue_post c h r h' → x ∈ past h → x ∈ past h'.
Proof. intros [_ _ _ ->] Hx. apply elem_of_app. by right. Qed.

Lemma queue_post_file {A} (c : Routine QueueWorld () A) h r h' network container file content :
  keeps (λ q, queue_file q network container file = Some content) c →
  queue_post c h r h' → keeps_file network container file content h h'.
Proof.
  intros Hc [_ _ Hq _] Hfile. rewrite Hq. by destruct (Hc (queue_world h) Hfile) as [Hnow _].
Qed.

Lemma runs_drain_entry fuel config p h :
  host_ok (now h) → entry_path (config_name config) p →
  runs host_ok (drain_entry env fuel config p) (drain_post p (config_name config) h) h.
Proof.
  intros Hok Hpath. apply runs_bind. eapply runs_conseq.
  { apply runs_on_node, (runs_execute_delete _ _ _ (pending_key p)); [by apply deferred_key|done]. }
  intros r1 h1 Hok1 (Hdeleted & Hq1 & new1 & Hp1 & Hall1 & Hlog).
  assert (Hgrows : ∀ x, x ∈ past h → x ∈ past h1).
  { intros x Hx. rewrite Hp1. apply elem_of_app. by right. }
  destruct r1 as [a|e]; simpl.
  2: { split; [|by intros * _; unfold keeps_file; rewrite Hq1|done..]. intros key. by eapply node_intent. }
  destruct (Hdeleted eq_refl) as (Hnow & Hvalid & s & Hs & Hnone).
  assert (Hx : confirmed (pending_key p) (now (host_node h1), host_queue h)) by (by exists s).
  pose proof (Hlog _ Hnow) as Hin. eapply runs_conseq; [by apply runs_on_queue|].
  intros r2 h2 Hok2 Hpost. split.
  - intros key. destruct (decide (pending_key p = key)) as [<-|Hne].
    + by eapply confirmed_intent; [..|apply (qp_past _ _ _ _ Hpost)].
    + etransitivity; [by eapply node_intent|]. eapply queue_post_intent; [|done].
      by apply keeps_complete_other.
  - intros container file content [Hother|Hinvalid]; [|done]. unfold keeps_file. rewrite <-Hq1.
    eapply queue_post_file; [|done]. apply keeps_complete.
    + intros q q' Hq. by rewrite !queue_file_files, Hq.
    + intros q Hfile. rewrite unlink_other; [done|]. tauto.
  - intros _. exists (now (host_node h1), host_queue h). split; [|done].
    eapply queue_post_grows; [done|]. rewrite Hp1. apply elem_of_app. by left.
  - done.
  - intros x Hin'%Hgrows. by eapply queue_post_grows.
Qed.

(** ** The drain *)

(** What draining the rest of a listing does. *)
Record drains_post (pending : list PendingDelete) (network : string) (h : Host)
    (r : result CniError ()) (h' : Host) : Prop := {
  ds_intent key : keeps_intent key h h';
  ds_file container file content :
    (∀ p, p ∈ pending → ¬ (container = pending_container p ∧ file = pending_file p) ∨
      validate_key (pending_key p) ≠ Ok ()) → keeps_file network container file content h h';
  ds_confirmed p : r = Ok () → p ∈ pending → ∃ x, x ∈ past h' ∧ confirmed (pending_key p) x;
  ds_valid p : r = Ok () → p ∈ pending → validate_key (pending_key p) = Ok ();
}.

Lemma runs_drain_entries fuel config pending h :
  host_ok (now h) → (∀ p, p ∈ pending → entry_path (config_name config) p) →
  runs host_ok (for_each (drain_entry env fuel config) pending)
    (drains_post pending (config_name config) h) h.
Proof.
  revert h. induction pending as [|p pending IH]; intros h Hok Hpaths; simpl.
  { apply runs_ret; [done|]. split; [done|by intros * _ ?|by inversion 2..]. }
  apply runs_bind. eapply runs_conseq; [apply runs_drain_entry; [done|]; apply Hpaths; by left|].
  intros r1 h1 Hok1 [Hintent Hfile Hconfirmed Hvalid _].
  assert (Hfile1 : ∀ container file content, (∀ q, q ∈ p :: pending →
    ¬ (container = pending_container q ∧ file = pending_file q) ∨ validate_key (pending_key q) ≠ Ok ()) →
    keeps_file (config_name config) container file content h h1).
  { intros container file content Hall. apply Hfile, Hall. by left. }
  destruct r1 as [[]|e]; simpl; [|by split].
  eapply runs_conseq; [apply IH; [done|]; intros q Hq; apply Hpaths; by right|].
  intros r h2 Hok2 [Hintent2 Hfile2 Hconfirmed2 Hvalid2]. split.
  - intros key. by transitivity h1.
  - intros container file content Hall Hcontent. apply Hfile2; [intros q Hq; apply Hall; by right|].
    by apply Hfile1.
  - intros q Hr [->|Hq]%elem_of_cons; [|by apply Hconfirmed2].
    destruct (Hconfirmed eq_refl) as (x & Hx & ?). exists x. split; [|done].
    by apply (keeps_intent_grows (pending_key p) h1).
  - intros q Hr [->|Hq]%elem_of_cons; [by apply Hvalid|by apply Hvalid2].
Qed.

(** What draining the queue of a network does. *)
Record drain_all_post (network : string) (h : Host) (r : result CniError ()) (h' : Host) : Prop := {
  da_intent key : keeps_intent key h h';
  da_confirmed key : r = Ok () → exists_answers (host_queue_env env) → queue_root (host_queue h) = true →
    key_network key = network → queued (host_queue h) key → ∃ x, x ∈ past h' ∧ confirmed key x;
  da_stuck container file : exists_answers (host_queue_env env) → queue_root (host_queue h) = true →
    undrainable network container file (host_queue h) →
    r ≠ Ok () ∧ undrainable network container file (host_queue h');
}.

Lemma runs_drain fuel config h :
  host_ok (now h) →
  runs host_ok (drain_deferred_deletes env fuel config) (drain_all_post (config_name config) h) h.
Proof.
  intros Hok. apply runs_bind. eapply runs_conseq; [by apply runs_on_queue|].
  intros r1 h1 Hok1 Hpost.
  assert (Hlist : ∀ I, Proper (same_files ==> impl) I → I (host_queue h) → I (host_queue h1)).
  { intros I HI Hq. rewrite (qp_queue _ _ _ _ Hpost).
    by destruct (keeps_queue_list (host_queue_env env) I (deferred_delete_directory config)
      (config_name config) (queue_world h) Hq) as [? _]. }
  assert (Hintent1 : ∀ key, keeps_intent key h h1).
  { intros key. eapply queue_post_intent; [|done]. apply keeps_queue_list. intros q q' Hq. by rewrite Hq. }
  assert (Hstuck1 : ∀ container file, undrainable (config_name config) container file (host_queue h) →
    undrainable (config_name config) container file (host_queue h1)).
  { intros container file. apply Hlist. apply _. }
  destruct r1 as [pending|e]; simpl; [|by split; auto].
  destruct (queue_list_Ok _ _ _ _ _ _ (qp_run _ _ _ _ Hpost)) as [_ [Hsound Hcomplete]].
  eapply runs_conseq; [apply runs_drain_entries; [done|]|].
  { intros p Hp. by destruct (Hsound p Hp) as (_ & ? & ? & ?). }
  intros r h2 Hok2 [Hintent2 Hfile2 Hconfirmed2 Hvalid2]. split.
  - intros key. by transitivity h1.
  - intros key Hr Hanswers Hroot Hnet Hqueued.
    destruct (Hcomplete (key_container_id key) (document_file (key_ifname key)) Hanswers Hroot)
      as (p & Hp & Hpc & Hpf); [rewrite <-Hnet; by eexists|].
    replace key with (pending_key p) by (destruct (Hsound p Hp) as (_ & ? & ? & ?);
      apply document_path; split_and!; congruence). by apply Hconfirmed2.
  - intros container file Hanswers Hroot (content & Hcontent & Hbad).
    destruct (Hcomplete container file Hanswers Hroot) as (p & Hp & Hpc & Hpf); [by eexists|].
    destruct (Hsound p Hp) as (Hentry & Hpath). rewrite Hpc, Hpf in Hentry, Hpath.
    simpl in Hentry. rewrite Hcontent in Hentry. injection Hentry as ->.
    assert (Hinvalid : validate_key (pending_key p) ≠ Ok ()) by (destruct Hpath as (? & ? & ?); by apply Hbad).
    split.
    + intros Hr. by apply Hinvalid, Hvalid2.
    + exists (QueueDocument DEFERRED_DELETE_SCHEMA_VERSION (pending_key p)). split; [|done]. apply Hfile2.
      * intros p' Hp'. destruct (decide (container = pending_container p' ∧ file = pending_file p'))
          as [[-> ->]|]; [right|by left].
        destruct (Hsound p' Hp') as (Hentry & _). simpl in Hentry. rewrite Hcontent in Hentry.
        by injection Hentry as <-.
      * apply (Hlist (λ q, queue_file q (config_name config) container file = _)); [|done].
        intros q q' Hq. by rewrite !queue_file_files, Hq.
Qed.

(** ** Commands *)

Lemma runs_enqueue_current config environment key h :
  host_ok (now h) → attachment_key environment config = Ok key →
  runs host_ok (enqueue_current_delete env config environment)
    (λ r h', (∀ key', keeps_intent key' h h') ∧ (r = Ok () → queued (host_queue h') key)) h.
Proof.
  intros Hok Hkey. unfold enqueue_current_delete. rewrite Hkey.
  eapply runs_conseq; [by apply runs_on_queue|]. intros r h' Hok' Hpost. split.
  - intros key'. eapply queue_post_intent; [apply keeps_enqueue|done].
  - intros ->. rewrite (qp_queue _ _ _ _ Hpost). eapply enqueue_Ok, (qp_run _ _ _ _ Hpost).
Qed.

(** A DEL that is deferred. *)
Lemma runs_defer_delete config environment key error h :
  host_ok (now h) → attachment_key environment config = Ok key →
  runs host_ok (defer_delete env config environment error)
    (λ r h', (∀ key', keeps_intent key' h h') ∧ (is_ok r = true → queued (host_queue h') key)) h.
Proof.
  intros Hok Hkey. apply runs_bind. eapply runs_conseq; [by apply runs_enqueue_current|].
  intros [[]|e] h' Hok' [Hintent Hqueued]; simpl; [|by split].
  destruct (agent_transport_failure error); [apply runs_ret|apply runs_fail]; try done; split; auto.
Qed.

(** What an invocation with a configuration does. *)
Record command_post (environment : InvocationEnvironment) (config : NetworkConfig) (command : Command)
    (h : Host) (r : result CniError (option Success)) (h' : Host) : Prop := {
  cm_intent key : keeps_intent key h h';
  cm_deleted key : command = CmdDelete → attachment_key environment config = Ok key → is_ok r = true →
    confirmed key (now h') ∨ queued (host_queue h') key;
  cm_drained key : command ∈ [CmdAdd; CmdCheck; CmdGarbageCollect] → is_ok r = true →
    exists_answers (host_queue_env env) → queue_root (host_queue h) = true →
    key_network key = config_name config → queued (host_queue h) key →
    ∃ x, x ∈ past h' ∧ confirmed key x;
  cm_stuck container file : command ∈ [CmdAdd; CmdCheck; CmdGarbageCollect] →
    exists_answers (host_queue_env env) → queue_root (host_queue h) = true →
    undrainable (config_name config) container file (host_queue h) →
    is_ok r = false ∧ undrainable (config_name config) container file (host_queue h');
}.

(** An invocation that ended before it touched the queue. *)
Lemma command_post_early environment config command h e :
  command_post environment config command h (Err e) h.
Proof. split; [done|by intros..|by intros]. Qed.

Lemma runs_status_grace config result h :
  host_ok (now h) →
  runs host_ok (status_with_bounded_grace env config result)
    (λ _ h', past h' = past h ∧ host_queue h' = host_queue h) h.
Proof.
  intros Hok. unfold status_with_bounded_grace. destruct result as [success|error].
  - by split; [|split; [exists []|]].
  - unfold runs. destruct (_ && _); by split; [|split; [exists []|]].
Qed.

Lemma runs_command fuel environment config command h :
  host_ok (now h) →
  (command = CmdDelete → ∃ key, attachment_key environment config = Ok key) →
  runs host_ok (run_command env fuel environment config command)
    (λ r h', (∀ key, keeps_intent key h h') ∧ (∀ key, command = CmdDelete →
      attachment_key environment config = Ok key → is_ok r = true →
      confirmed key (now h') ∨ queued (host_queue h') key)) h.
Proof.
  intros Hok Hkey. apply runs_bind, runs_attempt. eapply runs_conseq.
  { apply (runs_on_node _ (λ r n', ∀ key, command = CmdDelete → attachment_key environment config = Ok key →
      is_ok r = true → deleted key n')).
    destruct (decide (command = CmdDelete)) as [->|Hother].
    - destruct (Hkey eq_refl) as [key Hk]. eapply runs_conseq; [by apply (runs_execute_delete _ _ _ key)|].
      intros r n' _ Hdeleted key' _ Hk' Hr. rewrite Hk in Hk'. injection Hk' as <-. auto.
    - eapply runs_conseq; [by apply (runs_execute (host_node_env env) provider)|]. by intros. }
  intros result h1 Hok1 (Hdeleted & Hq & new & Hp & Hall & _).
  assert (Hintent : ∀ key, keeps_intent key h h1) by (intros key; by eapply node_intent).
  destruct (decide (command = CmdStatus)) as [->|Hstatus].
  { rewrite bool_decide_eq_true_2 by done. eapply runs_conseq; [by apply runs_status_grace|].
    intros r h2 _ [Hp2 Hq2]. split; [|done]. intros key. transitivity h1; [done|]. exists [].
    split; [done|]. intros Hqueued. rewrite Hq2. by split; [|left]. }
  rewrite bool_decide_eq_false_2 by done. destruct result as [success|error].
  { apply runs_ret; [done|]. split; [done|]. intros key Hc Hk _. left.
    by destruct (Hdeleted key Hc Hk eq_refl) as (_ & _ & ?). }
  destruct (decide (command = CmdDelete)) as [->|Hother].
  - rewrite bool_decide_eq_true_2 by done. destruct (Hkey eq_refl) as [key Hk].
    eapply runs_conseq; [by apply runs_defer_delete|]. intros r h2 _ [Hintent2 Hqueued].
    split; [intros key'; by transitivity h1|]. intros key' _ Hk' Hr. rewrite Hk in Hk'. injection Hk' as <-. auto.
  - rewrite bool_decide_eq_false_2 by done. by apply runs_fail.
Qed.

Lemma validated_key environment config command :
  validate_environment environment command = Ok () → command = CmdDelete →
  ∃ key, attachment_key environment config = Ok key.
Proof.
  intros Hvalid ->. unfold validate_environment in Hvalid. rewrite !bool_decide_eq_true_2 in Hvalid by set_solver.
  unfold attachment_key. destruct (inv_container_id environment); [|done].
  destruct (inv_ifname environment); [by eexists|]. by rewrite !orb_true_r in Hvalid.
Qed.

Lemma runs_execute_command fuel environment config command h :
  host_ok (now h) → validate_environment environment command = Ok () →
  runs host_ok (execute_command env fuel environment config command)
    (command_post environment config command h) h.
Proof.
  intros Hok Hvalid. pose proof (validated_key _ config _ Hvalid) as Hkey.
  unfold execute_command. apply runs_bind.
  destruct (decide (command ∈ [CmdAdd; CmdDelete; CmdCheck; CmdGarbageCollect])) as [Hdrains|Hno].
  2: { rewrite bool_decide_eq_false_2 by done. apply runs_ret; [done|]. simpl.
       eapply runs_conseq; [by apply runs_command|]. intros r h' _ [Hintent Hdeleted].
       split; [done|done|..]; intros * Hin; exfalso; set_solver. }
  rewrite bool_decide_eq_true_2 by done. apply runs_attempt. eapply runs_conseq; [by apply runs_drain|].
  intros drained h1 Hok1 [Hintent1 Hconfirmed Hstuck]. simpl. destruct drained as [[]|error].
  - eapply runs_conseq; [by apply runs_command|]. intros r h' _ [Hintent Hdeleted]. split.
    + intros key. by transitivity h1.
    + done.
    + intros key _ _ Hanswers Hroot Hnet Hq. destruct (Hconfirmed key) as (x & Hx & ?); [done..|].
      exists x. split; [|done]. by apply (keeps_intent_grows key h1).
    + intros container file _ Hanswers Hroot Hbad. by destruct (Hstuck container file Hanswers Hroot Hbad).
  - destruct (decide (command = CmdDelete)) as [->|Hother].
    + rewrite bool_decide_eq_true_2 by done. destruct (Hkey eq_refl) as [key Hk].
      eapply runs_conseq; [by apply runs_defer_delete|]. intros r h' _ [Hintent Hqueued]. split.
      * intros key'. by transitivity h1.
      * intros key' _ Hk' Hr. rewrite Hk in Hk'. injection Hk' as <-. auto.
      * intros * Hin. exfalso. set_solver.
      * intros * Hin. exfalso. set_solver.
    + rewrite bool_decide_eq_false_2 by done. apply runs_fail; [done|]. split; [done|done|done|].
      intros container file _ Hanswers Hroot Hbad. by destruct (Hstuck container file Hanswers Hroot Hbad).
Qed.

(** A whole invocation whose input is a configuration. *)
Lemma runs_execute_input `{!ConfigJson} fuel environment input config command h :
  host_ok (now h) → config_from_slice input = Some config →
  Command_parse (inv_command environment) = Ok command → command ≠ CmdVersion →
  runs host_ok (execute env fuel environment input) (command_post environment config command h) h.
Proof.
  intros Hok Hconfig Hcommand Hversion. unfold execute.
  destruct (_ <? _); [apply runs_fail; [done|apply command_post_early]|].
  rewrite Hcommand. apply runs_bind, runs_lift; [done|]. simpl. rewrite bool_decide_eq_false_2, Hconfig by done.
  apply runs_bind, runs_lift; [done|]. destruct (validate_config config command); [|apply command_post_early].
  simpl. apply runs_bind, runs_lift; [done|].
  destruct (validate_environment environment command) as [[]|] eqn:Evalid; [|apply command_post_early]. simpl.
  apply runs_bind. eapply runs_conseq; [by apply runs_on_queue|]. intros r h1 Hok1 Hpost.
  assert (Hcall : ∀ key, keeps_intent key h h1).
  { intros key. eapply queue_post_intent; [apply keeps_queue_call|done]. }
  assert (Hq : host_queue h1 = host_queue h).
  { rewrite (qp_queue _ _ _ _ Hpost). unfold queue_call, queue_change. by destruct (queue_fails _ _). }
  destruct r as [[]|e]; simpl.
  2: { split; [done|done|done|]. intros. by rewrite Hq. }
  eapply runs_conseq; [by apply runs_execute_command|]. intros r h' _ [Hintent Hdeleted Hdrained Hstuck].
  rewrite Hq in Hdrained, Hstuck. split; [|done..]. intros key. by transitivity h1.
Qed.

(** ** Invocations *)

Section Invocation.
Context `{!ConfigJson} (fuel : nat) (environment : InvocationEnvironment) (input : bytes).
Context (config : NetworkConfig) (command : Command) (h h' : Host) (r : result CniError (option Success)).
Context (Hreach : node_reachable provider (now (host_node h))) (Hfresh : host_trace h = []).
Context (Hconfig : config_from_slice input = Some config).
Context (Hcommand : Command_parse (inv_command environment) = Ok command).
Context (Hrun : execute env fuel environment input h = (r, h')).

Lemma invocation_post : command ≠ CmdVersion → command_post environment config command h r h'.
Proof.
  intros Hversion. pose proof (node_reachable_ok provider Hprovider _ Hreach) as Hok.
  destruct (runs_execute_input fuel environment input config command h Hok Hconfig Hcommand Hversion)
    as (_ & _ & Hpost). by rewrite Hrun in Hpost.
Qed.

(** C13. Deletions are not lost.  A DEL that reports success has been confirmed by the agent or
    is queued on disk; whatever the command, whatever failed and wherever the plugin was
    killed, a queued deletion is on disk in every state of the invocation until the agent was
    seen without the record; and an ADD, CHECK or GC that succeeds saw the agent confirm
    every deletion that was queued for its network. *)
Theorem deferred_deletes_kept :
  command ≠ CmdVersion →
  (∀ key, command = CmdDelete → attachment_key environment config = Ok key → is_ok r = true →
    confirmed key (now h') ∨ queued (host_queue h') key) ∧
  (∀ key, queued (host_queue h) key →
    (∀ later x earlier, past h' = later ++ x :: earlier →
      queued x.2 key ∨ ∃ y, y ∈ x :: earlier ∧ confirmed key y) ∧
    (queued (host_queue h') key ∨ ∃ y, y ∈ past h' ∧ confirmed key y)) ∧
  (command ∈ [CmdAdd; CmdCheck; CmdGarbageCollect] → is_ok r = true →
    exists_answers (host_queue_env env) → queue_root (host_queue h) = true →
    ∀ key, key_network key = config_name config → queued (host_queue h) key →
      ∃ x, x ∈ past h' ∧ confirmed key x).
Proof.
  intros Hversion. destruct (invocation_post Hversion) as [Hintent Hdeleted Hdrained _].
  split; [by auto|split; [|by eauto]]. intros key Hqueued. destruct (Hintent key) as (new & Hp & Hkept).
  simpl in Hp. rewrite Hfresh, app_nil_r in Hp. destruct (Hkept Hqueued) as [Hsecured Hend].
  simpl. rewrite Hp. split; [|by rewrite Exists_exists in Hend].
  intros later x earlier Hsplit. apply (secured_at key later). by rewrite <-Hsplit.
Qed.

(** C36. A queue that cannot be drained.  Once the queue of a network holds a file that is not
    the document of a deletion the agent accepts, such as the temporary file of a plugin that
    was killed while it queued a deletion, or the deletion of an interface whose name the
    plugin accepts and the agent does not, every ADD, CHECK and GC of the network fails,
    whatever the agent and the kernel do, and the file is still there afterwards. *)
Theorem deferred_queue_wedges container file :
  command ∈ [CmdAdd; CmdCheck; CmdGarbageCollect] →
  exists_answers (host_queue_env env) → queue_root (host_queue h) = true →
  undrainable (config_name config) container file (host_queue h) →
  is_ok r = false ∧ undrainable (config_name config) container file (host_queue h').
Proof.
  intros Hin Hanswers Hroot Hbad. apply invocation_post; [|done..]. clear -Hin. set_solver.
Qed.

End Invocation.

End Host.
