(* ===== verification/CniPluginDemo.v ===== *)
(** * Deferred deletions at work

    An invocation with the agent out of reach queues its deletion, and the deletion of an
    interface name that the plugin accepts and the agent refuses stops the network. *)

From S2P Require Import Prelude Common NetAddr Ipam Bytes Runs Netlink NetlinkDemo CniAttachment VethPlan VethFacts NativeRoutes RouteFacts CniJournal CniJournalFacts CniJournalCrash CniJournalSafety CniJournalList CniJournalDemo CniAgent CniLifecycle CniPluginSafety CniCollect CniNode CniNodeDemo DeferredQueue DeferredFacts CniPlugin CniPluginFacts.

(** The only configuration there is. *)
#[export] Instance demo_config_json : ConfigJson := {|
  config_from_slice _ := Some demo_config;
  version_from_slice _ := Some CURRENT_CNI_VERSION;
|}.

Definition demo_queue_env : QueueEnv :=
  {| queue_fails _ := false; queue_exists_fails _ := false; process_id := "7" |}.

Definition demo_host_env (delivery : Delivery) : HostEnv :=
  {| host_node_env := {| agent_before _ x := x; call_agent _ := demo_env; call_delivery _ := delivery |};
     host_queue_env := demo_queue_env; host_clock := None; lease_written := false |}.

Definition demo_host (q : Queue) : Host :=
  {| host_node := demo_booted; host_queue := q; host_calls := 0; host_lease := None; host_trace := [] |}.

Definition demo_no_queue : Queue := {| queue_root := false; queue_networks := ∅ |}.

Definition demo_deletion (ifname : string) : InvocationEnvironment :=
  {| inv_command := Some "DEL"; inv_container_id := Some "container-1"; inv_netns := None;
     inv_ifname := Some ifname; inv_args := None; inv_path := None |}.

Lemma demo_host_env_ok delivery :
  (∀ dies, delivery ≠ AgentDies dies) → node_env_ok (host_node_env (demo_host_env delivery)) demo_provider.
Proof. intros Hdies. split; [by intros|by intros; apply demo_env_wf|]. intros i dies request s Hd. by destruct (Hdies dies). Qed.

(** DEL with the agent out of reach. *)
Definition demo_offline : result CniError (option Success) * Host :=
  execute (demo_host_env RequestLost) 1 (demo_deletion "eth0") [] (demo_host demo_no_queue).

Lemma deferred_deletes_kept_witness :
  is_ok demo_offline.1 = true ∧ (confirmed demo_key (now demo_offline.2) ∨ queued (host_queue demo_offline.2) demo_key).
Proof.
  assert (Hok : is_ok demo_offline.1 = true) by (vm_compute; reflexivity). split; [exact Hok|].
  refine (proj1 (deferred_deletes_kept (demo_host_env RequestLost) demo_provider demo_provider_wf
    (demo_host_env_ok _ _) 1 (demo_deletion "eth0") [] demo_config CmdDelete (demo_host demo_no_queue)
    demo_offline.2 demo_offline.1 demo_booted_reachable eq_refl eq_refl _ (surjective_pairing _) _) demo_key
    eq_refl _ Hok); [done|vm_compute; reflexivity|done|vm_compute; reflexivity].
Defined.

(** A plugin killed while it queues the deletion leaves its temporary file. *)
Lemma demo_killed_undrainable :
  ∃ x, x ∈ past demo_offline.2 ∧ undrainable "unf" "container-1" "eth0.7.tmp" x.2.
Proof.
  assert (Hseen : existsb (λ x, bool_decide (is_Some (queue_file x.2 "unf" "container-1" "eth0.7.tmp")))
    (past demo_offline.2) = true) by (vm_compute; reflexivity).
  apply existsb_exists in Hseen as (x & Hx%list_elem_of_In & [content Hc]%bool_decide_eq_true).
  exists x. split; [done|]. exists content. split; [done|]. intros key _ _ _ Hfile.
  by destruct (temporary_not_document demo_queue_env demo_key (key_ifname key)).
Qed.

(** DEL of an interface [_x], as of a runtime that cleans up after an ADD that the agent
    refused; the agent refuses it too. *)
Definition demo_refused : result CniError (option Success) * Host :=
  execute (demo_host_env Delivered) 1 (demo_deletion "_x") [] (demo_host demo_no_queue).

Definition demo_wedged : Host := demo_host (host_queue demo_refused.2).

Lemma demo_wedged_undrainable :
  undrainable "unf" "container-1" "_x.json" (host_queue demo_wedged).
Proof.
  exists (QueueDocument 1 {| key_network := "unf"; key_container_id := "container-1"; key_ifname := "_x" |}).
  split; [vm_compute; reflexivity|]. by intros key [= <-] _ _ _ [=].
Qed.

(** An ADD for [eth0] afterwards, with everything in order. *)
Definition demo_after : result CniError (option Success) * Host :=
  execute (demo_host_env Delivered) 1 demo_environment [] demo_wedged.

Lemma deferred_queue_wedges_witness :
  is_ok demo_added.1 = true ∧ is_ok demo_after.1 = false.
Proof.
  split; [vm_compute; reflexivity|].
  refine (proj1 (deferred_queue_wedges (demo_host_env Delivered) demo_provider demo_provider_wf
    (demo_host_env_ok _ _) 1 demo_environment [] demo_config CmdAdd demo_wedged
    demo_after.2 demo_after.1 demo_booted_reachable eq_refl _ (surjective_pairing _)
    "container-1" "_x.json" _ _ _ demo_wedged_undrainable)); [done|vm_compute; reflexivity|by left|done|].
  vm_compute. reflexivity.
Defined.
