(* ===== verification/LoadBalancer.v ===== *)
(** * Addresses of load balancers ([crates/unf-loadbalancer])

    The allocator of the controller: pools of addresses, leases of the addresses to Services,
    and the checkpoint it is restored from; and what it writes to a Service, the finalizer and
    the published addresses.  Errors keep their fields but not the reason of an invalid value.
    A prefix and the address family are those of [crates/unf-service]. *)

From stdpp Require Import pretty.
From S2P Require Import Prelude Common NetAddr.

Definition ALLOCATION_CHECKPOINT_SCHEMA_VERSION : Z := 2.
Definition LEGACY_ALLOCATION_CHECKPOINT_SCHEMA_VERSION : Z := 1.
Definition MAX_LOAD_BALANCER_POOLS : Z := 64.
Definition MAX_LOAD_BALANCER_LEASES : Z := 65536.
Definition MAX_POOL_ALLOCATION_SCAN : Z := 65536.
Definition MAX_STATUS_INGRESS : Z := 256.
Definition UNF_LOAD_BALANCER_FINALIZER : string := "network.unf.io/load-balancer-protection".
Definition UNF_LOAD_BALANCER_CLASS : string := "network.unf.io/load-balancer".

(** ** Data *)

Inductive AddressFamily := Ipv4 | Ipv6.
#[export] Instance AddressFamily_eq_dec : EqDecision AddressFamily.
Proof. solve_decision. Defined.
Definition family_index (family : AddressFamily) : Z := match family with Ipv4 => 0 | Ipv6 => 1 end.
#[export] Instance family_index_inj : Inj (=) (=) family_index.
Proof. by intros [] []. Qed.
#[export] Instance AddressFamily_countable : Countable AddressFamily.
Proof.
  by refine (inj_countable' family_index (λ n, if n =? 0 then Ipv4 else Ipv6) _); intros [].
Defined.
#[export] Instance AddressFamily_ord : Ord AddressFamily := cmp_via family_index.
#[export] Instance AddressFamily_ord_laws : OrdLaws AddressFamily.
Proof. apply cmp_via_laws, _. Qed.

Record LoadBalancerOwner := {
  owner_service_id : Z;
  owner_namespace : string;
  owner_name : string;
  owner_uid : string;
}.
Definition owner_code (o : LoadBalancerOwner) : Z * (string * (string * string)) :=
  (owner_service_id o, (owner_namespace o, (owner_name o, owner_uid o))).
#[export] Instance owner_code_inj : Inj (=) (=) owner_code.
Proof. by intros [] [] [= -> -> -> ->]. Qed.
#[export] Instance LoadBalancerOwner_eq_dec : EqDecision LoadBalancerOwner.
Proof. solve_decision. Defined.
#[export] Instance LoadBalancerOwner_countable : Countable LoadBalancerOwner.
Proof.
  by refine (inj_countable' owner_code (λ c, {| owner_service_id := c.1; owner_namespace := c.2.1;
    owner_name := c.2.2.1; owner_uid := c.2.2.2 |}) _); intros [].
Defined.
#[export] Instance LoadBalancerOwner_ord : Ord LoadBalancerOwner := cmp_via owner_code.
#[export] Instance LoadBalancerOwner_ord_laws : OrdLaws LoadBalancerOwner.
Proof. apply cmp_via_laws, _. Qed.

Inductive ReachabilityMode := DirectNode.
#[export] Instance ReachabilityMode_eq_dec : EqDecision ReachabilityMode.
Proof. solve_decision. Defined.

Record ReachabilityProviderRef := {
  provider_name : string;
  provider_instance : string;
  provider_mode : ReachabilityMode;
}.
#[export] Instance ReachabilityProviderRef_eq_dec : EqDecision ReachabilityProviderRef.
Proof. solve_decision. Defined.

Record ServiceIpPrefix := { sp_address : IpAddr; sp_prefix_length : Z }.
#[export] Instance ServiceIpPrefix_eq_dec : EqDecision ServiceIpPrefix.
Proof. solve_decision. Defined.

Record LoadBalancerPool := {
  pool_name : string;
  pool_uid : string;
  pool_provider : ReachabilityProviderRef;
  pool_ipv4 : option ServiceIpPrefix;
  pool_ipv6 : option ServiceIpPrefix;
}.
#[export] Instance LoadBalancerPool_eq_dec : EqDecision LoadBalancerPool.
Proof. solve_decision. Defined.

Record AllocationRequest := {
  req_owner : LoadBalancerOwner;
  req_pool : string;
  req_families : list AddressFamily;
  req_requested_ips : list IpAddr;
  req_intent_epoch : Z;
  req_intent_revision : Z;
}.

Record LoadBalancerLease := {
  lease_owner : LoadBalancerOwner;
  lease_pool : string;
  lease_pool_uid : string;
  lease_provider : ReachabilityProviderRef;
  lease_families : list AddressFamily;
  lease_requested_ips : list IpAddr;
  lease_addresses : list IpAddr;
  lease_intent_epoch : Z;
  lease_intent_revision : Z;
  lease_allocation_revision : Z;
}.
#[export] Instance LoadBalancerLease_eq_dec : EqDecision LoadBalancerLease.
Proof. solve_decision. Defined.

Record AllocationCheckpoint := {
  cp_schema_version : Z;
  cp_revision : Z;
  cp_pools : list LoadBalancerPool;
  cp_leases : list LoadBalancerLease;
}.
#[export] Instance AllocationCheckpoint_eq_dec : EqDecision AllocationCheckpoint.
Proof. solve_decision. Defined.

Inductive AllocationError :=
| UnsupportedSchema (actual expected : Z)
| ZeroRevision
| TooManyPools (actual limit : Z)
| TooManyLeases (actual limit : Z)
| InvalidPool (pool : string)
| DuplicatePoolName (name : string)
| DuplicatePoolUid (uid : string)
| OverlappingPools (left right : string) (family : AddressFamily)
| UnknownPool (name : string)
| InvalidOwner (namespace name : string)
| ZeroIntentRevision
| InvalidFamilies
| RequestedAddressOutsidePool (address : IpAddr) (pool : string)
| AddressConflict (address : IpAddr) (owner : LoadBalancerOwner)
| Exhausted (pool : string) (family : AddressFamily) (limit : Z)
| ForeignLease (owner : LoadBalancerOwner)
| ImmutableIntentChanged (owner : LoadBalancerOwner)
| IntentRevisionRegression (owner : LoadBalancerOwner)
    (current_epoch current_revision candidate_epoch candidate_revision : Z)
| UnknownOwner (owner : LoadBalancerOwner)
| TooManyStatusIngress (actual limit : Z)
| ForeignStatusAddress (address : IpAddr).

Record StatusIngress := { ingress_ip : option string; ingress_hostname : option string }.
#[export] Instance StatusIngress_eq_dec : EqDecision StatusIngress.
Proof. solve_decision. Defined.

(** ** Text of addresses, as the standard library prints it *)

Definition ipv4_to_string (address : Z) : string :=
  let octet i := pretty (Z.land (Z.shiftr address (8 * i)) 255) in
  String.append (octet 3) (String.append "." (String.append (octet 2) (String.append "."
    (String.append (octet 1) (String.append "." (octet 0)))))).

Definition ipv6_hex_digit (d : Z) : string :=
  match String.get (Z.to_nat d) "0123456789abcdef" with
  | Some c => String.String c EmptyString
  | None => EmptyString
  end.

(** A 16-bit number in hexadecimal without leading zeros. *)
Definition hex16 (n : Z) : string :=
  let digit i := ipv6_hex_digit (Z.land (Z.shiftr n (4 * i)) 15) in
  if n <? 16 then digit 0
  else if n <? 256 then String.append (digit 1) (digit 0)
  else if n <? 4096 then String.append (digit 2) (String.append (digit 1) (digit 0))
  else String.append (digit 3) (String.append (digit 2) (String.append (digit 1) (digit 0))).

Definition ipv6_segments (address : Z) : list Z :=
  map (λ i, Z.land (Z.shiftr address (16 * (7 - i))) 65535) (range 8).

(** The first longest run of zeros: its start and its length. *)
Definition zero_run (segments : list Z) : Z * Z :=
  let step '(longest, current) '(i, segment) :=
    if segment =? 0 then
      let current := (if current.2 =? 0 then i else current.1, current.2 + 1) in
      (if longest.2 <? current.2 then current else longest, current)
    else (longest, (0, 0)) in
  (fold_left step (enumerate segments) ((0, 0), (0, 0))).1.

Definition fmt_subslice (segments : list Z) : string :=
  String.concat ":" (map hex16 segments).

Definition ipv6_to_string (address : Z) : string :=
  let segments := ipv6_segments address in
  if bool_decide (take 6 segments = [0; 0; 0; 0; 0; 65535])
  then String.append "::ffff:" (ipv4_to_string (Z.land address (u_max 32)))
  else
    let '(start, len) := zero_run segments in
    if 1 <? len
    then String.append (fmt_subslice (take (Z.to_nat start) segments))
           (String.append "::" (fmt_subslice (drop (Z.to_nat (start + len)) segments)))
    else fmt_subslice segments.

Definition ip_to_string (address : IpAddr) : string :=
  match address with V4 a => ipv4_to_string a | V6 a => ipv6_to_string a end.

(** ** Prefixes *)

(** Whether two neighbours of a list satisfy a test ([windows(2).any]). *)
Fixpoint any_adjacent {A} (test : A → A → bool) (l : list A) : bool :=
  match l with
  | x :: ((y :: _) as rest) => test x y || any_adjacent test rest
  | _ => false
  end.

Definition address_family (address : IpAddr) : AddressFamily :=
  match address with V4 _ => Ipv4 | V6 _ => Ipv6 end.
Definition prefix_family (prefix : ServiceIpPrefix) : AddressFamily :=
  match sp_address prefix with V4 _ => Ipv4 | V6 _ => Ipv6 end.

Definition is_canonical (prefix : ServiceIpPrefix) : bool :=
  match sp_address prefix with
  | V4 address => (sp_prefix_length prefix <=? 32)
      && (Z.land address (prefix_mask 32 (sp_prefix_length prefix)) =? address)
  | V6 address => (sp_prefix_length prefix <=? 128)
      && (Z.land address (prefix_mask 128 (sp_prefix_length prefix)) =? address)
  end.

Definition pool_candidate (prefix : ServiceIpPrefix) (index : Z) : option IpAddr :=
  match sp_address prefix with
  | V4 network =>
      let host_bits := 32 - sp_prefix_length prefix in
      let size := Z.shiftl 1 host_bits in
      let first := network + (if host_bits =? 0 then 0 else 1) in
      let usable := saturating_sub size (if host_bits =? 0 then 0 else 2) in
      if usable <=? index then None
      else match try_width 32 (first + index) with Some a => Some (V4 a) | None => None end
  | V6 network =>
      let host_bits := 128 - sp_prefix_length prefix in
      let first := network + (if host_bits =? 0 then 0 else 1) in
      let within :=
        if host_bits =? 0 then index =? 0
        else if host_bits =? 128 then true
        else index <? saturating_sub (Z.shiftl 1 host_bits) 1 in
      if within then Some (V6 (first + index)) else None
  end.

Definition prefix_contains (prefix : ServiceIpPrefix) (address : IpAddr) : bool :=
  match sp_address prefix, address with
  | V4 network, V4 address =>
      let mask := prefix_mask 32 (sp_prefix_length prefix) in
      Z.land network mask =? Z.land address mask
  | V6 network, V6 address =>
      let mask := prefix_mask 128 (sp_prefix_length prefix) in
      Z.land network mask =? Z.land address mask
  | _, _ => false
  end.

Definition usable_prefix_address (prefix : ServiceIpPrefix) (address : IpAddr) : bool :=
  if negb (prefix_contains prefix address) then false
  else match sp_address prefix, address with
       | V4 network, V4 address =>
           if sp_prefix_length prefix <? 32 then
             let last := network + Z.shiftl 1 (32 - sp_prefix_length prefix) - 1 in
             (network <? address) && (address <? last)
           else true
       | V6 network, V6 address =>
           if sp_prefix_length prefix <? 128 then network <? address else true
       | _, _ => false
       end.

Definition prefixes_overlap (left right : ServiceIpPrefix) : bool :=
  let prefix_length := Z.min (sp_prefix_length left) (sp_prefix_length right) in
  match sp_address left, sp_address right with
  | V4 a, V4 b =>
      let mask := prefix_mask 32 prefix_length in Z.land a mask =? Z.land b mask
  | V6 a, V6 b =>
      let mask := prefix_mask 128 prefix_length in Z.land a mask =? Z.land b mask
  | _, _ => false
  end.

Definition pool_prefix (pool : LoadBalancerPool) (family : AddressFamily) : option ServiceIpPrefix :=
  match family with Ipv4 => pool_ipv4 pool | Ipv6 => pool_ipv6 pool end.

Definition pool_usable_address (pool : LoadBalancerPool) (address : IpAddr) : bool :=
  is_some_and (pool_prefix pool (address_family address))
    (λ prefix, usable_prefix_address prefix address).

(** ** Validation *)

Definition valid_name (value : string) : bool :=
  negb (bool_decide (value = EmptyString)) && (Z.of_nat (String.length value) <=? 253).
Definition valid_uid (value : string) : bool :=
  negb (bool_decide (value = EmptyString)) && (Z.of_nat (String.length value) <=? 128).

Definition validate_owner (owner : LoadBalancerOwner) : result AllocationError () :=
  if owner_service_id owner =? 0
  then Err (InvalidOwner (owner_namespace owner) (owner_name owner))
  else if negb (valid_name (owner_namespace owner)) || negb (valid_name (owner_name owner))
          || negb (valid_uid (owner_uid owner))
  then Err (InvalidOwner (owner_namespace owner) (owner_name owner))
  else Ok ().

Definition bad_prefix (family : AddressFamily) (prefix : option ServiceIpPrefix) : bool :=
  is_some_and prefix (λ prefix,
    negb (bool_decide (prefix_family prefix = family)) || negb (is_canonical prefix)
    || bool_decide (pool_candidate prefix 0 = None)).

Definition validate_pool (pool : LoadBalancerPool) : result AllocationError () :=
  if negb (valid_name (pool_name pool)) || negb (valid_uid (pool_uid pool))
  then Err (InvalidPool (pool_name pool))
  else if negb (valid_name (provider_name (pool_provider pool)))
          || negb (valid_uid (provider_instance (pool_provider pool)))
  then Err (InvalidPool (pool_name pool))
  else if bool_decide (pool_ipv4 pool = None) && bool_decide (pool_ipv6 pool = None)
  then Err (InvalidPool (pool_name pool))
  else if bad_prefix Ipv4 (pool_ipv4 pool) || bad_prefix Ipv6 (pool_ipv6 pool)
  then Err (InvalidPool (pool_name pool))
  else Ok ().

Definition overlap_in (left right : LoadBalancerPool) (family : AddressFamily) : bool :=
  match pool_prefix left family, pool_prefix right family with
  | Some left_prefix, Some right_prefix => prefixes_overlap left_prefix right_prefix
  | _, _ => false
  end.

Definition check_pair (pool other : LoadBalancerPool) : result AllocationError () :=
  try_fold (λ _ family,
    if overlap_in pool other family
    then Err (OverlappingPools (pool_name pool) (pool_name other) family) else Ok ())
    () [Ipv4; Ipv6].

(** The nested loops over the pools, each pool with the later ones. *)
Fixpoint check_overlaps (values : list LoadBalancerPool) : result AllocationError () :=
  match values with
  | [] => Ok ()
  | pool :: later =>
      let? _ := try_fold (λ _ other, check_pair pool other) () later in
      check_overlaps later
  end.

Definition add_pool (acc : gmap string LoadBalancerPool * gset string) (pool : LoadBalancerPool) :
    result AllocationError (gmap string LoadBalancerPool * gset string) :=
  let '(by_name, uids) := acc in
  let? _ := validate_pool pool in
  if bool_decide (pool_uid pool ∈ uids) then Err (DuplicatePoolUid (pool_uid pool))
  else if bool_decide (is_Some (by_name !! pool_name pool))
  then Err (DuplicatePoolName (pool_name pool))
  else Ok (<[pool_name pool := pool]> by_name, {[pool_uid pool]} ∪ uids).

Definition validate_pools (pools : list LoadBalancerPool) :
    result AllocationError (gmap string LoadBalancerPool) :=
  if MAX_LOAD_BALANCER_POOLS <? Z.of_nat (length pools)
  then Err (TooManyPools (Z.of_nat (length pools)) MAX_LOAD_BALANCER_POOLS)
  else
    let? found := try_fold add_pool (∅, ∅) pools in
    let? _ := check_overlaps (btree_values found.1) in
    Ok found.1.

(** The request with its families and addresses sorted. *)
Definition validate_allocation_request (request : AllocationRequest) :
    result AllocationError AllocationRequest :=
  if (req_intent_epoch request =? 0) || (req_intent_revision request =? 0)
  then Err ZeroIntentRevision
  else if is_nil (req_families request) || (2 <? Z.of_nat (length (req_families request)))
  then Err InvalidFamilies
  else
    let families := sort_by leb (req_families request) in
    if any_adjacent (λ x y, bool_decide (x = y)) families then Err InvalidFamilies
    else
      let requested := sort_by leb (req_requested_ips request) in
      if (Z.of_nat (length families) <? Z.of_nat (length requested))
         || any_adjacent (λ x y, bool_decide (x = y)) requested
      then Err InvalidFamilies
      else
        let requested_families : gset AddressFamily := list_to_set (map address_family requested) in
        if negb (Z.of_nat (size requested_families) =? Z.of_nat (length requested))
           || negb (forallb (λ family, bool_decide (family ∈ families)) (bset_iter requested_families))
        then Err InvalidFamilies
        else Ok {| req_owner := req_owner request; req_pool := req_pool request;
                   req_families := families; req_requested_ips := requested;
                   req_intent_epoch := req_intent_epoch request;
                   req_intent_revision := req_intent_revision request |}.

(** ** The allocator *)

Record LoadBalancerAllocator := {
  lba_pools : gmap string LoadBalancerPool;
  lba_leases : gmap LoadBalancerOwner LoadBalancerLease;
  lba_address_owners : gmap IpAddr LoadBalancerOwner;
  lba_revision : Z;
}.

Definition LoadBalancerAllocator_new (pools : list LoadBalancerPool) :
    result AllocationError LoadBalancerAllocator :=
  let? pools := validate_pools pools in
  Ok {| lba_pools := pools; lba_leases := ∅; lba_address_owners := ∅; lba_revision := 0 |}.

(** The test of [restore_lease]: whether a lease is one of the pool at the revision. *)
Definition lease_matches (pool : LoadBalancerPool) (revision : Z) (lease : LoadBalancerLease) : bool :=
  negb (negb (bool_decide (lease_pool_uid lease = pool_uid pool))
    || negb (bool_decide (lease_provider lease = pool_provider pool))
    || (lease_allocation_revision lease =? 0)
    || (revision <? lease_allocation_revision lease)
    || (lease_intent_epoch lease =? 0)
    || (lease_intent_revision lease =? 0)
    || is_nil (lease_families lease)
    || (2 <? Z.of_nat (length (lease_families lease)))
    || any_adjacent (λ x y, leb y x) (lease_families lease)
    || any_adjacent (λ x y, leb y x) (lease_requested_ips lease)
    || any_adjacent (λ x y, leb y x) (lease_addresses lease)
    || is_nil (lease_addresses lease)
    || negb (Z.of_nat (length (lease_addresses lease)) =? Z.of_nat (length (lease_families lease)))
    || (Z.of_nat (length (lease_families lease)) <? Z.of_nat (length (lease_requested_ips lease)))
    || negb (bool_decide (map address_family (lease_addresses lease) = lease_families lease))
    || negb (forallb (λ address, bool_decide (address ∈ lease_addresses lease))
         (lease_requested_ips lease))
    || existsb (λ address, negb (pool_usable_address pool address)) (lease_addresses lease)).

Definition claim_address (owner : LoadBalancerOwner) (owners : gmap IpAddr LoadBalancerOwner)
    (address : IpAddr) : result AllocationError (gmap IpAddr LoadBalancerOwner) :=
  match owners !! address with
  | Some owner => Err (AddressConflict address owner)
  | None => Ok (<[address := owner]> owners)
  end.

(** An error of [restore] leaves no allocator, so the partial state is not kept. *)
Definition restore_lease (self : LoadBalancerAllocator) (lease : LoadBalancerLease) :
    result AllocationError LoadBalancerAllocator :=
  let? _ := validate_owner (lease_owner lease) in
  if bool_decide (is_Some (lba_leases self !! lease_owner lease))
  then Err (ImmutableIntentChanged (lease_owner lease))
  else match lba_pools self !! lease_pool lease with
       | None => Err (ForeignLease (lease_owner lease))
       | Some pool =>
           if negb (lease_matches pool (lba_revision self) lease)
           then Err (ForeignLease (lease_owner lease))
           else
             let? owners := try_fold (claim_address (lease_owner lease))
               (lba_address_owners self) (lease_addresses lease) in
             Ok {| lba_pools := lba_pools self;
                   lba_leases := <[lease_owner lease := lease]> (lba_leases self);
                   lba_address_owners := owners; lba_revision := lba_revision self |}
       end.

Definition with_epoch (epoch : Z) (lease : LoadBalancerLease) : LoadBalancerLease :=
  {| lease_owner := lease_owner lease; lease_pool := lease_pool lease;
     lease_pool_uid := lease_pool_uid lease; lease_provider := lease_provider lease;
     lease_families := lease_families lease; lease_requested_ips := lease_requested_ips lease;
     lease_addresses := lease_addresses lease; lease_intent_epoch := epoch;
     lease_intent_revision := lease_intent_revision lease;
     lease_allocation_revision := lease_allocation_revision lease |}.

Definition restore (checkpoint : AllocationCheckpoint) : result AllocationError LoadBalancerAllocator :=
  if negb (cp_schema_version checkpoint =? ALLOCATION_CHECKPOINT_SCHEMA_VERSION)
     && negb (cp_schema_version checkpoint =? LEGACY_ALLOCATION_CHECKPOINT_SCHEMA_VERSION)
  then Err (UnsupportedSchema (cp_schema_version checkpoint) ALLOCATION_CHECKPOINT_SCHEMA_VERSION)
  else if MAX_LOAD_BALANCER_LEASES <? Z.of_nat (length (cp_leases checkpoint))
  then Err (TooManyLeases (Z.of_nat (length (cp_leases checkpoint))) MAX_LOAD_BALANCER_LEASES)
  else if negb (is_nil (cp_leases checkpoint)) && (cp_revision checkpoint =? 0)
  then Err ZeroRevision
  else
    let legacy := cp_schema_version checkpoint =? LEGACY_ALLOCATION_CHECKPOINT_SCHEMA_VERSION in
    let? allocator := LoadBalancerAllocator_new (cp_pools checkpoint) in
    try_fold (λ allocator lease,
        restore_lease allocator
          (if legacy && (lease_intent_epoch lease =? 0) then with_epoch 1 lease else lease))
      {| lba_pools := lba_pools allocator; lba_leases := lba_leases allocator;
         lba_address_owners := lba_address_owners allocator;
         lba_revision := cp_revision checkpoint |}
      (cp_leases checkpoint).

Definition checkpoint (self : LoadBalancerAllocator) : AllocationCheckpoint :=
  {| cp_schema_version := ALLOCATION_CHECKPOINT_SCHEMA_VERSION; cp_revision := lba_revision self;
     cp_pools := btree_values (lba_pools self); cp_leases := btree_values (lba_leases self) |}.

(** The loop of [allocate_family] over the next [count] candidates of a prefix. *)
Fixpoint scan_candidates (owners : gmap IpAddr LoadBalancerOwner) (prefix : ServiceIpPrefix)
    (count : nat) (index : Z) : option IpAddr :=
  match count with
  | O => None
  | S count =>
      match pool_candidate prefix index with
      | None => None
      | Some candidate =>
          if bool_decide (is_Some (owners !! candidate))
          then scan_candidates owners prefix count (index + 1)
          else Some candidate
      end
  end.

Definition scan_count : nat := Z.to_nat MAX_POOL_ALLOCATION_SCAN.

Definition allocate_family (self : LoadBalancerAllocator) (pool : LoadBalancerPool)
    (family : AddressFamily) : result AllocationError IpAddr :=
  let? prefix := ok_or (pool_prefix pool family) InvalidFamilies in
  ok_or (scan_candidates (lba_address_owners self) prefix scan_count 0)
    (Exhausted (pool_name pool) family MAX_POOL_ALLOCATION_SCAN).

Definition plan_addresses (self : LoadBalancerAllocator) (pool : LoadBalancerPool)
    (request : AllocationRequest) : result AllocationError (list IpAddr) :=
  let? pairs := try_map (λ address,
    if negb (pool_usable_address pool address)
    then Err (RequestedAddressOutsidePool address (pool_name pool))
    else match lba_address_owners self !! address with
         | Some owner => Err (AddressConflict address owner)
         | None => Ok (address_family address, address)
         end) (req_requested_ips request) in
  let requested : gmap AddressFamily IpAddr :=
    fold_left (λ m e, <[e.1 := e.2]> m) pairs ∅ in
  let? planned := try_map (λ family,
    match requested !! family with
    | Some address => Ok address
    | None => allocate_family self pool family
    end) (req_families request) in
  Ok (sort_by leb planned).

Definition refreshed (request : AllocationRequest) (revision : Z) (existing : LoadBalancerLease) :
    LoadBalancerLease :=
  {| lease_owner := lease_owner existing; lease_pool := lease_pool existing;
     lease_pool_uid := lease_pool_uid existing; lease_provider := lease_provider existing;
     lease_families := lease_families existing;
     lease_requested_ips := lease_requested_ips existing;
     lease_addresses := lease_addresses existing;
     lease_intent_epoch := req_intent_epoch request;
     lease_intent_revision := req_intent_revision request;
     lease_allocation_revision := revision |}.

(** A request of an owner that has a lease. *)
Definition replay (self : LoadBalancerAllocator) (request : AllocationRequest)
    (existing : LoadBalancerLease) : result AllocationError (LoadBalancerLease * LoadBalancerAllocator) :=
  if negb (bool_decide (lease_pool existing = req_pool request))
     || negb (bool_decide (lease_families existing = req_families request))
     || negb (bool_decide (lease_requested_ips existing = req_requested_ips request))
  then Err (ImmutableIntentChanged (req_owner request))
  else if (req_intent_epoch request <? lease_intent_epoch existing)
          || ((req_intent_epoch request =? lease_intent_epoch existing)
              && (req_intent_revision request <? lease_intent_revision existing))
  then Err (IntentRevisionRegression (req_owner request) (lease_intent_epoch existing)
         (lease_intent_revision existing) (req_intent_epoch request) (req_intent_revision request))
  else if (req_intent_epoch request =? lease_intent_epoch existing)
          && (req_intent_revision request =? lease_intent_revision existing)
  then Ok (existing, self)
  else
    let revision := Revision_next (lba_revision self) in
    let lease := refreshed request revision existing in
    Ok (lease, {| lba_pools := lba_pools self;
                  lba_leases := <[req_owner request := lease]> (lba_leases self);
                  lba_address_owners := lba_address_owners self; lba_revision := revision |}).

(** [Err] leaves the allocator as it was. *)
Definition allocate (self : LoadBalancerAllocator) (request : AllocationRequest) :
    result AllocationError (LoadBalancerLease * LoadBalancerAllocator) :=
  let? _ := validate_owner (req_owner request) in
  let? request := validate_allocation_request request in
  let? pool := ok_or (lba_pools self !! req_pool request) (UnknownPool (req_pool request)) in
  match lba_leases self !! req_owner request with
  | Some existing => replay self request existing
  | None =>
      let? addresses := plan_addresses self pool request in
      let revision := Revision_next (lba_revision self) in
      let lease :=
        {| lease_owner := req_owner request; lease_pool := pool_name pool;
           lease_pool_uid := pool_uid pool; lease_provider := pool_provider pool;
           lease_families := req_families request;
           lease_requested_ips := req_requested_ips request; lease_addresses := addresses;
           lease_intent_epoch := req_intent_epoch request;
           lease_intent_revision := req_intent_revision request;
           lease_allocation_revision := revision |} in
      Ok (lease,
          {| lba_pools := lba_pools self;
             lba_leases := <[req_owner request := lease]> (lba_leases self);
             lba_address_owners :=
               fold_left (λ owners address, <[address := req_owner request]> owners)
                 addresses (lba_address_owners self);
             lba_revision := revision |})
  end.

Definition release (self : LoadBalancerAllocator) (owner : LoadBalancerOwner) :
    result AllocationError (LoadBalancerLease * LoadBalancerAllocator) :=
  match lba_leases self !! owner with
  | None => Err (UnknownOwner owner)
  | Some lease =>
      Ok (lease,
          {| lba_pools := lba_pools self; lba_leases := delete owner (lba_leases self);
             lba_address_owners :=
               fold_left (λ owners address, delete address owners) (lease_addresses lease)
                 (lba_address_owners self);
             lba_revision := Revision_next (lba_revision self) |})
  end.

(** ** What is written to a Service *)

(** Of a compiled Service, what the load balancer reads. *)
Record ServiceLoadBalancer := {
  slb_class : string;
  slb_ip_families : list AddressFamily;
  slb_requested_ips : list IpAddr;
}.
Record ServiceIr := {
  svc_id : Z;
  svc_namespace : string;
  svc_name : string;
  svc_load_balancer : option ServiceLoadBalancer;
}.

Definition allocation_request_for_service (service : ServiceIr) (uid pool : string)
    (intent_epoch intent_revision : Z) : result AllocationError (option AllocationRequest) :=
  match svc_load_balancer service with
  | None => Ok None
  | Some load_balancer =>
      if negb (bool_decide (slb_class load_balancer = UNF_LOAD_BALANCER_CLASS)) then Ok None
      else
        let owner := {| owner_service_id := svc_id service;
                        owner_namespace := svc_namespace service;
                        owner_name := svc_name service; owner_uid := uid |} in
        let? _ := validate_owner owner in
        if negb (valid_name pool) then Err (UnknownPool pool)
        else Ok (Some {| req_owner := owner; req_pool := pool;
                         req_families := slb_ip_families load_balancer;
                         req_requested_ips := slb_requested_ips load_balancer;
                         req_intent_epoch := intent_epoch;
                         req_intent_revision := intent_revision |})
  end.

Definition reconcile_finalizers (existing : list string) (retain_unf : bool) : list string :=
  List.filter (λ finalizer, negb (bool_decide (finalizer = UNF_LOAD_BALANCER_FINALIZER))) existing
  ++ (if retain_unf then [UNF_LOAD_BALANCER_FINALIZER] else []).

(** The address of an entry of the status, where it has one that parses. *)
Definition ingress_address (entry : StatusIngress) : option IpAddr :=
  ingress_ip entry ≫= parse_ip_addr.

Definition reconcile_status_ingress (existing : list StatusIngress)
    (previously_owned desired_owned : list IpAddr) : result AllocationError (list StatusIngress) :=
  if MAX_STATUS_INGRESS <? Z.of_nat (length existing)
  then Err (TooManyStatusIngress (Z.of_nat (length existing)) MAX_STATUS_INGRESS)
  else
    let previous : gset IpAddr := list_to_set previously_owned in
    let desired : gset IpAddr := list_to_set desired_owned in
    if negb (Z.of_nat (size desired) =? Z.of_nat (length desired_owned)) then Err InvalidFamilies
    else
      let? _ := try_fold (λ _ entry,
        match ingress_address entry with
        | Some address =>
            if bool_decide (address ∈ desired) && negb (bool_decide (address ∈ previous))
            then Err (ForeignStatusAddress address) else Ok ()
        | None => Ok ()
        end) () existing in
      let reconciled := List.filter (λ entry,
        is_none_or (ingress_address entry) (λ address, negb (bool_decide (address ∈ previous))))
        existing in
      let total := Z.of_nat (length reconciled) + Z.of_nat (size desired) in
      if MAX_STATUS_INGRESS <? total then Err (TooManyStatusIngress total MAX_STATUS_INGRESS)
      else Ok (reconciled ++ map (λ address,
             {| ingress_ip := Some (ip_to_string address); ingress_hostname := None |})
             (bset_iter desired)).
