(* ===== verification/LoadBalancerFacts.v ===== *)
(** * The allocator of load-balancer addresses is exclusive and durable

    The invariant of the allocator, kept by every operation: each lease is one of its pool,
    and the owners of addresses are exactly the leases, so no address is leased twice.  What
    is written to a checkpoint is restored from it; an allocation honours what was requested
    and fails only when the scanned part of the pool is full. *)

From S2P Require Import Prelude Common NetAddr LoadBalancer.

(** ** Sorted lists *)

Section Ascending.
Context {A : Type} `{OrdLaws A}.

Lemma ascending_iff (l : list A) :
  any_adjacent (λ x y, leb y x) l = false ↔ StronglySorted (λ x y, ltb x y = true) l.
Proof.
  split.
  - intros Hl. apply Sorted_StronglySorted; [intros x y z; apply ltb_trans|].
    induction l as [|x [|y l] IH]; [constructor|by repeat constructor|].
    simpl in Hl. apply orb_false_iff in Hl as [Hxy Hl]. constructor; [by apply IH|]. constructor.
    rewrite leb_ltb in Hxy. by destruct (ltb x y).
  - induction 1 as [|x l Hl IH Hx]; [done|]. destruct l as [|y l]; [done|]. simpl in *.
    rewrite IH, leb_ltb. apply Forall_cons in Hx as [-> _]. done.
Qed.

Lemma sorted_distinct_ascending (l : list A) `{EqDecision A} :
  StronglySorted (λ x y, leb x y = true) l → any_adjacent (λ x y, bool_decide (x = y)) l = false →
  StronglySorted (λ x y, ltb x y = true) l.
Proof.
  intros Hsorted Hdistinct. apply ascending_iff. induction Hsorted as [|x l Hl IH Hx]; [done|].
  destruct l as [|y l]; [done|]. simpl in *. apply orb_false_iff in Hdistinct as [Hxy Hdistinct].
  apply bool_decide_eq_false in Hxy. rewrite IH by done. apply Forall_cons in Hx as [Hle _].
  rewrite leb_ltb, (leb_neq_ltb x y) by done. done.
Qed.

Lemma ascending_NoDup (l : list A) : StronglySorted (λ x y, ltb x y = true) l → NoDup l.
Proof.
  induction 1 as [|x l Hl IH Hx]; constructor; [|done]. intros Hin.
  rewrite Forall_forall in Hx. specialize (Hx x Hin). by rewrite ltb_irrefl in Hx.
Qed.

Lemma ascending_sort (l : list A) : StronglySorted (λ x y, ltb x y = true) l → sort_by leb l = l.
Proof.
  intros Hl. eapply StronglySorted_unique_strong; [|apply sort_by_sorted| |apply sort_by_perm].
  - intros x y _ _ Hxy Hyx. by apply leb_antisym.
  - apply leb_total.
  - apply leb_trans.
  - induction Hl as [|x l Hl IH Hx]; constructor; [done|]. eapply Forall_impl; [exact Hx|].
    intros y. apply ltb_leb.
Qed.

Lemma sort_ascending (l : list A) `{EqDecision A} :
  any_adjacent (λ x y, bool_decide (x = y)) (sort_by leb l) = false →
  StronglySorted (λ x y, ltb x y = true) (sort_by leb l).
Proof. apply sorted_distinct_ascending, sort_by_sorted; [apply leb_total|apply leb_trans]. Qed.

End Ascending.

(** ** Prefixes as intervals *)

Definition ip_value (a : IpAddr) : Z := match a with V4 x => x | V6 x => x end.
Definition ip_width (family : AddressFamily) : Z := match family with Ipv4 => 32 | Ipv6 => 128 end.

(** A prefix that a valid pool has for the family. *)
Record prefix_ok (family : AddressFamily) (p : ServiceIpPrefix) : Prop := {
  po_family : address_family (sp_address p) = family;
  po_length : 0 ≤ sp_prefix_length p ≤ ip_width family;
  po_address : in_width (ip_width family) (ip_value (sp_address p));
  po_aligned : ip_value (sp_address p) mod 2 ^ (ip_width family - sp_prefix_length p) = 0;
}.

Definition prefix_size (family : AddressFamily) (p : ServiceIpPrefix) : Z :=
  2 ^ (ip_width family - sp_prefix_length p).

Lemma prefix_contains_iff family p a :
  prefix_ok family p → ip_wf a →
  prefix_contains p a = true ↔ address_family a = family ∧
    ip_value (sp_address p) ≤ ip_value a < ip_value (sp_address p) + prefix_size family p.
Proof.
  intros [Hf Hl Hw Ha] Hwf. unfold prefix_contains, prefix_size.
  assert (Hself : Z.land (ip_value (sp_address p)) (prefix_mask (ip_width family) (sp_prefix_length p)) =
    ip_value (sp_address p)).
  { apply land_prefix_eq_iff; [done..|]. split; [done|]. pose proof (Z.pow_pos_nonneg 2 (ip_width family - sp_prefix_length p)). lia. }
  destruct (sp_address p) as [n|n], a as [x|x]; simpl in *; subst; simpl in *; try naive_solver;
    rewrite Hself, Z.eqb_sym, Z.eqb_eq, land_prefix_eq_iff by done; naive_solver.
Qed.

(** The values of a pool fit their machine types. *)
Definition pool_typed (pool : LoadBalancerPool) : Prop :=
  ∀ family p, pool_prefix pool family = Some p → ip_wf (sp_address p) ∧ 0 ≤ sp_prefix_length p.

Lemma validate_pool_prefix pool family p :
  validate_pool pool = Ok () → pool_typed pool → pool_prefix pool family = Some p → prefix_ok family p.
Proof.
  intros Hvalid Htyped Hp. destruct (Htyped _ _ Hp) as [Hwf Hlen].
  assert (Hgood : bad_prefix family (Some p) = false).
  { unfold validate_pool in Hvalid. repeat (case_match; [done|]).
    destruct family; simpl in Hp; rewrite Hp in *; by destruct (bad_prefix Ipv4 _), (bad_prefix Ipv6 _). }
  unfold bad_prefix in Hgood. simpl in Hgood. apply orb_false_iff in Hgood as [[Hf Hc]%orb_false_iff _].
  apply negb_false_iff, bool_decide_eq_true in Hf. apply negb_false_iff in Hc.
  unfold is_canonical, prefix_family in *.
  destruct (sp_address p) as [n|n] eqn:En; simpl in *; subst family;
    apply andb_true_iff in Hc as [Hle%Z.leb_le Hland%Z.eqb_eq];
    (apply land_prefix_eq_iff in Hland; [|lia|done]); (split; rewrite ?En; simpl; [done|lia|done|tauto]).
Qed.

Lemma pool_candidate_usable family p i c :
  prefix_ok family p → 0 ≤ i < MAX_POOL_ALLOCATION_SCAN → pool_candidate p i = Some c →
  usable_prefix_address p c = true ∧ address_family c = family ∧ ip_wf c.
Proof.
  intros Hok Hi Hc. assert (Hpow : 0 < prefix_size family p) by (apply Z.pow_pos_nonneg; [lia|]; destruct Hok; lia).
  unfold MAX_POOL_ALLOCATION_SCAN in Hi. pose proof Hok as [Hf Hl Hw Ha].
  unfold pool_candidate, saturating_sub in Hc. rewrite !Z.shiftl_1_l in Hc.
  unfold usable_prefix_address. rewrite !Z.shiftl_1_l. unfold prefix_size in Hpow.
  assert (Hcontains : ∀ a, ip_wf a → address_family a = family →
    ip_value (sp_address p) ≤ ip_value a < ip_value (sp_address p) + 2 ^ (ip_width family - sp_prefix_length p) →
    prefix_contains p a = true).
  { intros a Hwf Hfa Hin. by apply (prefix_contains_iff family). }
  destruct (sp_address p) as [n|n]; simpl in Hf, Hw, Ha, Hcontains; subst family; simpl in *.
  - destruct (Z.leb_spec (Z.max 0 (2 ^ (32 - sp_prefix_length p) - (if 32 - sp_prefix_length p =? 0 then 0 else 2))) i);
      [done|]. destruct (try_width _ _) as [x|] eqn:Ex; [|done]. apply try_width_Some in Ex as [-> Hx].
    injection Hc as <-. simpl. destruct (Z.eqb_spec (32 - sp_prefix_length p) 0) as [E|E].
    + rewrite E in *. rewrite Hcontains by (simpl; (done || lia)). simpl.
      destruct (Z.ltb_spec (sp_prefix_length p) 32); [lia|done].
    + rewrite Hcontains by (simpl; (done || lia)). simpl.
      destruct (Z.ltb_spec (sp_prefix_length p) 32); [|done]. split; [|done]. lia.
  - destruct (Z.eqb_spec (128 - sp_prefix_length p) 0) as [E|E].
    + destruct (Z.eqb_spec i 0) as [->|]; [|done]. injection Hc as <-. simpl.
      rewrite !Z.add_0_r. rewrite E in *. rewrite Hcontains by (simpl; (done || lia)). simpl.
      destruct (Z.ltb_spec (sp_prefix_length p) 128); [lia|done].
    + assert (Hbound : i < 2 ^ (128 - sp_prefix_length p) - 1).
      { destruct (Z.eqb_spec (128 - sp_prefix_length p) 128) as [->|]; [lia|].
        destruct (Z.ltb_spec i (Z.max 0 (2 ^ (128 - sp_prefix_length p) - 1))); [lia|done]. }
      destruct (if 128 - sp_prefix_length p =? 128 then true else _); [|done]. injection Hc as <-. simpl.
      assert (Hin : in_width 128 (n + 1 + i)).
      { pose proof (aligned_top 128 (sp_prefix_length p) n Hl Hw Ha). destruct Hw. split; lia. }
      rewrite Hcontains by (simpl; (done || lia)). simpl.
      destruct (Z.ltb_spec (sp_prefix_length p) 128); [|done]. split; [|done]. lia.
Qed.

(** ** Pools *)

Lemma prefix_mask_shorter w p m :
  0 ≤ m ≤ p → p ≤ w → Z.land (prefix_mask w p) (prefix_mask w m) = prefix_mask w m.
Proof.
  intros Hm Hp. apply Z.bits_inj'. intros i Hi. rewrite Z.land_spec, !prefix_mask_bits by lia. lia.
Qed.

Lemma overlap_sym p q : prefixes_overlap p q = prefixes_overlap q p.
Proof.
  unfold prefixes_overlap. rewrite Z.min_comm. destruct (sp_address p), (sp_address q); try done; apply Z.eqb_sym.
Qed.

(** An address in two prefixes makes them overlap. *)
Lemma contained_overlap family p q a :
  prefix_ok family p → prefix_ok family q →
  prefix_contains p a = true → prefix_contains q a = true → prefixes_overlap p q = true.
Proof.
  intros [Hfp Hlp _ _] [Hfq Hlq _ _]. unfold prefix_contains, prefixes_overlap.
  destruct (sp_address p) as [x|x], (sp_address q) as [y|y], a as [z|z]; simpl in *; subst; try done;
    simpl in *; rewrite !Z.eqb_eq; intros Hp Hq;
    set (m := Z.min (sp_prefix_length p) (sp_prefix_length q));
    match goal with |- Z.land _ (prefix_mask ?w _) = _ =>
      rewrite <-(prefix_mask_shorter w (sp_prefix_length p) m) at 1 by lia;
      rewrite <-(prefix_mask_shorter w (sp_prefix_length q) m) by lia
    end; by rewrite !Z.land_assoc, Hp, Hq, <-!Z.land_assoc, !prefix_mask_shorter by lia.
Qed.

Lemma overlap_in_sym p q family : overlap_in p q family = overlap_in q p family.
Proof. unfold overlap_in. destruct (pool_prefix p family), (pool_prefix q family); try done. apply overlap_sym. Qed.

Record pools_ok (pools : gmap string LoadBalancerPool) : Prop := {
  pk_pool name pool : pools !! name = Some pool →
    pool_name pool = name ∧ validate_pool pool = Ok () ∧ pool_typed pool;
  pk_uids n1 n2 p1 p2 : pools !! n1 = Some p1 → pools !! n2 = Some p2 → pool_uid p1 = pool_uid p2 → n1 = n2;
  pk_disjoint n1 n2 p1 p2 family : n1 ≠ n2 → pools !! n1 = Some p1 → pools !! n2 = Some p2 →
    overlap_in p1 p2 family = false;
  pk_size : Z.of_nat (size pools) ≤ MAX_LOAD_BALANCER_POOLS;
}.

(** An address is usable in one pool only. *)
Lemma pools_exclusive pools n1 n2 p1 p2 a :
  pools_ok pools → pools !! n1 = Some p1 → pools !! n2 = Some p2 →
  pool_usable_address p1 a = true → pool_usable_address p2 a = true → n1 = n2.
Proof.
  intros Hok H1 H2 Ha1 Ha2. destruct (decide (n1 = n2)) as [|Hne]; [done|].
  pose proof (pk_disjoint _ Hok n1 n2 p1 p2 (address_family a) Hne H1 H2) as Hno.
  destruct (pk_pool _ Hok _ _ H1) as (_ & Hv1 & Ht1), (pk_pool _ Hok _ _ H2) as (_ & Hv2 & Ht2).
  unfold pool_usable_address, overlap_in in *.
  destruct (pool_prefix p1 _) as [q1|] eqn:E1, (pool_prefix p2 _) as [q2|] eqn:E2; try done. simpl in *.
  unfold usable_prefix_address in *. destruct (prefix_contains q1 a) eqn:C1, (prefix_contains q2 a) eqn:C2; try done.
  rewrite (contained_overlap (address_family a) q1 q2 a) in Hno;
    [done|by apply (validate_pool_prefix p1)|by apply (validate_pool_prefix p2)|done|done].
Qed.

Lemma check_pair_Ok pool other :
  check_pair pool other = Ok () ↔ ∀ family, overlap_in pool other family = false.
Proof.
  unfold check_pair. simpl. split.
  - destruct (overlap_in pool other Ipv4) eqn:E4, (overlap_in pool other Ipv6) eqn:E6; try done. by intros _ [].
  - intros Hno. by rewrite !Hno.
Qed.

Lemma check_overlaps_Ok values :
  check_overlaps values = Ok () ↔ ForallOrdPairs (λ p q, ∀ family, overlap_in p q family = false) values.
Proof.
  induction values as [|pool later IH]; simpl; [split; [constructor|done]|].
  assert (Houter : try_fold (λ _ other, check_pair pool other) () later = Ok ()
    ↔ Forall (λ other, ∀ family, overlap_in pool other family = false) later).
  { clear IH. induction later as [|other later IH]; [done|]. rewrite Forall_cons, <-IH, <-check_pair_Ok. simpl.
    destruct (check_pair pool other) as [[]|]; naive_solver. }
  destruct (try_fold _ () later) as [[]|]; split.
  - intros Hl%IH. constructor; [by apply Houter|done].
  - inversion 1; subst. by apply IH.
  - done.
  - inversion 1 as [|? ? Hp]; subst. by apply Houter in Hp.
Qed.

Lemma fold_insert_lookup {K V} `{Countable K} (key : V → K) l (acc : gmap K V) k v :
  fold_left (λ acc v, <[key v := v]> acc) l acc !! k = Some v → (v ∈ l ∧ key v = k) ∨ acc !! k = Some v.
Proof.
  revert acc. induction l as [|w l IH]; intros acc; simpl; [by right|]. intros [[? ?]|Hacc]%IH; [left; set_solver|].
  apply lookup_insert_Some in Hacc as [[? ->]|[_ ?]]; [left; set_solver|by right].
Qed.

(** The values of an ordered map whose keys are a function of them. *)
Section Keyed.
Context {K V : Type} `{Ord K} `{Countable K} (key : V → K) (m : gmap K V).
Context (Hkey : ∀ k v, m !! k = Some v → key v = k).

Lemma btree_values_keys : map key (btree_values m) = (btree_iter m).*1.
Proof.
  unfold btree_values. rewrite map_map. apply map_ext_in. intros [k v] Hin. simpl.
  apply Hkey, elem_of_btree_iter. by apply list_elem_of_In.
Qed.

Lemma keyed_values_NoDup : NoDup (map key (btree_values m)).
Proof. rewrite btree_values_keys. apply btree_iter_NoDup_keys. Qed.

(** Inserting the values one by one gives the map. *)
Lemma fold_insert_values : fold_left (λ acc v, <[key v := v]> acc) (btree_values m) ∅ = m.
Proof.
  assert (Hgen : ∀ l (acc : gmap K V), NoDup (map key l) →
    fold_left (λ acc v, <[key v := v]> acc) l acc = list_to_map (map (λ v, (key v, v)) l) ∪ acc).
  { induction l as [|v l IH]; intros acc Hnd; simpl; [by rewrite left_id_L by apply _|].
    apply NoDup_cons in Hnd as [Hv Hnd]. rewrite IH by done.
    rewrite <-insert_union_l, insert_union_r; [done|]. apply not_elem_of_list_to_map_1.
    rewrite <-list_fmap_compose. done. }
  rewrite Hgen, right_id_L by (apply keyed_values_NoDup || apply _). rewrite <-(btree_iter_to_map m) at 2. f_equal.
  unfold btree_values. rewrite map_map. rewrite <-(map_id (btree_iter m)) at 2. apply map_ext_in.
  intros [k v] Hin. simpl. f_equal. apply Hkey, elem_of_btree_iter. by apply list_elem_of_In.
Qed.

Lemma ordered_pairs (R : V → V → Prop) :
  (∀ k1 k2 v1 v2, k1 ≠ k2 → m !! k1 = Some v1 → m !! k2 = Some v2 → R v1 v2) →
  ForallOrdPairs R (btree_values m).
Proof.
  intros HR. assert (Hsub : ∀ v, v ∈ btree_values m → m !! key v = Some v).
  { intros v [k Hk]%elem_of_btree_values. by rewrite (Hkey k v). }
  pose proof keyed_values_NoDup as Hnd. revert Hnd Hsub. generalize (btree_values m). intros l Hnd Hsub.
  induction l as [|v l IH]; [constructor|]. apply NoDup_cons in Hnd as [Hv Hnd]. constructor.
  - apply Forall_forall. intros w Hw. apply (HR (key v) (key w)); [|apply Hsub; by left|apply Hsub; by right].
    intros Heq. apply Hv. rewrite Heq. by apply (list_elem_of_fmap_2 key).
  - apply IH; [done|]. intros w Hw. apply Hsub. by right.
Qed.

End Keyed.

(** What the loop over the pools has collected. *)
Record pools_so_far (acc : gmap string LoadBalancerPool * gset string) : Prop := {
  pf_pool name pool : acc.1 !! name = Some pool →
    pool_name pool = name ∧ validate_pool pool = Ok () ∧ pool_typed pool ∧ pool_uid pool ∈ acc.2;
  pf_uids n1 n2 p1 p2 : acc.1 !! n1 = Some p1 → acc.1 !! n2 = Some p2 → pool_uid p1 = pool_uid p2 → n1 = n2;
}.

Lemma add_pool_Ok acc pool acc' :
  add_pool acc pool = Ok acc' ↔
  validate_pool pool = Ok () ∧ pool_uid pool ∉ acc.2 ∧ acc.1 !! pool_name pool = None ∧
  acc' = (<[pool_name pool := pool]> acc.1, {[pool_uid pool]} ∪ acc.2).
Proof.
  destruct acc as [by_name uids]. simpl. destruct (validate_pool pool) as [[]|]; simpl; [|naive_solver].
  case_bool_decide; [naive_solver|]. destruct (by_name !! pool_name pool) eqn:E.
  - rewrite bool_decide_eq_true_2 by done. naive_solver.
  - rewrite bool_decide_eq_false_2 by (by intros [? ?]). naive_solver.
Qed.

Lemma validate_pools_ok pools by_name :
  Forall pool_typed pools → validate_pools pools = Ok by_name → pools_ok by_name.
Proof.
  intros Htyped. unfold validate_pools. destruct (Z.ltb_spec MAX_LOAD_BALANCER_POOLS (Z.of_nat (length pools))); [done|].
  destruct (try_fold add_pool (∅, ∅) pools) as [acc|] eqn:Efold; [|done]. simpl.
  destruct (check_overlaps _) as [[]|] eqn:Eover; [|done]. intros [= <-].
  assert (Hacc : pools_so_far acc).
  { eapply (try_fold_inv pools_so_far); [|..|exact Efold]; [split; [by intros ? ?|by intros ? ?]|].
    intros b pool b' Hin [Hpool Huids] (Hvalid & Huid & Hname & ->)%add_pool_Ok. split; simpl.
    - intros name p. rewrite lookup_insert_Some. intros [[<- <-]|[_ Hp]].
      + split_and!; [done..| |set_solver]. by apply (proj1 (Forall_forall _ _) Htyped).
      + destruct (Hpool _ _ Hp) as (? & ? & ? & ?). split_and!; [done..|set_solver].
    - intros n1 n2 p1 p2. rewrite !lookup_insert_Some.
      intros [[<- <-]|[_ H1]] [[<- <-]|[_ H2]] Heq; [done|..|by eapply Huids].
      + destruct (Hpool _ _ H2) as (_ & _ & _ & Hu). by rewrite <-Heq in Hu.
      + destruct (Hpool _ _ H1) as (_ & _ & _ & Hu). by rewrite Heq in Hu. }
  assert (Hsize : size acc.1 = length pools).
  { clear Eover Hacc Htyped. cut (∀ l b b', try_fold add_pool b l = Ok b' → size b'.1 = (size b.1 + length l)%nat).
    { intros Hgen. rewrite (Hgen _ _ _ Efold). simpl. by rewrite map_size_empty. }
    induction l as [|pool l IH]; simpl; intros b b'; [intros [= <-]; lia|].
    destruct (add_pool b pool) as [b1|] eqn:E1; [|done]. apply add_pool_Ok in E1 as (_ & _ & Hname & ->).
    intros Hl%IH. rewrite Hl. simpl. rewrite map_size_insert_None by done. lia. }
  destruct Hacc as [Hpool Huids]. split.
  - intros name pool Hp. by destruct (Hpool _ _ Hp) as (? & ? & ? & _).
  - done.
  - intros n1 n2 p1 p2 family Hne H1 H2. apply check_overlaps_Ok in Eover.
    destruct (ForallOrdPairs_In Eover p1 p2) as [->|[Hno|Hno]];
      [apply list_elem_of_In, elem_of_btree_values; by eexists..| | |].
    + destruct (Hpool _ _ H1) as [<- _], (Hpool _ _ H2) as [<- _]. done.
    + done.
    + by rewrite overlap_in_sym.
  - rewrite Hsize. lia.
Qed.

Lemma validate_pools_values pools : pools_ok pools → validate_pools (btree_values pools) = Ok pools.
Proof.
  intros Hok. assert (Hkey : ∀ name pool, pools !! name = Some pool → pool_name pool = name)
    by (intros ? ? Hp; by destruct (pk_pool _ Hok _ _ Hp)).
  unfold validate_pools.
  assert (Hlen : length (btree_values pools) = size pools).
  { unfold btree_values. rewrite length_fmap, btree_iter_perm. apply length_map_to_list. }
  rewrite Hlen. destruct (Z.ltb_spec MAX_LOAD_BALANCER_POOLS (Z.of_nat (size pools))) as [Hbad|_].
  { pose proof (pk_size _ Hok). lia. }
  set (g := λ pre : list LoadBalancerPool,
    (fold_left (λ acc v, <[pool_name v := v]> acc) pre (∅ : gmap string LoadBalancerPool),
     list_to_set (map pool_uid pre) : gset string)).
  assert (Hfold : try_fold add_pool (g []) (btree_values pools) = Ok (g (btree_values pools))).
  { apply try_fold_prefixes. intros pre pool post Hl. apply add_pool_Ok.
    assert (Hall : ∀ p, p ∈ pre ++ pool :: post → ∃ name, pools !! name = Some p)
      by (intros p; rewrite <-Hl; apply elem_of_btree_values).
    pose proof (keyed_values_NoDup pool_name pools Hkey) as Hnames. rewrite Hl, map_app in Hnames. simpl in Hnames.
    apply NoDup_app in Hnames as (_ & Hsep & _).
    destruct (Hall pool) as [name Hpool]; [set_solver|]. split_and!.
    - by destruct (pk_pool _ Hok _ _ Hpool) as (_ & ? & _).
    - unfold g. simpl. rewrite elem_of_list_to_set, list_elem_of_fmap. intros (p & Huid & Hp).
      destruct (Hall p) as [name' Hp']; [set_solver|]. apply (Hsep (pool_name pool)); [|by left].
      rewrite (Hkey _ _ Hpool), (pk_uids _ Hok name name' pool p), <-(Hkey _ _ Hp') by done.
      by apply (list_elem_of_fmap_2 pool_name).
    - unfold g. simpl. apply eq_None_not_Some. intros [p Hp].
      apply fold_insert_lookup in Hp as [[Hin Hname]|?%lookup_empty_Some]; [|done]. apply (Hsep (pool_name pool)); [|by left]. rewrite <-Hname.
      by apply (list_elem_of_fmap_2 pool_name).
    - unfold g. rewrite fold_left_app, map_app, list_to_set_app_L. simpl. f_equal. set_solver. }
  unfold g in Hfold at 1. simpl in Hfold. rewrite Hfold. simpl.
  rewrite (fold_insert_values pool_name pools Hkey).
  assert (Hover : check_overlaps (btree_values pools) = Ok ()).
  { apply check_overlaps_Ok, (ordered_pairs pool_name pools Hkey). intros n1 n2 p1 p2 Hne H1 H2 family.
    by apply (pk_disjoint _ Hok n1 n2). }
  by rewrite Hover.
Qed.

(** ** Leases *)

Record lease_fits (pool : LoadBalancerPool) (revision : Z) (lease : LoadBalancerLease) : Prop := {
  lf_uid : lease_pool_uid lease = pool_uid pool;
  lf_provider : lease_provider lease = pool_provider pool;
  lf_revision : lease_allocation_revision lease ≠ 0 ∧ lease_allocation_revision lease ≤ revision;
  lf_intent : lease_intent_epoch lease ≠ 0 ∧ lease_intent_revision lease ≠ 0;
  lf_families : lease_families lease ≠ [] ∧ (length (lease_families lease) ≤ 2)%nat ∧
    StronglySorted (λ x y, ltb x y = true) (lease_families lease);
  lf_requested : StronglySorted (λ x y, ltb x y = true) (lease_requested_ips lease) ∧
    (length (lease_requested_ips lease) ≤ length (lease_families lease))%nat ∧
    ∀ a, a ∈ lease_requested_ips lease → a ∈ lease_addresses lease;
  lf_addresses : StronglySorted (λ x y, ltb x y = true) (lease_addresses lease) ∧
    map address_family (lease_addresses lease) = lease_families lease;
  lf_usable a : a ∈ lease_addresses lease → pool_usable_address pool a = true;
}.

Lemma is_nil_false {A} (l : list A) : is_nil l = false ↔ l ≠ [].
Proof. by destruct l. Qed.

Lemma existsb_false {A} (f : A → bool) l : existsb f l = false ↔ ∀ x, x ∈ l → f x = false.
Proof.
  induction l as [|x l IH]; simpl; [by split; [intros _ ? ?%not_elem_of_nil|]|].
  rewrite orb_false_iff, IH. setoid_rewrite elem_of_cons. naive_solver.
Qed.

Lemma lease_matches_iff pool revision lease :
  lease_matches pool revision lease = true ↔ lease_fits pool revision lease.
Proof.
  unfold lease_matches. rewrite negb_true_iff, !orb_false_iff, !negb_false_iff, !bool_decide_eq_true,
    !ascending_iff, !is_nil_false, existsb_false, forallb_forall, !Z.eqb_neq, Z.eqb_eq, !Z.ltb_ge.
  split.
  - intros Hall. destruct_and! Hall.
    match goal with Hq : ∀ x, In x (lease_requested_ips lease) → _ |- _ => rename Hq into Hrequested end. split; try done; try (split; done || lia).
    + split_and!; [done|lia|done].
    + split_and!; [done|lia|]. intros a Ha. eapply bool_decide_eq_true, Hrequested. by apply list_elem_of_In.
    + intros a Ha. apply negb_false_iff. auto.
  - intros [Huid Hprov [Hr1 Hr2] [Hi1 Hi2] (Hf1 & Hf2 & Hf3) (Hq1 & Hq2 & Hq3) [Ha1 Ha2] Hu].
    assert (Hlen : length (lease_addresses lease) = length (lease_families lease))
      by (rewrite <-Ha2; by rewrite length_map).
    split_and!; try done; try lia.
    + intros Hnil. rewrite Hnil in Hlen. by destruct (lease_families lease).
    + intros a Ha%list_elem_of_In. apply bool_decide_eq_true. auto.
    + intros a Ha. apply negb_false_iff. auto.
Qed.

(** ** The owners of addresses *)

Definition claimed (owner : LoadBalancerOwner) (addresses : list IpAddr)
    (owners : gmap IpAddr LoadBalancerOwner) : gmap IpAddr LoadBalancerOwner :=
  fold_left (λ owners address, <[address := owner]> owners) addresses owners.

Lemma claimed_lookup owner addresses owners x :
  claimed owner addresses owners !! x = if decide (x ∈ addresses) then Some owner else owners !! x.
Proof.
  unfold claimed. revert owners. induction addresses as [|a addresses IH]; intros owners; cbn [fold_left].
  { case_decide as Hx; [by apply not_elem_of_nil in Hx|done]. }
  rewrite IH. destruct (decide (x = a)) as [->|Hne].
  - rewrite lookup_insert_eq. rewrite (decide_True (P := a ∈ a :: addresses)) by by left. by case_decide.
  - rewrite lookup_insert_ne by done. apply decide_ext. set_solver.
Qed.

Lemma unclaimed_lookup (addresses : list IpAddr) (owners : gmap IpAddr LoadBalancerOwner) x :
  fold_left (λ owners address, delete address owners) addresses owners !! x =
  if decide (x ∈ addresses) then None else owners !! x.
Proof.
  revert owners. induction addresses as [|a addresses IH]; intros owners; cbn [fold_left].
  { case_decide as Hx; [by apply not_elem_of_nil in Hx|done]. }
  rewrite IH. destruct (decide (x = a)) as [->|Hne].
  - rewrite lookup_delete_eq. rewrite (decide_True (P := a ∈ a :: addresses)) by by left. by case_decide.
  - rewrite lookup_delete_ne by done. apply decide_ext. set_solver.
Qed.

Lemma claim_addresses_Ok owner addresses owners owners' :
  try_fold (claim_address owner) owners addresses = Ok owners' ↔
  NoDup addresses ∧ (∀ x, x ∈ addresses → owners !! x = None) ∧ owners' = claimed owner addresses owners.
Proof.
  revert owners. induction addresses as [|a addresses IH]; intros owners; cbn [try_fold].
  { unfold claimed. simpl. split; [intros [= <-]; split_and!; [constructor|by intros ? ?%not_elem_of_nil|done]|].
    by intros (_ & _ & ->). }
  unfold claim_address at 1. destruct (owners !! a) as [o|] eqn:Ea; simpl.
  - split; [done|]. intros (_ & Hnone & _). rewrite Hnone in Ea by by left. done.
  - rewrite IH, NoDup_cons. change (claimed owner (a :: addresses) owners)
      with (claimed owner addresses (<[a := owner]> owners)). split.
    + intros (Hnd & Hnone & ->). split_and!; [|done| |done].
      * intros Hin. specialize (Hnone a Hin). by rewrite lookup_insert_eq in Hnone.
      * intros x [->|Hx]%elem_of_cons; [done|]. specialize (Hnone x Hx).
        by apply lookup_insert_None in Hnone as [? _].
    + intros ([Ha Hnd] & Hnone & ->). split_and!; [done| |done]. intros x Hx.
      rewrite lookup_insert_ne by (intros ->; done). apply Hnone. by right.
Qed.

(** ** The invariant *)

Record allocator_ok (a : LoadBalancerAllocator) : Prop := {
  ao_pools : pools_ok (lba_pools a);
  ao_lease o l : lba_leases a !! o = Some l →
    lease_owner l = o ∧ validate_owner o = Ok () ∧ 0 < lease_allocation_revision l ∧
    ∃ pool, lba_pools a !! lease_pool l = Some pool ∧ lease_fits pool (lba_revision a) l;
  ao_owners x o : lba_address_owners a !! x = Some o ↔
    ∃ l, lba_leases a !! o = Some l ∧ x ∈ lease_addresses l;
  ao_revision : 0 ≤ lba_revision a ≤ u_max 64;
}.

Lemma lease_fits_later pool revision revision' lease :
  revision ≤ revision' → lease_fits pool revision lease → lease_fits pool revision' lease.
Proof. intros Hle [? ? [? ?] ? ? ? ? ?]. split; try done. split; [done|lia]. Qed.

(** A lease of a new owner on addresses nobody has. *)
Lemma add_lease_ok a lease pool revision :
  allocator_ok a → lba_revision a ≤ revision ≤ u_max 64 → validate_owner (lease_owner lease) = Ok () →
  lba_leases a !! lease_owner lease = None → 0 < lease_allocation_revision lease →
  lba_pools a !! lease_pool lease = Some pool → lease_fits pool revision lease →
  (∀ x, x ∈ lease_addresses lease → lba_address_owners a !! x = None) →
  allocator_ok {| lba_pools := lba_pools a; lba_leases := <[lease_owner lease := lease]> (lba_leases a);
    lba_address_owners := claimed (lease_owner lease) (lease_addresses lease) (lba_address_owners a);
    lba_revision := revision |}.
Proof.
  intros [Hpools Hleases Howners Hrev] Hle Hvalid Hfresh Hpos Hpool Hfits Hfree. split; simpl; [done|..|lia].
  - intros o l. rewrite lookup_insert_Some. intros [[<- <-]|[_ Hl]]; [by eauto 10|].
    destruct (Hleases _ _ Hl) as (? & ? & ? & pool' & ? & ?). split_and!; try done. exists pool'. split; [done|].
    eapply lease_fits_later; [|done]. lia.
  - intros x o. rewrite claimed_lookup. case_decide as Hx.
    + split; [intros [= <-]; exists lease; by rewrite lookup_insert_eq|].
      intros (l & Hl & Hxl). apply lookup_insert_Some in Hl as [[<- _]|[_ Hl]]; [done|].
      assert (Hsome : lba_address_owners a !! x = Some o) by (apply Howners; by eauto).
      by rewrite (Hfree x Hx) in Hsome.
    + rewrite Howners. split; intros (l & Hl & Hxl); exists l; (split; [|done]).
      * rewrite lookup_insert_ne; [done|]. intros <-. by rewrite Hfresh in Hl.
      * apply lookup_insert_Some in Hl as [[_ <-]|[_ ?]]; done.
Qed.

Lemma restore_lease_Ok a lease a' :
  restore_lease a lease = Ok a' ↔
  validate_owner (lease_owner lease) = Ok () ∧ lba_leases a !! lease_owner lease = None ∧
  (∃ pool, lba_pools a !! lease_pool lease = Some pool ∧ lease_fits pool (lba_revision a) lease) ∧
  (∀ x, x ∈ lease_addresses lease → lba_address_owners a !! x = None) ∧
  a' = {| lba_pools := lba_pools a; lba_leases := <[lease_owner lease := lease]> (lba_leases a);
          lba_address_owners := claimed (lease_owner lease) (lease_addresses lease) (lba_address_owners a);
          lba_revision := lba_revision a |}.
Proof.
  unfold restore_lease. destruct (validate_owner (lease_owner lease)) as [[]|]; simpl; [|naive_solver].
  destruct (lba_leases a !! lease_owner lease) eqn:El.
  { rewrite bool_decide_eq_true_2 by done. naive_solver. }
  rewrite bool_decide_eq_false_2 by (by intros [? ?]).
  destruct (lba_pools a !! lease_pool lease) as [pool|] eqn:Ep; [|naive_solver].
  destruct (lease_matches pool (lba_revision a) lease) eqn:Em; simpl.
  2: { split; [done|]. intros (_ & _ & (pool' & [= <-] & Hfits%lease_matches_iff) & _). congruence. }
  apply lease_matches_iff in Em as Hfits.
  destruct (try_fold _ _ _) as [owners|] eqn:Eo; simpl.
  - apply claim_addresses_Ok in Eo as (_ & Hfree & ->). naive_solver.
  - split; [done|]. intros (_ & _ & _ & Hfree & _). exfalso.
    assert (Hok : try_fold (claim_address (lease_owner lease)) (lba_address_owners a) (lease_addresses lease) =
      Ok (claimed (lease_owner lease) (lease_addresses lease) (lba_address_owners a))); [|congruence].
    apply claim_addresses_Ok. split_and!; [|done..]. apply ascending_NoDup, (lf_addresses _ _ _ Hfits).
Qed.

(** A checkpoint whose numbers fit their types. *)
Record checkpoint_typed (c : AllocationCheckpoint) : Prop := {
  ct_pools : Forall pool_typed (cp_pools c);
  ct_revision : 0 ≤ cp_revision c ≤ u_max 64;
  ct_leases : Forall (λ l, 0 ≤ lease_allocation_revision l) (cp_leases c);
}.

Lemma new_ok pools a : Forall pool_typed pools → LoadBalancerAllocator_new pools = Ok a → allocator_ok a.
Proof.
  intros Htyped. unfold LoadBalancerAllocator_new. destruct (validate_pools pools) as [by_name|] eqn:Ev; [|done].
  intros [= <-]. split; simpl; [by eapply validate_pools_ok|by intros ? ?|..].
  - intros x o. rewrite lookup_empty. split; [done|]. by intros (l & Hl & _).
  - unfold u_max. split; [lia|]. by vm_compute.
Qed.

Lemma restore_ok c a : checkpoint_typed c → restore c = Ok a → allocator_ok a.
Proof.
  intros [Hpools Hrev Hleases]. unfold restore. do 3 (case_match; [done|]).
  destruct (LoadBalancerAllocator_new (cp_pools c)) as [a0|] eqn:Enew; [|done]. simpl. intros Hfold.
  eapply (try_fold_inv allocator_ok); [| |exact Hfold].
  - pose proof Enew as Hnew%new_ok; [|done]. unfold LoadBalancerAllocator_new in Enew.
    destruct (validate_pools _); [|done]. injection Enew as <-. destruct Hnew. by split; simpl in *.
  - intros b lease b' Hin Hb. cbn beta.
    match goal with |- restore_lease _ ?l = _ → _ => set (lease' := l) end.
    assert (Hpos : 0 ≤ lease_allocation_revision lease').
    { rewrite Forall_forall in Hleases. specialize (Hleases _ Hin). unfold lease'. by case_match. }
    intros (Hvalid & Hfresh & (pool & Hpool & Hfits) & Hfree & ->)%restore_lease_Ok.
    apply (add_lease_ok b lease' pool (lba_revision b)); try done; [destruct Hb; lia|].
    destruct (lf_revision _ _ _ Hfits). lia.
Qed.

Lemma release_ok a owner lease a' : allocator_ok a → release a owner = Ok (lease, a') → allocator_ok a'.
Proof.
  intros [Hpools Hleases Howners Hrev]. unfold release.
  destruct (lba_leases a !! owner) as [l|] eqn:El; [|done]. intros [= <- <-].
  assert (Hnext : lba_revision a ≤ Revision_next (lba_revision a) ≤ u_max 64) by (unfold Revision_next; lia).
  split; simpl; [done|..|lia].
  - intros o l'. rewrite lookup_delete_Some. intros [_ Hl]. destruct (Hleases _ _ Hl) as (? & ? & ? & pool & ? & ?).
    split_and!; try done. exists pool. split; [done|]. eapply lease_fits_later; [|done]. lia.
  - intros x o. rewrite unclaimed_lookup. case_decide as Hx.
    + split; [done|]. intros (l' & [Hne Hl']%lookup_delete_Some & Hx').
      assert (lba_address_owners a !! x = Some o) by (apply Howners; eauto).
      assert (lba_address_owners a !! x = Some owner) by (apply Howners; eauto). congruence.
    + rewrite Howners. split; intros (l' & Hl' & Hx'); exists l'; (split; [|done]).
      * apply lookup_delete_Some. split; [|done]. intros ->. rewrite El in Hl'. by injection Hl' as <-.
      * by apply lookup_delete_Some in Hl' as [_ ?].
Qed.

(** ** Requests *)

Lemma size_list_to_set_NoDup {A} `{Countable A} (l : list A) :
  (size (list_to_set l : gset A) ≤ length l)%nat ∧
  (size (list_to_set l : gset A) = length l → NoDup l).
Proof.
  induction l as [|x l [Hle IH]]; [split; [by rewrite list_to_set_nil, size_empty|constructor]|].
  rewrite list_to_set_cons. cbn [length].
  destruct (decide (x ∈ l)) as [Hx|Hx].
  - assert (Heq : {[x]} ∪ list_to_set l = (list_to_set l : gset A)) by set_solver. rewrite Heq. split; lia.
  - rewrite size_union, size_singleton by set_solver. split; [lia|]. intros. constructor; [done|]. apply IH. lia.
Qed.

Record request_ok (r : AllocationRequest) : Prop := {
  rq_intent : req_intent_epoch r ≠ 0 ∧ req_intent_revision r ≠ 0;
  rq_families : req_families r ≠ [] ∧ (length (req_families r) ≤ 2)%nat ∧
    StronglySorted (λ x y, ltb x y = true) (req_families r);
  rq_requested : StronglySorted (λ x y, ltb x y = true) (req_requested_ips r) ∧
    (length (req_requested_ips r) ≤ length (req_families r))%nat;
  rq_distinct : NoDup (map address_family (req_requested_ips r));
  rq_admitted a : a ∈ req_requested_ips r → address_family a ∈ req_families r;
}.

Definition normalized (r : AllocationRequest) : AllocationRequest :=
  {| req_owner := req_owner r; req_pool := req_pool r; req_families := sort_by leb (req_families r);
     req_requested_ips := sort_by leb (req_requested_ips r);
     req_intent_epoch := req_intent_epoch r; req_intent_revision := req_intent_revision r |}.

Lemma validate_allocation_request_Ok r r' :
  validate_allocation_request r = Ok r' → r' = normalized r ∧ request_ok r'.
Proof.
  unfold validate_allocation_request. destruct (orb _ _) eqn:Eintent; [done|].
  destruct (is_nil _ || _) eqn:Efam; [done|]. destruct (any_adjacent _ _) eqn:Efs; [done|].
  destruct (_ || any_adjacent _ _) eqn:Ereq; [done|]. destruct (negb _ || _) eqn:Eset; [done|].
  intros [= <-]. split; [done|].
  apply orb_false_iff in Eintent as [?%Z.eqb_neq ?%Z.eqb_neq].
  apply orb_false_iff in Efam as [Hnil%is_nil_false Hlen%Z.ltb_ge].
  apply orb_false_iff in Ereq as [Hle%Z.ltb_ge Hreq].
  apply orb_false_iff in Eset as [Hsize%negb_false_iff%Z.eqb_eq Hadm%negb_false_iff].
  split; simpl.
  - done.
  - split_and!; [|rewrite sort_by_perm; lia|exact (sort_ascending _ Efs)].
    intros Hnil'. apply Hnil, Permutation_nil. rewrite <-Hnil'. apply sort_by_perm.
  - split; [exact (sort_ascending _ Hreq)|]. lia.
  - apply (proj2 (size_list_to_set_NoDup (map address_family (sort_by leb (req_requested_ips r))))).
    rewrite length_map. lia.
  - intros a Ha. rewrite forallb_forall in Hadm. apply (bool_decide_eq_true (_ ∈ _)), Hadm, list_elem_of_In.
    apply elem_of_bset_iter, elem_of_list_to_set. by apply (list_elem_of_fmap_2 address_family).
Qed.

(** ** Planning *)

Lemma scan_candidates_Some owners p count start c :
  scan_candidates owners p count start = Some c →
  ∃ i, start ≤ i < start + Z.of_nat count ∧ pool_candidate p i = Some c ∧ owners !! c = None.
Proof.
  revert start. induction count as [|count IH]; intros start; simpl; [done|].
  destruct (pool_candidate p start) as [x|] eqn:Ex; [|done]. case_bool_decide as Hx.
  - intros (j & Hj & ?)%IH. exists j. split; [lia|done].
  - intros [= ->]. exists start. split_and!; [lia|lia|done|]. by apply eq_None_not_Some.
Qed.

Lemma pool_candidate_down family p i j :
  prefix_ok family p → 0 ≤ i ≤ j → is_Some (pool_candidate p j) → is_Some (pool_candidate p i).
Proof.
  intros [Hf _ Hw _] Hij. unfold pool_candidate. destruct (sp_address p) as [net|net]; simpl in *; subst family.
  - destruct (Z.leb_spec (saturating_sub (Z.shiftl 1 (32 - sp_prefix_length p))
      (if 32 - sp_prefix_length p =? 0 then 0 else 2)) j) as [|Hj]; [by intros [? ?]|].
    destruct (Z.leb_spec (saturating_sub (Z.shiftl 1 (32 - sp_prefix_length p))
      (if 32 - sp_prefix_length p =? 0 then 0 else 2)) i); [lia|].
    destruct (try_width 32 (_ + j)) as [x|] eqn:Ej; [|by intros [? ?]]. apply try_width_Some in Ej as [_ Hx]. intros _.
    destruct (try_width 32 (_ + i)) as [y|] eqn:Ei; [done|]. apply try_width_None in Ei. exfalso. apply Ei.
    simpl in Hw. unfold in_width in *. case_match; lia.
  - destruct (Z.eqb_spec (128 - sp_prefix_length p) 0); [|destruct (Z.eqb_spec (128 - sp_prefix_length p) 128); [done|]].
    + destruct (Z.eqb_spec j 0); [|by intros [? ?]]. by destruct (Z.eqb_spec i 0); [|lia].
    + destruct (Z.ltb_spec j (saturating_sub (Z.shiftl 1 (128 - sp_prefix_length p)) 1)); [|by intros [? ?]].
      by destruct (Z.ltb_spec i (saturating_sub (Z.shiftl 1 (128 - sp_prefix_length p)) 1)); [|lia].
Qed.

(** The scan gives up only when every candidate is leased. *)
Lemma scan_candidates_None family owners p count start :
  prefix_ok family p → 0 ≤ start → scan_candidates owners p count start = None →
  ∀ i c, start ≤ i < start + Z.of_nat count → pool_candidate p i = Some c → is_Some (owners !! c).
Proof.
  intros Hp. revert start. induction count as [|count IH]; intros start Hstart; simpl; [intros _ i c Hi; lia|].
  intros Hscan i c Hi Hc. destruct (pool_candidate p start) as [x|] eqn:Ex.
  - case_bool_decide as Hx; [|done]. destruct (decide (i = start)) as [->|]; [congruence|].
    apply (IH (start + 1)) with i; [lia|done|lia|done].
  - destruct (pool_candidate_down family p start i Hp) as [y Hy]; [lia|by rewrite Hc|congruence].
Qed.

Lemma family_sorted (l : list IpAddr) :
  StronglySorted (λ x y, ltb x y = true) (map address_family l) → StronglySorted (λ x y, ltb x y = true) l.
Proof.
  induction l as [|x l IH]; simpl; [constructor|]. inversion 1 as [|? ? Hl Hx]; subst. constructor; [by apply IH|].
  apply Forall_forall. intros y Hy. rewrite Forall_forall in Hx.
  specialize (Hx _ (list_elem_of_fmap_2 address_family _ _ Hy)). by destruct x, y.
Qed.

Lemma fold_insert_is_Some {K V} `{Countable K} (key : V → K) l (acc : gmap K V) k :
  is_Some (acc !! k) ∨ (∃ v, v ∈ l ∧ key v = k) →
  is_Some (fold_left (λ acc v, <[key v := v]> acc) l acc !! k).
Proof.
  revert acc. induction l as [|w l IH]; intros acc; simpl.
  { intros [|(v & ?%not_elem_of_nil & _)]; done. }
  intros Hk. apply IH. destruct (decide (key w = k)) as [<-|Hne]; [left; by rewrite lookup_insert_eq|].
  rewrite lookup_insert_ne by done. destruct Hk as [|(v & [->|Hv]%elem_of_cons & Hvk)]; [by left|done|].
  right. by exists v.
Qed.

(** What a plan leases. *)
Record planned_addresses (a : LoadBalancerAllocator) (pool : LoadBalancerPool) (r : AllocationRequest)
    (addresses : list IpAddr) : Prop := {
  pl_sorted : StronglySorted (λ x y, ltb x y = true) addresses;
  pl_families : map address_family addresses = req_families r;
  pl_usable x : x ∈ addresses → pool_usable_address pool x = true;
  pl_free x : x ∈ addresses → lba_address_owners a !! x = None;
  pl_requested x : x ∈ req_requested_ips r → x ∈ addresses;
}.

Lemma scan_count_limit : Z.of_nat scan_count = MAX_POOL_ALLOCATION_SCAN.
Proof. apply Z2Nat.id. by unfold MAX_POOL_ALLOCATION_SCAN. Qed.

#[local] Opaque scan_count MAX_POOL_ALLOCATION_SCAN.

Lemma allocate_family_Ok a pool name family x :
  pools_ok (lba_pools a) → lba_pools a !! name = Some pool → allocate_family a pool family = Ok x →
  address_family x = family ∧ pool_usable_address pool x = true ∧ lba_address_owners a !! x = None.
Proof.
  intros Hpools Hpool. destruct (pk_pool _ Hpools _ _ Hpool) as (_ & Hvalid & Htyped). unfold allocate_family.
  destruct (pool_prefix pool family) as [p|] eqn:Ep; simpl; [|done].
  pose proof scan_count_limit as Hcount. revert Hcount. generalize scan_count. intros count Hcount.
  destruct (scan_candidates _ p count 0) as [c|] eqn:Es; simpl; [|done]. intros [= <-].
  apply scan_candidates_Some in Es as (i & Hi & Hc & Hfree).
  rewrite Hcount, Z.add_0_l in Hi.
  destruct (pool_candidate_usable family p i c) as (Hu & Hf & _); [by apply (validate_pool_prefix pool)|done|done|].
  split_and!; [done| |done]. unfold pool_usable_address. by rewrite Hf, Ep.
Qed.

Lemma plan_addresses_Ok a pool name r addresses :
  pools_ok (lba_pools a) → lba_pools a !! name = Some pool → request_ok r →
  plan_addresses a pool r = Ok addresses → planned_addresses a pool r addresses.
Proof.
  intros Hpools Hpool Hr. unfold plan_addresses. destruct (try_map _ (req_requested_ips r)) as [pairs|] eqn:Epairs; [|done].
  apply try_map_Forall2 in Epairs.
  assert (Hpairs : pairs = map (λ x, (address_family x, x)) (req_requested_ips r) ∧
    ∀ x, x ∈ req_requested_ips r → pool_usable_address pool x = true ∧ lba_address_owners a !! x = None).
  { clear Hr. induction Epairs as [|x e xs es Hx Hxs [-> IH]]; [split; [done|by intros ? ?%not_elem_of_nil]|].
    destruct (pool_usable_address pool x) eqn:Eu; [|done]. simpl in Hx.
    destruct (lba_address_owners a !! x) eqn:Eo; [done|]. injection Hx as <-. split; [done|].
    intros y [->|Hy]%elem_of_cons; [done|by apply IH]. }
  destruct Hpairs as [-> Hfree]. cbn zeta. rewrite <-fold_left_map. cbn [fst snd].
  set (requested := fold_left (λ acc x, <[address_family x := x]> acc) (req_requested_ips r) ∅).
  destruct (try_map _ (req_families r)) as [l|] eqn:El; [|done]. intros [= <-].
  apply try_map_Forall2 in El.
  assert (Hl : map address_family l = req_families r ∧ ∀ x, x ∈ l →
    pool_usable_address pool x = true ∧ lba_address_owners a !! x = None).
  { clear Hr. induction El as [|f x fs xs Hx Hxs [<- IH]]; [split; [done|by intros ? ?%not_elem_of_nil]|]. simpl.
    assert (Hone : address_family x = f ∧ pool_usable_address pool x = true ∧ lba_address_owners a !! x = None).
    { destruct (requested !! f) as [y|] eqn:Ey; [|by eapply allocate_family_Ok]. injection Hx as <-.
      apply fold_insert_lookup in Ey as [[Hin Hf]|?%lookup_empty_Some]; [|done]. split; [done|by apply Hfree]. }
    destruct Hone as (-> & Hu & Ho). split; [done|]. intros y [->|Hy]%elem_of_cons; [done|by apply IH]. }
  destruct Hl as [Hfam Hall]. destruct (rq_families _ Hr) as (_ & _ & Hsorted). rewrite <-Hfam in Hsorted.
  apply family_sorted in Hsorted. rewrite ascending_sort by done. split; [done|done| | |].
  - intros x Hx. by apply Hall.
  - intros x Hx. by apply Hall.
  - intros x Hx. destruct (fold_insert_is_Some address_family (req_requested_ips r) ∅ (address_family x)) as [y Hy];
      [right; by exists x|].
    assert (y = x) as ->.
    { pose proof Hy as [[Hin Hf]|?%lookup_empty_Some]%fold_insert_lookup; [|done].
      by eapply NoDup_map_elem; [apply (rq_distinct _ Hr)|..]. }
    destruct (proj1 (list_elem_of_lookup _ _) (rq_admitted _ Hr x Hx)) as [i Hi].
    destruct (Forall2_lookup_l _ _ _ _ _ El Hi) as (z & Hz & Hfz). fold requested in Hy. rewrite Hy in Hfz.
    injection Hfz as ->. by eapply list_elem_of_lookup_2.
Qed.

(** ** Allocation *)

Lemma revision_grows r : 0 ≤ r ≤ u_max 64 → 0 < Revision_next r ∧ r ≤ Revision_next r ≤ u_max 64.
Proof. intros Hr. assert (0 < u_max 64) by by vm_compute. unfold Revision_next. lia. Qed.

Definition granted (r : AllocationRequest) (pool : LoadBalancerPool) (revision : Z) (addresses : list IpAddr) :
    LoadBalancerLease :=
  {| lease_owner := req_owner r; lease_pool := pool_name pool; lease_pool_uid := pool_uid pool;
     lease_provider := pool_provider pool; lease_families := req_families r;
     lease_requested_ips := req_requested_ips r; lease_addresses := addresses;
     lease_intent_epoch := req_intent_epoch r; lease_intent_revision := req_intent_revision r;
     lease_allocation_revision := revision |}.

(** What an allocation did: a new lease, or an old one kept or refreshed. *)
Inductive allocated (a : LoadBalancerAllocator) (r : AllocationRequest) :
    LoadBalancerLease → LoadBalancerAllocator → Prop :=
| allocated_new pool addresses :
    lba_leases a !! req_owner r = None → lba_pools a !! req_pool r = Some pool →
    planned_addresses a pool r addresses →
    allocated a r (granted r pool (Revision_next (lba_revision a)) addresses)
      {| lba_pools := lba_pools a;
         lba_leases := <[req_owner r := granted r pool (Revision_next (lba_revision a)) addresses]> (lba_leases a);
         lba_address_owners := claimed (req_owner r) addresses (lba_address_owners a);
         lba_revision := Revision_next (lba_revision a) |}
| allocated_same existing :
    lba_leases a !! req_owner r = Some existing → lease_families existing = req_families r →
    lease_requested_ips existing = req_requested_ips r → allocated a r existing a
| allocated_refreshed existing :
    lba_leases a !! req_owner r = Some existing → lease_families existing = req_families r →
    lease_requested_ips existing = req_requested_ips r →
    allocated a r (refreshed r (Revision_next (lba_revision a)) existing)
      {| lba_pools := lba_pools a;
         lba_leases := <[req_owner r := refreshed r (Revision_next (lba_revision a)) existing]> (lba_leases a);
         lba_address_owners := lba_address_owners a;
         lba_revision := Revision_next (lba_revision a) |}.

Lemma allocate_Ok a r lease a' :
  pools_ok (lba_pools a) → allocate a r = Ok (lease, a') →
  validate_owner (req_owner r) = Ok () ∧ request_ok (normalized r) ∧ allocated a (normalized r) lease a'.
Proof.
  intros Hpools. unfold allocate. destruct (validate_owner (req_owner r)) as [[]|] eqn:Eowner; [|done]. cbn [ok_or].
  destruct (validate_allocation_request r) as [r'|] eqn:Er; [|done].
  apply validate_allocation_request_Ok in Er as [-> Hr].
  destruct (lba_pools a !! req_pool (normalized r)) as [pool|] eqn:Epool; [|done]. cbn [ok_or].
  intros Hrun. split_and!; [done..|].
  destruct (lba_leases a !! req_owner (normalized r)) as [existing|] eqn:El.
  - unfold replay in Hrun. destruct (_ || _ || _) eqn:Esame; [done|].
    apply orb_false_iff in Esame as [[_ Hf]%orb_false_iff Hq].
    apply negb_false_iff, bool_decide_eq_true in Hf, Hq.
    destruct (_ || _); [done|]. destruct (_ && _); injection Hrun as <- <-; [by apply allocated_same|].
    exact (allocated_refreshed a (normalized r) existing El Hf Hq).
  - destruct (plan_addresses a pool (normalized r)) as [addresses|] eqn:Eplan; [|done]. injection Hrun as <- <-.
    eapply plan_addresses_Ok in Eplan; [|done..].
    exact (allocated_new a (normalized r) pool addresses El Epool Eplan).
Qed.

Lemma granted_fits a pool r addresses revision :
  request_ok r → planned_addresses a pool r addresses → revision ≠ 0 →
  lease_fits pool revision (granted r pool revision addresses).
Proof.
  intros [Hintent Hfam [Hreq Hlen] _ _] [Hsorted Hmap Husable _ Hin] Hrev. by split.
Qed.

Lemma allocate_ok a r lease a' : allocator_ok a → allocate a r = Ok (lease, a') → allocator_ok a'.
Proof.
  intros Hok Hrun. pose proof (revision_grows _ (ao_revision _ Hok)) as (Hpos & Hle).
  apply allocate_Ok in Hrun as (Hvalid & Hr & Halloc); [|apply Hok].
  inversion Halloc as [pool addresses Hfresh Hpool Hplan|existing Hl Hf Hq|existing Hl Hf Hq]; subst; [| done |].
  - change (req_owner (normalized r)) with (lease_owner (granted (normalized r) pool (Revision_next (lba_revision a)) addresses)).
    apply (add_lease_ok a (granted (normalized r) pool (Revision_next (lba_revision a)) addresses) pool); try done.
    + destruct (pk_pool _ (ao_pools _ Hok) _ _ Hpool) as [Hname _]. simpl. by rewrite Hname.
    + apply (granted_fits a); [done..|lia].
    + apply (pl_free _ _ _ _ Hplan).
  - destruct Hok as [Hpools Hleases Howners Hrev]. destruct (Hleases _ _ Hl) as (Ho & _ & _ & pool & Hpool & Hfits).
    split; simpl; [done|..|lia].
    + intros o l. rewrite lookup_insert_Some. intros [[<- <-]|[_ Hl']].
      * simpl. split_and!; [done..|]. exists pool. split; [done|]. destruct Hfits, (rq_intent _ Hr).
        split; simpl; try done. split; lia.
      * destruct (Hleases _ _ Hl') as (? & ? & ? & pool' & ? & ?). split_and!; try done. exists pool'.
        split; [done|]. eapply lease_fits_later; [|done]. lia.
    + intros x o. rewrite Howners. split; intros (l & Hl' & Hx).
      * destruct (decide (o = req_owner (normalized r))) as [->|Hne].
        -- eexists. rewrite lookup_insert_eq. split; [done|]. simpl. congruence.
        -- exists l. by rewrite lookup_insert_ne.
      * apply lookup_insert_Some in Hl' as [[<- <-]|[_ Hl']]; [by exists existing|by exists l].
Qed.

(** ** Checkpoints *)

(** The owners after the leases of a list were restored. *)
Definition claimed_by (leases : list LoadBalancerLease) (owners : gmap IpAddr LoadBalancerOwner) :
    gmap IpAddr LoadBalancerOwner :=
  fold_left (λ owners l, claimed (lease_owner l) (lease_addresses l) owners) leases owners.

Lemma claimed_by_Some leases owners x o :
  claimed_by leases owners !! x = Some o →
  (∃ l, l ∈ leases ∧ lease_owner l = o ∧ x ∈ lease_addresses l) ∨ owners !! x = Some o.
Proof.
  unfold claimed_by. revert owners. induction leases as [|l leases IH]; intros owners; simpl; [by right|].
  intros [(l' & Hl' & ?)|Hx]%IH; [left; exists l'; split; [by right|done]|].
  rewrite claimed_lookup in Hx. case_decide; [|by right]. left. injection Hx as <-. exists l. split; [by left|done].
Qed.

Lemma claimed_by_is_Some leases owners x :
  is_Some (owners !! x) ∨ (∃ l, l ∈ leases ∧ x ∈ lease_addresses l) → is_Some (claimed_by leases owners !! x).
Proof.
  unfold claimed_by. revert owners. induction leases as [|l leases IH]; intros owners; simpl.
  { by intros [|(l & ?%not_elem_of_nil & _)]. }
  intros Hx. apply IH. rewrite claimed_lookup. case_decide; [by left|].
  destruct Hx as [|(l' & [->|Hl']%elem_of_cons & ?)]; [by left|done|]. right. by exists l'.
Qed.

Lemma claimed_by_leases a : allocator_ok a → claimed_by (btree_values (lba_leases a)) ∅ = lba_address_owners a.
Proof.
  intros Hok. assert (Hin : ∀ x o, claimed_by (btree_values (lba_leases a)) ∅ !! x = Some o →
    lba_address_owners a !! x = Some o).
  { intros x o [(l & [o' Hl]%elem_of_btree_values & <- & Hx)|?%lookup_empty_Some]%claimed_by_Some; [|done].
    destruct (ao_lease _ Hok _ _ Hl) as [-> _]. apply (ao_owners _ Hok). by exists l. }
  apply map_eq. intros x. destruct (lba_address_owners a !! x) as [o|] eqn:Eo.
  - apply (ao_owners _ Hok) in Eo as Hl. destruct Hl as (l & Hl & Hx).
    destruct (claimed_by_is_Some (btree_values (lba_leases a)) ∅ x) as [o' Ho'].
    { right. exists l. split; [|done]. apply elem_of_btree_values. by exists o. }
    rewrite Ho'. apply Hin in Ho'. congruence.
  - destruct (claimed_by _ _ !! x) as [o|] eqn:Ec; [|done]. apply Hin in Ec. congruence.
Qed.

Lemma restore_leases a :
  allocator_ok a →
  try_fold restore_lease {| lba_pools := lba_pools a; lba_leases := ∅; lba_address_owners := ∅;
    lba_revision := lba_revision a |} (btree_values (lba_leases a)) = Ok a.
Proof.
  intros Hok. set (leases := btree_values (lba_leases a)).
  assert (Hkey : ∀ o l, lba_leases a !! o = Some l → lease_owner l = o)
    by (intros o l Hl; by destruct (ao_lease _ Hok _ _ Hl)).
  assert (Hall : ∀ l, l ∈ leases → lba_leases a !! lease_owner l = Some l).
  { intros l [o Hl]%elem_of_btree_values. by rewrite (Hkey _ _ Hl). }
  set (g := λ pre, {| lba_pools := lba_pools a;
    lba_leases := fold_left (λ acc l, <[lease_owner l := l]> acc) pre ∅;
    lba_address_owners := claimed_by pre ∅; lba_revision := lba_revision a |}).
  change (try_fold restore_lease (g []) leases = Ok a).
  assert (Hend : g leases = a).
  { unfold g, leases. rewrite (fold_insert_values lease_owner _ Hkey), (claimed_by_leases a Hok). by destruct a. }
  transitivity (Ok (E := AllocationError) (g leases)); [|by rewrite Hend]. apply try_fold_prefixes. intros pre lease post Hsplit.
  pose proof (keyed_values_NoDup lease_owner _ Hkey) as Hnd. fold leases in Hnd.
  rewrite Hsplit, map_app in Hnd. simpl in Hnd. apply NoDup_app in Hnd as (_ & Hsep & _).
  assert (Hfresh : ∀ l, l ∈ pre → lease_owner l ≠ lease_owner lease).
  { intros l Hl Heq. apply (Hsep (lease_owner lease)); [|by left]. rewrite <-Heq.
    by apply (list_elem_of_fmap_2 lease_owner). }
  pose proof (Hall lease ltac:(rewrite Hsplit; set_solver)) as Hlease.
  destruct (ao_lease _ Hok _ _ Hlease) as (_ & Hvalid & _ & pool & Hpool & Hfits).
  apply restore_lease_Ok. unfold g. simpl. split_and!; [done| |by exists pool| |].
  - apply eq_None_not_Some. intros [l Hl].
    apply fold_insert_lookup in Hl as [[Hin Howner]|?%lookup_empty_Some]; [|done]. by apply (Hfresh l).
  - intros x Hx. apply eq_None_not_Some. intros [o Ho].
    apply claimed_by_Some in Ho as [(l & Hl & <- & Hxl)|?%lookup_empty_Some]; [|done].
    apply (Hfresh l Hl). pose proof (Hall l ltac:(rewrite Hsplit; set_solver)) as Hl'.
    assert (H1 : lba_address_owners a !! x = Some (lease_owner l)) by (apply (ao_owners _ Hok); eauto).
    assert (H2 : lba_address_owners a !! x = Some (lease_owner lease)) by (apply (ao_owners _ Hok); eauto).
    congruence.
  - unfold claimed_by. by rewrite !fold_left_app.
Qed.

(** ** What is written to a Service *)

(** Finalizers of others keep their order; ours is there once or not at all. *)
Lemma reconcile_finalizers_exact existing retain finalizer :
  List.filter (λ f, negb (bool_decide (f = UNF_LOAD_BALANCER_FINALIZER))) (reconcile_finalizers existing retain) =
  List.filter (λ f, negb (bool_decide (f = UNF_LOAD_BALANCER_FINALIZER))) existing ∧
  (finalizer ∈ reconcile_finalizers existing retain ↔
    (finalizer ∈ existing ∧ finalizer ≠ UNF_LOAD_BALANCER_FINALIZER) ∨
    (retain = true ∧ finalizer = UNF_LOAD_BALANCER_FINALIZER)).
Proof.
  unfold reconcile_finalizers. split.
  - rewrite List.filter_app. destruct retain; simpl; rewrite ?bool_decide_eq_true_2 by done; simpl;
      rewrite app_nil_r; apply filter_filter_implied; by intros.
  - rewrite elem_of_app, elem_of_list_filter, negb_true_iff, bool_decide_eq_false.
    destruct retain; rewrite ?list_elem_of_singleton, ?elem_of_nil; naive_solver.
Qed.

(** The status keeps every entry of others in its order and lists each lease address once;
    an address of others is never taken over. *)
Lemma reconcile_status_ingress_Ok existing previous desired out :
  reconcile_status_ingress existing previous desired = Ok out →
  NoDup desired ∧
  (∀ entry x, entry ∈ existing → ingress_address entry = Some x → x ∈ desired → x ∈ previous) ∧
  ∃ published, published ≡ₚ desired ∧
    out = List.filter (λ entry, is_none_or (ingress_address entry) (λ x, negb (bool_decide (x ∈ previous)))) existing
      ++ map (λ x, {| ingress_ip := Some (ip_to_string x); ingress_hostname := None |}) published.
Proof.
  unfold reconcile_status_ingress. case_match; [done|]. destruct (negb _) eqn:Esize; [done|].
  apply negb_false_iff, Z.eqb_eq in Esize. destruct (try_fold _ () existing) as [[]|] eqn:Efold; [|done].
  case_match; [done|]. intros [= <-].
  assert (Hnd : NoDup desired) by (apply (proj2 (size_list_to_set_NoDup desired)); lia). split; [done|split].
  - intros entry x Hin Hx Hd. destruct (decide (x ∈ previous)) as [|Hno]; [done|exfalso].
    revert Efold Hin. clear -Hx Hd Hno. induction existing as [|e l IH]; simpl; [by intros _ ?%not_elem_of_nil|].
    intros Hfold [<-|Hin]%elem_of_cons.
    + rewrite Hx, bool_decide_eq_true_2, bool_decide_eq_false_2 in Hfold by set_solver. done.
    + apply IH; [|done]. destruct (ingress_address e); [|done]. by destruct (_ && _).
  - exists (bset_iter (list_to_set desired)). split.
    + unfold bset_iter. rewrite sort_by_perm. by apply elements_list_to_set.
    + f_equal. apply List.filter_ext. intros entry. destruct (ingress_address entry); [|done]. simpl.
      f_equal. apply bool_decide_ext. set_solver.
Qed.

(** ** Reachable allocators *)

Inductive allocator_reachable : LoadBalancerAllocator → Prop :=
| reached_new pools a :
    Forall pool_typed pools → LoadBalancerAllocator_new pools = Ok a → allocator_reachable a
| reached_restore c a : checkpoint_typed c → restore c = Ok a → allocator_reachable a
| reached_allocate a r lease a' :
    allocator_reachable a → allocate a r = Ok (lease, a') → allocator_reachable a'
| reached_release a owner lease a' :
    allocator_reachable a → release a owner = Ok (lease, a') → allocator_reachable a'.

Lemma allocator_reachable_ok a : allocator_reachable a → allocator_ok a.
Proof. induction 1; eauto using new_ok, restore_ok, allocate_ok, release_ok. Qed.

(** C17. Load-balancer addresses are exclusive.  Whatever was allocated, released and restored,
    an address of a lease is owned by that lease alone, it is usable in the pool of the lease
    and in no other, and the index of owners has no address beyond those of the leases. *)
Theorem load_balancer_leases_exclusive a :
  allocator_reachable a →
  (∀ owner lease x, lba_leases a !! owner = Some lease → x ∈ lease_addresses lease →
    lba_address_owners a !! x = Some owner ∧
    (∀ owner' lease', lba_leases a !! owner' = Some lease' → x ∈ lease_addresses lease' → owner' = owner) ∧
    ∃ pool, lba_pools a !! lease_pool lease = Some pool ∧ pool_usable_address pool x = true ∧
      ∀ name pool', lba_pools a !! name = Some pool' → pool_usable_address pool' x = true →
        name = lease_pool lease) ∧
  ∀ x owner, lba_address_owners a !! x = Some owner →
    ∃ lease, lba_leases a !! owner = Some lease ∧ x ∈ lease_addresses lease.
Proof.
  intros Hok%allocator_reachable_ok. split; [|intros x owner; apply (ao_owners _ Hok)].
  intros owner lease x Hl Hx. assert (Ho : lba_address_owners a !! x = Some owner) by (apply (ao_owners _ Hok); eauto).
  split; [done|split].
  - intros owner' lease' Hl' Hx'.
    assert (lba_address_owners a !! x = Some owner') by (apply (ao_owners _ Hok); eauto). congruence.
  - destruct (ao_lease _ Hok _ _ Hl) as (_ & _ & _ & pool & Hpool & Hfits). exists pool.
    pose proof (lf_usable _ _ _ Hfits x Hx) as Hu. split; [done|split; [done|]]. intros name pool' Hp' Hu'.
    by apply (pools_exclusive _ name (lease_pool lease) pool' pool x (ao_pools _ Hok)).
Qed.

(** C27. Checkpoints are exact.  An allocator with no more leases than a checkpoint may have is
    restored from its own checkpoint as it was, with its pools, leases, owners and revision. *)
Theorem load_balancer_checkpoint_round_trip a :
  allocator_reachable a → Z.of_nat (size (lba_leases a)) ≤ MAX_LOAD_BALANCER_LEASES →
  restore (checkpoint a) = Ok a.
Proof.
  intros Hok%allocator_reachable_ok Hsize. unfold restore, checkpoint. cbn [cp_schema_version cp_leases cp_revision cp_pools].
  rewrite Z.eqb_refl. cbn [negb andb].
  assert (Hlen : length (btree_values (lba_leases a)) = size (lba_leases a)).
  { unfold btree_values. rewrite length_fmap, btree_iter_perm. apply length_map_to_list. }
  rewrite Hlen. destruct (Z.ltb_spec MAX_LOAD_BALANCER_LEASES (Z.of_nat (size (lba_leases a)))); [lia|].
  destruct (negb _ && _) eqn:Ezero.
  { exfalso. apply andb_true_iff in Ezero as [Hnil Hrev%Z.eqb_eq].
    destruct (btree_values (lba_leases a)) as [|l ls] eqn:Els; [done|].
    assert (Hin : l ∈ btree_values (lba_leases a)) by (rewrite Els; by left).
    apply elem_of_btree_values in Hin as [o Hl].
    destruct (ao_lease _ Hok _ _ Hl) as (_ & _ & Hpos & pool & _ & Hfits). destruct (lf_revision _ _ _ Hfits). lia. }
  unfold LoadBalancerAllocator_new. rewrite (validate_pools_values _ (ao_pools _ Hok)).
  cbn [lba_pools lba_leases lba_address_owners lba_revision]. by apply restore_leases.
Qed.

Lemma try_map_Err {E A B} (f : A → result E B) l e : try_map f l = Err e → ∃ x, x ∈ l ∧ f x = Err e.
Proof.
  induction l as [|x l IH]; simpl; [done|]. destruct (f x) as [y|] eqn:Ef.
  - destruct (try_map f l) as [ys|]; [done|]. intros (z & Hz & Hf)%IH. exists z. split; [by right|done].
  - intros [= ->]. exists x. split; [by left|done].
Qed.

Lemma allocate_family_Err a pool family e :
  allocate_family a pool family = Err e →
  e = InvalidFamilies ∨ ∃ prefix, pool_prefix pool family = Some prefix ∧
    scan_candidates (lba_address_owners a) prefix scan_count 0 = None ∧
    e = Exhausted (pool_name pool) family MAX_POOL_ALLOCATION_SCAN.
Proof.
  unfold allocate_family. generalize scan_count. intros count.
  destruct (pool_prefix pool family) as [prefix|]; simpl; [|intros [= <-]; by left].
  destruct (scan_candidates _ prefix count 0) eqn:Es; simpl; [done|]. intros [= <-]. right. by eauto.
Qed.

Lemma plan_exhausted a pool r name family limit :
  plan_addresses a pool r = Err (Exhausted name family limit) →
  name = pool_name pool ∧ limit = MAX_POOL_ALLOCATION_SCAN ∧ ∃ prefix, pool_prefix pool family = Some prefix ∧
    scan_candidates (lba_address_owners a) prefix scan_count 0 = None.
Proof.
  unfold plan_addresses. destruct (try_map _ (req_requested_ips r)) as [pairs|e] eqn:Epairs.
  2: { intros [= ->]. apply try_map_Err in Epairs as (x & _ & Hx).
       destruct (negb _); [done|]. by destruct (lba_address_owners a !! x). }
  cbn zeta. destruct (try_map _ (req_families r)) as [l|e] eqn:El; [done|]. intros [= ->].
  apply try_map_Err in El as (f & _ & Hf). destruct (_ !! f); [done|].
  apply allocate_family_Err in Hf as [?|(prefix & Hp & Hs & Heq)]; [done|].
  injection Heq as -> -> ->. by eauto.
Qed.

Lemma load_balancer_exhausted a r name family limit :
  pools_ok (lba_pools a) → allocate a r = Err (Exhausted name family limit) →
  ∃ pool prefix, lba_pools a !! name = Some pool ∧ pool_prefix pool family = Some prefix ∧
    ∀ i x, 0 ≤ i < limit → pool_candidate prefix i = Some x → is_Some (lba_address_owners a !! x).
Proof.
  intros Hpools. unfold allocate. destruct (validate_owner (req_owner r)) as [[]|e] eqn:Eo.
  2: { intros [= ->]. unfold validate_owner in Eo. by repeat case_match. }
  destruct (validate_allocation_request r) as [r'|e] eqn:Er.
  2: { intros [= ->]. unfold validate_allocation_request in Er. by repeat case_match. }
  destruct (lba_pools a !! req_pool r') as [pool|] eqn:Epool; [|done]. cbn [ok_or].
  destruct (lba_leases a !! req_owner r') as [existing|].
  { unfold replay. by repeat case_match. }
  destruct (plan_addresses a pool r') as [addresses|e] eqn:Ep; [done|]. intros [= ->].
  apply plan_exhausted in Ep as (-> & -> & prefix & Hprefix & Hscan).
  destruct (pk_pool _ Hpools _ _ Epool) as (Hname & Hvalid & Htyped). rewrite Hname.
  exists pool, prefix. split; [done|split; [done|]].
  intros i x Hi. eapply scan_candidates_None; [by apply (validate_pool_prefix pool)| |exact Hscan|]; [done|].
  by rewrite scan_count_limit, Z.add_0_l.
Qed.

(** C28. What an allocation grants.  A granted lease has exactly one address per requested
    family, among them every requested address, and is the lease its owner now has; an owner
    that had a lease keeps its addresses; no other lease changes.  An allocation reports a
    pool as exhausted only when every address it may scan is leased. *)
Theorem load_balancer_allocate_exact a r :
  allocator_reachable a →
  match allocate a r with
  | Ok (lease, a') =>
      lba_leases a' !! req_owner r = Some lease ∧
      map address_family (lease_addresses lease) = sort_by leb (req_families r) ∧
      (∀ x, x ∈ req_requested_ips r → x ∈ lease_addresses lease) ∧
      (∀ old, lba_leases a !! req_owner r = Some old → lease_addresses lease = lease_addresses old) ∧
      ∀ owner, owner ≠ req_owner r → lba_leases a' !! owner = lba_leases a !! owner
  | Err (Exhausted name family limit) =>
      ∃ pool prefix, lba_pools a !! name = Some pool ∧ pool_prefix pool family = Some prefix ∧
        ∀ i x, 0 ≤ i < limit → pool_candidate prefix i = Some x → is_Some (lba_address_owners a !! x)
  | Err _ => True
  end.
Proof.
  intros Hok%allocator_reachable_ok. destruct (allocate a r) as [[lease a']|e] eqn:Erun.
  - apply allocate_Ok in Erun as (_ & Hr & Halloc); [|apply Hok].
    assert (Hold : ∀ existing, lba_leases a !! req_owner r = Some existing →
      map address_family (lease_addresses existing) = lease_families existing ∧
      ∀ x, x ∈ lease_requested_ips existing → x ∈ lease_addresses existing).
    { intros existing Hl. destruct (ao_lease _ Hok _ _ Hl) as (_ & _ & _ & pool & _ & Hfits).
      by destruct (lf_addresses _ _ _ Hfits), (lf_requested _ _ _ Hfits) as (_ & _ & ?). }
    inversion Halloc as [pool addresses Hfresh Hpool Hplan|existing Hl Hf Hq|existing Hl Hf Hq]; subst; simpl in *.
    + rewrite lookup_insert_eq. split_and!; [done|apply (pl_families _ _ _ _ Hplan)| |congruence|].
      * intros x Hx. apply (pl_requested _ _ _ _ Hplan). simpl. by rewrite sort_by_perm.
      * intros owner Hne. by rewrite lookup_insert_ne.
    + destruct (Hold _ Hl) as [Hfam Hreq]. rewrite Hl, Hfam, <-Hf. split_and!; [done..| |congruence|done].
      intros x Hx. apply Hreq. rewrite Hq. by rewrite sort_by_perm.
    + destruct (Hold _ Hl) as [Hfam Hreq]. rewrite lookup_insert_eq, Hfam, <-Hf. split_and!; [done..| |congruence|].
      * intros x Hx. apply Hreq. rewrite Hq. by rewrite sort_by_perm.
      * intros owner Hne. by rewrite lookup_insert_ne.
  - destruct e; try done. apply load_balancer_exhausted in Erun; [done|apply Hok].
Qed.
