(* ===== verification/LoadBalancerDemo.v ===== *)
(** * An allocation

    A pool, two Services and the leases they get; the hypotheses of the theorems on the
    allocator hold of the run. *)

From S2P Require Import Prelude Common NetAddr LoadBalancer LoadBalancerFacts.

Definition demo_lb_provider : ReachabilityProviderRef :=
  {| provider_name := "direct-node"; provider_instance := "qualification-a"; provider_mode := DirectNode |}.

(** 192.0.2.0/29. *)
Definition demo_lb_pool : LoadBalancerPool :=
  {| pool_name := "public"; pool_uid := "pool-1"; pool_provider := demo_lb_provider;
     pool_ipv4 := Some {| sp_address := V4 3221225984; sp_prefix_length := 29 |}; pool_ipv6 := None |}.

Definition demo_lb_owner (name : string) : LoadBalancerOwner :=
  {| owner_service_id := 7; owner_namespace := "default"; owner_name := name; owner_uid := "uid-1" |}.

Definition demo_lb_request (name : string) (requested : list IpAddr) : AllocationRequest :=
  {| req_owner := demo_lb_owner name; req_pool := "public"; req_families := [Ipv4];
     req_requested_ips := requested; req_intent_epoch := 1; req_intent_revision := 1 |}.

Definition demo_lb_empty : LoadBalancerAllocator :=
  match LoadBalancerAllocator_new [demo_lb_pool] with
  | Ok a => a
  | Err _ => {| lba_pools := ∅; lba_leases := ∅; lba_address_owners := ∅; lba_revision := 0 |}
  end.

Definition demo_lb_grant (a : LoadBalancerAllocator) (r : AllocationRequest) : LoadBalancerAllocator :=
  match allocate a r with Ok (_, a') => a' | Err _ => a end.

(** One Service takes 192.0.2.1 by name, the other the next free address. *)
Definition demo_lb : LoadBalancerAllocator :=
  demo_lb_grant (demo_lb_grant demo_lb_empty (demo_lb_request "api" [V4 3221225985]))
    (demo_lb_request "web" []).

Lemma demo_lb_grant_reachable a r : allocator_reachable a → allocator_reachable (demo_lb_grant a r).
Proof.
  intros Ha. unfold demo_lb_grant. destruct (allocate a r) as [[lease a']|] eqn:E; [|done].
  by eapply reached_allocate.
Qed.

Lemma demo_lb_reachable : allocator_reachable demo_lb.
Proof.
  apply demo_lb_grant_reachable, demo_lb_grant_reachable. unfold demo_lb_empty.
  destruct (LoadBalancerAllocator_new [demo_lb_pool]) as [a|] eqn:E; [|by vm_compute in E].
  apply (reached_new [demo_lb_pool]); [|done]. apply Forall_singleton. intros [] p [= <-]. simpl. unfold in_width. lia.
Qed.

(** ** Witnesses *)

Definition demo_lb_lease : LoadBalancerLease :=
  {| lease_owner := demo_lb_owner "web"; lease_pool := "public"; lease_pool_uid := "pool-1";
     lease_provider := demo_lb_provider; lease_families := [Ipv4]; lease_requested_ips := [];
     lease_addresses := [V4 3221225986]; lease_intent_epoch := 1; lease_intent_revision := 1;
     lease_allocation_revision := 2 |}.

Lemma demo_lb_web : lba_leases demo_lb !! demo_lb_owner "web" = Some demo_lb_lease.
Proof. vm_compute. reflexivity. Qed.

Lemma load_balancer_leases_exclusive_witness :
  lba_address_owners demo_lb !! V4 3221225986 = Some (demo_lb_owner "web").
Proof.
  destruct (load_balancer_leases_exclusive demo_lb demo_lb_reachable) as [Hleases _].
  destruct (Hleases (demo_lb_owner "web") demo_lb_lease (V4 3221225986) demo_lb_web) as [Howner _].
  - apply list_elem_of_here.
  - exact Howner.
Defined.

Lemma load_balancer_checkpoint_round_trip_witness : restore (checkpoint demo_lb) = Ok demo_lb.
Proof.
  apply (load_balancer_checkpoint_round_trip demo_lb demo_lb_reachable). by vm_compute.
Defined.

Lemma load_balancer_allocate_exact_witness :
  match allocate demo_lb (demo_lb_request "db" [V4 3221225989]) with
  | Ok (lease, _) => V4 3221225989 ∈ lease_addresses lease
  | Err _ => False
  end.
Proof.
  pose proof (load_balancer_allocate_exact demo_lb (demo_lb_request "db" [V4 3221225989])
    demo_lb_reachable) as Hexact.
  assert (Hok : is_ok (allocate demo_lb (demo_lb_request "db" [V4 3221225989])) = true) by (vm_compute; reflexivity).
  destruct (allocate demo_lb (demo_lb_request "db" [V4 3221225989])) as [[lease a']|]; [|done].
  destruct Hexact as (_ & _ & Hrequested & _). apply Hrequested. by left.
Defined.
